(** * tokenTransformer: colour utilities, token registry and pattern matchers

    A shallow embedding of the TypeScript sources
    [src/utils/colorUtils.ts], [src/core/types.ts], [src/core/TokenRegistry.ts],
    [src/matchers/types.ts], [src/matchers/TailwindClassMatcher.ts] and
    [src/matchers/InlineStyleMatcher.ts], with the properties the
    specification states about them.

    Conventions of the model:
    - a JavaScript string is a [string]; its code units are the 256 values
      of [ascii] (texts in the Latin-1 range);
    - a JavaScript number is a binary64 [float]; offsets into strings are
      [nat], or [Z] where the source computes them from [indexOf];
    - regular expressions are written as the pattern text of the source and
      parsed by [Regex.parse]; matching is the backtracking semantics of
      ECMAScript;
    - a computation that can throw or loop returns an [outcome]. *)

From Stdlib Require Import ZArith String Ascii List Bool Lia Sorted.
From Stdlib Require Import PrimFloat FloatOps SpecFloat FloatAxioms.
From stdpp Require Import gmap strings list.

Open Scope string_scope.
Open Scope list_scope.
Open Scope nat_scope.

(** ** Outcomes of effectful code *)

Inductive error :=
| JsError (msg : string)      (* [throw new Error(msg)] *)
| TypeError                   (* a property read on [undefined] *)
| SyntaxError.                (* a regular expression that does not parse *)

Inductive outcome (A : Type) :=
| Ok (a : A)
| Throw (e : error)
| Diverge.                    (* a [while (exec)] loop that never ends *)
Arguments Ok {A} a.
Arguments Throw {A} e.
Arguments Diverge {A}.

Definition obind {A B} (x : outcome A) (f : A -> outcome B) : outcome B :=
  match x with
  | Ok a => f a
  | Throw e => Throw e
  | Diverge => Diverge
  end.

Definition outcome_map {A B} (f : A -> B) (x : outcome A) : outcome B :=
  match x with
  | Ok a => Ok (f a)
  | Throw e => Throw e
  | Diverge => Diverge
  end.

Notation "'let!' x ':=' c 'in' k" := (obind c (fun x => k))
  (at level 10, x pattern, c at level 100, k at level 200).

(** ** JavaScript strings *)

Module JS.

Definition dq : string := String "034" "".      (* the double quote *)
Definition nl : string := String "010" "".      (* line feed *)

Definition code (c : ascii) : N := N_of_ascii c.

Definition in_range (lo hi c : ascii) : bool :=
  ((code lo <=? code c) && (code c <=? code hi))%N.

(** [\s]: white space and line terminators, below 256. *)
Definition is_space (c : ascii) : bool :=
  let n := code c in
  ((9 <=? n) && (n <=? 13) || (n =? 32) || (n =? 160))%N.

Definition is_digit (c : ascii) : bool := in_range "0" "9" c.

Definition is_word (c : ascii) : bool :=
  in_range "a" "z" c || in_range "A" "Z" c || is_digit c || Ascii.eqb c "_".

(** Line terminators, which [.] does not match without the [s] flag. *)
Definition is_line_terminator (c : ascii) : bool :=
  ((code c =? 10) || (code c =? 13))%N.

Definition len (s : string) : nat := String.length s.

Fixpoint drop (n : nat) (s : string) : string :=
  match n, s with
  | S n', String _ s' => drop n' s'
  | _, _ => s
  end.

Fixpoint take (n : nat) (s : string) : string :=
  match n, s with
  | S n', String c s' => String c (take n' s')
  | _, _ => ""
  end.

(** [s.substring(a, b)] for offsets that are already ordered naturals. *)
Definition sub (a b : nat) (s : string) : string := take (b - a) (drop a s).

(** [s.substring(a, b)]: arguments are clamped to [0, length] and swapped
    when [a > b]. *)
Definition substring (a b : Z) (s : string) : string :=
  let clamp x := Z.to_nat (Z.min (Z.max 0 x) (Z.of_nat (len s))) in
  let a' := clamp a in
  let b' := clamp b in
  sub (Nat.min a' b') (Nat.max a' b') s.

(** [s.slice(a, b)]: negative arguments count from the end. *)
Definition slice (a b : Z) (s : string) : string :=
  let n := Z.of_nat (len s) in
  let norm x := Z.to_nat (if (x <? 0)%Z then Z.max 0 (n + x) else Z.min x n) in
  sub (norm a) (norm b) s.

Fixpoint startsWith (p s : string) : bool :=
  match p, s with
  | "", _ => true
  | String a p', String b s' => Ascii.eqb a b && startsWith p' s'
  | _, _ => false
  end.

Definition endsWith (p s : string) : bool :=
  (len p <=? len s) && String.eqb (drop (len s - len p) s) p.

(** Offset of the first occurrence of [p] in [s] at or after the current
    position [i], which advances with the recursion. *)
Fixpoint find_from (p : string) (i : nat) (s : string) : option nat :=
  if startsWith p s then Some i
  else match s with
       | "" => None
       | String _ s' => find_from p (S i) s'
       end.

(** [s.indexOf(p, from)]. *)
Definition indexOf (p s : string) (from : Z) : Z :=
  let k := Z.to_nat (Z.min (Z.max 0 from) (Z.of_nat (len s))) in
  match find_from p k (drop k s) with
  | Some i => Z.of_nat i
  | None => (-1)%Z
  end.

Definition includes (p s : string) : bool :=
  match find_from p 0 s with Some _ => true | None => false end.

(** Offset of the last occurrence of [p] that starts at or before [upto]. *)
Fixpoint find_last (p : string) (i : nat) (upto : nat) (s : string)
  (acc : option nat) : option nat :=
  let acc' := if (i <=? upto) && startsWith p s then Some i else acc in
  match s with
  | "" => acc'
  | String _ s' => find_last p (S i) upto s' acc'
  end.

(** [s.lastIndexOf(p, from)]; a negative [from] is treated as 0. *)
Definition lastIndexOf (p s : string) (from : Z) : Z :=
  match find_last p 0 (Z.to_nat (Z.max 0 from)) s None with
  | Some i => Z.of_nat i
  | None => (-1)%Z
  end.

Fixpoint trimStart (s : string) : string :=
  match s with
  | String c s' => if is_space c then trimStart s' else s
  | "" => ""
  end.

Fixpoint trimEnd (s : string) : string :=
  match s with
  | "" => ""
  | String c s' =>
      match trimEnd s' with
      | "" => if is_space c then "" else String c ""
      | t => String c t
      end
  end.

Definition trim (s : string) : string := trimEnd (trimStart s).

(** [toLowerCase] on code units below 256: A-Z and the Latin-1 capitals. *)
Definition lower_char (c : ascii) : ascii :=
  let n := code c in
  if ((65 <=? n) && (n <=? 90)
      || (192 <=? n) && (n <=? 222) && negb (n =? 215))%N
  then ascii_of_N (n + 32) else c.

Fixpoint toLowerCase (s : string) : string :=
  match s with
  | "" => ""
  | String c s' => String (lower_char c) (toLowerCase s')
  end.

(** [s.replace(p, r)] with a string pattern: the first occurrence only. *)
Definition replace_str (p r s : string) : string :=
  match find_from p 0 s with
  | Some i => take i s +:+ r +:+ drop (i + len p) s
  | None => s
  end.

(** [s.split(c)] for a one-character separator. *)
Fixpoint split_char (c : ascii) (s : string) : list string :=
  match s with
  | "" => [""]
  | String a s' =>
      match split_char c s' with
      | [] => [String a ""]       (* not reached: the result is never empty *)
      | w :: ws => if Ascii.eqb a c then "" :: w :: ws else String a w :: ws
      end
  end.

(** [l.join(sep)]. *)
Fixpoint join (sep : string) (l : list string) : string :=
  match l with
  | [] => ""
  | [x] => x
  | x :: xs => x +:+ sep +:+ join sep xs
  end.

(** [a || b] on values that are a string or [undefined]: the empty string
    and [undefined] are both falsy. *)
Definition or_else (a b : option string) : option string :=
  match a with
  | Some "" | None => b
  | Some _ => a
  end.

End JS.

(** ** Regular expressions *)

(** The fragment of the regular expressions of the language that the
    patterns of the sources use: characters and classes, sequence and
    alternation, greedy and lazy quantifiers, capturing and non-capturing
    groups, negative lookahead, [\b], [^] and [$]. None of the patterns has
    a backreference or a named group, and the syntax tree has none. *)

Module Regex.
Import JS.

(** An element of a character class. *)
Inductive citem :=
| CRange (lo hi : ascii)      (* [a] is [CRange a a] *)
| CSpace                      (* \s *)
| CDigit                      (* \d *)
| CWord.                      (* \w *)

Inductive regex :=
| REmpty
| RChar (c : ascii)
| RAny                                        (* . *)
| RClass (neg : bool) (items : list citem)    (* [...], [^...], \s, \d, \w *)
| RSeq (r1 r2 : regex)
| RAlt (r1 r2 : regex)
| RQuant (min : nat) (max : option nat) (greedy : bool) (r : regex)
| RGroup (i : nat) (r : regex)                (* the i-th capturing group *)
| RNLook (r : regex)                          (* (?!...) *)
| RWordB                                      (* \b *)
| RBol                                        (* ^ *)
| REol.                                       (* $ *)

(** *** Parsing the pattern text *)

Inductive perr :=
| PUnmatchedClose         (* Unmatched ')' *)
| PUnterminatedGroup
| PUnterminatedClass
| PNothingToRepeat
| PTrailingBackslash
| PFuel.

Definition presult : Type := perr + (regex * string * nat).

Fixpoint parse_nat (s : string) (acc : option nat) : option nat * string :=
  match s with
  | String c s' =>
      if is_digit c
      then parse_nat s' (Some (10 * default 0 acc + (N.to_nat (code c) - 48)))
      else (acc, s)
  | "" => (acc, s)
  end.

(** A braced quantifier at the head of [s]: [{n}], [{n,}] or [{n,m}]. *)
Definition parse_braces (s : string) : option (nat * option nat * string) :=
  match s with
  | String "{" s1 =>
      match parse_nat s1 None with
      | (Some n, String "}" s2) => Some (n, Some n, s2)
      | (Some n, String "," s2) =>
          match parse_nat s2 None with
          | (None, String "}" s3) => Some (n, None, s3)
          | (Some m, String "}" s3) => Some (n, Some m, s3)
          | _ => None
          end
      | _ => None
      end
  | _ => None
  end.

(** The quantifier, if any, that follows the atom [r]. *)
Definition parse_quant (r : regex) (s : string) : regex * string :=
  let lazy (s : string) : bool * string :=
    match s with String "?" s' => (false, s') | _ => (true, s) end in
  match s with
  | String "*" s1 => let '(g, s2) := lazy s1 in (RQuant 0 None g r, s2)
  | String "+" s1 => let '(g, s2) := lazy s1 in (RQuant 1 None g r, s2)
  | String "?" s1 => let '(g, s2) := lazy s1 in (RQuant 0 (Some 1) g r, s2)
  | _ =>
      match parse_braces s with
      | Some (n, m, s1) => let '(g, s2) := lazy s1 in (RQuant n m g r, s2)
      | None => (r, s)
      end
  end.

(** A character or class escape after the backslash. *)
Definition escape_item (c : ascii) : citem :=
  if Ascii.eqb c "s" then CSpace
  else if Ascii.eqb c "d" then CDigit
  else if Ascii.eqb c "w" then CWord
  else if Ascii.eqb c "n" then CRange "010" "010"
  else if Ascii.eqb c "r" then CRange "013" "013"
  else if Ascii.eqb c "t" then CRange "009" "009"
  else CRange c c.

(** The items of a class up to the closing bracket. *)
Fixpoint parse_class (fuel : nat) (s : string) (acc : list citem)
  : option (list citem * string) :=
  match fuel with
  | 0 => None
  | S f =>
      match s with
      | "" => None
      | String "]" s' => Some (rev acc, s')
      | String c s1 =>
          let '(it, s2) :=
            match Ascii.eqb c "\", s1 with
            | true, String e s1' => (escape_item e, s1')
            | _, _ => (CRange c c, s1)
            end in
          match it, s2 with
          | CRange lo _, String "-" (String h s3) =>
              if Ascii.eqb h "]" then parse_class f s2 (it :: acc)
              else if Ascii.eqb h "\" then
                match s3 with
                | String e s4 =>
                    match escape_item e with
                    | CRange hi _ => parse_class f s4 (CRange lo hi :: acc)
                    | other => parse_class f s4 (other :: CRange "-" "-" :: it :: acc)
                    end
                | "" => None
                end
              else parse_class f s3 (CRange lo h :: acc)
          | _, _ => parse_class f s2 (it :: acc)
          end
      end
  end.

Definition one (it : citem) : regex := RClass false [it].

(** Recursive descent over Disjunction / Alternative / Term; [n] is the
    number of capturing groups opened so far. *)
Fixpoint parse_disj (fuel : nat) (s : string) (n : nat) {struct fuel} : presult :=
  match fuel with
  | 0 => inl PFuel
  | S f =>
      match parse_alt f s n with
      | inl e => inl e
      | inr (r1, String "|" s2, n1) =>
          match parse_disj f s2 n1 with
          | inl e => inl e
          | inr (r2, s3, n3) => inr (RAlt r1 r2, s3, n3)
          end
      | inr res => inr res
      end
  end
with parse_alt (fuel : nat) (s : string) (n : nat) {struct fuel} : presult :=
  match fuel with
  | 0 => inl PFuel
  | S f =>
      match s with
      | "" | String "|" _ | String ")" _ => inr (REmpty, s, n)
      | _ =>
          match parse_term f s n with
          | inl e => inl e
          | inr (r1, s1, n1) =>
              match parse_alt f s1 n1 with
              | inl e => inl e
              | inr (REmpty, s2, n2) => inr (r1, s2, n2)
              | inr (r2, s2, n2) => inr (RSeq r1 r2, s2, n2)
              end
          end
      end
  end
with parse_term (fuel : nat) (s : string) (n : nat) {struct fuel} : presult :=
  let quantified (r : regex) (s' : string) (n' : nat) : presult :=
    let '(r', s'') := parse_quant r s' in inr (r', s'', n') in
  let group (wrap : regex -> regex) (body : string) (n' : nat) (f : nat) : presult :=
    match parse_disj f body n' with
    | inl e => inl e
    | inr (r, String ")" s', n'') => quantified (wrap r) s' n''
    | inr _ => inl PUnterminatedGroup
    end in
  match fuel with
  | 0 => inl PFuel
  | S f =>
      match s with
      | "" => inr (REmpty, s, n)
      | String "^" s1 => inr (RBol, s1, n)
      | String "$" s1 => inr (REol, s1, n)
      | String "(" (String "?" (String ":" s1)) => group (fun r => r) s1 n f
      | String "(" (String "?" (String "!" s1)) => group RNLook s1 n f
      | String "(" s1 => group (RGroup (S n)) s1 (S n) f
      | String "[" (String "^" s1) =>
          match parse_class (S (len s1)) s1 [] with
          | Some (items, s2) => quantified (RClass true items) s2 n
          | None => inl PUnterminatedClass
          end
      | String "[" s1 =>
          match parse_class (S (len s1)) s1 [] with
          | Some (items, s2) => quantified (RClass false items) s2 n
          | None => inl PUnterminatedClass
          end
      | String "\" "" => inl PTrailingBackslash
      | String "\" (String "b" s1) => inr (RWordB, s1, n)
      | String "\" (String c s1) =>
          match escape_item c with
          | CRange lo _ => quantified (RChar lo) s1 n
          | it => quantified (one it) s1 n
          end
      | String "." s1 => quantified RAny s1 n
      | String "*" _ | String "+" _ | String "?" _ => inl PNothingToRepeat
      | String c s1 =>
          if Ascii.eqb c "{" && bool_decide (is_Some (parse_braces s))
          then inl PNothingToRepeat
          else quantified (RChar c) s1 n
      end
  end.

(** The pattern as a whole: what is left after the outermost disjunction
    can only be a closing parenthesis without its opening one. *)
Definition parse (pattern : string) : perr + regex :=
  match parse_disj (3 * len pattern + 3) pattern 0 with
  | inl e => inl e
  | inr (r, "", _) => inr r
  | inr (_, _, _) => inl PUnmatchedClose
  end.

(** *** Matching *)

(** Captures: group number, start and end offset; the most recent first. *)
Definition captures := list (nat * (nat * nat)).

Record mstate := MState {
  pos : nat;                 (* offset of [rest] in the subject *)
  prev : option ascii;       (* the code unit before [pos] *)
  rest : string;
  caps : captures
}.

Definition advance (st : mstate) : option (ascii * mstate) :=
  match rest st with
  | "" => None
  | String c s' => Some (c, MState (S (pos st)) (Some c) s' (caps st))
  end.

Definition item_matches (c : ascii) (it : citem) : bool :=
  match it with
  | CRange lo hi => in_range lo hi c
  | CSpace => is_space c
  | CDigit => is_digit c
  | CWord => is_word c
  end.

Definition class_matches (neg : bool) (items : list citem) (c : ascii) : bool :=
  xorb neg (existsb (item_matches c) items).

Fixpoint groups (r : regex) : list nat :=
  match r with
  | RSeq a b | RAlt a b => groups a ++ groups b
  | RQuant _ _ _ a | RNLook a => groups a
  | RGroup i a => i :: groups a
  | _ => []
  end.

Definition clear_caps (gs : list nat) (st : mstate) : mstate :=
  MState (pos st) (prev st) (rest st)
    (List.filter (fun c => negb (existsb (Nat.eqb (fst c)) gs)) (caps st)).

Definition set_cap (i a b : nat) (st : mstate) : mstate :=
  MState (pos st) (prev st) (rest st) ((i, (a, b)) :: caps st).

Definition word_before (st : mstate) : bool :=
  match prev st with Some c => is_word c | None => false end.

Definition word_after (st : mstate) : bool :=
  match rest st with String c _ => is_word c | "" => false end.

Section Matcher.
Variable dotall : bool.    (* the [s] flag *)

(** RepeatMatcher: [m] matches the quantified atom, whose capturing
    groups [gs] are reset at each iteration; an iteration that is not
    required and consumes nothing is rejected. [fuel] bounds the number of
    iterations: [min] required ones and one per code unit left. *)
Fixpoint repeat_loop (m : mstate -> (mstate -> option mstate) -> option mstate)
  (gs : list nat) (greedy : bool) (k : mstate -> option mstate)
  (fuel mn : nat) (mx : option nat) (st : mstate) {struct fuel}
  : option mstate :=
  match fuel with
  | 0 => None
  | S fuel' =>
      match mx with
      | Some 0 => k st
      | _ =>
          let again (y : mstate) :=
            if (mn =? 0) && (pos y =? pos st) then None
            else repeat_loop m gs greedy k fuel' (Nat.pred mn)
                   (Nat.pred <$> mx) y in
          let xr := clear_caps gs st in
          if negb (mn =? 0) then m xr again
          else if greedy then
            match m xr again with
            | Some res => Some res
            | None => k st
            end
          else
            match k st with
            | Some res => Some res
            | None => m xr again
            end
      end
  end.

(** The backtracking matcher, in continuation-passing style as in the
    ECMAScript specification: [rmatch r st k] matches [r] at [st] and
    passes each candidate end state to [k] until [k] accepts one. *)
Fixpoint rmatch (r : regex) (st : mstate) (k : mstate -> option mstate)
  {struct r} : option mstate :=
  let single (p : ascii -> bool) :=
    match advance st with
    | Some (c, st') => if p c then k st' else None
    | None => None
    end in
  match r with
  | REmpty => k st
  | RChar c => single (Ascii.eqb c)
  | RAny => single (fun c => dotall || negb (is_line_terminator c))
  | RClass neg items => single (class_matches neg items)
  | RSeq r1 r2 => rmatch r1 st (fun st1 => rmatch r2 st1 k)
  | RAlt r1 r2 =>
      match rmatch r1 st k with
      | Some res => Some res
      | None => rmatch r2 st k
      end
  | RQuant mn mx greedy r1 =>
      repeat_loop (rmatch r1) (groups r1) greedy k
        (mn + S (len (rest st))) mn mx st
  | RGroup i r1 =>
      rmatch r1 st (fun st1 => k (set_cap i (pos st) (pos st1) st1))
  | RNLook r1 =>
      match rmatch r1 st Some with
      | Some _ => None
      | None => k st
      end
  | RWordB => if xorb (word_before st) (word_after st) then k st else None
  | RBol => if pos st =? 0 then k st else None
  | REol => match rest st with "" => k st | _ => None end
  end.

(** A successful match: offsets of its start and end, and the captures. *)
Record rmatched := RMatched {
  m_index : nat;
  m_end : nat;
  m_caps : captures
}.

(** The first position at or after [skip] code units further on where
    [r] matches, scanning left to right. *)
Fixpoint search (r : regex) (skip p : nat) (pv : option ascii) (s : string)
  {struct s} : option rmatched :=
  let here :=
    match skip with
    | 0 => rmatch r (MState p pv s []) Some
    | S _ => None
    end in
  match here with
  | Some st => Some (RMatched p (pos st) (caps st))
  | None =>
      match s with
      | "" => None
      | String c s' => search r (Nat.pred skip) (S p) (Some c) s'
      end
  end.

(** [re.exec(s)] with [re.lastIndex = lastIndex]. *)
Definition exec (r : regex) (s : string) (lastIndex : nat) : option rmatched :=
  search r lastIndex 0 None s.

(** [re.test(s)] and [s.match(re)] for a regular expression without the
    [g] flag start at offset 0. *)
Definition test (r : regex) (s : string) : bool :=
  match exec r s 0 with Some _ => true | None => false end.

(** The results of [while ((m = re.exec(s)) !== null)] for a global
    regular expression whose [lastIndex] is 0: [exec] leaves [lastIndex]
    at the end of the match, so a match of the empty string is found
    again and again and the loop never ends ([None]). *)
Fixpoint exec_loop (fuel : nat) (r : regex) (s : string) (lastIndex : nat)
  : option (list rmatched) :=
  match fuel with
  | 0 => None
  | S f =>
      match exec r s lastIndex with
      | None => Some []
      | Some m =>
          if m_end m =? m_index m then None
          else cons m <$> exec_loop f r s (m_end m)
      end
  end.

Definition exec_all (r : regex) (s : string) : option (list rmatched) :=
  exec_loop (S (len s)) r s 0.

(** The matches a global [replace] works on: after an empty match the
    search resumes one code unit further (AdvanceStringIndex). *)
Fixpoint match_loop (fuel : nat) (r : regex) (s : string) (lastIndex : nat)
  : list rmatched :=
  match fuel with
  | 0 => []
  | S f =>
      match exec r s lastIndex with
      | None => []
      | Some m =>
          m :: match_loop f r s
                 (if m_end m =? m_index m then S (m_end m) else m_end m)
      end
  end.

(** [s.replace(re, by)] for a global [re] and a replacement text without
    [$] patterns. *)
Fixpoint splice (ms : list rmatched) (from : nat) (s by_ : string) : string :=
  match ms with
  | [] => drop from s
  | m :: ms' => sub from (m_index m) s +:+ by_ +:+ splice ms' (m_end m) s by_
  end.

Definition replace_all (r : regex) (by_ s : string) : string :=
  splice (match_loop (S (len s)) r s 0) 0 s by_.

(** [s.replace(re, by)] for a [re] without the [g] flag. *)
Definition replace_first (r : regex) (by_ s : string) : string :=
  match exec r s 0 with
  | Some m => take (m_index m) s +:+ by_ +:+ drop (m_end m) s
  | None => s
  end.

(** [s.split(re)] for a [re] without capturing groups: at each offset [q]
    the separator has to match exactly there; an empty match at the end
    of the previous piece is skipped. *)
Fixpoint split_loop (fuel : nat) (r : regex) (s : string) (p q : nat)
  : list string :=
  match fuel with
  | 0 => [sub p (len s) s]
  | S f =>
      if len s <=? q then [sub p (len s) s]
      else
        let pv := match q with 0 => None | S q' => String.get q' s end in
        match rmatch r (MState q pv (drop q s) []) Some with
        | None => split_loop f r s p (S q)
        | Some st =>
            let e := Nat.min (pos st) (len s) in
            if e =? p then split_loop f r s p (S q)
            else sub p q s :: split_loop f r s e e
        end
  end.

Definition split (r : regex) (s : string) : list string :=
  match s with
  | "" => match rmatch r (MState 0 None "" []) Some with
          | Some _ => []
          | None => [""]
          end
  | _ => split_loop (S (len s)) r s 0 0
  end.

End Matcher.

(** The text of capture [i] of a match, [None] for [undefined]. *)
Definition capture (s : string) (m : rmatched) (i : nat) : option string :=
  match List.find (fun c => fst c =? i) (m_caps m) with
  | Some (_, (a, b)) => Some (sub a b s)
  | None => None
  end.

(** [m[0]]. *)
Definition matched (s : string) (m : rmatched) : string :=
  sub (m_index m) (m_end m) s.

End Regex.

(** A regular expression literal (or [new RegExp(text)]): its pattern text
    has to parse. *)
Definition regexp (pattern : string) : outcome Regex.regex :=
  match Regex.parse pattern with
  | inr r => Ok r
  | inl _ => Throw SyntaxError
  end.

(** A [while ((m = re.exec(s)) !== null)] loop over a global [re]. *)
Definition exec_while (dotall : bool) (r : Regex.regex) (s : string)
  : outcome (list Regex.rmatched) :=
  match Regex.exec_all dotall r s with
  | Some ms => Ok ms
  | None => Diverge
  end.

(** ** What the matcher computes, read declaratively *)

Module RegexSpec.
Import JS Regex.

(** Zero or more successive matches of a quantified atom. *)
Inductive iter (P : mstate -> mstate -> Prop) (gs : list nat)
  : mstate -> mstate -> Prop :=
| iter_done st : iter P gs st st
| iter_step st y st' :
    P (clear_caps gs st) y -> iter P gs y st' -> iter P gs st st'.

(** [Matches r st st']: [r] can match from the state [st] to the state
    [st']; which of the candidates the matcher takes is left open. *)
Fixpoint Matches (r : regex) (st st' : mstate) : Prop :=
  match r with
  | REmpty | RNLook _ | RWordB | RBol | REol => st' = st
  | RChar _ | RAny | RClass _ _ => exists c, advance st = Some (c, st')
  | RSeq r1 r2 => exists mid, Matches r1 st mid /\ Matches r2 mid st'
  | RAlt r1 r2 => Matches r1 st st' \/ Matches r2 st st'
  | RQuant _ _ _ r1 => iter (Matches r1) (groups r1) st st'
  | RGroup i r1 =>
      exists st1, Matches r1 st st1 /\ st' = set_cap i (pos st) (pos st1) st1
  end.

(** A pattern that consumes at least one code unit whenever it matches. *)
Fixpoint nonempty (r : regex) : bool :=
  match r with
  | RChar _ | RAny | RClass _ _ => true
  | RSeq r1 r2 => nonempty r1 || nonempty r2
  | RAlt r1 r2 => nonempty r1 && nonempty r2
  | RGroup _ r1 => nonempty r1
  | _ => false
  end.

(** [st'] lies further on in the same subject as [st], and the captures
    it has beyond those of [st] lie between the two. *)
Definition within (st st' : mstate) : Prop :=
  pos st <= pos st'
  /\ pos st' + len (rest st') = pos st + len (rest st)
  /\ forall i a b, In (i, (a, b)) (caps st') ->
       In (i, (a, b)) (caps st) \/ (pos st <= a /\ a <= b /\ b <= pos st').

(** A matcher in continuation-passing style is sound for [P] when each of
    its results is a result of its continuation at a state that [P] allows. *)
Definition sound (m : mstate -> (mstate -> option mstate) -> option mstate)
  (P : mstate -> mstate -> Prop) : Prop :=
  forall st k res, m st k = Some res -> exists st', P st st' /\ k st' = Some res.

Section Exec.
Variable dotall : bool.

(** What [exec] guarantees about a match [m] found from [lastIndex] on. *)
Record exec_spec (r : regex) (s : string) (lastIndex : nat) (m : rmatched)
  : Prop := {
  ex_from : lastIndex <= m_index m;
  ex_order : m_index m <= m_end m;
  ex_end : m_end m <= len s;
  ex_caps : forall i a b, In (i, (a, b)) (m_caps m) ->
              m_index m <= a /\ a <= b /\ b <= m_end m;
  ex_nonempty : nonempty r = true -> m_index m < m_end m
}.

(** The matches a [while (exec)] loop visits from [lastIndex] on: each is
    the result of [exec] from the end of the one before, and none is empty. *)
Fixpoint chain (r : regex) (s : string) (lastIndex : nat) (ms : list rmatched)
  : Prop :=
  match ms with
  | [] => True
  | m :: ms' =>
      exec dotall r s lastIndex = Some m /\ m_index m < m_end m
      /\ chain r s (m_end m) ms'
  end.

End Exec.
End RegexSpec.

(** ** src/matchers/types.ts *)

Module MatcherTypes.
Import JS.

Inductive MatchType := color | spacing | borderRadius | shadow | typography.

Inductive Scope := style | className | prop | styledComponent.

#[export] Instance MatchType_eq_dec : EqDecision MatchType.
Proof. solve_decision. Defined.
#[export] Instance Scope_eq_dec : EqDecision Scope.
Proof. solve_decision. Defined.

(** [CSS_PROPERTY_CATEGORIES]. *)
Definition CSS_PROPERTY_CATEGORIES : list (string * MatchType) :=
  [ ("color", color); ("backgroundColor", color); ("borderColor", color);
    ("fill", color); ("stroke", color); ("outlineColor", color);
    ("background", color);
    ("margin", spacing); ("marginTop", spacing); ("marginRight", spacing);
    ("marginBottom", spacing); ("marginLeft", spacing);
    ("padding", spacing); ("paddingTop", spacing); ("paddingRight", spacing);
    ("paddingBottom", spacing); ("paddingLeft", spacing);
    ("gap", spacing); ("columnGap", spacing); ("rowGap", spacing);
    ("borderRadius", borderRadius); ("borderTopLeftRadius", borderRadius);
    ("borderTopRightRadius", borderRadius);
    ("borderBottomLeftRadius", borderRadius);
    ("borderBottomRightRadius", borderRadius);
    ("boxShadow", shadow); ("textShadow", shadow); ("filter", shadow);
    ("fontSize", typography); ("fontWeight", typography);
    ("lineHeight", typography); ("letterSpacing", typography);
    ("fontFamily", typography) ].

(** The value of key [k] in an object literal with the given entries: when
    a key is written more than once, the last entry is the one that counts.
    The properties inherited from [Object.prototype] are not entries: in
    [TAILWIND_PREFIX_MAP] the looked-up key contains a hyphen, which none of
    them does, and in [CSS_PROPERTY_CATEGORIES] an inherited value is no
    member of [types], so the loop skips the property as for an absent key. *)
Fixpoint object_get {A} (entries : list (string * A)) (k : string) : option A :=
  match entries with
  | [] => None
  | (k', v) :: rest =>
      match object_get rest k with
      | Some v' => Some v'
      | None => if String.eqb k' k then Some v else None
      end
  end.

Record MatchLocation := {
  start : Z;
  end_ : Z;
  line : Z;
  column : Z
}.

Record MatchContext := {
  ctx_line : string;
  element : option string
}.

(** [MatchResult]; the optional [metadata] is never set by the matchers. *)
Record MatchResult := {
  type : MatchType;
  value : string;
  property : string;
  scope : Scope;
  context : MatchContext;
  location : MatchLocation;
  path : option (list string)
}.

(** [MatcherOptions]; custom patterns are given by their pattern text. *)
Record MatcherOptions := {
  types : option (list MatchType);
  includeContext : option bool;
  scopeLimit : option (list Scope);
  customPatterns : option (list string)
}.

Definition no_options : MatcherOptions :=
  {| types := None; includeContext := None; scopeLimit := None;
     customPatterns := None |}.

Definition all_types : list MatchType :=
  [color; spacing; borderRadius; shadow; typography].

(** The offsets at which the records of a list say their values start. *)
Definition starts (rs : list MatchResult) : list Z :=
  (fun r => start (location r)) <$> rs.

(** Category, value, property and scope of a record. *)
Definition brief (r : MatchResult) : MatchType * string * string * Scope :=
  (type r, value r, property r, scope r).

Definition getLineAndColumn (source : string) (index : Z) : Z * Z :=
  if ((index <? 0) || (Z.of_nat (len source) <? index))%Z then (0, 0)%Z
  else
    let lines := split_char "010" (substring 0 index source) in
    (Z.of_nat (length lines),
     Z.of_nat (len (List.last lines "")) + 1)%Z.

Definition createMatchLocation (source : string) (start_ end' : Z)
  : MatchLocation :=
  let '(l, c) := getLineAndColumn source start_ in
  {| start := start_; end_ := end'; line := l; column := c |}.

Definition getFullLine (source : string) (index : Z) : string :=
  let lineStart := (lastIndexOf nl source (index - 1) + 1)%Z in
  let lineEnd := indexOf nl source index in
  substring lineStart
    (if (lineEnd =? -1)%Z then Z.of_nat (len source) else lineEnd) source.

Definition getContext (source : string) (start_ end' : Z) (contextSize : Z)
  : string :=
  let contextStart := Z.max 0 (start_ - contextSize) in
  let contextEnd := Z.min (Z.of_nat (len source)) (end' + contextSize) in
  substring contextStart contextEnd source.

End MatcherTypes.

(** ** src/matchers/TailwindClassMatcher.ts *)

Module TailwindClassMatcher.
Import JS Regex MatcherTypes.

(** [TAILWIND_PREFIX_MAP], entry by entry as the object literal lists them;
    the key "text-" is written twice. *)
Definition TAILWIND_PREFIX_MAP : list (string * (string * MatchType)) :=
  [ ("bg-", ("backgroundColor", color));
    ("text-", ("color", color));
    ("border-", ("borderColor", color));
    ("border-t-", ("borderTopColor", color));
    ("border-b-", ("borderBottomColor", color));
    ("border-l-", ("borderLeftColor", color));
    ("border-r-", ("borderRightColor", color));
    ("outline-", ("outlineColor", color));
    ("fill-", ("fill", color));
    ("stroke-", ("stroke", color));
    ("from-", ("gradientColorFrom", color));
    ("to-", ("gradientColorTo", color));
    ("via-", ("gradientColorVia", color));
    ("rounded-", ("borderRadius", borderRadius));
    ("rounded-t-", ("borderTopRadius", borderRadius));
    ("rounded-b-", ("borderBottomRadius", borderRadius));
    ("rounded-l-", ("borderLeftRadius", borderRadius));
    ("rounded-r-", ("borderRightRadius", borderRadius));
    ("rounded-tl-", ("borderTopLeftRadius", borderRadius));
    ("rounded-tr-", ("borderTopRightRadius", borderRadius));
    ("rounded-bl-", ("borderBottomLeftRadius", borderRadius));
    ("rounded-br-", ("borderBottomRightRadius", borderRadius));
    ("shadow-", ("boxShadow", shadow));
    ("m-", ("margin", spacing));
    ("mt-", ("marginTop", spacing));
    ("mr-", ("marginRight", spacing));
    ("mb-", ("marginBottom", spacing));
    ("ml-", ("marginLeft", spacing));
    ("mx-", ("marginHorizontal", spacing));
    ("my-", ("marginVertical", spacing));
    ("p-", ("padding", spacing));
    ("pt-", ("paddingTop", spacing));
    ("pr-", ("paddingRight", spacing));
    ("pb-", ("paddingBottom", spacing));
    ("pl-", ("paddingLeft", spacing));
    ("px-", ("paddingHorizontal", spacing));
    ("py-", ("paddingVertical", spacing));
    ("gap-", ("gap", spacing));
    ("gap-x-", ("columnGap", spacing));
    ("gap-y-", ("rowGap", spacing));
    ("space-x-", ("spaceX", spacing));
    ("space-y-", ("spaceY", spacing));
    ("text-", ("fontSize", typography));
    ("font-", ("fontWeight", typography));
    ("leading-", ("lineHeight", typography));
    ("tracking-", ("letterSpacing", typography)) ].

Definition arbitraryValueRegex : string := "\b([a-z]+-[a-z]*-?)\[(.*?)\]".

Definition classNamePropRegex : string :=
  "className\s*=\s*(?:{(?:`|" +:+ dq +:+ "|')(.*?)(?:`|" +:+ dq +:+ "|')}|"
  +:+ dq +:+ "(.*?)" +:+ dq +:+ "|'(.*?)')".

Definition stringLiteralRegex : string :=
  dq +:+ "(.*?)" +:+ dq +:+ "|'(.*?)'|`(.*?)`".

(** The pattern text of [elementRegex], character for character. *)
Definition elementRegex : string :=
  "<([A-Za-z0-9]+)[^>]*className\s*=\s*(?:{(?:`|" +:+ dq +:+ "|')|\" +:+ dq
  +:+ "|')(.*?)(?:`|" +:+ dq +:+ "|')}|" +:+ dq +:+ "|')".

Record classNameMatch := {
  cn_value : string;
  cn_start : nat;
  cn_end : nat
}.

(** [match[1] || match[2] || match[3] || ''] with the offsets of the match. *)
Definition candidate (source : string) (m : rmatched) : classNameMatch :=
  {| cn_value :=
       default "" (or_else (capture source m 1)
                    (or_else (capture source m 2) (capture source m 3)));
     cn_start := m_index m;
     cn_end := m_end m |}.

(** The body of the inner [while] loop for one match of
    [arbitraryValueRegex] in a candidate; [None] stands for [continue]. *)
Definition arbitrary (elementRe : regex) (source : string)
  (types_ : list MatchType) (cn : classNameMatch) (am : rmatched)
  : option MatchResult :=
  let prefix := default "" (capture (cn_value cn) am 1) in
  let value_ := default "" (capture (cn_value cn) am 2) in
  match object_get TAILWIND_PREFIX_MAP prefix with
  | None => None
  | Some (property_, type_) =>
      if negb (bool_decide (type_ ∈ types_)) then None
      else
        let valueStart := cn_start cn + m_index am + len prefix + 1 in
        let valueEnd := valueStart + len value_ in
        let lineContext := getFullLine source (Z.of_nat valueStart) in
        let elementMatch := exec false elementRe lineContext 0 in
        Some {| type := type_;
                value := value_;
                property := property_;
                scope := className;
                context :=
                  {| ctx_line := lineContext;
                     element :=
                       match elementMatch with
                       | Some em => capture lineContext em 1
                       | None => None
                       end |};
                location :=
                  createMatchLocation source (Z.of_nat valueStart)
                    (Z.of_nat valueEnd);
                path := Some ["className"; prefix +:+ "[" +:+ value_ +:+ "]"] |}
  end.

(** The records of one candidate, in the order of the matches in it. *)
Definition scan_candidate (arbRe elementRe : regex) (source : string)
  (types_ : list MatchType) (cn : classNameMatch) : outcome (list MatchResult) :=
  let! ams := exec_while false arbRe (cn_value cn) in
  Ok (omap (arbitrary elementRe source types_ cn) ams).

Fixpoint scan_candidates (arbRe elementRe : regex) (source : string)
  (types_ : list MatchType) (cns : list classNameMatch)
  : outcome (list MatchResult) :=
  match cns with
  | [] => Ok []
  | cn :: cns' =>
      let! rs := scan_candidate arbRe elementRe source types_ cn in
      let! rs' := scan_candidates arbRe elementRe source types_ cns' in
      Ok (rs ++ rs')
  end.

(** The body of [match], for a given regular expression in the place of
    the literal [elementRegex]. *)
Definition match_with (elementRe : regex) (source : string)
  (options : MatcherOptions) : outcome (list MatchResult) :=
  let types_ := default all_types (types options) in
  let! classNameRe := regexp classNamePropRegex in
  let! ms := exec_while false classNameRe source in
  let! classNameMatches :=
    match ms with
    | [] =>
        let! stringRe := regexp stringLiteralRegex in
        let! ms' := exec_while true stringRe source in
        Ok (candidate source <$> ms')
    | _ => Ok (candidate source <$> ms)
    end in
  let! arbRe := regexp arbitraryValueRegex in
  scan_candidates arbRe elementRe source types_ classNameMatches.

(** [TailwindClassMatcher.match]. A regular expression literal that does
    not parse is an early error of the module that contains it, so with
    such a literal no call of a function of the module returns. *)
Definition match_ (source : string) (options : MatcherOptions)
  : outcome (list MatchResult) :=
  let! elementRe := regexp elementRegex in
  match_with elementRe source options.

End TailwindClassMatcher.

(** ** src/matchers/InlineStyleMatcher.ts *)

Module InlineStyleMatcher.
Import JS Regex MatcherTypes.

(** [PROPERTY_TYPE_PATTERNS]. *)
Definition PROPERTY_TYPE_PATTERNS (t : MatchType) : string :=
  match t with
  | color =>
      "#[0-9a-fA-F]{3,8}|rgba?\s*\([^)]+\)|hsla?\s*\([^)]+\)|oklch\s*\([^)]+\)"
  | spacing => "-?\d*\.?\d+(px|rem|em|%|vh|vw)"
  | borderRadius => "\d*\.?\d+(px|rem|em|%)"
  | shadow =>
      "\d+px\s+\d+px(\s+\d+px)?(\s+\d+px)?(\s+rgba?\([^)]+\)|#[0-9a-fA-F]{3,8})?"
  | typography =>
      "\d*\.?\d+(px|rem|em|%)|normal|bold|lighter|bolder|\d{3}|inherit|initial"
  end.

Definition styleObjectRegex : string :=
  "style\s*=\s*{(\s*{[^{}]*}|\s*{(?:{[^{}]*}|[^{}])*})\s*}".

Definition styleSpreadRegex : string := "style\s*=\s*{([a-zA-Z0-9_]+)}".

Definition varDefRegex (variableName : string) : string :=
  "(const|let|var)\s+" +:+ variableName +:+ "\s*=\s*({[^;]+})".

Definition propertyRegex : string :=
  "([A-Za-z0-9_]+)\s*:\s*(['" +:+ dq +:+ "`]?(.*?)['" +:+ dq +:+ "`]?)(,|$)".

Definition elementRegex : string := "<([A-Za-z0-9_$]+)".

Definition isValueMatchingType (value_ : string) (t : MatchType) : outcome bool :=
  let! pattern := regexp (PROPERTY_TYPE_PATTERNS t) in
  Ok (test false pattern value_).

(** The name of the element found by [findEnclosingElement], that is
    capture 1 of its result. *)
Definition findEnclosingElement (source : string) (styleIndex : nat)
  : outcome (option string) :=
  let lineStart := (lastIndexOf nl source (Z.of_nat styleIndex) + 1)%Z in
  let linePrefix := substring lineStart (Z.of_nat styleIndex) source in
  let! elementRe := regexp elementRegex in
  Ok (match exec false elementRe linePrefix 0 with
      | Some em => capture linePrefix em 1
      | None => None
      end).

(** The body of the [while] loop of [processStyleObject] for one match of
    [propertyRegex]; [None] stands for [continue]. *)
Definition style_property (styleObjStr objContent : string) (baseIndex : Z)
  (source : string) (types_ : list MatchType) (element_ : option string)
  (pathPrefix : list string) (pm : rmatched) : outcome (option MatchResult) :=
  let property_ := default "" (capture objContent pm 1) in
  let value_ := trim (default "" (capture objContent pm 3)) in
  match value_, object_get CSS_PROPERTY_CATEGORIES property_ with
  | "", _ | _, None => Ok None
  | _, Some type_ =>
      if negb (bool_decide (type_ ∈ types_)) then Ok None
      else
        let! ok := isValueMatchingType value_ type_ in
        if negb ok then Ok None
        else
          let propAt := indexOf property_ styleObjStr 0 in
          let propIndex := (baseIndex + propAt)%Z in
          let valueIndex :=
            (propIndex + Z.of_nat (len property_)
             + Z.of_nat (len (substring propAt
                                (indexOf value_ styleObjStr propAt)
                                styleObjStr)))%Z in
          Ok (Some {| type := type_;
                      value := value_;
                      property := property_;
                      scope := style;
                      context :=
                        {| ctx_line := getFullLine source valueIndex;
                           element := element_ |};
                      location :=
                        createMatchLocation source valueIndex
                          (valueIndex + Z.of_nat (len value_));
                      path := Some (pathPrefix ++ ["style"; property_]) |})
  end.

Fixpoint style_properties (styleObjStr objContent : string) (baseIndex : Z)
  (source : string) (types_ : list MatchType) (element_ : option string)
  (pathPrefix : list string) (pms : list rmatched) : outcome (list MatchResult) :=
  match pms with
  | [] => Ok []
  | pm :: pms' =>
      let! r := style_property styleObjStr objContent baseIndex source types_
                  element_ pathPrefix pm in
      let! rs := style_properties styleObjStr objContent baseIndex source
                   types_ element_ pathPrefix pms' in
      Ok (match r with Some x => x :: rs | None => rs end)
  end.

(** [processStyleObject]: the records it appends to [results]. *)
Definition processStyleObject (styleObjStr : string) (baseIndex : Z)
  (source : string) (types_ : list MatchType) (element_ : option string)
  (pathPrefix : list string) : outcome (list MatchResult) :=
  let trimmed := trim styleObjStr in
  let objContent :=
    if startsWith "{" trimmed && endsWith "}" trimmed
    then trim (slice 1 (-1) trimmed) else trimmed in
  let! propertyRe := regexp propertyRegex in
  let! pms := exec_while false propertyRe objContent in
  style_properties styleObjStr objContent baseIndex source types_ element_
    pathPrefix pms.

(** First loop of [match]: the [style={{ ... }}] attributes. *)
Fixpoint style_objects (source : string) (types_ : list MatchType)
  (ms : list rmatched) : outcome (list MatchResult) :=
  match ms with
  | [] => Ok []
  | m :: ms' =>
      let styleObjStr := default "" (capture source m 1) in
      let! element_ := findEnclosingElement source (m_index m) in
      let! rs := processStyleObject styleObjStr (Z.of_nat (m_index m)) source
                   types_ element_ [] in
      let! rs' := style_objects source types_ ms' in
      Ok (rs ++ rs')
  end.

(** Second loop of [match]: the [style={identifier}] attributes, resolved
    through the first declaration of the identifier in the source. *)
Fixpoint style_variables (source : string) (types_ : list MatchType)
  (ms : list rmatched) : outcome (list MatchResult) :=
  match ms with
  | [] => Ok []
  | m :: ms' =>
      let variableName := default "" (capture source m 1) in
      let! varDefRe := regexp (varDefRegex variableName) in
      let! rs :=
        match exec false varDefRe source 0 with
        | Some vm =>
            let styleObjStr := default "" (capture source vm 2) in
            let! element_ := findEnclosingElement source (m_index m) in
            processStyleObject styleObjStr
              (Z.of_nat (m_index vm) + indexOf styleObjStr (matched source vm) 0)
              source types_ element_ [variableName]
        | None => Ok []
        end in
      let! rs' := style_variables source types_ ms' in
      Ok (rs ++ rs')
  end.

(** [InlineStyleMatcher.match]. *)
Definition match_ (source : string) (options : MatcherOptions)
  : outcome (list MatchResult) :=
  let types_ := default all_types (types options) in
  let excluded :=
    match scopeLimit options with
    | Some limit => negb (bool_decide (style ∈ limit))
    | None => false
    end in
  if excluded then Ok []
  else
    let! objectRe := regexp styleObjectRegex in
    let! ms := exec_while true objectRe source in
    let! results := style_objects source types_ ms in
    let! spreadRe := regexp styleSpreadRegex in
    let! ms' := exec_while false spreadRe source in
    let! results' := style_variables source types_ ms' in
    Ok (results ++ results').

End InlineStyleMatcher.

(** ** JavaScript numbers *)

Module Num.
Import JS.

Abbreviation number := float.

(** The number nearest to the integer [z] (exact below 2^53). *)
Definition of_Z (z : Z) : number :=
  SF2Prim (binary_normalize prec emax z 0 false).

(** The number nearest to the rational [n / d], ties to even: the quotient
    is taken with at least 55 significant bits and the remainder decides the
    rounding. *)
Definition of_ratio (negative : bool) (n : N) (d : positive) : number :=
  match n with
  | N0 => if negative then neg_zero else zero
  | Npos p =>
      let s := Z.max 0 (55 + Z.log2 (Zpos d) - Z.log2 (Zpos p)) in
      let num := Z.shiftl (Zpos p) s in
      let q := (num / Zpos d)%Z in
      let rem := (num mod Zpos d)%Z in
      let loc :=
        if (rem =? 0)%Z then loc_Exact
        else loc_Inexact (2 * rem ?= Zpos d)%Z in
      SF2Prim (binary_round_aux prec emax negative q (- s) loc)
  end.

(** [digits * 10^exp10], correctly rounded. *)
Definition of_decimal (negative : bool) (digits : N) (exp10 : Z) : number :=
  match exp10 with
  | Zneg e => of_ratio negative digits (10 ^ e)%positive
  | _ => of_ratio negative (digits * N.pow 10 (Z.to_N exp10)) 1
  end.

(** The exact value of a finite number as [m * 2^e]; [None] for NaN and
    the infinities. *)
Definition to_scaled (x : number) : option (Z * Z) :=
  match Prim2SF x with
  | S754_zero _ => Some (0, 0)%Z
  | S754_finite s m e => Some (if s then Zneg m else Zpos m, e)
  | _ => None
  end.

Definition is_negative (x : number) : bool := get_sign x.

(** [floor(m * 2^e + k / 2)] for [k] 0 or 1. *)
Definition floor_scaled (m e k : Z) : Z :=
  if (0 <=? e)%Z then (m * 2 ^ e)%Z
  else ((2 * m + k * 2 ^ (- e)) / (2 * 2 ^ (- e)))%Z.

Definition integral (x : number) (k : Z) : number :=
  match to_scaled x with
  | None => x
  | Some (m, e) =>
      if (0 <=? e)%Z then x
      else
        let n := floor_scaled m e k in
        if (n =? 0)%Z then (if is_negative x then neg_zero else zero)
        else of_Z n
  end.

(** [Math.floor] and [Math.round] (halves go up). *)
Definition Math_floor (x : number) : number := integral x 0.
Definition Math_round (x : number) : number := integral x 1.

(** [Math.max(a, b)] and [Math.min(a, b)]: NaN if an argument is NaN, and
    +0 is larger than -0. *)
Definition Math_max (a b : number) : number :=
  if is_nan a || is_nan b then nan
  else if (a <? b)%float then b
  else if (b <? a)%float then a
  else if is_negative a then b else a.

Definition Math_min (a b : number) : number :=
  if is_nan a || is_nan b then nan
  else if (a <? b)%float then a
  else if (b <? a)%float then b
  else if is_negative a then a else b.

(** [Math.pow(x, 2)], taken as the rounded product. *)
Definition Math_sq (x : number) : number := (x * x)%float.

Definition Math_sqrt (x : number) : number := PrimFloat.sqrt x.

(** [a % b]: the exact remainder of the truncated division, with the sign
    of [a]. *)
Definition rem (a b : number) : number :=
  if is_nan a || is_nan b || is_infinity a || is_zero b then nan
  else if is_infinity b || is_zero a then a
  else
    match to_scaled a, to_scaled b with
    | Some (ma, ea), Some (mb, eb) =>
        let e := Z.min ea eb in
        let r := Z.rem (ma * 2 ^ (ea - e)) (mb * 2 ^ (eb - e)) in
        if (r =? 0)%Z then (if is_negative a then neg_zero else zero)
        else SF2Prim (binary_normalize prec emax r e false)
    | _, _ => nan
    end.

(** The integer part of a finite number, towards zero. *)
Definition trunc_Z (x : number) : option Z :=
  match to_scaled x with
  | None => None
  | Some (m, e) =>
      Some (if (0 <=? e)%Z then m * 2 ^ e else Z.quot m (2 ^ (- e)))%Z
  end.

Definition hex_digit (n : N) : ascii :=
  if (n <? 10)%N then ascii_of_N (48 + n) else ascii_of_N (87 + n).

Fixpoint hex_digits (fuel : nat) (n : N) (acc : string) : string :=
  match fuel with
  | 0 => acc
  | S f =>
      let acc' := String (hex_digit (n mod 16)) acc in
      if (n <? 16)%N then acc' else hex_digits f (n / 16) acc'
  end.

(** [x.toString(16)] for NaN, the infinities and integers; the digits after
    the point of other numbers are not modelled. *)
Definition toString16 (x : number) : string :=
  match trunc_Z x with
  | None =>
      if is_nan x then "NaN"
      else if is_negative x then "-Infinity" else "Infinity"
  | Some z =>
      let digits := hex_digits (S (N.to_nat (N.log2 (Z.abs_N z)))) (Z.abs_N z) "" in
      if (z <? 0)%Z then "-" +:+ digits else digits
  end.

(** *** Numeric literals in strings *)

(** The value of [c] as a digit in the given radix. *)
Definition digit_value (radix : N) (c : ascii) : option N :=
  let n := code c in
  let v := if is_digit c then Some (n - 48)%N
           else if in_range "a" "z" c then Some (n - 87)%N
           else if in_range "A" "Z" c then Some (n - 55)%N
           else None in
  match v with
  | Some d => if (d <? radix)%N then Some d else None
  | None => None
  end.

(** The longest run of digits at the head of [s]: its value, its length
    and what follows. *)
Fixpoint read_digits (radix : N) (s : string) (acc : N) (count : nat)
  : N * nat * string :=
  match s with
  | "" => (acc, count, s)
  | String c s' =>
      match digit_value radix c with
      | Some d => read_digits radix s' (acc * radix + d)%N (S count)
      | None => (acc, count, s)
      end
  end.

Definition read_sign (s : string) : bool * string :=
  match s with
  | String "-" s' => (true, s')
  | String "+" s' => (false, s')
  | _ => (false, s)
  end.

(** The exponent part of a decimal literal, if there is one. *)
Definition read_exponent (s : string) : Z * string :=
  match s with
  | String c s1 =>
      if Ascii.eqb c "e" || Ascii.eqb c "E" then
        let '(neg, s2) := read_sign s1 in
        match read_digits 10 s2 0 0 with
        | (_, 0, _) => (0%Z, s)
        | (e, _, s3) => ((if neg then - Z.of_N e else Z.of_N e)%Z, s3)
        end
      else (0%Z, s)
  | "" => (0%Z, s)
  end.

(** The longest prefix of [s] that is a StrDecimalLiteral: its value and
    what follows; [None] when there is none. *)
Definition read_decimal (s : string) : option (number * string) :=
  let '(neg, s1) := read_sign s in
  if startsWith "Infinity" s1
  then Some (if neg then neg_infinity else infinity, drop 8 s1)
  else
    let '(i, ni, s2) := read_digits 10 s1 0 0 in
    let '(f, nf, s3) :=
      match s2 with
      | String "." s2' =>
          let '(f, nf, s3) := read_digits 10 s2' i 0 in
          match ni, nf with
          | 0, 0 => (i, 0, s2)
          | _, _ => (f, nf, s3)
          end
      | _ => (i, 0, s2)
      end in
    match ni + nf with
    | 0 => None
    | _ =>
        let '(e, s4) := read_exponent s3 in
        Some (of_decimal neg f (e - Z.of_nat nf), s4)
    end.

(** [parseFloat(s)]. *)
Definition parseFloat (s : string) : number :=
  match read_decimal (trimStart s) with
  | Some (x, _) => x
  | None => nan
  end.

(** [parseFloat(v)] for a [v] that may be [undefined]. *)
Definition parseFloat_opt (v : option string) : number :=
  match v with Some s => parseFloat s | None => nan end.

(** [parseInt(s, radix)] for radix 10 or 16. *)
Definition parseInt (s : string) (radix : N) : number :=
  let '(neg, s1) := read_sign (trimStart s) in
  let s2 := if (radix =? 16)%N && (startsWith "0x" s1 || startsWith "0X" s1)
            then drop 2 s1 else s1 in
  match read_digits radix s2 0 0 with
  | (_, 0, _) => nan
  | (n, _, _) => of_ratio neg n 1
  end.

Definition parseInt_opt (v : option string) (radix : N) : number :=
  match v with Some s => parseInt s radix | None => nan end.

(** [Number(s)]: the whole of the trimmed string has to be a numeric
    literal; the empty string is 0. *)
Definition Number (s : string) : number :=
  let t := trim s in
  let prefixed (radix : N) :=
    match read_digits radix (drop 2 t) 0 0 with
    | (_, 0, _) => nan
    | (n, _, "") => of_ratio false n 1
    | _ => nan
    end in
  match t with
  | "" => zero
  | _ =>
      if startsWith "0x" t || startsWith "0X" t then prefixed 16%N
      else if startsWith "0o" t || startsWith "0O" t then prefixed 8%N
      else if startsWith "0b" t || startsWith "0B" t then prefixed 2%N
      else match read_decimal t with
           | Some (x, "") => x
           | _ => nan
           end
  end.

Definition isNaN (x : number) : bool := is_nan x.

End Num.

(** ** src/utils/colorUtils.ts *)

Module ColorUtils.
Import JS Regex Num.

#[local] Set Warnings "-inexact-float".

Record RGB := { rgb_r : number; rgb_g : number; rgb_b : number;
                rgb_a : option number }.
Record HSL := { hsl_h : number; hsl_s : number; hsl_l : number;
                hsl_a : option number }.
Record OKLCH := { oklch_l : number; oklch_c : number; oklch_h : number;
                  oklch_a : option number }.

(** The result of [parseColor]. *)
Record ColorFormats := {
  hex : string;
  rgb : RGB;
  hsl : option HSL;
  oklch : option OKLCH
}.

(** The inner function [toHex] of [rgbToHex]. *)
Definition toHex (value : number) : string :=
  let hex_ := toString16 (Math_max 0 (Math_min 255 (Math_round value))) in
  if len hex_ =? 1 then "0" +:+ hex_ else hex_.

Definition rgbToHex (c : RGB) : string :=
  let r := toHex (rgb_r c) in
  let g := toHex (rgb_g c) in
  let b := toHex (rgb_b c) in
  let hex_ := "#" +:+ r +:+ g +:+ b in
  match rgb_a c with
  | Some alpha =>
      if (alpha <? 1)%float
      then hex_ +:+ toHex (Math_round (alpha * 255)%float)
      else hex_
  | None => hex_
  end.

Definition rgbToHsl (c : RGB) : HSL :=
  let r := (rgb_r c / 255)%float in
  let g := (rgb_g c / 255)%float in
  let b := (rgb_b c / 255)%float in
  let max := Math_max (Math_max r g) b in
  let min := Math_min (Math_min r g) b in
  let delta := (max - min)%float in
  let l := ((max + min) / 2)%float in
  let '(h, s) :=
    if negb (delta =? 0)%float then
      let s := if (0.5 <? l)%float then (delta / (2 - max - min))%float
               else (delta / (max + min))%float in
      let h :=
        if (max =? r)%float
        then ((g - b) / delta + (if (g <? b)%float then 6 else 0))%float
        else if (max =? g)%float then ((b - r) / delta + 2)%float
        else ((r - g) / delta + 4)%float in
      (Math_round (h * 60)%float, s)
    else (0%float, 0%float) in
  {| hsl_h := h;
     hsl_s := Math_round (s * 100)%float;
     hsl_l := Math_round (l * 100)%float;
     hsl_a := rgb_a c |}.

Definition hue2rgb (p q t : number) : number :=
  let t := if (t <? 0)%float then (t + 1)%float else t in
  let t := if (1 <? t)%float then (t - 1)%float else t in
  if (t <? 1 / 6)%float then (p + (q - p) * 6 * t)%float
  else if (t <? 1 / 2)%float then q
  else if (t <? 2 / 3)%float then (p + (q - p) * (2 / 3 - t) * 6)%float
  else p.

Definition hslToRgb (c : HSL) : RGB :=
  let h := (hsl_h c / 360)%float in
  let s := hsl_s c in
  let l := (hsl_l c / 100)%float in
  let '(r, g, b) :=
    if (s =? 0)%float then (l, l, l)
    else
      let q := if (l <? 0.5)%float then (l * (1 + s))%float
               else (l + s - l * s)%float in
      let p := (2 * l - q)%float in
      (hue2rgb p q (h + 1 / 3)%float,
       hue2rgb p q h,
       hue2rgb p q (h - 1 / 3)%float) in
  {| rgb_r := Math_round (r * 255)%float;
     rgb_g := Math_round (g * 255)%float;
     rgb_b := Math_round (b * 255)%float;
     rgb_a := hsl_a c |}.

Definition approximateOklchToRgb (c : OKLCH) : RGB :=
  let l := Math_max 0 (Math_min 1 (oklch_l c)) in
  let ch := Math_max 0 (Math_min 0.4 (oklch_c c)) in
  let h := rem (oklch_h c) 360 in
  let hueSection := Math_floor (h / 60)%float in
  let hueRemainder := (rem h 60 / 60)%float in
  let colorValue := (l * (1 + ch * 2 - 1))%float in
  let min := (l * (1 - ch))%float in
  let mid := (l * (1 - ch * (1 - hueRemainder)))%float in
  let max := (l * (1 - ch * hueRemainder))%float in
  let k := rem hueSection 6 in
  let '(r, g, b) :=
    if (k =? 0)%float then (colorValue, mid, min)
    else if (k =? 1)%float then (max, colorValue, min)
    else if (k =? 2)%float then (min, colorValue, mid)
    else if (k =? 3)%float then (min, max, colorValue)
    else if (k =? 4)%float then (mid, min, colorValue)
    else if (k =? 5)%float then (colorValue, min, max)
    else (l, l, l) in
  let channel (x : number) :=
    Math_max 0 (Math_min 255 (Math_round (x * 255)%float)) in
  {| rgb_r := channel r; rgb_g := channel g; rgb_b := channel b;
     rgb_a := oklch_a c |}.

Definition parseOklchColor (oklchStr : string) : outcome ColorFormats :=
  let! re := regexp "oklch\(([^)]+)\)" in
  let! sep := regexp "\s+|,\s*" in
  match exec false re oklchStr 0 with
  | None => Throw (JsError ("Invalid OKLCH color: " +:+ oklchStr))
  | Some m =>
      let parts :=
        filter (fun p => p ≠ "")
          (split false sep (default "" (capture oklchStr m 1))) in
      match parts with
      | [] => Throw TypeError      (* [parts[0].replace] on [undefined] *)
      | p0 :: _ =>
          let l := (parseFloat (replace_str "%" "" p0)
                    / (if includes "%" p0 then 100 else 1))%float in
          let c := parseFloat_opt (parts !! 1) in
          let h := parseFloat_opt (parts !! 2) in
          let a := if 4 <=? length parts
                   then Some (parseFloat_opt (parts !! 3)) else None in
          let oklch_ := {| oklch_l := l; oklch_c := c; oklch_h := h;
                           oklch_a := a |} in
          let rgb_ := approximateOklchToRgb oklch_ in
          Ok {| hex := rgbToHex rgb_; rgb := rgb_;
                hsl := Some (rgbToHsl rgb_); oklch := Some oklch_ |}
      end
  end.

(** [hex[i]] as a string; out of range it is [undefined], which [+]
    turns into the text "undefined". *)
Definition char_at (i : nat) (s : string) : string :=
  match String.get i s with
  | Some c => String c ""
  | None => "undefined"
  end.

Definition parseHexColor (hexStr : string) : ColorFormats :=
  let hex0 := replace_str "#" "" hexStr in
  let hex_ :=
    if len hex0 =? 3
    then char_at 0 hex0 +:+ char_at 0 hex0 +:+ char_at 1 hex0
         +:+ char_at 1 hex0 +:+ char_at 2 hex0 +:+ char_at 2 hex0
    else hex0 in
  let r := parseInt (substring 0 2 hex_) 16 in
  let g := parseInt (substring 2 4 hex_) 16 in
  let b := parseInt (substring 4 6 hex_) 16 in
  let a := if len hex_ =? 8
           then Some (parseInt (substring 6 8 hex_) 16 / 255)%float
           else None in
  let rgb_ := {| rgb_r := r; rgb_g := g; rgb_b := b; rgb_a := a |} in
  {| hex := "#" +:+ hex_; rgb := rgb_; hsl := Some (rgbToHsl rgb_);
     oklch := None |}.

(** The components between the parentheses of [rgb(...)] or [hsl(...)]. *)
Definition components (opening str : string) : list string :=
  trim <$> split_char "," (replace_str ")" "" (replace_str opening "" str)).

Definition parseRgbColor (rgbStr : string) : ColorFormats :=
  let isRgba := startsWith "rgba(" rgbStr in
  let values := components (if isRgba then "rgba(" else "rgb(") rgbStr in
  let r := parseInt_opt (values !! 0) 10 in
  let g := parseInt_opt (values !! 1) 10 in
  let b := parseInt_opt (values !! 2) 10 in
  let a := if isRgba then Some (parseFloat_opt (values !! 3)) else None in
  let rgb_ := {| rgb_r := r; rgb_g := g; rgb_b := b; rgb_a := a |} in
  {| hex := rgbToHex rgb_; rgb := rgb_; hsl := Some (rgbToHsl rgb_);
     oklch := None |}.

Definition parseHslColor (hslStr : string) : ColorFormats :=
  let isHsla := startsWith "hsla(" hslStr in
  let values := components (if isHsla then "hsla(" else "hsl(") hslStr in
  let h := parseInt_opt (values !! 0) 10 in
  let s := (parseInt_opt (values !! 1%nat) 10 / 100)%float in
  let l := (parseInt_opt (values !! 2%nat) 10 / 100)%float in
  let a := if isHsla then Some (parseFloat_opt (values !! 3)) else None in
  let hsl_ := {| hsl_h := h; hsl_s := s; hsl_l := l; hsl_a := a |} in
  let rgb_ := hslToRgb hsl_ in
  {| hex := rgbToHex rgb_; rgb := rgb_; hsl := Some hsl_; oklch := None |}.

(** The fallback of [parseColor], returned after a warning on the console. *)
Definition black : ColorFormats :=
  {| hex := "#000000";
     rgb := {| rgb_r := 0; rgb_g := 0; rgb_b := 0; rgb_a := None |};
     hsl := None; oklch := None |}.

(** The families of colour syntax that [parseColor] tells apart by the
    start of the text, once its white space is removed. *)
Definition recognised (cleanedStr : string) : bool :=
  startsWith "oklch(" cleanedStr || startsWith "#" cleanedStr
  || startsWith "rgb(" cleanedStr || startsWith "rgba(" cleanedStr
  || startsWith "hsl(" cleanedStr || startsWith "hsla(" cleanedStr.

Definition whitespace : string := "\s+".

Definition parseColor (colorStr : string) : outcome ColorFormats :=
  let! spaces := regexp whitespace in
  let cleanedStr := replace_all false spaces "" colorStr in
  if startsWith "oklch(" cleanedStr then parseOklchColor cleanedStr
  else if startsWith "#" cleanedStr then Ok (parseHexColor cleanedStr)
  else if startsWith "rgb(" cleanedStr || startsWith "rgba(" cleanedStr
  then Ok (parseRgbColor cleanedStr)
  else if startsWith "hsl(" cleanedStr || startsWith "hsla(" cleanedStr
  then Ok (parseHslColor cleanedStr)
  else Ok black.

Definition calculateColorDistance (color1 color2 : RGB) : number :=
  let rDiff := Math_sq (rgb_r color1 - rgb_r color2)%float in
  let gDiff := Math_sq (rgb_g color1 - rgb_g color2)%float in
  let bDiff := Math_sq (rgb_b color1 - rgb_b color2)%float in
  let distance := Math_sqrt (rDiff + gDiff + bDiff)%float in
  (distance / (255 * Math_sqrt 3))%float.

(** [findClosestColor]: the token of the nearest candidate ([None] for
    [null]) and the confidence. *)
Definition findClosestColor {T} (targetColor : RGB) (colors : list (RGB * T))
  : option T * number :=
  match colors with
  | [] => (None, 0%float)
  | first :: others =>
      let '(closest, smallest) :=
        fold_left
          (fun '(closest, smallest) c =>
             let distance := calculateColorDistance targetColor (fst c) in
             if (distance <? smallest)%float then (c, distance)
             else (closest, smallest))
          others (first, calculateColorDistance targetColor (fst first)) in
      (Some (snd closest), (1 - smallest)%float)
  end.

End ColorUtils.

(** ** src/core/types.ts *)

Module CoreTypes.
Import Num ColorUtils.

Inductive TokenCategory := color | typography | spacing | borderRadius | shadow.

#[export] Instance TokenCategory_eq_dec : EqDecision TokenCategory.
Proof. solve_decision. Defined.

(** The fields every token has; the [category] of a token is fixed by its
    interface and is read off the variant, see [category] below. *)
Record BaseToken := {
  name : string;
  cssVariable : string;
  tailwindClass : option string;
  description : option string
}.

Record ColorToken := {
  color_base : BaseToken;
  color_originalValue : string;
  color_value : ColorFormats
}.

Record TypographyValue := {
  fontFamily : option string;
  fontSize : option string;
  fontWeight : option (string + number);
  lineHeight : option (string + number);
  letterSpacing : option string
}.

Record TypographyToken := {
  typography_base : BaseToken;
  typography_value : TypographyValue
}.

Record SpacingToken := {
  spacing_base : BaseToken;
  spacing_value : string
}.

Record BorderRadiusToken := {
  borderRadius_base : BaseToken;
  borderRadius_value : string
}.

(** A layer of a shadow; [x] and [y] are [undefined] when the layer has
    too few parts. *)
Record ShadowComponent := {
  x : option string;
  y : option string;
  blur : string;
  spread : string;
  shadow_color : string;
  inset : bool
}.

Record ShadowToken := {
  shadow_base : BaseToken;
  shadow_value : string;
  components : option (list ShadowComponent)
}.

Inductive DesignToken :=
| Color (t : ColorToken)
| Typography (t : TypographyToken)
| Spacing (t : SpacingToken)
| BorderRadius (t : BorderRadiusToken)
| Shadow (t : ShadowToken).

Definition category (t : DesignToken) : TokenCategory :=
  match t with
  | Color _ => color
  | Typography _ => typography
  | Spacing _ => spacing
  | BorderRadius _ => borderRadius
  | Shadow _ => shadow
  end.

Definition base (t : DesignToken) : BaseToken :=
  match t with
  | Color t => color_base t
  | Typography t => typography_base t
  | Spacing t => spacing_base t
  | BorderRadius t => borderRadius_base t
  | Shadow t => shadow_base t
  end.

Record TokenMatch := {
  token : DesignToken;
  confidence : number;
  originalValue : string
}.

Record TokenMatchOptions := {
  threshold : option number;
  categories : option (list TokenCategory);
  exact : option bool
}.

Definition no_match_options : TokenMatchOptions :=
  {| threshold := None; categories := None; exact := None |}.

Record TokenRegistryOptions := {
  cssPath : option string;
  cssContent : option string;
  normalizeColors : option bool
}.

End CoreTypes.

(** ** src/core/TokenRegistry.ts *)

Module TokenRegistry.
Import JS Regex Num ColorUtils CoreTypes.

#[local] Set Warnings "-inexact-float".

(** The fields of a [TokenRegistry] object. [cssVars] is a [Map]: its
    entries are kept in the order in which their keys were first set. *)
Record TokenRegistry := {
  colorTokens : list ColorToken;
  typographyTokens : list TypographyToken;
  spacingTokens : list SpacingToken;
  borderRadiusTokens : list BorderRadiusToken;
  shadowTokens : list ShadowToken;
  cssVars : list (string * string);
  initialized : bool;
  options : TokenRegistryOptions
}.

(** [new TokenRegistry(options)]. *)
Definition new_ (opts : TokenRegistryOptions) : TokenRegistry :=
  {| colorTokens := []; typographyTokens := []; spacingTokens := [];
     borderRadiusTokens := []; shadowTokens := []; cssVars := [];
     initialized := false; options := opts |}.

Definition not_initialized : error :=
  JsError "TokenRegistry not initialized. Call initialize() first.".

(** [map.set(k, v)]. *)
Fixpoint map_set (k v : string) (m : list (string * string))
  : list (string * string) :=
  match m with
  | [] => [(k, v)]
  | (k', v') :: m' =>
      if String.eqb k' k then (k, v) :: m' else (k', v') :: map_set k v m'
  end.

Definition with_cssVars (reg : TokenRegistry) (vars : list (string * string))
  : TokenRegistry :=
  {| colorTokens := colorTokens reg;
     typographyTokens := typographyTokens reg;
     spacingTokens := spacingTokens reg;
     borderRadiusTokens := borderRadiusTokens reg;
     shadowTokens := shadowTokens reg;
     cssVars := vars;
     initialized := initialized reg;
     options := options reg |}.

Definition variableRegex : string := "--([a-zA-Z0-9_-]+)\s*:\s*([^;]+);".

(** [parseCssVariables]: the variable table after the loop. *)
Definition parseCssVariables (cssContent_ : string) (reg : TokenRegistry)
  : outcome TokenRegistry :=
  let! re := regexp variableRegex in
  let! ms := exec_while false re cssContent_ in
  Ok (with_cssVars reg
        (fold_left
           (fun vars m =>
              let name_ := trim (default "" (capture cssContent_ m 1)) in
              let value_ := trim (default "" (capture cssContent_ m 2)) in
              map_set ("--" +:+ name_) value_ vars)
           ms (cssVars reg))).

Definition getNameFromCssVariable (cssVariable_ : string) : outcome string :=
  let! dashes := regexp "^--" in
  let! prefixes := regexp "^(color-|font-|spacing-|border-radius-|shadow-)" in
  Ok (replace_first false prefixes "" (replace_first false dashes "" cssVariable_)).

Definition colorFormats : list string :=
  [ "^#[0-9a-fA-F]{3,8}$";
    "^rgb\(\s*\d+\s*,\s*\d+\s*,\s*\d+\s*\)$";
    "^rgba\(\s*\d+\s*,\s*\d+\s*,\s*\d+\s*,\s*[\d.]+\s*\)$";
    "^hsl\(\s*\d+\s*,\s*\d+%\s*,\s*\d+%\s*\)$";
    "^hsla\(\s*\d+\s*,\s*\d+%\s*,\s*\d+%\s*,\s*[\d.]+\s*\)$";
    "^oklch\(\s*[\d.]+%?\s+[\d.]+\s+[\d.]+\s*\)$" ].

(** [patterns.some(regex => regex.test(s))]. *)
Fixpoint some_test (patterns : list string) (s : string) : outcome bool :=
  match patterns with
  | [] => Ok false
  | p :: ps =>
      let! re := regexp p in
      if test false re s then Ok true else some_test ps s
  end.

Definition isColorValue (value_ : string) : outcome bool :=
  some_test colorFormats (trim value_).

Definition typographyProps : list string :=
  ["font-family"; "font-size"; "font-weight"; "line-height";
   "letter-spacing"; "text-"].

Definition isTypographyProperty (cssVariable_ : string) : bool :=
  existsb (fun prop => includes prop cssVariable_) typographyProps.

Definition createColorToken (name_ cssVariable_ value_ : string)
  (reg : TokenRegistry) : outcome TokenRegistry :=
  match parseColor value_ with
  | Ok formats =>
      let token_ :=
        {| color_base :=
             {| name := name_; cssVariable := cssVariable_;
                tailwindClass :=
                  if startsWith "--color-" cssVariable_
                  then Some ("text-" +:+ name_) else None;
                description := None |};
           color_originalValue := value_;
           color_value := formats |} in
      Ok {| colorTokens := colorTokens reg ++ [token_];
            typographyTokens := typographyTokens reg;
            spacingTokens := spacingTokens reg;
            borderRadiusTokens := borderRadiusTokens reg;
            shadowTokens := shadowTokens reg;
            cssVars := cssVars reg;
            initialized := initialized reg;
            options := options reg |}
  | Throw _ => Ok reg          (* caught: a warning on the console *)
  | Diverge => Diverge
  end.

(** [isNaN(Number(value)) ? value : Number(value)]. *)
Definition string_or_number (value_ : string) : string + number :=
  if isNaN (Number value_) then inl value_ else inr (Number value_).

(** The assignment at the end of [createOrUpdateTypographyToken]. *)
Definition set_typography (cssVariable_ value_ : string) (t : TypographyToken)
  : TypographyToken :=
  let v := typography_value t in
  let v' :=
    if includes "font-family" cssVariable_ then
      {| fontFamily := Some value_; fontSize := fontSize v;
         fontWeight := fontWeight v; lineHeight := lineHeight v;
         letterSpacing := letterSpacing v |}
    else if includes "font-size" cssVariable_ then
      {| fontFamily := fontFamily v; fontSize := Some value_;
         fontWeight := fontWeight v; lineHeight := lineHeight v;
         letterSpacing := letterSpacing v |}
    else if includes "font-weight" cssVariable_ then
      {| fontFamily := fontFamily v; fontSize := fontSize v;
         fontWeight := Some (string_or_number value_);
         lineHeight := lineHeight v; letterSpacing := letterSpacing v |}
    else if includes "line-height" cssVariable_ then
      {| fontFamily := fontFamily v; fontSize := fontSize v;
         fontWeight := fontWeight v;
         lineHeight := Some (string_or_number value_);
         letterSpacing := letterSpacing v |}
    else if includes "letter-spacing" cssVariable_ then
      {| fontFamily := fontFamily v; fontSize := fontSize v;
         fontWeight := fontWeight v; lineHeight := lineHeight v;
         letterSpacing := Some value_ |}
    else v in
  {| typography_base := typography_base t; typography_value := v' |}.

(** The list after [f] has been applied, in place, to the first element
    that satisfies [p]; [None] when there is no such element. *)
Fixpoint update_first {A} (p : A -> bool) (f : A -> A) (l : list A)
  : option (list A) :=
  match l with
  | [] => None
  | a :: l' =>
      if p a then Some (f a :: l') else cons a <$> update_first p f l'
  end.

Definition createOrUpdateTypographyToken (name_ cssVariable_ value_ : string)
  (reg : TokenRegistry) : outcome TokenRegistry :=
  let! suffix :=
    regexp "-font-(family|size|weight|style)$|-line-height$|-letter-spacing$" in
  let baseName := replace_first false suffix "" name_ in
  let fresh :=
    {| typography_base :=
         {| name := baseName; cssVariable := "--" +:+ baseName;
            tailwindClass := None; description := None |};
       typography_value :=
         {| fontFamily := None; fontSize := None; fontWeight := None;
            lineHeight := None; letterSpacing := None |} |} in
  let tokens :=
    match update_first
            (fun t => String.eqb (name (typography_base t)) baseName)
            (set_typography cssVariable_ value_) (typographyTokens reg) with
    | Some updated => updated
    | None => typographyTokens reg ++ [set_typography cssVariable_ value_ fresh]
    end in
  Ok {| colorTokens := colorTokens reg;
        typographyTokens := tokens;
        spacingTokens := spacingTokens reg;
        borderRadiusTokens := borderRadiusTokens reg;
        shadowTokens := shadowTokens reg;
        cssVars := cssVars reg;
        initialized := initialized reg;
        options := options reg |}.

Definition createSpacingToken (name_ cssVariable_ value_ : string)
  (reg : TokenRegistry) : TokenRegistry :=
  let token_ :=
    {| spacing_base :=
         {| name := name_; cssVariable := cssVariable_;
            tailwindClass :=
              if startsWith "--spacing-" cssVariable_
              then Some ("p-" +:+ name_) else None;
            description := None |};
       spacing_value := value_ |} in
  {| colorTokens := colorTokens reg;
     typographyTokens := typographyTokens reg;
     spacingTokens := spacingTokens reg ++ [token_];
     borderRadiusTokens := borderRadiusTokens reg;
     shadowTokens := shadowTokens reg;
     cssVars := cssVars reg;
     initialized := initialized reg;
     options := options reg |}.

Definition createBorderRadiusToken (name_ cssVariable_ value_ : string)
  (reg : TokenRegistry) : TokenRegistry :=
  let token_ :=
    {| borderRadius_base :=
         {| name := name_; cssVariable := cssVariable_;
            tailwindClass :=
              if startsWith "--border-radius-" cssVariable_
              then Some ("rounded-" +:+ name_) else None;
            description := None |};
       borderRadius_value := value_ |} in
  {| colorTokens := colorTokens reg;
     typographyTokens := typographyTokens reg;
     spacingTokens := spacingTokens reg;
     borderRadiusTokens := borderRadiusTokens reg ++ [token_];
     shadowTokens := shadowTokens reg;
     cssVars := cssVars reg;
     initialized := initialized reg;
     options := options reg |}.

(** [a || b] for a string that may be [undefined] and a default. *)
Definition or_default (a : option string) (b : string) : string :=
  default b (or_else a (Some b)).

Definition parseShadowComponents (shadowValue : string)
  : outcome (list ShadowComponent) :=
  let! commas := regexp ",(?![^(]*\))" in
  let! spaces := regexp "\s+" in
  Ok ((fun part =>
         let parts := split false spaces (trim part) in
         let hasInset := bool_decide (parts !! 0 = Some "inset") in
         let startIndex := if hasInset then 1 else 0 in
         {| inset := hasInset;
            x := parts !! startIndex;
            y := parts !! (startIndex + 1);
            blur := or_default (parts !! (startIndex + 2)) "0";
            spread := or_default (parts !! (startIndex + 3)) "0";
            shadow_color :=
              or_default (Some (join " " (List.skipn (startIndex + 4) parts)))
                "currentColor" |})
        <$> split false commas shadowValue).

Definition createShadowToken (name_ cssVariable_ value_ : string)
  (reg : TokenRegistry) : outcome TokenRegistry :=
  let! parsed :=
    match parseShadowComponents value_ with
    | Ok cs => Ok (Some cs)
    | Throw _ => Ok None       (* caught: the components stay unset *)
    | Diverge => Diverge
    end in
  let token_ :=
    {| shadow_base :=
         {| name := name_; cssVariable := cssVariable_;
            tailwindClass :=
              if startsWith "--shadow-" cssVariable_
              then Some ("shadow-" +:+ name_) else None;
            description := None |};
       shadow_value := value_;
       components := parsed |} in
  Ok {| colorTokens := colorTokens reg;
        typographyTokens := typographyTokens reg;
        spacingTokens := spacingTokens reg;
        borderRadiusTokens := borderRadiusTokens reg;
        shadowTokens := shadowTokens reg ++ [token_];
        cssVars := cssVars reg;
        initialized := initialized reg;
        options := options reg |}.

(** The body of the loop of [createTokens] for one entry of [cssVars]. *)
Definition createToken (entry : string * string) (reg : TokenRegistry)
  : outcome TokenRegistry :=
  let '(cssVariable_, value_) := entry in
  if startsWith "var(" value_ then Ok reg
  else
    let! name_ := getNameFromCssVariable cssVariable_ in
    let! isColor := isColorValue value_ in
    if isColor then createColorToken name_ cssVariable_ value_ reg
    else if includes "spacing" cssVariable_
    then Ok (createSpacingToken name_ cssVariable_ value_ reg)
    else if includes "border-radius" cssVariable_
    then Ok (createBorderRadiusToken name_ cssVariable_ value_ reg)
    else if includes "shadow" cssVariable_
    then createShadowToken name_ cssVariable_ value_ reg
    else if isTypographyProperty cssVariable_
    then createOrUpdateTypographyToken name_ cssVariable_ value_ reg
    else Ok reg.

Fixpoint createTokens_loop (entries : list (string * string))
  (reg : TokenRegistry) : outcome TokenRegistry :=
  match entries with
  | [] => Ok reg
  | entry :: entries' =>
      let! reg' := createToken entry reg in
      createTokens_loop entries' reg'
  end.

Definition createTokens (reg : TokenRegistry) : outcome TokenRegistry :=
  createTokens_loop (cssVars reg) reg.

Definition set_initialized (reg : TokenRegistry) : TokenRegistry :=
  {| colorTokens := colorTokens reg;
     typographyTokens := typographyTokens reg;
     spacingTokens := spacingTokens reg;
     borderRadiusTokens := borderRadiusTokens reg;
     shadowTokens := shadowTokens reg;
     cssVars := cssVars reg;
     initialized := true;
     options := options reg |}.

(** A property that is a string or [undefined], as the condition of an
    [if]: the empty string is falsy. *)
Definition truthy (v : option string) : option string :=
  match v with
  | Some "" | None => None
  | Some s => Some s
  end.

(** [initialize]. The file system is the function [readFile], from a path
    to the text of the file or to the message of the error. *)
Definition initialize (readFile : string -> string + string)
  (reg : TokenRegistry) : outcome TokenRegistry :=
  if initialized reg then Ok reg
  else
    let! css :=
      match truthy (cssPath (options reg)) with
      | Some path =>
          match readFile path with
          | inl text => Ok text
          | inr message =>
              Throw (JsError ("Failed to read CSS file: " +:+ message))
          end
      | None =>
          match truthy (cssContent (options reg)) with
          | Some text => Ok text
          | None =>
              Throw (JsError
                       "No CSS source provided. Specify cssPath or cssContent.")
          end
      end in
    let! reg1 := parseCssVariables css reg in
    let! reg2 := createTokens reg1 in
    Ok (set_initialized reg2).

Definition getTokensByCategory (reg : TokenRegistry) (c : TokenCategory)
  : list DesignToken :=
  match c with
  | color => Color <$> colorTokens reg
  | typography => Typography <$> typographyTokens reg
  | spacing => Spacing <$> spacingTokens reg
  | borderRadius => BorderRadius <$> borderRadiusTokens reg
  | shadow => Shadow <$> shadowTokens reg
  end.

Definition getAllTokens (reg : TokenRegistry) : list DesignToken :=
  (Color <$> colorTokens reg) ++ (Typography <$> typographyTokens reg)
  ++ (Spacing <$> spacingTokens reg)
  ++ (BorderRadius <$> borderRadiusTokens reg)
  ++ (Shadow <$> shadowTokens reg).

Definition findTokenByName (reg : TokenRegistry) (name_ : string)
  : option DesignToken :=
  List.find
    (fun t =>
       String.eqb (name (base t)) name_
       || String.eqb (cssVariable (base t)) name_
       || String.eqb (cssVariable (base t)) ("--" +:+ name_)
       || bool_decide (tailwindClass (base t) = Some name_))
    (getAllTokens reg).

Definition findTokenByCssVariable (reg : TokenRegistry) (cssVariable_ : string)
  : option DesignToken :=
  List.find (fun t => String.eqb (cssVariable (base t)) cssVariable_)
    (getAllTokens reg).

(** The test of the search for an exact match in [findClosestColorMatch]. *)
Definition same_hex (target : ColorFormats) (t : ColorToken) : bool :=
  String.eqb (toLowerCase (hex (color_value t))) (toLowerCase (hex target)).

(** The loop of [findClosestColorMatch]: the nearest token so far and its
    distance. *)
Definition closest (target : ColorFormats) (tokens : list ColorToken)
  : option ColorToken * number :=
  fold_left
    (fun '(closestToken, smallestDistance) t =>
       let distance :=
         calculateColorDistance (rgb target) (rgb (color_value t)) in
       if (distance <? smallestDistance)%float then (Some t, distance)
       else (closestToken, smallestDistance))
    tokens (None, infinity).

Definition findClosestColorMatch (reg : TokenRegistry) (colorValue : string)
  (opts : TokenMatchOptions) : outcome (option TokenMatch) :=
  if negb (initialized reg) then Throw not_initialized
  else
    match parseColor colorValue with
    | Diverge => Diverge
    | Throw _ => Ok None          (* caught: a warning on the console *)
    | Ok targetColor =>
        let threshold_ := default 0.85%float (threshold opts) in
        match List.find (same_hex targetColor) (colorTokens reg) with
        | Some exactMatch =>
            Ok (Some {| token := Color exactMatch; confidence := 1;
                        originalValue := colorValue |})
        | None =>
            if default false (exact opts) then Ok None
            else
              let '(closestToken, smallestDistance) :=
                closest targetColor (colorTokens reg) in
              let confidence_ := (1 - smallestDistance)%float in
              match closestToken with
              | Some t =>
                  if (threshold_ <=? confidence_)%float
                  then Ok (Some {| token := Color t;
                                   confidence := confidence_;
                                   originalValue := colorValue |})
                  else Ok None
              | None => Ok None
              end
        end
    end.

(** [!category || category === c]. *)
Definition wanted (category_ : option TokenCategory) (c : TokenCategory) : bool :=
  match category_ with
  | None => true
  | Some c' => bool_decide (c' = c)
  end.

Definition exact_match (value_ : string) (t : DesignToken) : TokenMatch :=
  {| token := t; confidence := 1; originalValue := value_ |}.

Definition findBestMatch (reg : TokenRegistry) (value_ : string)
  (category_ : option TokenCategory) (opts : TokenMatchOptions)
  : outcome (option TokenMatch) :=
  if negb (initialized reg) then Throw not_initialized
  else
    let! colorMatch :=
      if wanted category_ color then
        let! isColor := isColorValue value_ in
        if isColor then findClosestColorMatch reg value_ opts else Ok None
      else Ok None in
    match colorMatch with
    | Some m => Ok (Some m)
    | None =>
        let spacingMatch :=
          if wanted category_ spacing
          then List.find (fun t => String.eqb (spacing_value t) value_)
                 (spacingTokens reg)
          else None in
        match spacingMatch with
        | Some t => Ok (Some (exact_match value_ (Spacing t)))
        | None =>
            let radiusMatch :=
              if wanted category_ borderRadius
              then List.find (fun t => String.eqb (borderRadius_value t) value_)
                     (borderRadiusTokens reg)
              else None in
            match radiusMatch with
            | Some t => Ok (Some (exact_match value_ (BorderRadius t)))
            | None =>
                let shadowMatch :=
                  if wanted category_ shadow
                  then List.find (fun t => String.eqb (shadow_value t) value_)
                         (shadowTokens reg)
                  else None in
                match shadowMatch with
                | Some t => Ok (Some (exact_match value_ (Shadow t)))
                | None => Ok None
                end
            end
        end
    end.

(** [exportTokensToJson]. [stringify] stands for [JSON.stringify(_, null, 2)]
    and [writeFile] for the file system: it returns the message of the error
    when the file cannot be written. *)
Definition exportTokensToJson (stringify : list DesignToken -> string)
  (writeFile : string -> string -> option string)
  (reg : TokenRegistry) (filePath : string) : outcome unit :=
  if negb (initialized reg) then Throw not_initialized
  else
    match writeFile filePath (stringify (getAllTokens reg)) with
    | None => Ok tt
    | Some message =>
        Throw (JsError ("Failed to export tokens to JSON: " +:+ message))
    end.

Record TokenCounts := {
  count_color : nat;
  count_typography : nat;
  count_spacing : nat;
  count_borderRadius : nat;
  count_shadow : nat
}.

Definition getTokenCounts (reg : TokenRegistry) : TokenCounts :=
  {| count_color := length (colorTokens reg);
     count_typography := length (typographyTokens reg);
     count_spacing := length (spacingTokens reg);
     count_borderRadius := length (borderRadiusTokens reg);
     count_shadow := length (shadowTokens reg) |}.

(** *** The query surface

    The eight query methods behind one entry point, so that statements
    can range over all of them. *)

Inductive query :=
| GetTokensByCategory (c : TokenCategory)
| GetAllTokens
| FindTokenByName (name_ : string)
| FindTokenByCssVariable (cssVariable_ : string)
| FindClosestColorMatch (colorValue : string) (opts : TokenMatchOptions)
| FindBestMatch (value_ : string) (category_ : option TokenCategory)
    (opts : TokenMatchOptions)
| GetTokenCounts
| ExportTokensToJson (filePath : string).

Inductive answer :=
| Tokens (ts : list DesignToken)
| Token (t : option DesignToken)
| Match (m : option TokenMatch)
| Counts (c : TokenCounts)
| Done.

Definition ask (stringify : list DesignToken -> string)
  (writeFile : string -> string -> option string)
  (reg : TokenRegistry) (q : query) : outcome answer :=
  match q with
  | GetTokensByCategory c => Ok (Tokens (getTokensByCategory reg c))
  | GetAllTokens => Ok (Tokens (getAllTokens reg))
  | FindTokenByName n => Ok (Token (findTokenByName reg n))
  | FindTokenByCssVariable v => Ok (Token (findTokenByCssVariable reg v))
  | FindClosestColorMatch v opts =>
      outcome_map Match (findClosestColorMatch reg v opts)
  | FindBestMatch v c opts => outcome_map Match (findBestMatch reg v c opts)
  | GetTokenCounts => Ok (Counts (getTokenCounts reg))
  | ExportTokensToJson path =>
      outcome_map (fun _ => Done)
        (exportTokensToJson stringify writeFile reg path)
  end.

(** The methods whose body begins with the check of [initialized]. *)
Definition guarded (q : query) : bool :=
  match q with
  | FindClosestColorMatch _ _ | FindBestMatch _ _ _ | ExportTokensToJson _ =>
      true
  | _ => false
  end.

(** What the other methods answer when the registry holds no token. *)
Definition empty_answer (q : query) : answer :=
  match q with
  | GetTokensByCategory _ | GetAllTokens => Tokens []
  | FindTokenByName _ | FindTokenByCssVariable _ => Token None
  | GetTokenCounts =>
      Counts {| count_color := 0; count_typography := 0; count_spacing := 0;
                count_borderRadius := 0; count_shadow := 0 |}
  | FindClosestColorMatch _ _ | FindBestMatch _ _ _ => Match None
  | ExportTokensToJson _ => Done
  end.

End TokenRegistry.

(** ** The registry as objects in a store

    The accessors [getTokensByCategory] and [getAllTokens] return arrays,
    and arrays and tokens are objects with an identity: what a caller does
    to a returned array is visible to the registry exactly when the array
    is one of its own. This module models the registry's arrays and tokens
    as objects in a store; [view] relates it to the record of lists of
    [TokenRegistry]. *)

Module Store.
Import CoreTypes.

Abbreviation loc := positive.

Inductive object :=
| OArray (elements : list loc)                  (* an array of tokens *)
| OToken (t : DesignToken)                      (* a token *)
| OCounts (c : TokenRegistry.TokenCounts).      (* the result of [getTokenCounts] *)

Abbreviation store := (gmap loc object).

(** The fields of the registry object that hold arrays. *)
Record registry := {
  colorTokens : loc;
  typographyTokens : loc;
  spacingTokens : loc;
  borderRadiusTokens : loc;
  shadowTokens : loc;
  cssVars : list (string * string);
  initialized : bool;
  options : TokenRegistryOptions
}.

Definition field (reg : registry) (c : TokenCategory) : loc :=
  match c with
  | color => colorTokens reg
  | typography => typographyTokens reg
  | spacing => spacingTokens reg
  | borderRadius => borderRadiusTokens reg
  | shadow => shadowTokens reg
  end.

(** The references an array holds. *)
Definition elements_of (h : store) (a : loc) : list loc :=
  match h !! a with
  | Some (OArray ls) => ls
  | _ => []
  end.

Definition token_at (h : store) (l : loc) : option DesignToken :=
  match h !! l with
  | Some (OToken t) => Some t
  | _ => None
  end.

(** The tokens an array holds. *)
Definition contents (h : store) (a : loc) : list DesignToken :=
  omap (token_at h) (elements_of h a).

(** [new Array] with the given elements: a location that is not in use. *)
Definition alloc (h : store) (o : object) : store * loc :=
  let a := fresh (dom h) in (<[a := o]> h, a).

(** [[...this.xTokens]]. *)
Definition getTokensByCategory (h : store) (reg : registry) (c : TokenCategory)
  : store * loc :=
  alloc h (OArray (elements_of h (field reg c))).

(** [[...this.colorTokens, ..., ...this.shadowTokens]]. *)
Definition getAllTokens (h : store) (reg : registry) : store * loc :=
  alloc h (OArray (elements_of h (colorTokens reg)
                   ++ elements_of h (typographyTokens reg)
                   ++ elements_of h (spacingTokens reg)
                   ++ elements_of h (borderRadiusTokens reg)
                   ++ elements_of h (shadowTokens reg))).

Definition getTokenCounts (h : store) (reg : registry) : store * loc :=
  alloc h (OCounts
             {| TokenRegistry.count_color := length (elements_of h (colorTokens reg));
                TokenRegistry.count_typography :=
                  length (elements_of h (typographyTokens reg));
                TokenRegistry.count_spacing :=
                  length (elements_of h (spacingTokens reg));
                TokenRegistry.count_borderRadius :=
                  length (elements_of h (borderRadiusTokens reg));
                TokenRegistry.count_shadow :=
                  length (elements_of h (shadowTokens reg)) |}).

Definition as_color (t : DesignToken) : option ColorToken :=
  match t with Color c => Some c | _ => None end.
Definition as_typography (t : DesignToken) : option TypographyToken :=
  match t with Typography c => Some c | _ => None end.
Definition as_spacing (t : DesignToken) : option SpacingToken :=
  match t with Spacing c => Some c | _ => None end.
Definition as_borderRadius (t : DesignToken) : option BorderRadiusToken :=
  match t with BorderRadius c => Some c | _ => None end.
Definition as_shadow (t : DesignToken) : option ShadowToken :=
  match t with Shadow c => Some c | _ => None end.

(** The registry as [TokenRegistry] has it: each array read through the
    store. *)
Definition view (h : store) (reg : registry) : TokenRegistry.TokenRegistry :=
  {| TokenRegistry.colorTokens := omap as_color (contents h (colorTokens reg));
     TokenRegistry.typographyTokens :=
       omap as_typography (contents h (typographyTokens reg));
     TokenRegistry.spacingTokens :=
       omap as_spacing (contents h (spacingTokens reg));
     TokenRegistry.borderRadiusTokens :=
       omap as_borderRadius (contents h (borderRadiusTokens reg));
     TokenRegistry.shadowTokens :=
       omap as_shadow (contents h (shadowTokens reg));
     TokenRegistry.cssVars := cssVars reg;
     TokenRegistry.initialized := initialized reg;
     TokenRegistry.options := options reg |}.

(** The arrays of the registry are arrays in the store, and each holds
    tokens of its category that are in the store. *)
Definition array_ok (h : store) (reg : registry) (c : TokenCategory) : Prop :=
  exists ls, h !! field reg c = Some (OArray ls)
    /\ Forall (fun l => exists t, h !! l = Some (OToken t) /\ category t = c) ls.

Definition wf (h : store) (reg : registry) : Prop :=
  forall c, array_ok h reg c.

(** What a caller can do to an object it holds: replace what is stored
    at its location (for an array: [push], [pop], [splice], an assignment
    to an index or to [length], ...). *)
Definition mutate (h : store) (a : loc) (o : object) : store := <[a := o]> h.

(** Nothing that is in the store [h] is different in [h1]. *)
Definition untouched (h h1 : store) : Prop :=
  forall l, l ∈ dom h -> h1 !! l = h !! l.

(** [a], handed out in the store [h1] by an accessor called in [h], is a
    copy: a new object, with nothing of [h] changed, and whatever is stored
    at [a] afterwards the registry and its arrays read as they did in [h]. *)
Record fresh_copy (h : store) (reg : registry) (h1 : store) (a : loc)
  : Prop := {
  copy_new : a ∉ dom h;
  copy_not_internal : forall c, a <> field reg c;
  copy_frame : untouched h h1;
  copy_view : view h1 reg = view h reg;
  copy_mutation : forall o,
    view (mutate h1 a o) reg = view h reg
    /\ forall c, contents (mutate h1 a o) (field reg c)
                 = contents h (field reg c)
}.

(** The references that the arrays of the registry hold, in the order of
    [getAllTokens]. *)
Definition all_elements (h : store) (reg : registry) : list loc :=
  elements_of h (colorTokens reg) ++ elements_of h (typographyTokens reg)
  ++ elements_of h (spacingTokens reg) ++ elements_of h (borderRadiusTokens reg)
  ++ elements_of h (shadowTokens reg).

(** [token.value = v], for a token whose [value] is a text: a spacing, a
    border radius or a shadow token. *)
Definition with_value (v : string) (t : DesignToken) : option DesignToken :=
  match t with
  | Spacing s =>
      Some (Spacing {| spacing_base := spacing_base s; spacing_value := v |})
  | BorderRadius b =>
      Some (BorderRadius {| borderRadius_base := borderRadius_base b;
                            borderRadius_value := v |})
  | Shadow s =>
      Some (Shadow {| shadow_base := shadow_base s; shadow_value := v;
                      components := components s |})
  | Color _ | Typography _ => None
  end.

(** [a[i].value = v] for an array [a] of tokens: the assignment goes to
    the object that the element of the array refers to.  [None] where
    [a[i]] is [undefined] (a TypeError) and for a colour or typography
    token, whose [value] is no text. *)
Definition assign_value (h : store) (a : loc) (i : nat) (v : string)
  : option store :=
  match elements_of h a !! i with
  | Some l =>
      match token_at h l with
      | Some t =>
          match with_value v t with
          | Some t' => Some (mutate h l (OToken t'))
          | None => None
          end
      | None => None
      end
  | None => None
  end.

End Store.

(** ** The texts of the scenarios *)

Module Examples.
Import JS CoreTypes.

(** The element of the utility-class scenario. *)
Definition colour_classes : string :=
  "<div className=" +:+ dq +:+ "bg-[#25C9D0] text-[rgb(85,85,85)]" +:+ dq
  +:+ ">".

(** A style object held in a variable that is declared before an element
    with a literal style object. *)
Definition style_variable_first : string :=
  "const s = { color: '#fff' };" +:+ nl
  +:+ "<a style={{ color: '#000' }} /><b style={s} />".

(** A stand-in for the malformed [elementRegex] of the utility-class
    matcher: the pattern of the inline-style matcher. *)
Definition some_elementRegex : Regex.regex :=
  Regex.RSeq (Regex.RChar "<")
    (Regex.RGroup 1
       (Regex.RQuant 1 None true
          (Regex.RClass false
             [Regex.CRange "A" "Z"; Regex.CRange "a" "z";
              Regex.CRange "0" "9"]))).

Definition spacing_sm : string := "--spacing-sm: 1rem;".

Definition small_theme : string :=
  ":root {" +:+ nl
  +:+ "  --color-primary: #25C9D0;" +:+ nl
  +:+ "  --white: oklch(1 0 0);" +:+ nl
  +:+ "  --spacing-sm: 1rem;" +:+ nl
  +:+ "  --border-radius-md: 1rem;" +:+ nl
  +:+ "  --shadow-lg: 0 4px 8px rgba(0, 0, 0, 0.2);" +:+ nl
  +:+ "  --heading-font-size: 2rem;" +:+ nl
  +:+ "}".

Definition from_content (css : string) : TokenRegistryOptions :=
  {| cssPath := None; cssContent := Some css; normalizeColors := None |}.

(** A file system without files. *)
Definition no_files (path : string) : string + string :=
  inr "ENOENT: no such file or directory".

End Examples.

(** A registry in a store, with one spacing and one border radius token. *)

Module StoreExample.
Import CoreTypes Store.

Definition sm : DesignToken :=
  Spacing {| spacing_base := {| name := "sm"; cssVariable := "--spacing-sm";
                                tailwindClass := Some "p-sm";
                                description := None |};
             spacing_value := "1rem" |}.

Definition xl : DesignToken :=
  Spacing {| spacing_base := {| name := "xl"; cssVariable := "--spacing-xl";
                                tailwindClass := Some "p-xl";
                                description := None |};
             spacing_value := "4rem" |}.

Definition md : DesignToken :=
  BorderRadius {| borderRadius_base :=
                    {| name := "md"; cssVariable := "--border-radius-md";
                       tailwindClass := Some "rounded-md";
                       description := None |};
                  borderRadius_value := "1rem" |}.

(** A registry with one spacing and one border radius token. *)
Definition objects : store :=
  <[1%positive := OArray []]> (<[2%positive := OArray []]>
  (<[3%positive := OArray [6%positive]]> (<[4%positive := OArray [7%positive]]>
  (<[5%positive := OArray []]> (<[6%positive := OToken sm]>
  (<[7%positive := OToken md]> ∅)))))).

Definition reg : registry :=
  {| colorTokens := 1; typographyTokens := 2; spacingTokens := 3;
     borderRadiusTokens := 4; shadowTokens := 5;
     cssVars := [("--spacing-sm", "1rem"); ("--border-radius-md", "1rem")];
     initialized := true;
     options := Examples.from_content "--spacing-sm: 1rem; --border-radius-md: 1rem;" |}.

End StoreExample.

(** ** Predicates used in the statements *)

Module Invariants.
Import JS Num ColorUtils CoreTypes TokenRegistry.

(** A text without white space. *)
Definition spaceless (s : string) : Prop :=
  forallb (fun c => negb (is_space c)) (list_ascii_of_string s) = true.

(** What [toHex] and [parseInt] do to one channel value: two digits that
    read back as the value. *)
Definition channel_spec (n : Z) : Prop :=
  let h := toHex (of_Z n) in
  len h = 2 /\ parseInt h 16 = of_Z n
  /\ forallb (fun c => negb (is_space c)) (list_ascii_of_string h) = true.

Fixpoint all_below (P : nat -> Prop) (k : nat) : Prop :=
  match k with
  | 0 => True
  | S k' => P k' /\ all_below P k'
  end.

(** No spacing token of the registry has a value in one of the colour
    formats: [createTokens] tries the colour formats first. *)
Definition spacing_not_colors (reg : TokenRegistry) : Prop :=
  Forall (fun t => isColorValue (spacing_value t) = Ok false)
    (spacingTokens reg).

(** An entry of the variable table that becomes a spacing token of the
    given value: the value is not a reference, and the name of the variable
    contains "spacing". *)
Definition spacing_entry (v : string) (entry : string * string) : bool :=
  String.eqb (snd entry) v && includes "spacing" (fst entry).

(** The variables of the spacing tokens of value [v], in order. *)
Definition spacing_variables (v : string) (reg : TokenRegistry) : list string :=
  (fun t => cssVariable (spacing_base t))
  <$> List.filter (fun t => String.eqb (spacing_value t) v) (spacingTokens reg).

(** The name of a spacing token is derived from its variable. *)
Definition spacing_names_derived (reg : TokenRegistry) : Prop :=
  Forall (fun t => getNameFromCssVariable (cssVariable (spacing_base t))
                   = Ok (name (spacing_base t)))
    (spacingTokens reg).

(** The hexadecimal digits, in both cases. *)
Definition hex_chars : list ascii :=
  list_ascii_of_string "0123456789abcdefABCDEF".

(** A pair of hexadecimal digits is read by [parseInt] and written back
    by [toHex] in lower case. *)
Definition hex_pair_spec (a b : ascii) : Prop :=
  toHex (parseInt (String a (String b "")) 16)
  = String (lower_char a) (String (lower_char b) "").

(** The same for a pair read as an alpha channel: the value is divided by
    255 on the way in and multiplied by 255 on the way out, and [rgbToHex]
    writes it only when it is below 1, that is unless the pair is "ff". *)
Definition alpha_pair_spec (a b : ascii) : Prop :=
  let alpha := (parseInt (String a (String b "")) 16 / 255)%float in
  (alpha <? 1)%float
  = negb (Ascii.eqb (lower_char a) "f" && Ascii.eqb (lower_char b) "f")
  /\ toHex (Math_round (alpha * 255)%float)
     = String (lower_char a) (String (lower_char b) "").

Fixpoint all_in (P : ascii -> Prop) (l : list ascii) : Prop :=
  match l with
  | [] => True
  | c :: l' => P c /\ all_in P l'
  end.

Definition all_pairs (P : ascii -> ascii -> Prop) : Prop :=
  all_in (fun a => all_in (P a) hex_chars) hex_chars.

(** A character that [parseInt] reads as a digit in radix 16. *)
Definition is_hex_digit (c : ascii) : bool :=
  match digit_value 16 c with Some _ => true | None => false end.

(** The integer distance of two channel values. *)
Definition gap (a b : nat) : nat := (a - b) + (b - a).

(** The number of the square of [k]. *)
Definition square (k : nat) : number := of_Z (Z.of_nat (k * k)).

(** The squares of the differences that two channel values can have. *)
Definition squares : list number := List.map square (seq 0 256).

(** The last steps of [calculateColorDistance], from the three squares. *)
Definition distance_of (rDiff gDiff bDiff : number) : number :=
  (Math_sqrt (rDiff + gDiff + bDiff) / (255 * Math_sqrt 3))%float.

(** The distance of black and white, the largest there is: one unit in
    the last place above 1. *)
Definition largest_distance : number := 0x1.0000000000001p+0%float.

Definition distance_ok (rDiff gDiff bDiff : number) : bool :=
  let d := distance_of rDiff gDiff bDiff in
  (0 <=? d)%float && (d <=? largest_distance)%float
  && Bool.eqb (d =? 0)%float
       ((rDiff =? 0)%float && (gDiff =? 0)%float && (bDiff =? 0)%float).

(** The channel values with their numbers. *)
Definition channel_table : list (nat * number) :=
  List.map (fun k => (k, of_Z (Z.of_nat k))) (seq 0 256).

(** A property of the options that is [undefined] or the empty string. *)
Definition absent (v : option string) : Prop := v = None \/ v = Some "".

(** The distance of a colour token to a target, as [findClosestColorMatch]
    computes it. *)
Definition token_distance (target : ColorFormats) (t : ColorToken) : number :=
  calculateColorDistance (rgb target) (rgb (color_value t)).

(** The registry after a successful [initialize] from the style sheet
    [css]: the variable table is the one [parseCssVariables] reads. *)
Definition loaded_from (css : string) (ropts : TokenRegistryOptions)
  (reg : TokenRegistry) : Prop :=
  initialized reg = true /\ options reg = ropts
  /\ exists reg1,
       parseCssVariables css (new_ ropts) = Ok reg1
       /\ cssVars reg = cssVars reg1.

(** The category under which [createTokens] files an entry of the
    variable table, [None] when it skips the entry: a reference to another
    variable is skipped, a value in a colour format is a colour whatever the
    name of the variable, and the names are tried in the order spacing,
    border-radius, shadow, typography. *)
Definition classify (entry : string * string) : option TokenCategory :=
  if startsWith "var(" (snd entry) then None
  else
    match isColorValue (snd entry) with
    | Ok true => Some color
    | _ =>
        if includes "spacing" (fst entry) then Some spacing
        else if includes "border-radius" (fst entry) then Some borderRadius
        else if includes "shadow" (fst entry) then Some shadow
        else if isTypographyProperty (fst entry) then Some typography
        else None
    end.

Definition filed_under (c : TokenCategory) (entry : string * string) : bool :=
  bool_decide (classify entry = Some c).

(** A colour entry whose value [parseColor] accepts. *)
Definition parsed_color (entry : string * string) : bool :=
  filed_under color entry
  && match parseColor (snd entry) with Ok _ => true | _ => false end.

(** A colour token whose value [isColorValue] accepts and whose formats
    are what [parseColor] makes of the value. *)
Definition color_checked (t : ColorToken) : Prop :=
  isColorValue (color_originalValue t) = Ok true
  /\ parseColor (color_originalValue t) = Ok (color_value t).

(** Variable and value of the tokens of a category. *)
Definition color_entries (reg : TokenRegistry) : list (string * string) :=
  (fun t => (cssVariable (color_base t), color_originalValue t))
  <$> colorTokens reg.
Definition spacing_entries (reg : TokenRegistry) : list (string * string) :=
  (fun t => (cssVariable (spacing_base t), spacing_value t))
  <$> spacingTokens reg.
Definition borderRadius_entries (reg : TokenRegistry) : list (string * string) :=
  (fun t => (cssVariable (borderRadius_base t), borderRadius_value t))
  <$> borderRadiusTokens reg.
Definition shadow_entries (reg : TokenRegistry) : list (string * string) :=
  (fun t => (cssVariable (shadow_base t), shadow_value t))
  <$> shadowTokens reg.

(** The tokens of the four categories that have one token per variable. *)
Record follows_table (entries : list (string * string)) (reg : TokenRegistry)
  : Prop := {
  ft_color : color_entries reg = List.filter parsed_color entries;
  ft_spacing : spacing_entries reg = List.filter (filed_under spacing) entries;
  ft_borderRadius :
    borderRadius_entries reg = List.filter (filed_under borderRadius) entries;
  ft_shadow : shadow_entries reg = List.filter (filed_under shadow) entries
}.

(** The variables of the entries of a table. *)
Definition keys (table : list (string * string)) : list string := fst <$> table.

(** The names of the typography tokens. *)
Definition typography_names (reg : TokenRegistry) : list string :=
  (fun t => name (typography_base t)) <$> typographyTokens reg.

(** An entry whose value is not a reference to another variable. *)
Definition plain_value (entry : string * string) : bool :=
  negb (startsWith "var(" (snd entry)).

(** The text without the first of the prefixes that it starts with. *)
Fixpoint strip_first (prefixes : list string) (s : string) : string :=
  match prefixes with
  | [] => s
  | p :: ps => if startsWith p s then drop (len p) s else strip_first ps s
  end.

(** The prefixes that [getNameFromCssVariable] removes, in the order of
    the alternatives of its regular expression. *)
Definition category_prefixes : list string :=
  ["color-"; "font-"; "spacing-"; "border-radius-"; "shadow-"].

(** The name of a variable, by prefixes: without the leading dashes, and
    without one category prefix. *)
Definition friendly_name (cssVariable_ : string) : string :=
  strip_first category_prefixes (strip_first ["--"] cssVariable_).

(** For the categories whose tokens stand for one variable: the prefix of
    the variable that gives the token a Tailwind class, and the prefix of
    that class. *)
Definition tailwind_prefix (c : TokenCategory) : option (string * string) :=
  match c with
  | color => Some ("--color-", "text-")
  | spacing => Some ("--spacing-", "p-")
  | borderRadius => Some ("--border-radius-", "rounded-")
  | shadow => Some ("--shadow-", "shadow-")
  | typography => None
  end.

(** How the common fields of a token hang together. *)
Definition well_named (t : DesignToken) : Prop :=
  description (base t) = None
  /\ match tailwind_prefix (category t) with
     | Some (variablePrefix, classPrefix) =>
         name (base t) = friendly_name (cssVariable (base t))
         /\ tailwindClass (base t)
            = if startsWith variablePrefix (cssVariable (base t))
              then Some (classPrefix +:+ name (base t)) else None
     | None =>
         cssVariable (base t) = "--" +:+ name (base t)
         /\ tailwindClass (base t) = None
     end.

(** The words by which [createTokens] files a variable under spacing,
    border radius or shadow. *)
Definition category_words : list string := ["spacing"; "border-radius"; "shadow"].

(** A text that contains none of these words. *)
Definition wordless (s : string) : Prop :=
  Forall (fun w => includes w s = false) category_words.

(** The variables of the tokens of a category. *)
Definition color_vars (reg : TokenRegistry) : list string :=
  (fun t => cssVariable (color_base t)) <$> colorTokens reg.
Definition spacing_vars (reg : TokenRegistry) : list string :=
  (fun t => cssVariable (spacing_base t)) <$> spacingTokens reg.
Definition borderRadius_vars (reg : TokenRegistry) : list string :=
  (fun t => cssVariable (borderRadius_base t)) <$> borderRadiusTokens reg.
Definition shadow_vars (reg : TokenRegistry) : list string :=
  (fun t => cssVariable (shadow_base t)) <$> shadowTokens reg.
Definition typography_vars (reg : TokenRegistry) : list string :=
  (fun t => cssVariable (typography_base t)) <$> typographyTokens reg.

(** The channel that [approximateOklchToRgb] makes of a lightness alone:
    the lightness is clamped to [0, 1], scaled to 255, rounded and clamped
    again. *)
Definition grey_level (l : number) : number :=
  Math_max 0 (Math_min 255 (Math_round (Math_max 0 (Math_min 1 l) * 255)%float)).

(** The value is in the OKLCH format of [isColorValue], the last of its
    formats. *)
Definition in_oklch_format (v : string) : bool :=
  match regexp (List.last colorFormats "") with
  | Ok re => Regex.test false re (trim v)
  | _ => false
  end.

End Invariants.

(** ** Predicates on texts, patterns and match records *)

Module MatcherInvariants.
Import JS Regex RegexSpec MatcherTypes.

(** Number of line feeds in a text. *)
Fixpoint line_feeds (s : string) : nat :=
  match s with
  | "" => 0
  | String c s' => (if Ascii.eqb c "010" then 1 else 0) + line_feeds s'
  end.

(** The regular expression of a literal text. *)
Fixpoint literal (c : ascii) (s : string) : regex :=
  match s with
  | "" => RChar c
  | String c' s' => RSeq (RChar c) (literal c' s')
  end.

(** The state after the text [p] has been matched. *)
Fixpoint skip_text (p : string) (st : mstate) : mstate :=
  match p with
  | "" => st
  | String c p' =>
      skip_text p' (MState (S (pos st)) (Some c)
                      (match rest st with String _ s' => s' | "" => "" end)
                      (caps st))
  end.

(** The least number of code units that a match of [r] consumes, counting
    nothing for what is repeated or only looked at. *)
Fixpoint min_len (r : regex) : nat :=
  match r with
  | RChar _ | RAny | RClass _ _ => 1
  | RSeq r1 r2 => min_len r1 + min_len r2
  | RAlt r1 r2 => Nat.min (min_len r1) (min_len r2)
  | RGroup _ r1 => min_len r1
  | _ => 0
  end.

Definition least (a b : option nat) : option nat :=
  match a, b with
  | Some x, Some y => Some (Nat.min x y)
  | Some x, None => Some x
  | None, _ => b
  end.

(** The least number of code units between the start of a match of [r]
    and the start of a capture of one of its groups; [None] for a pattern
    without groups. *)
Fixpoint lead (r : regex) : option nat :=
  match r with
  | RSeq r1 r2 => least (lead r1) ((fun n => min_len r1 + n) <$> lead r2)
  | RAlt r1 r2 => least (lead r1) (lead r2)
  | RQuant _ _ _ r1 => lead r1
  | RGroup _ _ => Some 0
  | _ => None
  end.

(** The greatest number of code units that a match of [r] consumes;
    [None] when there is no bound. *)
Fixpoint max_len (r : regex) : option nat :=
  match r with
  | RChar _ | RAny | RClass _ _ => Some 1
  | RSeq r1 r2 =>
      match max_len r1, max_len r2 with
      | Some x, Some y => Some (x + y)
      | _, _ => None
      end
  | RAlt r1 r2 =>
      match max_len r1, max_len r2 with
      | Some x, Some y => Some (Nat.max x y)
      | _, _ => None
      end
  | RGroup _ r1 => max_len r1
  | RQuant _ _ _ _ => None
  | _ => Some 0
  end.

(** The greatest number of code units between the start of a match of [r]
    and the start of a capture of one of its groups; [None] when there is no
    bound. *)
Fixpoint reach (r : regex) : option nat :=
  match r with
  | RSeq r1 r2 =>
      match groups r2 with
      | [] => reach r1
      | _ =>
          match reach r1, max_len r1, reach r2 with
          | Some x, Some l, Some y => Some (Nat.max x (l + y))
          | _, _, _ => None
          end
      end
  | RAlt r1 r2 =>
      match reach r1, reach r2 with
      | Some x, Some y => Some (Nat.max x y)
      | _, _ => None
      end
  | RQuant _ _ _ r1 => match groups r1 with [] => Some 0 | _ => None end
  | RGroup _ r1 => reach r1
  | _ => Some 0
  end.

(** *** The matcher, read exactly *)

Section Accepts.
Variable dotall : bool.

(** [Accepts r st st']: as [Matches], and the code units that are read
    and the assertions that are passed are as [r] asks. *)
Fixpoint Accepts (r : regex) (st st' : mstate) : Prop :=
  match r with
  | REmpty | RNLook _ => st' = st
  | RChar ch => exists c, advance st = Some (c, st') /\ c = ch
  | RAny =>
      exists c, advance st = Some (c, st')
        /\ dotall || negb (is_line_terminator c) = true
  | RClass neg items =>
      exists c, advance st = Some (c, st') /\ class_matches neg items c = true
  | RSeq r1 r2 => exists mid, Accepts r1 st mid /\ Accepts r2 mid st'
  | RAlt r1 r2 => Accepts r1 st st' \/ Accepts r2 st st'
  | RQuant _ _ _ r1 => iter (Accepts r1) (groups r1) st st'
  | RGroup i r1 =>
      exists st1, Accepts r1 st st1 /\ st' = set_cap i (pos st) (pos st1) st1
  | RWordB => st' = st /\ xorb (word_before st) (word_after st) = true
  | RBol => st' = st /\ pos st = 0
  | REol => st' = st /\ rest st = ""
  end.

End Accepts.

(** The state [st] is at its offset in the subject [s]. *)
Definition at_subject (s : string) (st : mstate) : Prop :=
  pos st <= len s /\ rest st = drop (pos st) s.

(** *** The pattern of [varDefRegex] *)

(** A code unit of an identifier, as [styleSpreadRegex] captures it. *)
Definition is_name_char (c : ascii) : bool :=
  class_matches false
    [CRange "a" "z"; CRange "A" "Z"; CRange "0" "9"; CRange "_" "_"] c.

Definition is_name (s : string) : Prop :=
  Forall (fun c => is_name_char c = true) (list_ascii_of_string s).

(** The regular expression of the text [s] followed by [r]. *)
Fixpoint name_then (s : string) (r : regex) : regex :=
  match s with
  | "" => r
  | String c s' => RSeq (RChar c) (name_then s' r)
  end.

(** A code unit after which the parser has nothing to decide: a code unit
    of an identifier, or the backslash of an escape. *)
Definition quiet (c : ascii) : bool := is_name_char c || Ascii.eqb c "\".

(** The regular expressions of the two ends of the pattern of
    [varDefRegex]. *)
Definition keywords : regex :=
  RGroup 1 (RAlt (name_then "cons" (RChar "t"))
              (RAlt (name_then "le" (RChar "t"))
                 (name_then "va" (RChar "r")))).

Definition varDef_tail : string := "\s*=\s*({[^;]+})".

Definition varDef_tail_regex : regex :=
  RSeq (RQuant 0 None true (one CSpace))
    (RSeq (RChar "=")
       (RSeq (RQuant 0 None true (one CSpace))
          (RGroup 2
             (RSeq (RChar "{")
                (RSeq (RQuant 1 None true (RClass true [CRange ";" ";"]))
                   (RChar "}")))))).

(** *** White space and separators *)

(** The text without its white space. *)
Fixpoint without_spaces (s : string) : string :=
  match s with
  | "" => ""
  | String c s' =>
      if is_space c then without_spaces s' else String c (without_spaces s')
  end.

(** The state of the matcher after the white space at the head of [t]. *)
Fixpoint past_spaces (p : nat) (pv : option ascii) (t : string)
  (cs : captures) : mstate :=
  match t with
  | String c t' =>
      if is_space c then past_spaces (S p) (Some c) t' cs
      else MState p pv t cs
  | "" => MState p pv "" cs
  end.

(** The first run of white space in [s], a text that starts at offset
    [p]: the offsets of its start and of its end. *)
Fixpoint first_run (p : nat) (s : string) : option (nat * nat) :=
  match s with
  | "" => None
  | String c s' =>
      if is_space c
      then Some (p, pos (past_spaces p None s []))
      else first_run (S p) s'
  end.

(** The regular expression of [\s+], and that of the separator of the
    components of an OKLCH colour. *)
Definition spacesRe : regex := RQuant 1 None true (RClass false [CSpace]).

Definition sepRe : regex :=
  RAlt (RQuant 1 None true (RClass false [CSpace]))
    (RSeq (RChar ",") (RQuant 0 None true (RClass false [CSpace]))).

(** A text without white space and without commas: nothing that separates
    the components of an OKLCH colour. *)
Definition unbroken (s : string) : Prop :=
  Forall (fun c => is_space c = false /\ c <> ","%char)
    (list_ascii_of_string s).

(** A text without commas. *)
Definition comma_free (s : string) : Prop :=
  Forall (fun c => c <> ","%char) (list_ascii_of_string s).

(** *** Anchored patterns *)

(** The code units that a match of [r] can read. *)
Fixpoint reads (r : regex) (c : ascii) : bool :=
  match r with
  | RChar ch => Ascii.eqb ch c
  | RAny => true
  | RClass neg items => class_matches neg items c
  | RSeq r1 r2 | RAlt r1 r2 => reads r1 c || reads r2 c
  | RQuant _ _ _ r1 | RGroup _ r1 => reads r1 c
  | _ => false
  end.

(** A pattern that begins with [^], and one that ends with [$]. *)
Fixpoint from_start (r : regex) : bool :=
  match r with
  | RBol => true
  | RSeq r1 _ => from_start r1
  | RGroup _ r1 => from_start r1
  | RAlt r1 r2 => from_start r1 && from_start r2
  | _ => false
  end.

Fixpoint to_end (r : regex) : bool :=
  match r with
  | REol => true
  | RSeq _ r2 => to_end r2
  | RGroup _ r1 => to_end r1
  | RAlt r1 r2 => to_end r1 && to_end r2
  | _ => false
  end.

(** What every record of [TailwindClassMatcher.match] looks like, for the
    requested types [types_]. *)
Definition tailwind_record (source : string) (types_ : list MatchType)
  (r : MatchResult) : Prop :=
  scope r = className
  /\ type r ∈ types_
  /\ (exists prefix,
        object_get TailwindClassMatcher.TAILWIND_PREFIX_MAP prefix
        = Some (property r, type r)
        /\ path r = Some ["className"; prefix +:+ "[" +:+ value r +:+ "]"])
  /\ end_ (location r) = (start (location r) + Z.of_nat (len (value r)))%Z
  /\ (0 < start (location r))%Z
  /\ ctx_line (context r) = getFullLine source (start (location r))
  /\ (line (location r), column (location r))
     = getLineAndColumn source (start (location r)).

(** What every record of [InlineStyleMatcher.match] looks like. *)
Definition inline_record (source : string) (types_ : list MatchType)
  (r : MatchResult) : Prop :=
  scope r = style
  /\ type r ∈ types_
  /\ object_get CSS_PROPERTY_CATEGORIES (property r) = Some (type r)
  /\ value r <> ""
  /\ (exists raw, value r = trim raw)
  /\ InlineStyleMatcher.isValueMatchingType (value r) (type r) = Ok true
  /\ (path r = Some ["style"; property r]
      \/ exists variableName, path r = Some [variableName; "style"; property r])
  /\ end_ (location r) = (start (location r) + Z.of_nat (len (value r)))%Z
  /\ ctx_line (context r) = getFullLine source (start (location r))
  /\ (line (location r), column (location r))
     = getLineAndColumn source (start (location r)).

End MatcherInvariants.

(** * Properties *)

(** ** Outcomes *)

Lemma obind_Ok {A B} (x : outcome A) (f : A -> outcome B) b :
  obind x f = Ok b -> exists a, x = Ok a /\ f a = Ok b.
Proof. destruct x; simpl; try discriminate. eauto. Qed.

(** ** Strings *)

Module JSFacts.
Import JS.

Lemma len_drop n s : len (drop n s) = len s - n.
Proof.
  revert s; induction n as [|n IH]; intros [|c s]; simpl; auto.
Qed.

Lemma len_take n s : len (take n s) = Nat.min n (len s).
Proof.
  revert s; induction n as [|n IH]; intros [|c s]; simpl; auto.
Qed.

Lemma len_sub a b s : len (sub a b s) = Nat.min (b - a) (len s - a).
Proof. unfold sub. now rewrite len_take, len_drop. Qed.

Lemma len_sub_le a b s : len (sub a b s) <= b - a.
Proof. rewrite len_sub. lia. Qed.

Lemma len_sub_exact a b s : b <= len s -> len (sub a b s) = b - a.
Proof. intros. rewrite len_sub. lia. Qed.

Lemma len_app s t : len (s +:+ t) = len s + len t.
Proof. induction s; simpl; auto. Qed.

End JSFacts.

(** ** The matcher *)

Module RegexFacts.
Import JS Regex RegexSpec JSFacts.

Lemma within_refl st : within st st.
Proof. unfold within; intuition. Qed.

Lemma within_trans st1 st2 st3 :
  within st1 st2 -> within st2 st3 -> within st1 st3.
Proof.
  intros (H1 & H2 & H3) (K1 & K2 & K3). repeat split; try lia.
  intros i a b Hc. destruct (K3 _ _ _ Hc) as [Hc'|?]; [|right; lia].
  destruct (H3 _ _ _ Hc') as [?|?]; [now left|right; lia].
Qed.

Lemma clear_within gs st st' : within (clear_caps gs st) st' -> within st st'.
Proof.
  intros (H1 & H2 & H3); simpl in *. repeat split; auto.
  intros i a b Hc. destruct (H3 _ _ _ Hc) as [Hf|?]; auto.
  left. apply filter_In in Hf. tauto.
Qed.

Lemma advance_within st c st' : advance st = Some (c, st') -> within st st'.
Proof.
  unfold advance. destruct (rest st) eqn:E; [discriminate|].
  intros [= <- <-]. unfold within; simpl. rewrite E; simpl. repeat split; auto; lia.
Qed.

Lemma advance_pos st c st' : advance st = Some (c, st') -> pos st' = S (pos st).
Proof.
  unfold advance. destruct (rest st); [discriminate|]. now intros [= <- <-].
Qed.

Lemma advance_caps st c st' : advance st = Some (c, st') -> caps st' = caps st.
Proof.
  unfold advance. destruct (rest st); [discriminate|]. now intros [= <- <-].
Qed.

Lemma Matches_within r : forall st st', Matches r st st' -> within st st'.
Proof.
  induction r as [| ch | | neg items | r1 IH1 r2 IH2 | r1 IH1 r2 IH2
                 | mn mx g r1 IH | i r1 IH | r1 IH | | |]; simpl; intros st st' H;
    try solve [subst; apply within_refl];
    try solve [destruct H as [c H]; eapply advance_within; eauto].
  - destruct H as (mid & H1 & H2). eapply within_trans; eauto.
  - destruct H; eauto.
  - induction H as [|st y st' Hy _ IHi]; [apply within_refl|].
    eapply within_trans; [|exact IHi]. eapply clear_within; eauto.
  - destruct H as (st1 & H1 & ->). apply IH in H1.
    destruct H1 as (P1 & P2 & P3). unfold within, set_cap; simpl.
    repeat split; auto.
    intros j a b Hc. simpl in Hc. destruct Hc as [Hc|Hc]; [|auto].
    injection Hc as <- <- <-. right; lia.
Qed.

Lemma Matches_nonempty r :
  nonempty r = true -> forall st st', Matches r st st' -> pos st < pos st'.
Proof.
  induction r as [| ch | | neg items | r1 IH1 r2 IH2 | r1 IH1 r2 IH2
                 | mn mx g r1 IH | i r1 IH | r1 IH | | |]; simpl; intros Hn st st' H;
    try discriminate;
    try solve [destruct H as [c H]; apply advance_pos in H; lia].
  - destruct H as (mid & H1 & H2).
    pose proof (Matches_within _ _ _ H1) as (? & _).
    pose proof (Matches_within _ _ _ H2) as (? & _).
    apply orb_true_iff in Hn as [Hn|Hn]; [apply IH1 in H1|apply IH2 in H2]; auto; lia.
  - apply andb_true_iff in Hn as [Hn1 Hn2]. destruct H; auto.
  - destruct H as (st1 & H1 & ->). simpl. auto.
Qed.

Lemma clear_caps_nil st : clear_caps [] st = st.
Proof.
  destruct st as [p pv rs cs]; unfold clear_caps; simpl. f_equal.
  induction cs; simpl; auto. now f_equal.
Qed.

Lemma Matches_caps r :
  groups r = [] -> forall st st', Matches r st st' -> caps st' = caps st.
Proof.
  induction r as [| ch | | neg items | r1 IH1 r2 IH2 | r1 IH1 r2 IH2
                 | mn mx g r1 IH | i r1 IH | r1 IH | | |]; simpl; intros Hg st st' H;
    try solve [now subst];
    try solve [destruct H as [c H]; eapply advance_caps; eauto];
    try discriminate.
  - apply app_eq_nil in Hg as [Hg1 Hg2]. destruct H as (mid & H1 & H2).
    rewrite (IH2 Hg2 _ _ H2). now apply IH1.
  - apply app_eq_nil in Hg as [Hg1 Hg2]. destruct H; auto.
  - rewrite Hg in H. induction H as [|st y st' Hy _ IHi]; auto.
    rewrite IHi. rewrite (IH Hg _ _ Hy). now rewrite clear_caps_nil.
Qed.

Section Soundness.
Variable dotall : bool.

Lemma repeat_loop_sound m P gs greedy k :
  sound m P ->
  forall fuel mn mx st res,
    repeat_loop m gs greedy k fuel mn mx st = Some res ->
    exists st', iter P gs st st' /\ k st' = Some res.
Proof.
  intros Hm. induction fuel as [|fuel IH]; simpl; intros mn mx st res H;
    [discriminate|].
  remember (m (clear_caps gs st)
              (fun y => if (mn =? 0) && (pos y =? pos st) then None
                        else repeat_loop m gs greedy k fuel (Nat.pred mn)
                               (Nat.pred <$> mx) y)) as M eqn:EM.
  assert (Hagain : forall res', M = Some res' ->
    exists st', iter P gs st st' /\ k st' = Some res').
  { intros res' H'. rewrite EM in H'. apply Hm in H' as (y & Hy & Hk).
    destruct ((mn =? 0) && (pos y =? pos st)); [discriminate|].
    apply IH in Hk as (st' & Hi & Hk). exists st'. split; auto.
    eapply iter_step; eauto. }
  assert (Hstop : forall res', k st = Some res' ->
    exists st', iter P gs st st' /\ k st' = Some res').
  { intros res' H'. exists st. split; auto. constructor. }
  clear EM.
  assert (Hbody :
    (if negb (mn =? 0) then M
     else if greedy then match M with Some r => Some r | None => k st end
          else match k st with Some r => Some r | None => M end) = Some res ->
    exists st', iter P gs st st' /\ k st' = Some res).
  { destruct (mn =? 0); simpl; auto. destruct greedy.
    - destruct M; auto.
    - destruct (k st) eqn:Ek; auto. }
  destruct mx as [[|mx]|]; auto.
Qed.

Lemma rmatch_sound r : sound (rmatch dotall r) (Matches r).
Proof.
  induction r as [| ch | | neg items | r1 IH1 r2 IH2 | r1 IH1 r2 IH2
                 | mn mx g r1 IH | i r1 IH | r1 IH | | |]; intros st k res; simpl; intros H.
  - eauto.
  - destruct (advance st) as [[c st']|] eqn:E; [|discriminate].
    destruct (Ascii.eqb _ c); [eauto|discriminate].
  - destruct (advance st) as [[c st']|] eqn:E; [|discriminate].
    destruct (_ || _); [eauto|discriminate].
  - destruct (advance st) as [[c st']|] eqn:E; [|discriminate].
    destruct (class_matches _ _ c); [eauto|discriminate].
  - apply IH1 in H as (mid & H1 & H). apply IH2 in H as (st' & H2 & H). eauto.
  - destruct (rmatch dotall r1 st k) eqn:E.
    + injection H as ->. apply IH1 in E as (st' & ? & ?). eauto.
    + apply IH2 in H as (st' & ? & ?). eauto.
  - eapply repeat_loop_sound; eauto.
  - apply IH in H as (st1 & H1 & H). eauto.
  - destruct (rmatch dotall r1 st Some); [discriminate|eauto].
  - destruct (xorb _ _); [eauto|discriminate].
  - destruct (pos st =? 0); [eauto|discriminate].
  - destruct (rest st); [eauto|discriminate].
Qed.

(** A result of [search] is a match that starts at its index. *)
Lemma search_sound r s : forall skip p pv m,
  search dotall r skip p pv s = Some m ->
  exists pv' s' st',
    p + skip <= m_index m
    /\ m_index m + len s' = p + len s
    /\ Matches r (MState (m_index m) pv' s' []) st'
    /\ m_end m = pos st' /\ m_caps m = caps st'.
Proof.
  induction s as [|c s IH]; intros skip p pv m H; simpl in H.
  - destruct skip; [|discriminate].
    destruct (rmatch dotall r _ Some) as [st'|] eqn:E; [|discriminate].
    injection H as <-. apply rmatch_sound in E as (st'' & HM & E).
    injection E as ->.
    exists pv, "", st'. simpl. repeat split; auto; lia.
  - destruct skip as [|skip].
    + destruct (rmatch dotall r _ Some) as [st'|] eqn:E.
      * injection H as <-. apply rmatch_sound in E as (st'' & HM & E).
        injection E as ->.
        exists pv, (String c s), st'. simpl. repeat split; auto; lia.
      * apply IH in H as (pv' & s' & st' & ? & ? & ? & ? & ?).
        exists pv', s', st'. simpl in *. repeat split; auto; lia.
    + apply IH in H as (pv' & s' & st' & ? & ? & ? & ? & ?).
      exists pv', s', st'. simpl in *. repeat split; auto; lia.
Qed.

Lemma exec_sound r s lastIndex m :
  exec dotall r s lastIndex = Some m -> exec_spec r s lastIndex m.
Proof.
  unfold exec. intros H.
  apply search_sound in H as (pv' & s' & st' & H1 & H2 & HM & H4 & H5).
  pose proof (Matches_within _ _ _ HM) as (W1 & W2 & W3). simpl in *.
  split; try lia.
  - intros i a b Hc. rewrite H5 in Hc. destruct (W3 _ _ _ Hc) as [[]|?]. lia.
  - intros Hn. apply (Matches_nonempty _ Hn) in HM. simpl in HM. lia.
Qed.


Lemma exec_loop_chain r s : forall fuel lastIndex ms,
  exec_loop dotall fuel r s lastIndex = Some ms -> chain dotall r s lastIndex ms.
Proof.
  induction fuel as [|fuel IH]; simpl; intros k ms H; [discriminate|].
  destruct (exec dotall r s k) as [m|] eqn:E.
  - destruct (m_end m =? m_index m) eqn:En; [discriminate|].
    destruct (exec_loop dotall fuel r s (m_end m)) as [ms'|] eqn:El;
      [|discriminate].
    injection H as <-. simpl. apply IH in El.
    apply Nat.eqb_neq in En. pose proof (exec_sound _ _ _ _ E) as [].
    repeat split; auto; lia.
  - injection H as <-. exact I.
Qed.

(** A loop over a pattern that cannot match the empty string ends. *)
Lemma exec_loop_total r s :
  nonempty r = true ->
  forall fuel lastIndex, lastIndex <= len s -> len s < fuel + lastIndex ->
    exists ms, exec_loop dotall fuel r s lastIndex = Some ms.
Proof.
  intros Hn. induction fuel as [|fuel IH]; intros k Hk Hf; [lia|]. simpl.
  destruct (exec dotall r s k) as [m|] eqn:E; [|eauto].
  apply exec_sound in E as [? ? ? ? Hne]. specialize (Hne Hn).
  replace (m_end m =? m_index m) with false
    by (symmetry; apply Nat.eqb_neq; lia).
  destruct (IH (m_end m)) as [ms ->]; try lia. simpl. eauto.
Qed.

Lemma exec_all_total r s :
  nonempty r = true -> exists ms, exec_all dotall r s = Some ms.
Proof. intros Hn. apply exec_loop_total; auto; lia. Qed.

End Soundness.

(** The text of a capture lies in the match. *)
Lemma capture_inv s m i t :
  capture s m i = Some t ->
  exists a b, In (i, (a, b)) (m_caps m) /\ t = sub a b s.
Proof.
  unfold capture. destruct (List.find _ _) as [[j [a b]]|] eqn:E; [|discriminate].
  intros [= <-]. apply find_some in E as [Hin Hj]. simpl in Hj.
  apply Nat.eqb_eq in Hj as ->. eauto.
Qed.

End RegexFacts.

(** ** TailwindClassMatcher *)

Module TailwindFacts.
Import JS Regex RegexSpec MatcherTypes TailwindClassMatcher JSFacts RegexFacts.

(** A pattern of the shape [\b(g1)c1(g2)c2]: capture 1 begins where the
    match begins and is followed by at least two more code units. *)
Lemma bracket_shape g1 g2 c1 c2 st st' :
  groups g1 = [] -> groups g2 = [] -> caps st = [] ->
  Matches (RSeq RWordB (RSeq (RGroup 1 g1) (RSeq (RChar c1)
             (RSeq (RGroup 2 g2) (RChar c2))))) st st' ->
  exists e1, pos st <= e1 /\ e1 + 2 <= pos st'
    /\ List.find (fun c => fst c =? 1) (caps st') = Some (1, (pos st, e1)).
Proof.
  intros G1 G2 C0 H. simpl in H.
  destruct H as (? & -> & sA & (s1 & M1 & ->) & sB & (? & A1) & sC
                 & (s3 & M2 & ->) & (? & A2)).
  pose proof (Matches_within _ _ _ M1) as (W1 & _).
  pose proof (Matches_within _ _ _ M2) as (W2 & _).
  apply (Matches_caps _ G1) in M1. apply (Matches_caps _ G2) in M2.
  pose proof (advance_pos _ _ _ A1) as P1. pose proof (advance_caps _ _ _ A1) as K1.
  pose proof (advance_pos _ _ _ A2) as P2. pose proof (advance_caps _ _ _ A2) as K2.
  simpl in *. exists (pos s1). repeat split; try lia.
  rewrite K2, M2, K1, M1, C0. reflexivity.
Qed.

Lemma arbitrary_extent arbRe s k am :
  regexp arbitraryValueRegex = Ok arbRe ->
  exec false arbRe s k = Some am ->
  m_index am + len (default "" (capture s am 1)) + 2 <= m_end am.
Proof.
  intros Hre He. vm_compute in Hre. injection Hre as <-.
  unfold exec in He.
  apply search_sound in He as (pv' & s' & st' & H1 & H2 & HM & H4 & H5).
  apply bracket_shape in HM as (e1 & E1 & E2 & E3); try reflexivity.
  simpl in *. unfold capture. rewrite H5, E3. simpl.
  pose proof (len_sub_le (m_index am) e1 s). lia.
Qed.

Lemma start_createMatchLocation source a b :
  start (createMatchLocation source a b) = a.
Proof.
  unfold createMatchLocation. now destruct (getLineAndColumn source a).
Qed.

Lemma arbitrary_start er source types_ cn am rec :
  arbitrary er source types_ cn am = Some rec ->
  start (location rec)
  = Z.of_nat (cn_start cn + m_index am
              + len (default "" (capture (cn_value cn) am 1)) + 1).
Proof.
  unfold arbitrary.
  destruct (object_get _ _) as [[p t]|]; [|discriminate].
  destruct (negb _); [discriminate|]. intros [= <-]. simpl.
  apply start_createMatchLocation.
Qed.

(** The records of the matches of a chain in one candidate: their offsets
    increase and lie between the offset reached so far and the end of the
    candidate's text. *)
Lemma chain_starts arbRe er source types_ cn :
  regexp arbitraryValueRegex = Ok arbRe ->
  forall ams k, chain false arbRe (cn_value cn) k ams ->
    StronglySorted Z.lt (starts (omap (arbitrary er source types_ cn) ams))
    /\ Forall (fun z => (Z.of_nat (cn_start cn + k) <= z
                         < Z.of_nat (cn_start cn + len (cn_value cn)))%Z)
         (starts (omap (arbitrary er source types_ cn) ams)).
Proof.
  intros Hre. induction ams as [|am ams IH]; intros k Hc; simpl.
  - split; constructor.
  - destruct Hc as (He & Hne & Hc).
    pose proof (arbitrary_extent _ _ _ _ Hre He) as Hx.
    pose proof (exec_sound _ _ _ _ _ He) as [Hfrom _ Hend _ _].
    destruct (IH _ Hc) as [IHs IHf].
    assert (Hmono : Forall (fun z => (Z.of_nat (cn_start cn + k) <= z
                         < Z.of_nat (cn_start cn + len (cn_value cn)))%Z)
         (starts (omap (arbitrary er source types_ cn) ams))).
    { eapply Forall_impl; [exact IHf|]. simpl. intros z Hz. lia. }
    destruct (arbitrary er source types_ cn am) as [rec|] eqn:Ea; simpl; auto.
    apply arbitrary_start in Ea. split.
    + constructor; auto. eapply Forall_impl; [exact IHf|].
      simpl. intros z Hz. lia.
    + constructor; auto. lia.
Qed.


Lemma exec_while_chain dotall r s ms :
  exec_while dotall r s = Ok ms -> chain dotall r s 0 ms.
Proof.
  unfold exec_while, exec_all.
  destruct (exec_loop _ _ _ _ _) eqn:E; [|discriminate].
  intros [= <-]. eapply exec_loop_chain; eauto.
Qed.

Lemma exec_while_total dotall r s :
  nonempty r = true -> exists ms, exec_while dotall r s = Ok ms.
Proof.
  intros Hn. unfold exec_while.
  destruct (exec_all_total dotall r s Hn) as [ms ->]. eauto.
Qed.

Lemma or_else_cases a b : or_else a b = a \/ or_else a b = b.
Proof. destruct a as [[|]|]; simpl; auto. Qed.

(** The text of a candidate is no longer than the match it comes from. *)
Lemma candidate_extent dotall r source k m :
  exec dotall r source k = Some m ->
  cn_start (candidate source m) + len (cn_value (candidate source m))
  <= cn_end (candidate source m).
Proof.
  intros He. apply exec_sound in He as [_ Ho _ Hc _]. simpl.
  assert (Hcap : forall i t, capture source m i = Some t ->
                   m_index m + len t <= m_end m).
  { intros i t Ht. apply capture_inv in Ht as (a & b & Hin & ->).
    apply Hc in Hin. pose proof (len_sub_le a b source). lia. }
  destruct (or_else (capture source m 1)
              (or_else (capture source m 2) (capture source m 3)))
    as [t|] eqn:E; simpl; [|lia].
  destruct (or_else_cases (capture source m 1)
              (or_else (capture source m 2) (capture source m 3))) as [H|H];
    rewrite H in E; [eauto|].
  destruct (or_else_cases (capture source m 2) (capture source m 3)) as [H'|H'];
    rewrite H' in E; eauto.
Qed.

Lemma scan_candidate_starts arbRe er source types_ cn rs :
  regexp arbitraryValueRegex = Ok arbRe ->
  scan_candidate arbRe er source types_ cn = Ok rs ->
  StronglySorted Z.lt (starts rs)
  /\ Forall (fun z => (Z.of_nat (cn_start cn) <= z
                       < Z.of_nat (cn_start cn + len (cn_value cn)))%Z)
       (starts rs).
Proof.
  intros Hre H. unfold scan_candidate in H.
  apply obind_Ok in H as (ams & Hw & [= <-]).
  apply exec_while_chain in Hw.
  destruct (chain_starts _ er source types_ cn Hre _ _ Hw) as [Hs Hf].
  split; auto. eapply Forall_impl; [exact Hf|]. simpl. intros z Hz. lia.
Qed.

Lemma sorted_app (l1 l2 : list Z) (b : Z) :
  StronglySorted Z.lt l1 -> StronglySorted Z.lt l2 ->
  Forall (fun z => z < b)%Z l1 -> Forall (fun z => b <= z)%Z l2 ->
  StronglySorted Z.lt (l1 ++ l2).
Proof.
  intros H1 H2 F1 F2. induction H1 as [|x l1 Hs IH Hx]; simpl; auto.
  inversion F1 as [|? ? Hb F1']; subst.
  constructor; auto. apply Forall_app. split; auto.
  eapply Forall_impl; [exact F2|]. simpl. intros z Hz. lia.
Qed.

(** The records of the candidates of a chain of matches in the source. *)
Lemma scan_candidates_starts arbRe er source types_ dotall re :
  regexp arbitraryValueRegex = Ok arbRe ->
  forall ms k rs, chain dotall re source k ms ->
    scan_candidates arbRe er source types_ (candidate source <$> ms) = Ok rs ->
    StronglySorted Z.lt (starts rs)
    /\ Forall (fun z => Z.of_nat k <= z)%Z (starts rs).
Proof.
  intros Hre. induction ms as [|m ms IH]; intros k rs Hc H; simpl in H.
  - injection H as <-. split; constructor.
  - destruct Hc as (He & Hne & Hc).
    apply obind_Ok in H as (rs1 & H1 & H).
    apply obind_Ok in H as (rs2 & H2 & [= <-]).
    apply (scan_candidate_starts _ _ _ _ _ _ Hre) in H1 as [S1 F1].
    destruct (IH _ _ Hc H2) as [S2 F2].
    pose proof (candidate_extent _ _ _ _ _ He) as Hx.
    pose proof (exec_sound _ _ _ _ _ He) as [Hfrom _ _ _ _].
    simpl in *. unfold starts. rewrite fmap_app. split.
    + apply (sorted_app _ _ (Z.of_nat (m_end m))); auto.
      eapply Forall_impl; [exact F1|]. simpl. intros z Hz. lia.
    + apply Forall_app. split.
      * eapply Forall_impl; [exact F1|]. simpl. intros z Hz. lia.
      * eapply Forall_impl; [exact F2|]. simpl. intros z Hz. lia.
Qed.

Lemma scan_candidates_total arbRe er source types_ :
  regexp arbitraryValueRegex = Ok arbRe ->
  forall cns, exists rs, scan_candidates arbRe er source types_ cns = Ok rs.
Proof.
  intros Hre. assert (Hn : nonempty arbRe = true).
  { vm_compute in Hre. now injection Hre as <-. }
  induction cns as [|cn cns [rs IH]]; simpl; [eauto|].
  unfold scan_candidate.
  destruct (exec_while_total false arbRe (cn_value cn) Hn) as [ams ->].
  simpl. rewrite IH. simpl. eauto.
Qed.


Lemma match_with_spec er source options :
  exists results,
    match_with er source options = Ok results
    /\ StronglySorted Z.lt (starts results).
Proof.
  unfold match_with.
  destruct (regexp classNamePropRegex) as [classRe| |] eqn:Ec;
    try (vm_compute in Ec; discriminate).
  destruct (regexp stringLiteralRegex) as [stringRe| |] eqn:Es;
    try (vm_compute in Es; discriminate).
  destruct (regexp arbitraryValueRegex) as [arbRe| |] eqn:Ea;
    try (vm_compute in Ea; discriminate).
  assert (Hc : nonempty classRe = true).
  { vm_compute in Ec. now injection Ec as <-. }
  assert (Hs : nonempty stringRe = true).
  { vm_compute in Es. now injection Es as <-. }
  simpl.
  destruct (exec_while_total false classRe source Hc) as [ms Hms].
  rewrite Hms. simpl.
  destruct (exec_while_total true stringRe source Hs) as [ms' Hms'].
  apply exec_while_chain in Hms as Hchain.
  apply exec_while_chain in Hms' as Hchain'.
  set (types_ := default all_types (types options)).
  destruct ms as [|m ms].
  - rewrite Hms'. simpl.
    destruct (scan_candidates_total arbRe er source types_ Ea
                (candidate source <$> ms')) as [rs Hrs].
    exists rs. split; auto.
    eapply scan_candidates_starts; eauto.
  - simpl.
    destruct (scan_candidates_total arbRe er source types_ Ea
                (candidate source <$> (m :: ms))) as [rs Hrs].
    exists rs. split; auto.
    eapply (scan_candidates_starts _ _ _ _ _ _ Ea (m :: ms)); eauto.
Qed.

(** The module as it is written: the pattern of [elementRegex] closes a
    group that it never opened. *)
Lemma elementRegex_unmatched :
  parse TailwindClassMatcher.elementRegex = inl PUnmatchedClose.
Proof. vm_compute. reflexivity. Qed.

Lemma match_as_written source options :
  TailwindClassMatcher.match_ source options = Throw SyntaxError.
Proof.
  unfold TailwindClassMatcher.match_, regexp.
  now rewrite elementRegex_unmatched.
Qed.

End TailwindFacts.

(** ** colorUtils *)

Module ColorFacts.
Import JS Regex RegexSpec Num ColorUtils Invariants.

(** [parseColor] chooses its branch by the start of the cleaned text. *)
Lemma parseColor_unrecognised colorStr spaces :
  regexp whitespace = Ok spaces ->
  recognised (replace_all false spaces "" colorStr) = false ->
  parseColor colorStr = Ok black.
Proof.
  intros Hre Hrec. unfold parseColor. rewrite Hre. cbn [obind].
  unfold recognised in Hrec.
  repeat (apply orb_false_iff in Hrec as [Hrec ?]).
  repeat match goal with H : _ = false |- _ => rewrite H; clear H end.
  reflexivity.
Qed.

(** The pattern [\s+] finds nothing in a text without white space. *)
Lemma search_spaces_none spaces s :
  regexp whitespace = Ok spaces -> spaceless s ->
  forall skip p pv, search false spaces skip p pv s = None.
Proof.
  intros Hre. vm_compute in Hre. injection Hre as <-.
  unfold spaceless. induction s as [|c s IH]; intros Hs skip p pv.
  - destruct skip; reflexivity.
  - simpl in Hs. apply andb_true_iff in Hs as [Hc Hs].
    apply negb_true_iff in Hc.
    cbn [search]. destruct skip as [|skip].
    + replace (rmatch false _ _ Some) with (@None mstate).
      * apply IH; auto.
      * cbn. unfold class_matches. cbn. rewrite Hc. reflexivity.
    + apply IH; auto.
Qed.

Lemma replace_all_spaceless spaces s :
  regexp whitespace = Ok spaces -> spaceless s ->
  replace_all false spaces "" s = s.
Proof.
  intros Hre Hs. unfold replace_all. cbn [match_loop]. unfold exec.
  rewrite (search_spaces_none _ _ Hre Hs). reflexivity.
Qed.


(** *** The hexadecimal round trip, channel by channel *)

Lemma all_below_spec (P : nat -> Prop) k :
  all_below P k -> forall n, n < k -> P n.
Proof.
  induction k as [|k IH]; simpl; intros H n Hn; [lia|].
  destruct H as [H0 H]. destruct (Nat.eq_dec n k) as [->|]; auto.
  apply IH; auto; lia.
Qed.

Lemma channels_checked : all_below (fun k => channel_spec (Z.of_nat k)) 256.
Proof. vm_compute. repeat split. Qed.

Lemma channel_round_trip (n : Z) :
  (0 <= n <= 255)%Z ->
  exists a b,
    toHex (of_Z n) = String a (String b "")
    /\ parseInt (String a (String b "")) 16 = of_Z n
    /\ is_space a = false /\ is_space b = false.
Proof.
  intros Hn.
  assert (H : channel_spec n).
  { rewrite <- (Z2Nat.id n) by lia.
    apply (all_below_spec _ _ channels_checked). lia. }
  unfold channel_spec in H. cbv zeta in H. destruct H as (Hl & Hp & Hs).
  destruct (toHex (of_Z n)) as [|a [|b [|]]]; try discriminate.
  exists a, b. cbn in Hs.
  apply andb_true_iff in Hs as [Ha Hs]. apply andb_true_iff in Hs as [Hb _].
  apply negb_true_iff in Ha, Hb. auto.
Qed.

Lemma parseHexColor_six a1 b1 a2 b2 a3 b3 :
  rgb (parseHexColor
         (String "#" (String a1 (String b1 (String a2 (String b2
            (String a3 (String b3 ""))))))))
  = {| rgb_r := parseInt (String a1 (String b1 "")) 16;
       rgb_g := parseInt (String a2 (String b2 "")) 16;
       rgb_b := parseInt (String a3 (String b3 "")) 16;
       rgb_a := None |}.
Proof. reflexivity. Qed.

Lemma hex_round_trip (r g b : Z) :
  (0 <= r <= 255)%Z -> (0 <= g <= 255)%Z -> (0 <= b <= 255)%Z ->
  let c := {| rgb_r := of_Z r; rgb_g := of_Z g; rgb_b := of_Z b;
              rgb_a := None |} in
  parseColor (rgbToHex c) = Ok (parseHexColor (rgbToHex c))
  /\ rgb (parseHexColor (rgbToHex c)) = c.
Proof.
  intros Hr Hg Hb c.
  destruct (channel_round_trip r Hr) as (a1 & b1 & T1 & P1 & S1 & S1').
  destruct (channel_round_trip g Hg) as (a2 & b2 & T2 & P2 & S2 & S2').
  destruct (channel_round_trip b Hb) as (a3 & b3 & T3 & P3 & S3 & S3').
  assert (Hhex : rgbToHex c
                 = String "#" (String a1 (String b1 (String a2 (String b2
                     (String a3 (String b3 ""))))))).
  { unfold rgbToHex, c. cbn [rgb_r rgb_g rgb_b rgb_a].
    rewrite T1, T2, T3. reflexivity. }
  rewrite Hhex. split.
  - unfold parseColor.
    destruct (regexp whitespace) as [spaces| |] eqn:Hre;
      try (vm_compute in Hre; discriminate).
    cbn [obind]. rewrite (replace_all_spaceless _ _ Hre).
    + reflexivity.
    + unfold spaceless. cbn [list_ascii_of_string forallb].
      rewrite S1, S1', S2, S2', S3, S3'. reflexivity.
  - rewrite parseHexColor_six, P1, P2, P3. reflexivity.
Qed.

End ColorFacts.

(** ** TokenRegistry *)

Module RegistryFacts.
Import JS Regex Num ColorUtils CoreTypes TokenRegistry Invariants.

(** *** Exact colour matches *)

Lemma find_same_hex target tokens t :
  In t tokens ->
  toLowerCase (hex (color_value t)) = toLowerCase (hex target) ->
  exists t', List.find (same_hex target) tokens = Some t'
    /\ In t' tokens
    /\ toLowerCase (hex (color_value t')) = toLowerCase (hex target).
Proof.
  intros Hin Heq.
  destruct (List.find (same_hex target) tokens) as [t'|] eqn:E.
  - apply find_some in E as [Hin' Hs]. apply String.eqb_eq in Hs. eauto.
  - apply (find_none _ _ E) in Hin. unfold same_hex in Hin.
    apply String.eqb_neq in Hin. contradiction.
Qed.

Lemma find_same_hex_none target tokens :
  (forall t, In t tokens ->
     toLowerCase (hex (color_value t)) <> toLowerCase (hex target)) ->
  List.find (same_hex target) tokens = None.
Proof.
  intros Hne. destruct (List.find _ _) as [t'|] eqn:E; auto.
  apply find_some in E as [Hin Hs]. apply String.eqb_eq in Hs.
  now apply Hne in Hin.
Qed.

(** A match of [findClosestColorMatch] holds a colour token. *)
Lemma findClosestColorMatch_color reg colorValue opts m :
  findClosestColorMatch reg colorValue opts = Ok (Some m) ->
  exists t, token m = Color t /\ In t (colorTokens reg).
Proof.
  unfold findClosestColorMatch.
  destruct (negb (initialized reg)); [discriminate|].
  destruct (parseColor colorValue) as [target| |]; try discriminate.
  destruct (List.find _ _) as [t|] eqn:E.
  - intros [= <-]. apply find_some in E as [Hin _]. simpl. eauto.
  - destruct (default false (exact opts)); [discriminate|].
    destruct (closest target (colorTokens reg)) as [[t|] d] eqn:Ec;
      [|discriminate].
    destruct (_ <=? _)%float; [|discriminate].
    intros [= <-]. simpl. exists t. split; auto.
    clear E. revert Ec. unfold closest.
    assert (G : forall tokens acc d0,
      (forall t0, fst acc = Some t0 -> In t0 (colorTokens reg)) ->
      (forall t0, In t0 tokens -> In t0 (colorTokens reg)) ->
      fold_left
        (fun '(closestToken, smallestDistance) t1 =>
           let distance :=
             calculateColorDistance (rgb target) (rgb (color_value t1)) in
           if (distance <? smallestDistance)%float then (Some t1, distance)
           else (closestToken, smallestDistance)) tokens acc = (Some t, d0) ->
      In t (colorTokens reg)).
    { induction tokens as [|t1 tokens IH]; intros [c0 d0] d1 Hacc Hsub; simpl.
      - intros [= -> ->]. apply Hacc. reflexivity.
      - assert (Hsub' : forall t0, In t0 tokens -> In t0 (colorTokens reg))
          by (intros t0 H0; apply Hsub; now right).
        destruct (_ <? _)%float; apply IH; simpl; auto.
        intros t0 E0. injection E0 as <-. apply Hsub. now left. }
    apply G; simpl; auto. discriminate.
Qed.

(** *** Typography is never returned *)

Lemma findBestMatch_category reg value_ category_ opts m :
  findBestMatch reg value_ category_ opts = Ok (Some m) ->
  category (token m) <> typography.
Proof.
  unfold findBestMatch.
  destruct (negb (initialized reg)); [discriminate|].
  intros H. apply obind_Ok in H as (colorMatch & Hc & H).
  destruct colorMatch as [cm|].
  - injection H as <-.
    destruct (wanted category_ color); [|discriminate].
    apply obind_Ok in Hc as (isColor & _ & Hc).
    destruct isColor; [|discriminate].
    apply findClosestColorMatch_color in Hc as (t & -> & _). discriminate.
  - repeat match type of H with
           | match ?x with _ => _ end = _ => destruct x
           end; try discriminate; injection H as <-; discriminate.
Qed.


(** *** The state machine *)

Lemma initialize_initialized readFile reg reg' :
  initialize readFile reg = Ok reg' -> initialized reg' = true.
Proof.
  unfold initialize. destruct (initialized reg) eqn:E.
  - now intros [= <-].
  - intros H. apply obind_Ok in H as (css & _ & H).
    apply obind_Ok in H as (reg1 & _ & H).
    apply obind_Ok in H as (reg2 & _ & H). now injection H as <-.
Qed.

Lemma initialize_twice readFile reg :
  initialized reg = true -> initialize readFile reg = Ok reg.
Proof. unfold initialize. now intros ->. Qed.

(** *** Spacing values are not colours *)

Lemma createToken_spacing entry reg reg' :
  createToken entry reg = Ok reg' ->
  spacing_not_colors reg -> spacing_not_colors reg'.
Proof.
  unfold createToken, spacing_not_colors. destruct entry as [var val].
  destruct (startsWith "var(" val); [now intros [= <-]|].
  intros H Hinv. apply obind_Ok in H as (name_ & _ & H).
  apply obind_Ok in H as ([|] & Hc & H).
  - unfold createColorToken in H.
    destruct (parseColor val); try discriminate; now injection H as <-.
  - destruct (includes "spacing" var).
    { injection H as <-. simpl. apply Forall_app. split; auto. }
    destruct (includes "border-radius" var); [now injection H as <-|].
    destruct (includes "shadow" var).
    { unfold createShadowToken in H. apply obind_Ok in H as (? & _ & H).
      now injection H as <-. }
    destruct (isTypographyProperty var); [|now injection H as <-].
    unfold createOrUpdateTypographyToken in H.
    apply obind_Ok in H as (? & _ & H). now injection H as <-.
Qed.

Lemma createTokens_loop_spacing entries : forall reg reg',
  createTokens_loop entries reg = Ok reg' ->
  spacing_not_colors reg -> spacing_not_colors reg'.
Proof.
  induction entries as [|e entries IH]; simpl; intros reg reg' H Hinv.
  - now injection H as <-.
  - apply obind_Ok in H as (reg1 & H1 & H).
    eapply IH; eauto. eapply createToken_spacing; eauto.
Qed.

Lemma initialize_spacing readFile ropts reg :
  initialize readFile (new_ ropts) = Ok reg -> spacing_not_colors reg.
Proof.
  unfold initialize. simpl. intros H.
  apply obind_Ok in H as (css & _ & H).
  apply obind_Ok in H as (reg1 & H1 & H).
  apply obind_Ok in H as (reg2 & H2 & H). injection H as <-.
  unfold parseCssVariables in H1.
  apply obind_Ok in H1 as (re & _ & H1).
  apply obind_Ok in H1 as (ms & _ & H1). injection H1 as <-.
  unfold createTokens in H2. apply createTokens_loop_spacing in H2.
  - exact H2.
  - constructor.
Qed.

Lemma find_value {A} (value_of : A -> string) (l : list A) (v : string) x :
  In x l -> value_of x = v ->
  exists y, List.find (fun t => String.eqb (value_of t) v) l = Some y
    /\ In y l /\ value_of y = v.
Proof.
  intros Hin Hv.
  destruct (List.find _ l) as [y|] eqn:E.
  - apply find_some in E as [Hy Hv']. apply String.eqb_eq in Hv'. eauto.
  - apply (find_none _ _ E) in Hin. apply String.eqb_neq in Hin.
    contradiction.
Qed.

(** *** Spacing tokens follow the variable table *)

Section Value.
Variable v : string.
Hypothesis v_plain : startsWith "var(" v = false.
Hypothesis v_not_color : isColorValue v = Ok false.

Lemma createToken_spacing_variables entry reg reg' :
  createToken entry reg = Ok reg' ->
  spacing_variables v reg'
  = spacing_variables v reg
    ++ (if spacing_entry v entry then [fst entry] else []).
Proof.
  unfold createToken, spacing_variables, spacing_entry.
  destruct entry as [var val]. cbn [fst snd].
  destruct (String.eqb_spec val v) as [->|Hne].
  - rewrite v_plain. intros H.
    apply obind_Ok in H as (name_ & _ & H).
    rewrite v_not_color in H. cbn [obind] in H.
    destruct (includes "spacing" var).
    + injection H as <-. cbn [spacingTokens createSpacingToken].
      rewrite List.filter_app, fmap_app. cbn. rewrite String.eqb_refl. reflexivity.
    + rewrite app_nil_r.
      destruct (includes "border-radius" var); [now injection H as <-|].
      destruct (includes "shadow" var).
      { unfold createShadowToken in H. apply obind_Ok in H as (? & _ & H).
        now injection H as <-. }
      destruct (isTypographyProperty var); [|now injection H as <-].
      unfold createOrUpdateTypographyToken in H.
      apply obind_Ok in H as (? & _ & H). now injection H as <-.
  - cbn [andb]. rewrite app_nil_r.
    destruct (startsWith "var(" val); [now intros [= <-]|].
    intros H. apply obind_Ok in H as (name_ & _ & H).
    apply obind_Ok in H as ([|] & _ & H).
    + unfold createColorToken in H.
      destruct (parseColor val); try discriminate; now injection H as <-.
    + destruct (includes "spacing" var).
      { injection H as <-. cbn [spacingTokens createSpacingToken].
        rewrite List.filter_app. cbn.
        apply String.eqb_neq in Hne. rewrite Hne. now rewrite app_nil_r. }
      destruct (includes "border-radius" var); [now injection H as <-|].
      destruct (includes "shadow" var).
      { unfold createShadowToken in H. apply obind_Ok in H as (? & _ & H).
        now injection H as <-. }
      destruct (isTypographyProperty var); [|now injection H as <-].
      unfold createOrUpdateTypographyToken in H.
      apply obind_Ok in H as (? & _ & H). now injection H as <-.
Qed.

Lemma createTokens_loop_spacing_variables entries : forall reg reg',
  createTokens_loop entries reg = Ok reg' ->
  spacing_variables v reg'
  = spacing_variables v reg ++ (fst <$> List.filter (spacing_entry v) entries).
Proof.
  induction entries as [|e entries IH]; simpl; intros reg reg' H.
  - injection H as <-. now rewrite app_nil_r.
  - apply obind_Ok in H as (reg1 & H1 & H).
    rewrite (IH _ _ H), (createToken_spacing_variables _ _ _ H1).
    rewrite <- app_assoc. destruct (spacing_entry v e); reflexivity.
Qed.

End Value.

Lemma createToken_names entry reg reg' :
  createToken entry reg = Ok reg' ->
  spacing_names_derived reg -> spacing_names_derived reg'.
Proof.
  unfold createToken, spacing_names_derived. destruct entry as [var val].
  destruct (startsWith "var(" val); [now intros [= <-]|].
  intros H Hinv. apply obind_Ok in H as (name_ & Hn & H).
  apply obind_Ok in H as ([|] & Hc & H).
  - unfold createColorToken in H.
    destruct (parseColor val); try discriminate; now injection H as <-.
  - destruct (includes "spacing" var).
    { injection H as <-. simpl. apply Forall_app. split; auto. }
    destruct (includes "border-radius" var); [now injection H as <-|].
    destruct (includes "shadow" var).
    { unfold createShadowToken in H. apply obind_Ok in H as (? & _ & H).
      now injection H as <-. }
    destruct (isTypographyProperty var); [|now injection H as <-].
    unfold createOrUpdateTypographyToken in H.
    apply obind_Ok in H as (? & _ & H). now injection H as <-.
Qed.

Lemma createTokens_loop_names entries : forall reg reg',
  createTokens_loop entries reg = Ok reg' ->
  spacing_names_derived reg -> spacing_names_derived reg'.
Proof.
  induction entries as [|e entries IH]; simpl; intros reg reg' H Hinv.
  - now injection H as <-.
  - apply obind_Ok in H as (reg1 & H1 & H).
    eapply IH; eauto. eapply createToken_names; eauto.
Qed.

Lemma createToken_cssVars entry reg reg' :
  createToken entry reg = Ok reg' -> cssVars reg' = cssVars reg.
Proof.
  unfold createToken. destruct entry as [var val].
  destruct (startsWith "var(" val); [now intros [= <-]|].
  intros H. apply obind_Ok in H as (name_ & Hn & H).
  apply obind_Ok in H as ([|] & Hc & H).
  - unfold createColorToken in H.
    destruct (parseColor val); try discriminate; now injection H as <-.
  - destruct (includes "spacing" var); [now injection H as <-|].
    destruct (includes "border-radius" var); [now injection H as <-|].
    destruct (includes "shadow" var).
    { unfold createShadowToken in H. apply obind_Ok in H as (? & _ & H).
      now injection H as <-. }
    destruct (isTypographyProperty var); [|now injection H as <-].
    unfold createOrUpdateTypographyToken in H.
    apply obind_Ok in H as (? & _ & H). now injection H as <-.
Qed.

Lemma createTokens_loop_cssVars entries : forall reg reg',
  createTokens_loop entries reg = Ok reg' -> cssVars reg' = cssVars reg.
Proof.
  induction entries as [|e entries IH]; simpl; intros reg reg' H.
  - now injection H as <-.
  - apply obind_Ok in H as (reg1 & H1 & H).
    rewrite (IH _ _ H). eapply createToken_cssVars; eauto.
Qed.

(** After [initialize], the spacing tokens of a value that is neither a
    reference nor a colour are the entries of the variable table with that
    value and "spacing" in their name, in the order of the table. *)
Lemma initialize_spacing_variables readFile ropts reg v :
  startsWith "var(" v = false -> isColorValue v = Ok false ->
  initialize readFile (new_ ropts) = Ok reg ->
  spacing_variables v reg = fst <$> List.filter (spacing_entry v) (cssVars reg)
  /\ spacing_names_derived reg.
Proof.
  intros Hv Hc. unfold initialize. cbn [initialized new_]. intros H.
  apply obind_Ok in H as (css & _ & H).
  apply obind_Ok in H as (reg1 & H1 & H).
  apply obind_Ok in H as (reg2 & H2 & H). injection H as <-.
  unfold parseCssVariables in H1.
  apply obind_Ok in H1 as (re & _ & H1).
  apply obind_Ok in H1 as (ms & _ & H1). injection H1 as <-.
  unfold createTokens in H2.
  pose proof (createTokens_loop_cssVars _ _ _ H2) as Hvars.
  pose proof (createTokens_loop_spacing_variables v Hv Hc _ _ _ H2) as Hsp.
  pose proof (createTokens_loop_names _ _ _ H2) as Hnm.
  split.
  - unfold spacing_variables in *. cbn [spacingTokens set_initialized cssVars].
    rewrite Hsp, Hvars. reflexivity.
  - apply Hnm. constructor.
Qed.

Lemma find_first_entry (v var : string) (entries : list (string * string)) :
  List.find (spacing_entry v) entries = Some (var, v) ->
  exists rest,
    fst <$> List.filter (spacing_entry v) entries = var :: rest.
Proof.
  induction entries as [|e entries IH]; cbn [List.find List.filter];
    [discriminate|].
  destruct (spacing_entry v e) eqn:E; [|exact IH].
  intros [= ->]. cbn. eauto.
Qed.

Lemma find_first_token (v var : string) (rest : list string)
  (ts : list SpacingToken) :
  (fun t => cssVariable (spacing_base t))
    <$> List.filter (fun t => String.eqb (spacing_value t) v) ts
  = var :: rest ->
  exists t,
    List.find (fun t => String.eqb (spacing_value t) v) ts = Some t
    /\ cssVariable (spacing_base t) = var /\ spacing_value t = v.
Proof.
  induction ts as [|t ts IH]; cbn [List.find List.filter]; [discriminate|].
  destruct (String.eqb (spacing_value t) v) eqn:E; [|exact IH].
  cbn. intros [= Hvar _]. apply String.eqb_eq in E. eauto.
Qed.

(** The first spacing token of value [v] is the one of the first entry of
    the table with that value and "spacing" in its name. *)
Lemma findBestMatch_first_spacing readFile ropts reg v var opts :
  startsWith "var(" v = false -> isColorValue v = Ok false ->
  initialize readFile (new_ ropts) = Ok reg ->
  List.find (spacing_entry v) (cssVars reg) = Some (var, v) ->
  exists t,
    findBestMatch reg v None opts = Ok (Some (exact_match v (Spacing t)))
    /\ cssVariable (spacing_base t) = var
    /\ getNameFromCssVariable var = Ok (name (spacing_base t)).
Proof.
  intros Hv Hc Hinit Hfind.
  pose proof (initialize_initialized _ _ _ Hinit) as Hi.
  destruct (initialize_spacing_variables _ _ _ v Hv Hc Hinit) as [Hsp Hnm].
  destruct (find_first_entry _ _ _ Hfind) as [rest Hrest].
  unfold spacing_variables in Hsp. rewrite Hrest in Hsp.
  destruct (find_first_token _ _ _ _ Hsp) as (t & Ht & Hvar & Hval).
  exists t. split; [|split; [exact Hvar|]].
  - unfold findBestMatch. rewrite Hi. cbn [negb wanted obind].
    rewrite Hc. cbn [obind]. rewrite Ht. reflexivity.
  - unfold spacing_names_derived in Hnm.
    apply List.find_some in Ht as [Hin _].
    rewrite Forall_forall in Hnm. rewrite <- Hvar. apply Hnm.
    apply list_elem_of_In. exact Hin.
Qed.

End RegistryFacts.

(** ** The registry in a store *)

Module StoreFacts.
Import CoreTypes Store.

Lemma omap_agree {A B} (f g : A -> option B) (l : list A) :
  (forall x, x ∈ l -> f x = g x) -> omap f l = omap g l.
Proof.
  intros H. apply list_omap_ext. induction l as [|x l IH]; constructor.
  - apply H. left.
  - apply IH. intros y Hy. apply H. now right.
Qed.

Lemma wf_array h reg c : wf h reg -> field reg c ∈ dom h.
Proof.
  intros Hwf. destruct (Hwf c) as (ls & Ha & _).
  apply elem_of_dom. eauto.
Qed.

Lemma wf_elements h reg c l :
  wf h reg -> l ∈ elements_of h (field reg c) -> l ∈ dom h.
Proof.
  intros Hwf Hl. destruct (Hwf c) as (ls & Ha & Hall).
  unfold elements_of in Hl. rewrite Ha in Hl.
  rewrite Forall_forall in Hall. destruct (Hall l Hl) as (t & Ht & _).
  apply elem_of_dom. eauto.
Qed.

(** The tokens behind references of the registry read the same in a store
    that leaves the objects of [h] untouched. *)
Lemma tokens_untouched h h1 reg c :
  wf h reg -> untouched h h1 ->
  omap (token_at h1) (elements_of h (field reg c))
  = omap (token_at h) (elements_of h (field reg c)).
Proof.
  intros Hwf Hu. apply omap_agree. intros l Hl.
  unfold token_at. rewrite Hu; auto. eapply wf_elements; eauto.
Qed.

Lemma contents_untouched h h1 reg c :
  wf h reg -> untouched h h1 ->
  contents h1 (field reg c) = contents h (field reg c).
Proof.
  intros Hwf Hu. unfold contents.
  replace (elements_of h1 (field reg c)) with (elements_of h (field reg c)).
  - eapply tokens_untouched; eauto.
  - unfold elements_of. rewrite Hu; auto. eapply wf_array; eauto.
Qed.

Lemma view_untouched h h1 reg :
  wf h reg -> untouched h h1 -> view h1 reg = view h reg.
Proof.
  intros Hwf Hu. unfold view.
  rewrite (contents_untouched h h1 reg color Hwf Hu : contents h1 (colorTokens reg) = _).
  rewrite (contents_untouched h h1 reg typography Hwf Hu : contents h1 (typographyTokens reg) = _).
  rewrite (contents_untouched h h1 reg spacing Hwf Hu : contents h1 (spacingTokens reg) = _).
  rewrite (contents_untouched h h1 reg borderRadius Hwf Hu : contents h1 (borderRadiusTokens reg) = _).
  rewrite (contents_untouched h h1 reg shadow Hwf Hu : contents h1 (shadowTokens reg) = _).
  reflexivity.
Qed.

Lemma untouched_insert h a o : a ∉ dom h -> untouched h (<[a := o]> h).
Proof.
  intros Ha l Hl. apply lookup_insert_ne. intros ->. contradiction.
Qed.

Lemma untouched_insert_twice h a o o' :
  a ∉ dom h -> untouched h (<[a := o']> (<[a := o]> h)).
Proof.
  intros Ha l Hl. assert (a <> l) by (intros ->; contradiction).
  rewrite lookup_insert_ne by assumption.
  now apply lookup_insert_ne.
Qed.

(** Any object allocated in a store where the registry is well formed is a
    fresh copy. *)
Lemma alloc_fresh_copy h reg o :
  wf h reg -> fresh_copy h reg (alloc h o).1 (alloc h o).2.
Proof.
  intros Hwf. unfold alloc. simpl.
  pose proof (is_fresh (dom h)) as Hf.
  split.
  - exact Hf.
  - intros c E. apply Hf. rewrite E. eapply wf_array; eauto.
  - now apply untouched_insert.
  - apply view_untouched; auto. now apply untouched_insert.
  - intros o'. unfold mutate. split.
    + apply view_untouched; auto. now apply untouched_insert_twice.
    + intros c. apply contents_untouched; auto.
      now apply untouched_insert_twice.
Qed.

Lemma elements_of_insert (h : store) a ls :
  elements_of (<[a := OArray ls]> h) a = ls.
Proof. unfold elements_of. now rewrite lookup_insert_eq. Qed.

(** A new array of references that are in the store holds the tokens
    behind them. *)
Lemma alloc_array_contents (h : store) ls :
  (forall l, l ∈ ls -> l ∈ dom h) ->
  contents (alloc h (OArray ls)).1 (alloc h (OArray ls)).2
  = omap (token_at h) ls.
Proof.
  intros Hls. unfold alloc, contents. simpl. rewrite elements_of_insert.
  apply omap_agree. intros l Hl. unfold token_at.
  rewrite lookup_insert_ne; auto. intros <-.
  apply (is_fresh (dom h)). auto.
Qed.

(** Under [wf] each array holds tokens of its category, so the view and
    the store agree on what the registry holds. *)
Lemma view_getTokensByCategory h reg c :
  wf h reg ->
  TokenRegistry.getTokensByCategory (view h reg) c = contents h (field reg c).
Proof.
  intros Hwf. destruct (Hwf c) as (ls & Ha & Hall).
  assert (G : forall {T} (as_t : DesignToken -> option T) (mk : T -> DesignToken),
             (forall t, category t = c -> mk <$> as_t t = Some t) ->
             mk <$> omap as_t (contents h (field reg c))
             = contents h (field reg c)).
  { intros T as_t mk Hf. unfold contents, elements_of. rewrite Ha.
    clear Ha. induction Hall as [|l ls' (t & Ht & Hc) _ IH]; auto.
    assert (Htok : token_at h l = Some t) by (unfold token_at; now rewrite Ht).
    cbn [omap list_omap]. rewrite Htok. cbn [omap list_omap].
    specialize (Hf t Hc). destruct (as_t t) as [t0|]; [|discriminate].
    injection Hf as Hf. cbn [fmap list_fmap]. rewrite Hf. f_equal. exact IH. }
  destruct c; simpl; apply G; intros [] Hc; try discriminate; reflexivity.
Qed.

Lemma view_getAllTokens h reg :
  wf h reg ->
  TokenRegistry.getAllTokens (view h reg)
  = contents h (colorTokens reg) ++ contents h (typographyTokens reg)
    ++ contents h (spacingTokens reg) ++ contents h (borderRadiusTokens reg)
    ++ contents h (shadowTokens reg).
Proof.
  intros Hwf. unfold TokenRegistry.getAllTokens.
  pose proof (view_getTokensByCategory h reg color Hwf) as H1.
  pose proof (view_getTokensByCategory h reg typography Hwf) as H2.
  pose proof (view_getTokensByCategory h reg spacing Hwf) as H3.
  pose proof (view_getTokensByCategory h reg borderRadius Hwf) as H4.
  pose proof (view_getTokensByCategory h reg shadow Hwf) as H5.
  simpl in *. now rewrite H1, H2, H3, H4, H5.
Qed.

Lemma wf_example : wf StoreExample.objects StoreExample.reg.
Proof.
  intros []; eexists; (split; [reflexivity|]);
    repeat constructor; eexists; split; reflexivity.
Defined.

(** The copies are shallow: the tokens themselves are shared, so what is
    stored in a token reached through a returned array is seen by the
    registry. *)
Lemma copies_share_tokens :
  let '(h1, a) := Store.getAllTokens StoreExample.objects StoreExample.reg in
  elements_of h1 a = [6%positive; 7%positive]
  /\ TokenRegistry.getAllTokens
       (view (mutate h1 6%positive (OToken StoreExample.xl)) StoreExample.reg)
     = [StoreExample.xl; StoreExample.md]
  /\ TokenRegistry.getAllTokens (view StoreExample.objects StoreExample.reg)
     = [StoreExample.sm; StoreExample.md].
Proof. vm_compute. auto. Qed.

End StoreFacts.

(** ** Texts: [take], [drop], [split] at line feeds *)

Module StringFacts.
Import JS MatcherInvariants.

Lemma append_cons a s t : String a s +:+ t = String a (s +:+ t).
Proof. reflexivity. Qed.

Lemma line_feeds_app s t : line_feeds (s +:+ t) = line_feeds s + line_feeds t.
Proof.
  induction s as [|a s IH]; [reflexivity|].
  rewrite append_cons. simpl. rewrite IH. lia.
Qed.

Lemma take_drop n s : take n s +:+ drop n s = s.
Proof.
  revert s; induction n as [|n IH]; intros [|a s]; simpl; try reflexivity.
  rewrite append_cons. f_equal. apply IH.
Qed.

Lemma drop_drop n m s : drop n (drop m s) = drop (m + n) s.
Proof.
  revert s; induction m as [|m IH]; intros s; simpl; [reflexivity|].
  destruct s as [|a s]; [destruct n; reflexivity|]. apply IH.
Qed.

Lemma take_take n m s : take n (take m s) = take (Nat.min n m) s.
Proof.
  revert m s; induction n as [|n IH]; intros [|m] [|a s]; simpl; try reflexivity.
  now rewrite IH.
Qed.

Lemma drop_take n m s : drop n (take m s) = take (m - n) (drop n s).
Proof.
  revert m s; induction n as [|n IH]; intros m s; simpl.
  - now rewrite Nat.sub_0_r.
  - destruct m as [|m], s as [|a s]; simpl; try reflexivity.
    + now destruct (m - n).
    + apply IH.
Qed.

Lemma take_all n s : len s <= n -> take n s = s.
Proof.
  revert s; induction n as [|n IH]; intros [|a s]; simpl; intros H;
    try reflexivity; try lia.
  rewrite IH; [reflexivity|lia].
Qed.

Lemma drop_all n s : len s <= n -> drop n s = "".
Proof.
  revert s; induction n as [|n IH]; intros [|a s]; simpl; intros H;
    try reflexivity; try lia.
  apply IH. lia.
Qed.

Lemma get_drop n s : String.get n s = String.get 0 (drop n s).
Proof.
  revert s; induction n as [|n IH]; intros [|a s]; simpl; try reflexivity.
  apply IH.
Qed.

Lemma get_drop' n k s : String.get (n + k) s = String.get k (drop n s).
Proof.
  revert s; induction n as [|n IH]; intros s; [reflexivity|].
  destruct s as [|a s]; [now destruct k|]. apply IH.
Qed.

Lemma get_take k n s : k < n -> String.get k (take n s) = String.get k s.
Proof.
  revert n s; induction k as [|k IH]; intros [|n] [|c s] H; simpl;
    try reflexivity; try lia.
  apply IH. lia.
Qed.

Lemma get_some_lt n s c : String.get n s = Some c -> n < len s.
Proof.
  revert s; induction n as [|n IH]; intros [|a s]; simpl; try discriminate;
    intros H; [lia|]. apply IH in H. lia.
Qed.

(** *** [split] at line feeds *)

Lemma split_char_nonempty c s : split_char c s <> [].
Proof.
  destruct s as [|a s]; simpl; [discriminate|].
  destruct (split_char c s); [discriminate|].
  destruct (Ascii.eqb a c); discriminate.
Qed.

Lemma length_split_char s : length (split_char "010" s) = S (line_feeds s).
Proof.
  induction s as [|a s IH]; simpl; [reflexivity|].
  destruct (split_char "010" s) as [|w ws] eqn:E; [simpl in IH; lia|].
  destruct (Ascii.eqb a "010"); simpl in *; lia.
Qed.

Lemma split_char_one s : line_feeds s = 0 -> split_char "010" s = [s].
Proof.
  induction s as [|a s IH]; simpl; [reflexivity|].
  destruct (Ascii.eqb a "010"); [discriminate|]. simpl. intros H.
  now rewrite (IH H).
Qed.

Lemma endsWith_nl_cons a p :
  endsWith nl p = true -> endsWith nl (String a p) = true.
Proof.
  unfold endsWith, len, nl. cbn [String.length]. intros H.
  apply andb_true_iff in H as [H1 H2]. apply Nat.leb_le in H1.
  destruct (String.length p) as [|n] eqn:En; [lia|].
  replace (S (S n) - 1) with (S n) by lia. cbn [drop].
  replace (S n - 1) with n in H2 by lia. rewrite H2. reflexivity.
Qed.

Lemma last_split_char_cons a s :
  Ascii.eqb a "010" = true \/ 0 < line_feeds s ->
  List.last (split_char "010" (String a s)) ""
  = List.last (split_char "010" s) "".
Proof.
  intros H. simpl. pose proof (length_split_char s) as Hlen.
  destruct (split_char "010" s) as [|w ws] eqn:E; [discriminate|].
  destruct (Ascii.eqb a "010"); [reflexivity|].
  destruct H as [H|H]; [discriminate|].
  destruct ws; [simpl in Hlen; lia|reflexivity].
Qed.

(** What follows the last line feed of a text. *)
Lemma last_split_char s :
  exists p,
    s = p +:+ List.last (split_char "010" s) ""
    /\ line_feeds (List.last (split_char "010" s) "") = 0
    /\ line_feeds p = line_feeds s
    /\ (p = "" \/ endsWith nl p = true).
Proof.
  induction s as [|a s (p & Hs & Hl & Hn & Hp)].
  - exists "". simpl. auto.
  - destruct (Ascii.eqb a "010") eqn:Ea; [|destruct (line_feeds s) eqn:Ek].
    + rewrite last_split_char_cons by auto.
      exists (String a p). rewrite append_cons. simpl. rewrite Ea.
      split; [f_equal; exact Hs|]. split; [exact Hl|]. split; [lia|].
      right. apply Ascii.eqb_eq in Ea. subst a.
      destruct Hp as [->|Hp]; [reflexivity|]. now apply endsWith_nl_cons.
    + rewrite split_char_one by (simpl; rewrite Ea, Ek; reflexivity).
      exists "". cbn [List.last]. simpl. rewrite Ea, Ek. auto.
    + rewrite last_split_char_cons by (right; lia).
      exists (String a p). rewrite append_cons. simpl. rewrite Ea.
      split; [f_equal; exact Hs|]. split; [exact Hl|]. split; [lia|].
      right. destruct Hp as [->|Hp]; [simpl in Hn; lia|].
      now apply endsWith_nl_cons.
Qed.

End StringFacts.

(** ** [substring], [indexOf] and [lastIndexOf] *)

Module LocationFacts.
Import JS MatcherTypes MatcherInvariants JSFacts StringFacts.

Lemma substring_prefix n s :
  n <= len s -> substring 0 (Z.of_nat n) s = take n s.
Proof.
  intros H. unfold substring, sub.
  rewrite Z.max_l, Z.min_l by lia.
  rewrite Z.max_r, Z.min_l by lia.
  rewrite Nat2Z.id. cbn [Z.to_nat].
  rewrite Nat.min_0_l, Nat.max_0_l, Nat.sub_0_r. reflexivity.
Qed.

Lemma substring_sub a b s :
  a <= b -> b <= len s -> substring (Z.of_nat a) (Z.of_nat b) s = sub a b s.
Proof.
  intros Hab Hb. unfold substring.
  rewrite !Z.max_r, !Z.min_l by lia. rewrite !Nat2Z.id.
  rewrite Nat.min_l, Nat.max_r by lia. reflexivity.
Qed.

Lemma sub_split a n e s :
  a <= n -> n <= e -> sub a e s = sub a n s +:+ sub n e s.
Proof.
  intros Han Hne. unfold sub.
  replace (drop n s) with (drop (n - a) (drop a s))
    by (rewrite drop_drop; f_equal; lia).
  replace (e - a) with ((n - a) + (e - n)) by lia.
  generalize (drop a s) (n - a) (e - n). clear.
  intros t k m. revert t. induction k as [|k IH]; intros [|c t]; simpl;
    try reflexivity.
  - now destruct m.
  - rewrite append_cons. f_equal. apply IH.
Qed.

Lemma line_feeds_get k s : String.get k s = Some "010"%char -> 0 < line_feeds s.
Proof.
  revert s; induction k as [|k IH]; intros [|c s]; simpl; try discriminate.
  - intros [= ->]. simpl. lia.
  - intros H. apply IH in H. lia.
Qed.

Lemma find_from_nl s : forall i,
  match find_from nl i s with
  | Some j =>
      exists k, j = i + k /\ line_feeds (take k s) = 0
                /\ String.get k s = Some "010"%char
  | None => line_feeds s = 0
  end.
Proof.
  induction s as [|c s IH]; intros i; [reflexivity|].
  cbn [find_from startsWith nl]. destruct (Ascii.eqb_spec "010" c) as [<-|Hne].
  - cbn [andb]. exists 0. split; [lia|]. split; reflexivity.
  - cbn [andb]. specialize (IH (S i)).
    assert (Hc : Ascii.eqb c "010" = false)
      by (apply Ascii.eqb_neq; congruence).
    destruct (find_from nl (S i) s) as [j|].
    + destruct IH as (k & -> & Hk & Hg). exists (S k).
      split; [lia|]. split; [simpl; rewrite Hc; exact Hk | exact Hg].
    + simpl. rewrite Hc. exact IH.
Qed.

Lemma find_last_nl s : forall i upto acc,
  (find_last nl i upto s acc = acc
   /\ line_feeds (take (S upto - i) s) = 0)
  \/ (exists k,
        find_last nl i upto s acc = Some (i + k) /\ i + k <= upto
        /\ String.get k s = Some "010"%char
        /\ line_feeds (drop (S k) (take (S upto - i) s)) = 0).
Proof.
  induction s as [|c s IH]; intros i upto acc.
  - left. cbn [find_last startsWith nl]. rewrite andb_false_r.
    split; [reflexivity|]. now destruct (S upto - i).
  - cbn [find_last startsWith nl]. rewrite andb_true_r.
    destruct (IH (S i) upto
                (if (i <=? upto) && Ascii.eqb "010" c then Some i else acc))
      as [[-> Hl]|(k & -> & Hk & Hg & Hl)].
    + destruct (Nat.leb_spec i upto) as [Hi|Hi].
      * replace (S upto - i) with (S (upto - i)) by lia.
        replace (S upto - S i) with (upto - i) in Hl by lia.
        destruct (Ascii.eqb_spec "010" c) as [<-|Hne]; cbn [andb].
        -- right. exists 0. rewrite Nat.add_0_r.
           split; [reflexivity|]. split; [lia|]. split; [reflexivity|].
           exact Hl.
        -- left. split; [reflexivity|]. simpl.
           assert (Hc : Ascii.eqb c "010" = false)
             by (apply Ascii.eqb_neq; congruence).
           rewrite Hc. exact Hl.
      * cbn [andb]. left. split; [reflexivity|].
        replace (S upto - i) with 0 by lia. reflexivity.
    + right. exists (S k). split; [f_equal; lia|]. split; [lia|].
      split; [exact Hg|].
      replace (S upto - i) with (S (S upto - S i)) by lia. exact Hl.
Qed.

(** The last piece of [split] is what follows the last line feed. *)
Lemma last_split_char_drop t : forall a,
  a <= len t -> line_feeds (drop a t) = 0 ->
  (a = 0 \/ String.get (a - 1) t = Some "010"%char) ->
  List.last (split_char "010" t) "" = drop a t.
Proof.
  induction t as [|c t IH]; intros a Ha Hl Hg.
  - destruct a; reflexivity.
  - destruct a as [|a].
    + rewrite split_char_one by exact Hl. reflexivity.
    + destruct Hg as [Hg|Hg]; [discriminate|].
      cbn [len String.length] in Ha. cbn [drop] in Hl |- *.
      replace (S a - 1) with a in Hg by lia.
      destruct a as [|a'].
      * cbn [String.get] in Hg. injection Hg as ->.
        rewrite last_split_char_cons by (left; reflexivity).
        apply IH; [lia | exact Hl | left; reflexivity].
      * cbn [String.get] in Hg.
        rewrite last_split_char_cons
          by (right; eapply line_feeds_get; exact Hg).
        apply IH; [unfold len; lia | exact Hl |].
        right. now replace (S a' - 1) with a' by lia.
Qed.

Lemma sub_sub i j a b s :
  a + j <= b -> sub i j (sub a b s) = sub (a + i) (a + j) s.
Proof.
  intros H. unfold sub.
  rewrite drop_take, drop_drop, take_take.
  replace (a + j - (a + i)) with (j - i) by lia.
  f_equal. lia.
Qed.

End LocationFacts.

(** ** [getFullLine] *)

Module LineFacts.
Import JS MatcherTypes MatcherInvariants JSFacts StringFacts.

Lemma getFullLine_line (source : string) (index : Z) :
  (1 <= index <= Z.of_nat (len source))%Z
  \/ (index = 0%Z /\ startsWith nl source = false) ->
  exists a e : nat,
    getFullLine source index = sub a e source
    /\ (Z.of_nat a <= index <= Z.of_nat e)%Z /\ e <= len source
    /\ line_feeds (sub a e source) = 0
    /\ (a = 0 \/ String.get (a - 1) source = Some "010"%char)
    /\ (e = len source \/ String.get e source = Some "010"%char)
    /\ snd (getLineAndColumn source index) = (index - Z.of_nat a + 1)%Z.
Proof.
  intros H. set (n := Z.to_nat index).
  assert (Hn : index = Z.of_nat n /\ n <= len source) by (unfold n; lia).
  destruct Hn as [Hidx Hn].
  (* the start of the line *)
  assert (Hstart : exists a,
    (lastIndexOf nl source (index - 1) + 1)%Z = Z.of_nat a /\ a <= n
    /\ line_feeds (drop a (take n source)) = 0
    /\ (a = 0 \/ String.get (a - 1) source = Some "010"%char)).
  { unfold lastIndexOf.
    replace (Z.to_nat (Z.max 0 (index - 1))) with (n - 1) by lia.
    destruct (LocationFacts.find_last_nl source 0 (n - 1) None)
      as [[-> Hl]|(k & -> & Hk & Hg & Hl)].
    - exists 0. split; [reflexivity|]. split; [lia|]. split; [|now left].
      cbn [drop]. rewrite Nat.sub_0_r in Hl.
      destruct n as [|n']; [reflexivity|].
      now replace (S (S n' - 1)) with (S n') in Hl by lia.
    - destruct H as [H|[H0 Hs]].
      + exists (S k). split; [lia|]. split; [lia|].
        rewrite Nat.sub_0_r in Hl.
        replace (S (n - 1)) with n in Hl by lia.
        split; [exact Hl|]. right. now replace (S k - 1) with k by lia.
      + exfalso. assert (k = 0) as -> by lia.
        destruct source as [|c s]; [discriminate|].
        cbn [String.get] in Hg. injection Hg as ->. discriminate. }
  destruct Hstart as (a & Ha & Han & Hla & Hga).
  (* the end of the line *)
  assert (Hend : exists e,
    (if (indexOf nl source index =? -1)%Z then Z.of_nat (len source)
     else indexOf nl source index) = Z.of_nat e
    /\ n <= e /\ e <= len source
    /\ line_feeds (sub n e source) = 0
    /\ (e = len source \/ String.get e source = Some "010"%char)).
  { unfold indexOf.
    replace (Z.to_nat (Z.min (Z.max 0 index) (Z.of_nat (len source))))
      with n by lia.
    pose proof (LocationFacts.find_from_nl (drop n source) n) as Hf.
    destruct (find_from nl n (drop n source)) as [j|].
    - destruct Hf as (k & -> & Hk & Hg).
      rewrite <- StringFacts.get_drop' in Hg.
      pose proof (StringFacts.get_some_lt _ _ _ Hg).
      exists (n + k). destruct (Z.eqb_spec (Z.of_nat (n + k)) (-1)); [lia|].
      split; [reflexivity|]. split; [lia|]. split; [lia|].
      split; [|now right]. unfold sub.
      now replace (n + k - n) with k by lia.
    - exists (len source). cbn [Z.eqb]. split; [reflexivity|].
      split; [lia|]. split; [lia|]. split; [|now left].
      unfold sub. rewrite StringFacts.take_all; [exact Hf|].
      rewrite JSFacts.len_drop. lia. }
  destruct Hend as (e & He & Hne & Hel & Hle & Hge).
  exists a, e. unfold getFullLine. rewrite Ha, He.
  split; [apply LocationFacts.substring_sub; lia|].
  split; [lia|]. split; [exact Hel|].
  split.
  { rewrite (LocationFacts.sub_split a n e) by lia.
    rewrite StringFacts.line_feeds_app, Hle.
    unfold sub at 1. rewrite <- StringFacts.drop_take, Hla. reflexivity. }
  split; [exact Hga|]. split; [exact Hge|].
  unfold getLineAndColumn.
  destruct (index <? 0)%Z eqn:E1; [apply Z.ltb_lt in E1; lia|].
  destruct (Z.of_nat (len source) <? index)%Z eqn:E2;
    [apply Z.ltb_lt in E2; lia|]. cbn [orb snd].
  rewrite Hidx, LocationFacts.substring_prefix by lia.
  rewrite (LocationFacts.last_split_char_drop (take n source) a).
  - rewrite JSFacts.len_drop, JSFacts.len_take. lia.
  - rewrite JSFacts.len_take. lia.
  - exact Hla.
  - destruct a as [|a']; [now left|]. right.
    destruct Hga as [Hg|Hg]; [discriminate|].
    rewrite StringFacts.get_take by lia. exact Hg.
Qed.


(** At offset 0 of a text that begins with a line feed, the search for the
    start of the line finds that line feed, and the bounds are swapped. *)
Lemma getFullLine_leading_feed s : getFullLine (String "010" s) 0 = nl.
Proof.
  assert (H1 : lastIndexOf nl (String "010" s) (0 - 1) = 0%Z).
  { unfold lastIndexOf.
    change (Z.to_nat (Z.max 0 (0 - 1))) with 0.
    destruct (LocationFacts.find_last_nl (String "010" s) 0 0 None)
      as [[_ Hl]|(k & -> & Hk & _)]; [discriminate|].
    assert (k = 0) as -> by lia. reflexivity. }
  assert (H2 : indexOf nl (String "010" s) 0 = 0%Z).
  { unfold indexOf.
    replace (Z.to_nat (Z.min (Z.max 0 0) (Z.of_nat (len (String "010" s)))))
      with 0 by lia.
    reflexivity. }
  unfold getFullLine. rewrite H1, H2.
  change (substring (0 + 1) 0 (String "010" s) = nl).
  unfold substring.
  replace (Z.to_nat (Z.min (Z.max 0 (0 + 1))
                       (Z.of_nat (len (String "010" s))))) with 1
    by (cbn [len String.length]; lia).
  replace (Z.to_nat (Z.min (Z.max 0 0) (Z.of_nat (len (String "010" s)))))
    with 0 by lia.
  reflexivity.
Qed.

End LineFacts.

(** ** Hex colours *)

Module HexFacts.
Import JS Regex Num ColorUtils Invariants ColorFacts.

Lemma hex_pairs_checked : all_pairs hex_pair_spec.
Proof. vm_compute. repeat split. Qed.

Lemma alpha_pairs_checked : all_pairs alpha_pair_spec.
Proof. vm_compute. repeat split. Qed.

Lemma all_in_spec P l : all_in P l -> forall c, In c l -> P c.
Proof.
  induction l as [|x l IH]; simpl; [tauto|].
  intros [Hx Hl] c [<-|Hc]; auto.
Qed.

Lemma is_hex_digit_chars c : is_hex_digit c = true -> In c hex_chars.
Proof.
  destruct c as [[] [] [] [] [] [] [] []]; intros H;
    try (vm_compute in H; discriminate H); vm_compute; tauto.
Qed.

Lemma all_pairs_spec P a b :
  all_pairs P -> is_hex_digit a = true -> is_hex_digit b = true -> P a b.
Proof.
  unfold all_pairs. intros H Ha Hb.
  apply (all_in_spec _ _ (all_in_spec _ _ H a (is_hex_digit_chars a Ha))).
  now apply is_hex_digit_chars.
Qed.

Lemma hex_digit_not_space c : is_hex_digit c = true -> is_space c = false.
Proof.
  destruct c as [[] [] [] [] [] [] [] []]; intros H;
    try (vm_compute in H; discriminate H); reflexivity.
Qed.

(** A doubled digit reads as 17 times the digit. *)
Lemma doubled_digit c d :
  digit_value 16 c = Some d ->
  parseInt (String c (String c "")) 16 = of_Z (17 * Z.of_N d).
Proof.
  destruct c as [[] [] [] [] [] [] [] []]; intros H;
    try (vm_compute in H; discriminate H);
    vm_compute in H; injection H as <-; vm_compute; reflexivity.
Qed.

Lemma parseHexColor_short a b c :
  parseHexColor (String "#" (String a (String b (String c ""))))
  = parseHexColor (String "#" (String a (String a (String b (String b
      (String c (String c ""))))))).
Proof.
  unfold parseHexColor.
  change (replace_str "#" "" (String "#" (String a (String b (String c "")))))
    with (String a (String b (String c ""))).
  change (replace_str "#" ""
            (String "#" (String a (String a (String b (String b
               (String c (String c ""))))))))
    with (String a (String a (String b (String b (String c (String c "")))))).
  change (len (String a (String b (String c ""))) =? 3) with true.
  change (len (String a (String a (String b (String b
            (String c (String c "")))))) =? 3) with false.
  cbv iota.
  change (char_at 0 (String a (String b (String c ""))) +:+
          char_at 0 (String a (String b (String c ""))) +:+
          char_at 1 (String a (String b (String c ""))) +:+
          char_at 1 (String a (String b (String c ""))) +:+
          char_at 2 (String a (String b (String c ""))) +:+
          char_at 2 (String a (String b (String c ""))))
    with (String a (String a (String b (String b (String c (String c "")))))).
  reflexivity.
Qed.

Lemma hex_parseHexColor s :
  (len s =? 3) = false -> hex (parseHexColor (String "#" s)) = String "#" s.
Proof.
  intros H. unfold parseHexColor.
  change (replace_str "#" "" (String "#" s)) with s.
  rewrite H. reflexivity.
Qed.

Lemma rgbToHex_opaque r g b :
  rgbToHex {| rgb_r := r; rgb_g := g; rgb_b := b; rgb_a := None |}
  = "#" +:+ toHex r +:+ toHex g +:+ toHex b.
Proof. reflexivity. Qed.

Lemma parseHexColor_eight a1 b1 a2 b2 a3 b3 a4 b4 :
  rgb (parseHexColor
         (String "#" (String a1 (String b1 (String a2 (String b2
            (String a3 (String b3 (String a4 (String b4 ""))))))))))
  = {| rgb_r := parseInt (String a1 (String b1 "")) 16;
       rgb_g := parseInt (String a2 (String b2 "")) 16;
       rgb_b := parseInt (String a3 (String b3 "")) 16;
       rgb_a := Some (parseInt (String a4 (String b4 "")) 16 / 255)%float |}.
Proof. reflexivity. Qed.

Lemma rgbToHex_alpha r g b alpha :
  rgbToHex {| rgb_r := r; rgb_g := g; rgb_b := b; rgb_a := Some alpha |}
  = if (alpha <? 1)%float
    then ("#" +:+ toHex r +:+ toHex g +:+ toHex b)
         +:+ toHex (Math_round (alpha * 255)%float)
    else "#" +:+ toHex r +:+ toHex g +:+ toHex b.
Proof. reflexivity. Qed.

Lemma parseColor_hex spaces s :
  regexp whitespace = Ok spaces -> spaceless (String "#" s) ->
  parseColor (String "#" s) = Ok (parseHexColor (String "#" s)).
Proof.
  intros Hs Hsp. unfold parseColor. rewrite Hs. cbn [obind].
  rewrite (replace_all_spaceless _ _ Hs Hsp). reflexivity.
Qed.

End HexFacts.

Ltac spaceless_hex :=
  unfold Invariants.spaceless; cbn [list_ascii_of_string forallb];
  repeat match goal with
         | H : Invariants.is_hex_digit ?c = true
           |- context [JS.is_space ?c] =>
             rewrite (HexFacts.hex_digit_not_space c H)
         end; reflexivity.

(** ** [calculateColorDistance] on integer channels *)

Module DistanceFacts.
Import JS Num ColorUtils Invariants.

Lemma sq_diffs_checked :
  forallb (fun x =>
    forallb (fun y =>
      PrimFloat.Leibniz.eqb (Math_sq (snd x - snd y)%float)
        (nth (gap (fst x) (fst y)) squares nan)) channel_table)
    channel_table = true.
Proof. vm_compute. reflexivity. Qed.

Lemma squares_zero_checked :
  forallb (fun k => Bool.eqb (square k =? 0)%float (k =? 0)) (seq 0 256) = true.
Proof. vm_compute. reflexivity. Qed.

Lemma distances_checked :
  forallb (fun r => forallb (fun g => forallb (distance_ok r g) squares)
                      squares) squares = true.
Proof. vm_compute. reflexivity. Qed.

Lemma nth_squares k : k < 256 -> nth k squares nan = square k.
Proof.
  intros H. unfold squares.
  rewrite (nth_indep _ nan (square 0))
    by (rewrite length_map, length_seq; exact H).
  change (square 0) with (square O).
  rewrite (map_nth square (seq 0 256) 0 k), seq_nth by exact H.
  reflexivity.
Qed.

Lemma channel_in k : k < 256 -> In (k, of_Z (Z.of_nat k)) channel_table.
Proof.
  intros H. unfold channel_table.
  apply (in_map (fun k => (k, of_Z (Z.of_nat k)))). apply in_seq. lia.
Qed.

Lemma gap_bound (r1 r2 : Z) :
  (0 <= r1 <= 255)%Z -> (0 <= r2 <= 255)%Z ->
  gap (Z.to_nat r1) (Z.to_nat r2) < 256.
Proof. unfold gap. lia. Qed.

Lemma gap_zero (r1 r2 : Z) :
  (0 <= r1)%Z -> (0 <= r2)%Z ->
  gap (Z.to_nat r1) (Z.to_nat r2) = 0 <-> r1 = r2.
Proof. unfold gap. lia. Qed.

Lemma gap_comm a b : gap a b = gap b a.
Proof. unfold gap. lia. Qed.

Lemma sq_diff (r1 r2 : Z) :
  (0 <= r1 <= 255)%Z -> (0 <= r2 <= 255)%Z ->
  Math_sq (of_Z r1 - of_Z r2)%float
  = square (gap (Z.to_nat r1) (Z.to_nat r2)).
Proof.
  intros H1 H2. pose proof sq_diffs_checked as H.
  rewrite forallb_forall in H.
  specialize (H _ (channel_in (Z.to_nat r1) ltac:(lia))). cbv beta in H.
  rewrite forallb_forall in H.
  specialize (H _ (channel_in (Z.to_nat r2) ltac:(lia))).
  cbv beta in H. cbn [fst snd] in H. apply Leibniz.eqb_spec in H.
  rewrite !Z2Nat.id in H by lia. rewrite H.
  apply nth_squares. now apply gap_bound.
Qed.

Lemma square_in k : k < 256 -> In (square k) squares.
Proof. intros H. apply in_map. apply in_seq. lia. Qed.

Lemma square_zero k : k < 256 -> (square k =? 0)%float = (k =? 0).
Proof.
  intros Hk. pose proof squares_zero_checked as H.
  rewrite forallb_forall in H.
  specialize (H k ltac:(apply in_seq; lia)). cbv beta in H.
  now apply Bool.eqb_prop in H.
Qed.

Lemma distance_checked k1 k2 k3 :
  k1 < 256 -> k2 < 256 -> k3 < 256 ->
  distance_ok (square k1) (square k2) (square k3) = true.
Proof.
  intros H1 H2 H3. pose proof distances_checked as H.
  rewrite forallb_forall in H. specialize (H _ (square_in k1 H1)).
  cbv beta in H. rewrite forallb_forall in H.
  specialize (H _ (square_in k2 H2)). cbv beta in H.
  rewrite forallb_forall in H. exact (H _ (square_in k3 H3)).
Qed.

End DistanceFacts.

(** ** The order of the numbers *)

Module FloatFacts.
Import Num.

Lemma SFcompare_Lt_trans a b c :
  SFcompare a b = Some Lt -> SFcompare b c = Some Lt -> SFcompare a c = Some Lt.
Proof.
  destruct a as [sa|sa| |sa ma ea], b as [sb|sb| |sb mb eb],
    c as [sc|sc| |sc mc ec]; cbn [SFcompare];
    try discriminate; try reflexivity;
    repeat match goal with s : bool |- _ => destruct s end;
    try discriminate; try reflexivity;
    change (PosDef.Pos.compare_cont Eq) with Pos.compare;
    destruct (Z.compare_spec ea eb), (Z.compare_spec eb ec),
      (Z.compare_spec ea ec); try discriminate; try reflexivity; try lia;
    subst;
    destruct (Pos.compare_spec ma mb), (Pos.compare_spec mb mc),
      (Pos.compare_spec ma mc); cbn [CompOpp];
    try discriminate; try reflexivity; try lia.
Qed.

Lemma SFcompare_refl a : SFcompare a a <> Some Lt.
Proof.
  destruct a as [s|s| |s m e]; cbn [SFcompare]; try discriminate.
  - destruct s; discriminate.
  - change (PosDef.Pos.compare_cont Eq) with Pos.compare.
    rewrite Z.compare_refl, Pos.compare_refl. destruct s; discriminate.
Qed.

Lemma ltb_trans x y z :
  (x <? y)%float = true -> (y <? z)%float = true -> (x <? z)%float = true.
Proof.
  rewrite !ltb_spec. unfold SFltb. intros H1 H2.
  destruct (SFcompare (Prim2SF x) (Prim2SF y)) as [[]|] eqn:E1;
    try discriminate.
  destruct (SFcompare (Prim2SF y) (Prim2SF z)) as [[]|] eqn:E2;
    try discriminate.
  now rewrite (SFcompare_Lt_trans _ _ _ E1 E2).
Qed.

Lemma ltb_irrefl x : (x <? x)%float = false.
Proof.
  rewrite ltb_spec. unfold SFltb. pose proof (SFcompare_refl (Prim2SF x)).
  destruct (SFcompare (Prim2SF x) (Prim2SF x)) as [[]|]; congruence.
Qed.

(** What is not below a bound is not below anything below the bound. *)
Lemma not_ltb_below x y z :
  (x <? y)%float = false -> (z <? y)%float = true -> (x <? z)%float = false.
Proof.
  intros H1 H2. destruct (x <? z)%float eqn:E; [|reflexivity].
  now rewrite (ltb_trans _ _ _ E H2) in H1.
Qed.

End FloatFacts.

(** ** [findClosestColor] *)

Module ClosestFacts.
Import Num ColorUtils FloatFacts.

Lemma fold_left_pointwise {S B} (f g : S -> B -> S) (l : list B) :
  (forall s b, f s b = g s b) -> forall s, fold_left f l s = fold_left g l s.
Proof.
  intros H. induction l as [|b l IH]; intros s; [reflexivity|].
  cbn [fold_left]. now rewrite H, IH.
Qed.

Section Nearest.
Context {A : Type} (dist : A -> number).

Lemma fold_nearer (l : list A) : forall (cur : A) (seen : list A),
  In cur seen ->
  (forall c, In c seen -> (dist c <? dist cur)%float = false) ->
  exists best,
    fold_left
      (fun (state : A * number) (c : A) =>
         if (dist c <? snd state)%float then (c, dist c) else state)
      l (cur, dist cur)
    = (best, dist best)
    /\ In best (seen ++ l)
    /\ forall c, In c (seen ++ l) -> (dist c <? dist best)%float = false.
Proof.
  induction l as [|x l IH]; intros cur seen Hin Hmin.
  - exists cur. rewrite app_nil_r. auto.
  - cbn [fold_left snd].
    destruct (dist x <? dist cur)%float eqn:E.
    + destruct (IH x (seen ++ [x])) as (best & Hf & Hb & Hm).
      * apply in_or_app. right. now left.
      * intros c Hc. apply in_app_or in Hc as [Hc|[<-|[]]].
        -- eapply not_ltb_below; eauto.
        -- apply ltb_irrefl.
      * exists best. rewrite <- app_assoc in Hb, Hm. auto.
    + destruct (IH cur (seen ++ [x])) as (best & Hf & Hb & Hm).
      * apply in_or_app. now left.
      * intros c Hc. apply in_app_or in Hc as [Hc|[<-|[]]]; auto.
      * exists best. rewrite <- app_assoc in Hb, Hm. auto.
Qed.

End Nearest.
End ClosestFacts.

(** A regular expression literal of the source parses. *)
Ltac regexp_literal :=
  match goal with
  | |- context [regexp ?p] =>
      let H := fresh "Hre" in
      let r := fresh "re" in
      destruct (regexp p) as [r| |] eqn:H;
      [|exfalso; vm_compute in H; discriminate H ..]; clear H
  end.

(** ** What returns for every input *)

Module TotalFacts.
Import JS Regex Num ColorUtils CoreTypes TokenRegistry Invariants.

Lemma parseOklchColor_outcome s :
  (exists r, parseOklchColor s = Ok r)
  \/ parseOklchColor s = Throw (JsError ("Invalid OKLCH color: " +:+ s))
  \/ parseOklchColor s = Throw TypeError.
Proof.
  unfold parseOklchColor. do 2 regexp_literal. cbn [obind].
  destruct (exec false re s 0); [|auto].
  destruct (filter _ _); eauto.
Qed.

Lemma parseColor_outcome colorStr :
  (exists r, parseColor colorStr = Ok r)
  \/ (exists e, parseColor colorStr = Throw e).
Proof.
  unfold parseColor. regexp_literal. cbn [obind].
  destruct (startsWith "oklch(" _).
  { destruct (parseOklchColor_outcome (replace_all false re "" colorStr))
      as [H|[->| ->]]; eauto. }
  destruct (startsWith "#" _); [eauto|].
  destruct (_ || _); [eauto|]. destruct (_ || _); eauto.
Qed.

Lemma some_test_total patterns s :
  Forall (fun p => exists r, regexp p = Ok r) patterns ->
  exists b, some_test patterns s = Ok b.
Proof.
  induction 1 as [|p ps [r Hr] _ IH]; cbn [some_test]; [eauto|].
  rewrite Hr. cbn [obind]. destruct (test false r s); eauto.
Qed.

Lemma colorFormats_parse :
  Forall (fun p => exists r, regexp p = Ok r) colorFormats.
Proof. repeat constructor; eexists; vm_compute; reflexivity. Qed.

Lemma isColorValue_total value_ : exists b, isColorValue value_ = Ok b.
Proof. apply some_test_total, colorFormats_parse. Qed.

Lemma getNameFromCssVariable_total v :
  exists n, getNameFromCssVariable v = Ok n.
Proof. unfold getNameFromCssVariable. do 2 regexp_literal. eauto. Qed.

Lemma createColorToken_total n v value_ reg :
  exists reg', createColorToken n v value_ reg = Ok reg'.
Proof.
  unfold createColorToken.
  destruct (parseColor_outcome value_) as [[r ->]|[e ->]]; eauto.
Qed.

Lemma parseShadowComponents_total v :
  exists cs, parseShadowComponents v = Ok cs.
Proof. unfold parseShadowComponents. do 2 regexp_literal. eauto. Qed.

Lemma createShadowToken_total n v value_ reg :
  exists reg', createShadowToken n v value_ reg = Ok reg'.
Proof.
  unfold createShadowToken.
  destruct (parseShadowComponents_total value_) as [cs ->]. eauto.
Qed.

Lemma createOrUpdateTypographyToken_total n v value_ reg :
  exists reg', createOrUpdateTypographyToken n v value_ reg = Ok reg'.
Proof. unfold createOrUpdateTypographyToken. regexp_literal. eauto. Qed.

Lemma createToken_total entry reg : exists reg', createToken entry reg = Ok reg'.
Proof.
  unfold createToken. destruct entry as [var val].
  destruct (startsWith "var(" val); [eauto|].
  destruct (getNameFromCssVariable_total var) as [n ->].
  destruct (isColorValue_total val) as [b ->]. cbn [obind].
  destruct b; [apply createColorToken_total|].
  destruct (includes "spacing" var); [eauto|].
  destruct (includes "border-radius" var); [eauto|].
  destruct (includes "shadow" var); [apply createShadowToken_total|].
  destruct (isTypographyProperty var);
    [apply createOrUpdateTypographyToken_total|eauto].
Qed.

Lemma createTokens_loop_total entries : forall reg,
  exists reg', createTokens_loop entries reg = Ok reg'.
Proof.
  induction entries as [|e entries IH]; intros reg; cbn [createTokens_loop];
    [eauto|].
  destruct (createToken_total e reg) as [reg1 ->]. cbn [obind]. apply IH.
Qed.

Lemma parseCssVariables_total css reg :
  exists reg', parseCssVariables css reg = Ok reg'
    /\ colorTokens reg' = colorTokens reg
    /\ initialized reg' = initialized reg /\ options reg' = options reg.
Proof.
  unfold parseCssVariables.
  destruct (regexp variableRegex) as [re| |] eqn:Hre;
    try (exfalso; vm_compute in Hre; discriminate Hre).
  cbn [obind].
  destruct (TailwindFacts.exec_while_total false re css) as [ms ->].
  { vm_compute in Hre. injection Hre as <-. reflexivity. }
  cbn [obind]. eexists. split; [reflexivity|]. auto.
Qed.

End TotalFacts.

(** ** [findClosestColorMatch] *)

Module MatchFacts.
Import JS Regex Num ColorUtils CoreTypes TokenRegistry Invariants.
Import FloatFacts TotalFacts.

Lemma closest_from (target : ColorFormats) (l : list ColorToken) :
  forall (cur : ColorToken) (seen : list ColorToken),
  In cur seen ->
  (forall c, In c seen ->
     (token_distance target c <? token_distance target cur)%float = false) ->
  exists best,
    fold_left
      (fun '(closestToken, smallestDistance) t =>
         let distance :=
           calculateColorDistance (rgb target) (rgb (color_value t)) in
         if (distance <? smallestDistance)%float then (Some t, distance)
         else (closestToken, smallestDistance))
      l (Some cur, token_distance target cur)
    = (Some best, token_distance target best)
    /\ In best (seen ++ l)
    /\ forall c, In c (seen ++ l) ->
         (token_distance target c <? token_distance target best)%float = false.
Proof.
  induction l as [|x l IH]; intros cur seen Hin Hmin.
  - exists cur. rewrite app_nil_r. auto.
  - cbn [fold_left]. fold (token_distance target x).
    destruct (token_distance target x <? token_distance target cur)%float eqn:E.
    + destruct (IH x (seen ++ [x])) as (best & Hf & Hb & Hm).
      * apply in_or_app. right. now left.
      * intros c Hc. apply in_app_or in Hc as [Hc|[<-|[]]].
        -- eapply not_ltb_below; eauto.
        -- apply ltb_irrefl.
      * exists best. rewrite <- app_assoc in Hb, Hm. auto.
    + destruct (IH cur (seen ++ [x])) as (best & Hf & Hb & Hm).
      * apply in_or_app. now left.
      * intros c Hc. apply in_app_or in Hc as [Hc|[<-|[]]]; auto.
      * exists best. rewrite <- app_assoc in Hb, Hm. auto.
Qed.

Lemma closest_none (target : ColorFormats) (l : list ColorToken) :
  forall seen : list ColorToken,
  (forall c, In c seen -> (token_distance target c <? infinity)%float = false) ->
  (fold_left
     (fun '(closestToken, smallestDistance) t =>
        let distance :=
          calculateColorDistance (rgb target) (rgb (color_value t)) in
        if (distance <? smallestDistance)%float then (Some t, distance)
        else (closestToken, smallestDistance))
     l (None, infinity) = (None, infinity)
   /\ forall c, In c (seen ++ l) ->
        (token_distance target c <? infinity)%float = false)
  \/ exists best,
       fold_left
         (fun '(closestToken, smallestDistance) t =>
            let distance :=
              calculateColorDistance (rgb target) (rgb (color_value t)) in
            if (distance <? smallestDistance)%float then (Some t, distance)
            else (closestToken, smallestDistance))
         l (None, infinity) = (Some best, token_distance target best)
       /\ In best (seen ++ l)
       /\ forall c, In c (seen ++ l) ->
            (token_distance target c <? token_distance target best)%float
            = false.
Proof.
  induction l as [|x l IH]; intros seen Hseen.
  - left. rewrite app_nil_r. auto.
  - cbn [fold_left]. fold (token_distance target x).
    destruct (token_distance target x <? infinity)%float eqn:E.
    + right.
      destruct (closest_from target l x (seen ++ [x])) as (best & Hf & Hb & Hm).
      * apply in_or_app. right. now left.
      * intros c Hc. apply in_app_or in Hc as [Hc|[<-|[]]].
        -- eapply not_ltb_below; eauto.
        -- apply ltb_irrefl.
      * exists best. rewrite <- app_assoc in Hb, Hm. auto.
    + destruct (IH (seen ++ [x])) as [[Hf Hm]|(best & Hf & Hb & Hm)].
      * intros c Hc. apply in_app_or in Hc as [Hc|[<-|[]]]; auto.
      * left. rewrite <- app_assoc in Hm. auto.
      * right. exists best. rewrite <- app_assoc in Hb, Hm. auto.
Qed.

Lemma closest_spec target tokens :
  (closest target tokens = (None, infinity))
  \/ exists best,
       closest target tokens = (Some best, token_distance target best)
       /\ In best tokens
       /\ forall c, In c tokens ->
            (token_distance target c <? token_distance target best)%float
            = false.
Proof.
  destruct (closest_none target tokens []) as [[Hf _]|H]; [intros c []|auto|].
  right. exact H.
Qed.

Lemma findClosestColorMatch_sound (reg : TokenRegistry) (colorValue : string)
  (opts : TokenMatchOptions) :
  initialized reg = true ->
  (exists result, findClosestColorMatch reg colorValue opts = Ok result)
  /\ forall m,
       findClosestColorMatch reg colorValue opts = Ok (Some m) ->
       exists target t,
         parseColor colorValue = Ok target
         /\ token m = Color t /\ In t (colorTokens reg)
         /\ originalValue m = colorValue
         /\ ((same_hex target t = true /\ confidence m = 1%float)
             \/ (List.find (same_hex target) (colorTokens reg) = None
                 /\ default false (exact opts) = false
                 /\ confidence m = (1 - token_distance target t)%float
                 /\ (default 0.85%float (threshold opts) <=? confidence m)%float
                    = true
                 /\ forall t', In t' (colorTokens reg) ->
                      (token_distance target t' <? token_distance target t)%float
                      = false)).
Proof.
  intros Hi. unfold findClosestColorMatch. rewrite Hi. cbn [negb].
  destruct (parseColor_outcome colorValue) as [[target ->]|[e ->]].
  2: { split; [eauto|discriminate]. }
  destruct (List.find (same_hex target) (colorTokens reg)) as [t|] eqn:Ef.
  { split; [eauto|]. intros m [= <-]. exists target, t.
    apply find_some in Ef as [Hin Hs]. cbn. auto 10. }
  destruct (default false (exact opts)) eqn:Ee.
  { split; [eauto|discriminate]. }
  destruct (closest_spec target (colorTokens reg))
    as [->|(best & -> & Hb & Hm)].
  { split; [eauto|discriminate]. }
  destruct (_ <=? _)%float eqn:El.
  - split; [eauto|]. intros m [= <-]. exists target, best. cbn.
    split; [reflexivity|]. split; [reflexivity|]. split; [exact Hb|].
    split; [reflexivity|]. right. auto.
  - split; [eauto|discriminate].
Qed.

End MatchFacts.

(** ** [initialize] *)

Module InitFacts.
Import JS Regex Num ColorUtils CoreTypes TokenRegistry Invariants RegistryFacts.

Lemma truthy_absent v : absent v -> truthy v = None.
Proof. now intros [->| ->]. Qed.

Lemma truthy_present s : s <> "" -> truthy (Some s) = Some s.
Proof. destruct s; [congruence|reflexivity]. Qed.

Lemma createToken_options entry reg reg' :
  createToken entry reg = Ok reg' -> options reg' = options reg.
Proof.
  unfold createToken. destruct entry as [var val].
  destruct (startsWith "var(" val); [now intros [= <-]|].
  intros H. apply obind_Ok in H as (name_ & Hn & H).
  apply obind_Ok in H as ([|] & Hc & H).
  - unfold createColorToken in H.
    destruct (parseColor val); try discriminate; now injection H as <-.
  - destruct (includes "spacing" var); [now injection H as <-|].
    destruct (includes "border-radius" var); [now injection H as <-|].
    destruct (includes "shadow" var).
    { unfold createShadowToken in H. apply obind_Ok in H as (? & _ & H).
      now injection H as <-. }
    destruct (isTypographyProperty var); [|now injection H as <-].
    unfold createOrUpdateTypographyToken in H.
    apply obind_Ok in H as (? & _ & H). now injection H as <-.
Qed.

Lemma createTokens_loop_options entries : forall reg reg',
  createTokens_loop entries reg = Ok reg' -> options reg' = options reg.
Proof.
  induction entries as [|e entries IH]; simpl; intros reg reg' H.
  - now injection H as <-.
  - apply obind_Ok in H as (reg1 & H1 & H).
    rewrite (IH _ _ H). eapply createToken_options; eauto.
Qed.

(** Once the text of the style sheet is at hand, [initialize] goes
    through. *)
Lemma initialize_from css readFile ropts :
  (truthy (cssPath ropts) = None /\ truthy (cssContent ropts) = Some css)
  \/ (exists path, truthy (cssPath ropts) = Some path
                   /\ readFile path = inl css) ->
  exists reg,
    initialize readFile (new_ ropts) = Ok reg /\ loaded_from css ropts reg.
Proof.
  intros Hsrc. unfold initialize. cbn [initialized new_ options].
  assert (E : match truthy (cssPath ropts) with
              | Some path =>
                  match readFile path with
                  | inl text => Ok text
                  | inr message =>
                      Throw (JsError ("Failed to read CSS file: " +:+ message))
                  end
              | None =>
                  match truthy (cssContent ropts) with
                  | Some text => Ok text
                  | None =>
                      Throw (JsError
                        "No CSS source provided. Specify cssPath or cssContent.")
                  end
              end = Ok css).
  { destruct Hsrc as [[-> ->]|(path & -> & ->)]; reflexivity. }
  rewrite E. cbn [obind].
  destruct (TotalFacts.parseCssVariables_total css (new_ ropts))
    as (reg1 & H1 & _ & _ & Ho).
  change {| colorTokens := []; typographyTokens := []; spacingTokens := [];
            borderRadiusTokens := []; shadowTokens := []; cssVars := [];
            initialized := false; options := ropts |} with (new_ ropts).
  rewrite H1. cbn [obind]. unfold createTokens.
  destruct (TotalFacts.createTokens_loop_total (cssVars reg1) reg1)
    as [reg2 H2].
  rewrite H2. cbn [obind]. eexists. split; [reflexivity|].
  split; [reflexivity|]. split.
  - cbn [options set_initialized].
    now rewrite (createTokens_loop_options _ _ _ H2), Ho.
  - exists reg1. split; [exact H1|]. cbn [cssVars set_initialized].
    now apply createTokens_loop_cssVars in H2.
Qed.

End InitFacts.

(** ** From the variable table to the tokens *)

Module TableFacts.
Import JS Regex Num ColorUtils CoreTypes TokenRegistry Invariants RegistryFacts.

Lemma classify_cases entry :
  startsWith "var(" (snd entry) = false ->
  forall b, isColorValue (snd entry) = Ok b ->
  classify entry
  = if b then Some color
    else if includes "spacing" (fst entry) then Some spacing
    else if includes "border-radius" (fst entry) then Some borderRadius
    else if includes "shadow" (fst entry) then Some shadow
    else if isTypographyProperty (fst entry) then Some typography
    else None.
Proof. intros Hv b Hb. unfold classify. rewrite Hv, Hb. now destruct b. Qed.

Ltac filed_simpl :=
  unfold parsed_color, filed_under;
  repeat match goal with
         | H : classify _ = _ |- _ => rewrite H
         end;
  cbn [bool_decide decide_rel andb List.filter app];
  repeat match goal with
         | |- context [bool_decide ?P] =>
             first [ rewrite (bool_decide_eq_true_2 P) by congruence
                   | rewrite (bool_decide_eq_false_2 P) by congruence ]
         end;
  cbn [andb List.filter app]; rewrite ?app_nil_r.

Lemma createToken_follows entry reg reg' :
  createToken entry reg = Ok reg' ->
  color_entries reg' = color_entries reg ++ List.filter parsed_color [entry]
  /\ spacing_entries reg'
     = spacing_entries reg ++ List.filter (filed_under spacing) [entry]
  /\ borderRadius_entries reg'
     = borderRadius_entries reg ++ List.filter (filed_under borderRadius) [entry]
  /\ shadow_entries reg'
     = shadow_entries reg ++ List.filter (filed_under shadow) [entry].
Proof.
  unfold createToken. destruct entry as [var val].
  destruct (startsWith "var(" val) eqn:Hv.
  { intros [= <-].
    assert (Hc : classify (var, val) = None)
      by (unfold classify; cbn [snd]; now rewrite Hv).
    repeat split; filed_simpl; reflexivity. }
  intros H. apply obind_Ok in H as (name_ & Hn & H).
  apply obind_Ok in H as (b & Hb & H).
  pose proof (classify_cases (var, val) Hv b Hb) as Hc. cbn [fst snd] in Hc.
  destruct b.
  - unfold createColorToken in H.
    destruct (parseColor val) as [formats|e|] eqn:Hp; try discriminate;
      injection H as <-;
      (repeat split; filed_simpl; cbn [snd]; rewrite ?Hp;
       cbn [List.filter app]; rewrite ?app_nil_r; try reflexivity).
    unfold color_entries. cbn [colorTokens]. rewrite fmap_app. reflexivity.
  - destruct (includes "spacing" var).
    { injection H as <-. repeat split; filed_simpl; try reflexivity.
      unfold spacing_entries. cbn [spacingTokens createSpacingToken].
      rewrite fmap_app. reflexivity. }
    destruct (includes "border-radius" var).
    { injection H as <-. repeat split; filed_simpl; try reflexivity.
      unfold borderRadius_entries.
      cbn [borderRadiusTokens createBorderRadiusToken].
      rewrite fmap_app. reflexivity. }
    destruct (includes "shadow" var).
    { unfold createShadowToken in H. apply obind_Ok in H as (cs & _ & H).
      injection H as <-. repeat split; filed_simpl; try reflexivity.
      unfold shadow_entries. cbn [shadowTokens]. rewrite fmap_app.
      reflexivity. }
    destruct (isTypographyProperty var).
    { unfold createOrUpdateTypographyToken in H.
      apply obind_Ok in H as (? & _ & H). injection H as <-.
      repeat split; filed_simpl; reflexivity. }
    injection H as <-. repeat split; filed_simpl; reflexivity.
Qed.

Lemma createTokens_loop_follows entries : forall done_ reg reg',
  follows_table done_ reg ->
  createTokens_loop entries reg = Ok reg' ->
  follows_table (done_ ++ entries) reg'.
Proof.
  induction entries as [|e entries IH]; intros done_ reg reg' Hf H.
  - cbn in H. injection H as <-. now rewrite app_nil_r.
  - cbn [createTokens_loop] in H.
    apply obind_Ok in H as (reg1 & H1 & H).
    replace (done_ ++ e :: entries) with ((done_ ++ [e]) ++ entries)
      by (now rewrite <- app_assoc).
    apply (IH _ reg1); [|exact H].
    destruct Hf as [F1 F2 F3 F4].
    destruct (createToken_follows _ _ _ H1) as (E1 & E2 & E3 & E4).
    split; rewrite List.filter_app; congruence.
Qed.

End TableFacts.

(** ** The variable table *)

Module KeyFacts.
Import JS CoreTypes TokenRegistry Invariants.

(** *** [Map.set] *)

Lemma keys_map_set k v m :
  keys (map_set k v m) = if bool_decide (k ∈ keys m) then keys m else keys m ++ [k].
Proof.
  unfold keys. induction m as [|[k' v'] m IH]; [reflexivity|].
  cbn [map_set]. destruct (String.eqb_spec k' k) as [->|Hne].
  - cbn [fmap list_fmap fst].
    rewrite bool_decide_eq_true_2 by (apply list_elem_of_here). reflexivity.
  - cbn [fmap list_fmap fst] in *. fold (fst <$> map_set k v m).
    fold (fst <$> m) in *. rewrite IH.
    destruct (bool_decide (k ∈ fst <$> m)) eqn:E.
    + apply bool_decide_eq_true in E.
      rewrite bool_decide_eq_true_2 by (now apply list_elem_of_further).
      reflexivity.
    + apply bool_decide_eq_false in E.
      rewrite bool_decide_eq_false_2; [reflexivity|].
      intros H. apply elem_of_cons in H as [H|H]; congruence.
Qed.

Lemma NoDup_map_set k v m : NoDup (keys m) -> NoDup (keys (map_set k v m)).
Proof.
  intros H. rewrite keys_map_set.
  destruct (bool_decide (k ∈ keys m)) eqn:E; [exact H|].
  apply bool_decide_eq_false in E.
  apply NoDup_app. split; [exact H|]. split.
  - intros x Hx Hk. apply list_elem_of_singleton in Hk. congruence.
  - apply NoDup_singleton.
Qed.

Lemma map_set_dashes k v m :
  Forall (fun x => startsWith "--" x = true) (keys m) ->
  startsWith "--" k = true ->
  Forall (fun x => startsWith "--" x = true) (keys (map_set k v m)).
Proof.
  intros H Hk. rewrite keys_map_set.
  destruct (bool_decide _); [exact H|]. apply Forall_app. split; [exact H|].
  now constructor.
Qed.

(** What was set last is what the table holds for the key. *)
Lemma map_set_holds k v m : (k, v) ∈ map_set k v m.
Proof.
  induction m as [|[k' v'] m IH]; cbn [map_set]; [apply list_elem_of_here|].
  destruct (String.eqb k' k); [apply list_elem_of_here|].
  now apply list_elem_of_further.
Qed.

Lemma map_set_other k v m e :
  fst e <> k -> e ∈ map_set k v m <-> e ∈ m.
Proof.
  intros Hne. induction m as [|[k' v'] m IH]; cbn [map_set].
  - rewrite list_elem_of_singleton. split; [intros ->; now cbn in Hne|].
    intros H. inversion H.
  - destruct (String.eqb_spec k' k) as [->|Hk].
    + rewrite !elem_of_cons. split; intros [->|H]; auto;
        now cbn in Hne.
    + rewrite !elem_of_cons, IH. reflexivity.
Qed.

Lemma key_unique (l : list (string * string)) e1 e2 :
  NoDup (keys l) -> e1 ∈ l -> e2 ∈ l -> fst e1 = fst e2 -> e1 = e2.
Proof.
  unfold keys. induction l as [|x l IH]; intros Hnd H1 H2 Hk.
  - inversion H1.
  - cbn [fmap list_fmap] in Hnd. apply NoDup_cons in Hnd as [Hx Hnd].
    apply elem_of_cons in H1 as [->|H1], H2 as [->|H2]; auto.
    + exfalso. apply Hx. rewrite Hk. now apply list_elem_of_fmap_2.
    + exfalso. apply Hx. rewrite <- Hk. now apply list_elem_of_fmap_2.
Qed.

Lemma NoDup_keys_filter p (l : list (string * string)) :
  NoDup (keys l) -> NoDup (keys (List.filter p l)).
Proof.
  unfold keys. induction l as [|x l IH]; intros H; [constructor|].
  cbn [fmap list_fmap] in H. apply NoDup_cons in H as [Hx H].
  cbn [List.filter]. destruct (p x); [|auto].
  cbn [fmap list_fmap]. apply NoDup_cons. split; [|auto].
  intros Hin. apply Hx. apply list_elem_of_fmap in Hin as (y & -> & Hy).
  apply list_elem_of_fmap_2. apply list_elem_of_In in Hy.
  apply filter_In in Hy as [Hy _]. now apply list_elem_of_In.
Qed.

Lemma NoDup_keys_filters p q (l k : list (string * string)) :
  NoDup (keys l) -> NoDup (keys k) ->
  (forall e, e ∈ k -> e ∈ l /\ q e = true) ->
  (forall e, p e = true -> q e = true -> False) ->
  NoDup (keys (List.filter p l ++ k)).
Proof.
  intros Hl Hk Hsub Hdis. unfold keys. rewrite fmap_app.
  apply NoDup_app. split; [now apply NoDup_keys_filter|]. split; [|exact Hk].
  intros x H1 H2.
  apply list_elem_of_fmap in H1 as (e1 & -> & H1).
  apply list_elem_of_fmap in H2 as (e2 & E & H2).
  apply list_elem_of_In, filter_In in H1 as [H1 Hp].
  apply list_elem_of_In in H1.
  destruct (Hsub e2 H2) as [H2' Hq].
  assert (e1 = e2) by (exact (key_unique l e1 e2 Hl H1 H2' E)). subst e2. eauto.
Qed.

End KeyFacts.

(** ** The registry after [initialize] *)

Module RegistryInvariants.
Import JS Regex Num ColorUtils CoreTypes TokenRegistry Invariants RegistryFacts.
Import KeyFacts TableFacts.

Lemma parseCssVariables_keys css reg reg' :
  parseCssVariables css reg = Ok reg' ->
  NoDup (keys (cssVars reg)) ->
  Forall (fun x => startsWith "--" x = true) (keys (cssVars reg)) ->
  NoDup (keys (cssVars reg'))
  /\ Forall (fun x => startsWith "--" x = true) (keys (cssVars reg')).
Proof.
  unfold parseCssVariables. intros H.
  apply obind_Ok in H as (re & _ & H). apply obind_Ok in H as (ms & _ & H).
  injection H as <-. cbn [cssVars with_cssVars].
  generalize (cssVars reg). induction ms as [|m ms IH]; intros vars Hn Hd.
  - auto.
  - cbn [fold_left]. apply IH.
    + now apply NoDup_map_set.
    + now apply map_set_dashes.
Qed.

Lemma update_first_names {A} (p : A -> bool) (f : A -> A) (g : A -> string) l l' :
  (forall a, g (f a) = g a) ->
  update_first p f l = Some l' -> g <$> l' = g <$> l.
Proof.
  intros Hg. revert l'. induction l as [|a l IH]; intros l' H; [discriminate|].
  cbn [update_first] in H. destruct (p a).
  - injection H as <-. cbn. now rewrite Hg.
  - destruct (update_first p f l) as [l1|]; [|discriminate].
    injection H as <-. cbn. now rewrite (IH l1).
Qed.

Lemma update_first_none {A} (p : A -> bool) (f : A -> A) l :
  update_first p f l = None -> Forall (fun a => p a = false) l.
Proof.
  induction l as [|a l IH]; intros H; [constructor|].
  cbn [update_first] in H. destruct (p a) eqn:E; [discriminate|].
  destruct (update_first p f l); [discriminate|]. constructor; auto.
Qed.

Lemma set_typography_name v value_ t :
  name (typography_base (set_typography v value_ t)) = name (typography_base t).
Proof. reflexivity. Qed.

(** What [createOrUpdateTypographyToken] does to the names: nothing, or
    one new name at the end. *)
Lemma typography_names_step n v value_ reg reg' :
  createOrUpdateTypographyToken n v value_ reg = Ok reg' ->
  typography_names reg' = typography_names reg
  \/ exists b, (b ∉ typography_names reg)
               /\ typography_names reg' = typography_names reg ++ [b].
Proof.
  unfold createOrUpdateTypographyToken. intros H.
  apply obind_Ok in H as (suffix & _ & H). injection H as <-.
  unfold typography_names. cbn [typographyTokens].
  destruct (update_first _ _ (typographyTokens reg)) as [updated|] eqn:E.
  - left. eapply update_first_names; [|exact E]. reflexivity.
  - right. exists (replace_first false suffix "" n). split.
    + apply update_first_none in E. intros Hin.
      apply list_elem_of_fmap in Hin as (t & Ht & Hin).
      rewrite Forall_forall in E. specialize (E t Hin). cbv beta in E.
      rewrite <- Ht, String.eqb_refl in E. discriminate.
    + rewrite fmap_app. reflexivity.
Qed.

Lemma other_lists_typography n v value_ reg reg' :
  createOrUpdateTypographyToken n v value_ reg = Ok reg' ->
  colorTokens reg' = colorTokens reg /\ spacingTokens reg' = spacingTokens reg
  /\ borderRadiusTokens reg' = borderRadiusTokens reg
  /\ shadowTokens reg' = shadowTokens reg.
Proof.
  unfold createOrUpdateTypographyToken. intros H.
  apply obind_Ok in H as (suffix & _ & H). now injection H as <-.
Qed.

(** The effect of one entry on the lists of tokens. *)
Lemma createToken_step entry reg reg' :
  createToken entry reg = Ok reg' ->
  (typography_names reg' = typography_names reg
   \/ exists b, (b ∉ typography_names reg)
                /\ typography_names reg' = typography_names reg ++ [b])
  /\ length (getAllTokens reg')
     <= length (getAllTokens reg) + (if plain_value entry then 1 else 0).
Proof.
  unfold createToken, plain_value. destruct entry as [var val]. cbn [snd].
  assert (L : forall r, length (getAllTokens r)
                        = length (colorTokens r) + length (typography_names r)
                          + length (spacingTokens r)
                          + length (borderRadiusTokens r)
                          + length (shadowTokens r)).
  { intros r. unfold getAllTokens, typography_names.
    rewrite !length_app, !length_fmap. lia. }
  destruct (startsWith "var(" val).
  { intros [= <-]. split; [now left|]. cbn. lia. }
  intros H. apply obind_Ok in H as (name_ & Hn & H).
  apply obind_Ok in H as ([|] & Hc & H); cbn [negb].
  - unfold createColorToken in H.
    destruct (parseColor val); try discriminate; injection H as <-;
      (split; [now left|]); rewrite !L; unfold typography_names;
      cbn [colorTokens typographyTokens spacingTokens borderRadiusTokens
           shadowTokens]; rewrite ?length_app; cbn [length]; lia.
  - destruct (includes "spacing" var).
    { injection H as <-. split; [now left|]. rewrite !L.
      unfold typography_names.
      cbn [colorTokens typographyTokens spacingTokens borderRadiusTokens
           shadowTokens createSpacingToken].
      rewrite ?length_app; cbn [length]; lia. }
    destruct (includes "border-radius" var).
    { injection H as <-. split; [now left|]. rewrite !L.
      unfold typography_names.
      cbn [colorTokens typographyTokens spacingTokens borderRadiusTokens
           shadowTokens createBorderRadiusToken].
      rewrite ?length_app; cbn [length]; lia. }
    destruct (includes "shadow" var).
    { unfold createShadowToken in H. apply obind_Ok in H as (? & _ & H).
      injection H as <-. split; [now left|]. rewrite !L.
      unfold typography_names.
      cbn [colorTokens typographyTokens spacingTokens borderRadiusTokens
           shadowTokens].
      rewrite ?length_app; cbn [length]; lia. }
    destruct (isTypographyProperty var).
    { pose proof (typography_names_step _ _ _ _ _ H) as Hs.
      destruct (other_lists_typography _ _ _ _ _ H) as (E1 & E2 & E3 & E4).
      split; [exact Hs|]. rewrite !L, E1, E2, E3, E4.
      destruct Hs as [->|(b & _ & ->)]; rewrite ?length_app; cbn [length]; lia. }
    injection H as <-. split; [now left|]. lia.
Qed.

Lemma createTokens_loop_steps entries : forall reg reg',
  createTokens_loop entries reg = Ok reg' ->
  NoDup (typography_names reg) ->
  NoDup (typography_names reg')
  /\ length (getAllTokens reg')
     <= length (getAllTokens reg) + length (List.filter plain_value entries).
Proof.
  induction entries as [|e entries IH]; intros reg reg' H Hn.
  - cbn in H. injection H as <-. cbn. split; [exact Hn|lia].
  - cbn [createTokens_loop] in H. apply obind_Ok in H as (reg1 & H1 & H).
    destruct (createToken_step _ _ _ H1) as [Hs Hl].
    assert (Hn1 : NoDup (typography_names reg1)).
    { destruct Hs as [->|(b & Hb & ->)]; [exact Hn|].
      apply NoDup_app. split; [exact Hn|]. split; [|apply NoDup_singleton].
      intros x Hx Hx'. apply list_elem_of_singleton in Hx'. congruence. }
    destruct (IH _ _ H Hn1) as [Hn' Hl']. split; [exact Hn'|].
    cbn [List.filter]. destruct (plain_value e); cbn [length]; lia.
Qed.

(** The steps of a successful [initialize] of a new registry. *)
Lemma initialize_inv readFile ropts reg :
  initialize readFile (new_ ropts) = Ok reg ->
  exists css reg1 reg2,
    parseCssVariables css (new_ ropts) = Ok reg1
    /\ createTokens_loop (cssVars reg1) reg1 = Ok reg2
    /\ reg = set_initialized reg2
    /\ cssVars reg = cssVars reg1
    /\ colorTokens reg1 = [] /\ typographyTokens reg1 = []
    /\ spacingTokens reg1 = [] /\ borderRadiusTokens reg1 = []
    /\ shadowTokens reg1 = [].
Proof.
  unfold initialize. cbn [initialized new_]. intros H.
  apply obind_Ok in H as (css & _ & H).
  apply obind_Ok in H as (reg1 & H1 & H).
  apply obind_Ok in H as (reg2 & H2 & H). injection H as <-.
  exists css, reg1, reg2. split; [exact H1|]. split; [exact H2|].
  split; [reflexivity|]. split.
  { cbn [cssVars set_initialized]. now apply createTokens_loop_cssVars in H2. }
  unfold parseCssVariables in H1.
  apply obind_Ok in H1 as (re & _ & H1). apply obind_Ok in H1 as (ms & _ & H1).
  injection H1 as <-. auto.
Qed.

Lemma initialize_follows readFile ropts reg :
  initialize readFile (new_ ropts) = Ok reg -> follows_table (cssVars reg) reg.
Proof.
  intros H.
  destruct (initialize_inv _ _ _ H)
    as (css & reg1 & reg2 & H1 & H2 & -> & Hv & E1 & E2 & E3 & E4 & E5).
  assert (F : follows_table ([] ++ cssVars reg1) reg2).
  { apply (createTokens_loop_follows _ [] reg1); [|exact H2].
    split; unfold color_entries, spacing_entries, borderRadius_entries,
      shadow_entries; now rewrite ?E1, ?E3, ?E4, ?E5. }
  cbn [app] in F. rewrite Hv. destruct F as [F1 F2 F3 F4].
  split; assumption.
Qed.

(** A colour token comes from a value in a colour format, and its formats
    are those of the value. *)
Lemma createToken_color_values entry reg reg' :
  createToken entry reg = Ok reg' ->
  Forall color_checked (colorTokens reg) ->
  Forall color_checked (colorTokens reg').
Proof.
  unfold createToken. destruct entry as [var val].
  destruct (startsWith "var(" val); [now intros [= <-]|].
  intros H Hinv. apply obind_Ok in H as (name_ & Hn & H).
  apply obind_Ok in H as ([|] & Hc & H).
  - unfold createColorToken in H.
    destruct (parseColor val) eqn:Hp; try discriminate; injection H as <-;
      [|exact Hinv].
    cbn [colorTokens]. apply Forall_app. split; [exact Hinv|].
    constructor; [split; [exact Hc|exact Hp]|constructor].
  - destruct (includes "spacing" var); [now injection H as <-|].
    destruct (includes "border-radius" var); [now injection H as <-|].
    destruct (includes "shadow" var).
    { unfold createShadowToken in H. apply obind_Ok in H as (? & _ & H).
      now injection H as <-. }
    destruct (isTypographyProperty var); [|now injection H as <-].
    unfold createOrUpdateTypographyToken in H.
    apply obind_Ok in H as (? & _ & H). now injection H as <-.
Qed.

Lemma createTokens_loop_color_values entries : forall reg reg',
  createTokens_loop entries reg = Ok reg' ->
  Forall color_checked (colorTokens reg) ->
  Forall color_checked (colorTokens reg').
Proof.
  induction entries as [|e entries IH]; simpl; intros reg reg' H Hinv.
  - now injection H as <-.
  - apply obind_Ok in H as (reg1 & H1 & H).
    eapply IH; eauto. eapply createToken_color_values; eauto.
Qed.

Lemma initialize_color_values readFile ropts reg :
  initialize readFile (new_ ropts) = Ok reg ->
  Forall color_checked (colorTokens reg).
Proof.
  intros H.
  destruct (initialize_inv _ _ _ H)
    as (css & reg1 & reg2 & H1 & H2 & -> & Hv & E1 & E2 & E3 & E4 & E5).
  cbn [colorTokens set_initialized].
  apply (createTokens_loop_color_values _ _ _ H2).
  rewrite E1. constructor.
Qed.

Lemma filed_under_unique c c' e :
  filed_under c e = true -> filed_under c' e = true -> c = c'.
Proof.
  unfold filed_under. intros H1 H2.
  apply bool_decide_eq_true in H1, H2. congruence.
Qed.

Lemma in_filter_elem {A} (p : A -> bool) l e :
  e ∈ List.filter p l -> e ∈ l /\ p e = true.
Proof.
  intros H. apply list_elem_of_In, filter_In in H as [H1 H2].
  split; [now apply list_elem_of_In|exact H2].
Qed.

Lemma NoDup_filed (l : list (string * string)) :
  NoDup (keys l) ->
  NoDup (keys (List.filter parsed_color l ++ List.filter (filed_under spacing) l
               ++ List.filter (filed_under borderRadius) l
               ++ List.filter (filed_under shadow) l)).
Proof.
  intros Hl.
  set (q3 := filed_under shadow).
  set (q2 := fun e => filed_under borderRadius e || q3 e).
  set (q1 := fun e => filed_under spacing e || q2 e).
  assert (K3 : NoDup (keys (List.filter q3 l))
               /\ forall e, e ∈ List.filter q3 l -> e ∈ l /\ q3 e = true).
  { split; [now apply NoDup_keys_filter|]. apply in_filter_elem. }
  assert (K2 : NoDup (keys (List.filter (filed_under borderRadius) l
                            ++ List.filter q3 l))
               /\ forall e, e ∈ List.filter (filed_under borderRadius) l
                                ++ List.filter q3 l -> e ∈ l /\ q2 e = true).
  { destruct K3 as [N3 S3]. split.
    - apply (NoDup_keys_filters _ q3); auto.
      intros e H1 H2. discriminate (filed_under_unique _ _ _ H1 H2).
    - intros e He. apply elem_of_app in He as [He|He].
      + apply in_filter_elem in He as [? He]. unfold q2. now rewrite He.
      + apply S3 in He as [? He]. unfold q2. rewrite He.
        split; [assumption|apply orb_true_r]. }
  assert (K1 : NoDup (keys (List.filter (filed_under spacing) l
                            ++ List.filter (filed_under borderRadius) l
                            ++ List.filter q3 l))
               /\ forall e, e ∈ List.filter (filed_under spacing) l
                                ++ List.filter (filed_under borderRadius) l
                                ++ List.filter q3 l -> e ∈ l /\ q1 e = true).
  { destruct K2 as [N2 S2]. split.
    - apply (NoDup_keys_filters _ q2); auto.
      intros e H1 H2. unfold q2, q3 in H2.
      apply orb_true_iff in H2 as [H2|H2];
        discriminate (filed_under_unique _ _ _ H1 H2).
    - intros e He. apply elem_of_app in He as [He|He].
      + apply in_filter_elem in He as [? He]. unfold q1. now rewrite He.
      + apply S2 in He as [? He]. unfold q1. rewrite He.
        split; [assumption|apply orb_true_r]. }
  destruct K1 as [N1 S1].
  apply (NoDup_keys_filters _ q1); auto.
  intros e H1 H2. unfold parsed_color in H1.
  apply andb_true_iff in H1 as [H1 _]. unfold q1, q2, q3 in H2.
  repeat (apply orb_true_iff in H2 as [H2|H2]);
    discriminate (filed_under_unique _ _ _ H1 H2).
Qed.

End RegistryInvariants.

(** ** [getNameFromCssVariable] *)

Module NameFacts.
Import JS Regex CoreTypes TokenRegistry Invariants MatcherInvariants.

Lemma rmatch_literal dotall c p : forall st k,
  rmatch dotall (literal c p) st k
  = if startsWith (String c p) (rest st) then k (skip_text (String c p) st)
    else None.
Proof.
  revert c. induction p as [|c' p IH]; intros c st k.
  - cbn [literal rmatch startsWith skip_text]. unfold advance.
    destruct (rest st) as [|a s]; [reflexivity|].
    destruct (Ascii.eqb_spec c a) as [->|Hne]; [|reflexivity].
    cbn [andb]. reflexivity.
  - cbn [literal rmatch]. unfold advance.
    destruct (rest st) as [|a s] eqn:Er; [reflexivity|].
    cbn [startsWith]. destruct (Ascii.eqb_spec c a) as [->|Hne];
      [|reflexivity]. cbn [andb].
    rewrite IH. cbn [rest skip_text]. rewrite Er. reflexivity.
Qed.

Lemma pos_skip_text p : forall st, pos (skip_text p st) = pos st + len p.
Proof.
  induction p as [|c p IH]; intros st; cbn [skip_text len String.length].
  - lia.
  - rewrite IH. cbn [pos]. unfold len. lia.
Qed.

(** An anchored pattern matches at offset 0 or nowhere. *)
Lemma search_anchored dotall r s : forall skip p pv,
  0 < p -> search dotall (RSeq RBol r) skip p pv s = None.
Proof.
  induction s as [|c s IH]; intros skip p pv Hp; cbn [search rmatch pos].
  - destruct skip; [|reflexivity].
    destruct (Nat.eqb_spec p 0); [lia|reflexivity].
  - assert (E : match skip with
                | 0 => if p =? 0
                       then rmatch dotall r (MState p pv (String c s) []) Some
                       else None
                | S _ => None
                end = None).
    { destruct skip; [|reflexivity].
      destruct (Nat.eqb_spec p 0); [lia|reflexivity]. }
    rewrite E. apply IH. lia.
Qed.

Lemma exec_anchored dotall r s :
  exec dotall (RSeq RBol r) s 0
  = match rmatch dotall r (MState 0 None s []) Some with
    | Some st => Some (RMatched 0 (pos st) (caps st))
    | None => None
    end.
Proof.
  unfold exec. destruct s as [|c s]; cbn [search rmatch pos Nat.eqb].
  - reflexivity.
  - destruct (rmatch dotall r _ Some); [reflexivity|].
    apply search_anchored. lia.
Qed.

Lemma replace_first_dashes dashes s :
  regexp "^--" = Ok dashes ->
  replace_first false dashes "" s = strip_first ["--"] s.
Proof.
  intros H. vm_compute in H. injection H as <-.
  change (RSeq (RChar "-") (RChar "-")) with (literal "-" "-").
  unfold replace_first. rewrite exec_anchored, rmatch_literal.
  cbn [rest strip_first]. destruct (startsWith "--" s); reflexivity.
Qed.

Lemma replace_first_prefixes prefixes s :
  regexp "^(color-|font-|spacing-|border-radius-|shadow-)" = Ok prefixes ->
  replace_first false prefixes "" s = strip_first category_prefixes s.
Proof.
  intros H. vm_compute in H. injection H as <-.
  change (RSeq (RChar "c") (RSeq (RChar "o") (RSeq (RChar "l")
            (RSeq (RChar "o") (RSeq (RChar "r") (RChar "-"))))))
    with (literal "c" "olor-").
  change (RSeq (RChar "f") (RSeq (RChar "o") (RSeq (RChar "n")
            (RSeq (RChar "t") (RChar "-")))))
    with (literal "f" "ont-").
  change (RSeq (RChar "s") (RSeq (RChar "p") (RSeq (RChar "a")
            (RSeq (RChar "c") (RSeq (RChar "i") (RSeq (RChar "n")
               (RSeq (RChar "g") (RChar "-"))))))))
    with (literal "s" "pacing-").
  change (RSeq (RChar "b") (RSeq (RChar "o") (RSeq (RChar "r")
            (RSeq (RChar "d") (RSeq (RChar "e") (RSeq (RChar "r")
               (RSeq (RChar "-") (RSeq (RChar "r") (RSeq (RChar "a")
                  (RSeq (RChar "d") (RSeq (RChar "i") (RSeq (RChar "u")
                     (RSeq (RChar "s") (RChar "-"))))))))))))))
    with (literal "b" "order-radius-").
  change (RSeq (RChar "s") (RSeq (RChar "h") (RSeq (RChar "a")
            (RSeq (RChar "d") (RSeq (RChar "o") (RSeq (RChar "w")
               (RChar "-")))))))
    with (literal "s" "hadow-").
  unfold replace_first. rewrite exec_anchored.
  cbn [rmatch]. rewrite !rmatch_literal.
  cbn [rest strip_first category_prefixes].
  destruct (startsWith "color-" s); [reflexivity|].
  destruct (startsWith "font-" s); [reflexivity|].
  destruct (startsWith "spacing-" s); [reflexivity|].
  destruct (startsWith "border-radius-" s); [reflexivity|].
  destruct (startsWith "shadow-" s); reflexivity.
Qed.

Lemma getNameFromCssVariable_name v :
  getNameFromCssVariable v = Ok (friendly_name v).
Proof.
  unfold getNameFromCssVariable, friendly_name.
  destruct (regexp "^--") as [dashes| |] eqn:H1;
    try (exfalso; vm_compute in H1; discriminate H1).
  destruct (regexp "^(color-|font-|spacing-|border-radius-|shadow-)")
    as [prefixes| |] eqn:H2;
    try (exfalso; vm_compute in H2; discriminate H2).
  cbn [obind].
  now rewrite (replace_first_dashes _ _ H1), (replace_first_prefixes _ _ H2).
Qed.

End NameFacts.

(** ** The common fields of the tokens *)

Module NamingFacts.
Import JS Regex Num ColorUtils CoreTypes TokenRegistry Invariants.

Lemma update_first_Forall {A} (P : A -> Prop) (p : A -> bool) (f : A -> A) l l' :
  (forall a, P a -> P (f a)) ->
  update_first p f l = Some l' -> Forall P l -> Forall P l'.
Proof.
  intros Hf. revert l'. induction l as [|a l IH]; intros l' H HP;
    [discriminate|].
  cbn [update_first] in H. inversion HP as [|? ? Pa Pl]; subst.
  destruct (p a).
  - injection H as <-. constructor; auto.
  - destruct (update_first p f l) as [l1|]; [|discriminate].
    injection H as <-. constructor; auto.
Qed.

Lemma well_named_all reg :
  Forall well_named (getAllTokens reg)
  <-> Forall (fun t => well_named (Color t)) (colorTokens reg)
      /\ Forall (fun t => well_named (Typography t)) (typographyTokens reg)
      /\ Forall (fun t => well_named (Spacing t)) (spacingTokens reg)
      /\ Forall (fun t => well_named (BorderRadius t)) (borderRadiusTokens reg)
      /\ Forall (fun t => well_named (Shadow t)) (shadowTokens reg).
Proof.
  unfold getAllTokens. rewrite !Forall_app, !Forall_fmap. reflexivity.
Qed.

Lemma createToken_well_named entry reg reg' :
  createToken entry reg = Ok reg' ->
  Forall well_named (getAllTokens reg) -> Forall well_named (getAllTokens reg').
Proof.
  rewrite !well_named_all. unfold createToken. destruct entry as [var val].
  destruct (startsWith "var(" val); [now intros [= <-]|].
  rewrite NameFacts.getNameFromCssVariable_name.
  intros H (I1 & I2 & I3 & I4 & I5). cbn [obind] in H.
  apply obind_Ok in H as ([|] & Hc & H).
  - unfold createColorToken in H.
    destruct (parseColor val); try discriminate; injection H as <-; auto.
    cbn [colorTokens typographyTokens spacingTokens borderRadiusTokens
         shadowTokens]. repeat split; auto.
    apply Forall_app. split; [exact I1|]. repeat constructor.
  - destruct (includes "spacing" var).
    { injection H as <-.
      cbn [colorTokens typographyTokens spacingTokens borderRadiusTokens
           shadowTokens createSpacingToken]. repeat split; auto.
      apply Forall_app. split; [exact I3|]. repeat constructor. }
    destruct (includes "border-radius" var).
    { injection H as <-.
      cbn [colorTokens typographyTokens spacingTokens borderRadiusTokens
           shadowTokens createBorderRadiusToken]. repeat split; auto.
      apply Forall_app. split; [exact I4|]. repeat constructor. }
    destruct (includes "shadow" var).
    { unfold createShadowToken in H. apply obind_Ok in H as (? & _ & H).
      injection H as <-.
      cbn [colorTokens typographyTokens spacingTokens borderRadiusTokens
           shadowTokens]. repeat split; auto.
      apply Forall_app. split; [exact I5|]. repeat constructor. }
    destruct (isTypographyProperty var); [|injection H as <-; auto].
    unfold createOrUpdateTypographyToken in H.
    apply obind_Ok in H as (suffix & _ & H). injection H as <-.
    cbn [colorTokens typographyTokens spacingTokens borderRadiusTokens
         shadowTokens]. repeat split; auto.
    destruct (update_first _ _ (typographyTokens reg)) as [updated|] eqn:E.
    + eapply update_first_Forall; [|exact E|exact I2]. auto.
    + apply Forall_app. split; [exact I2|]. repeat constructor.
Qed.

Lemma createTokens_loop_well_named entries : forall reg reg',
  createTokens_loop entries reg = Ok reg' ->
  Forall well_named (getAllTokens reg) -> Forall well_named (getAllTokens reg').
Proof.
  induction entries as [|e entries IH]; simpl; intros reg reg' H Hinv.
  - now injection H as <-.
  - apply obind_Ok in H as (reg1 & H1 & H).
    eapply IH; eauto. eapply createToken_well_named; eauto.
Qed.

End NamingFacts.

(** ** The records of [TailwindClassMatcher.match] *)

Module ShapeFacts.
Import JS Regex MatcherTypes MatcherInvariants.
Import TailwindClassMatcher TailwindFacts.

Lemma arbitrary_shape er source types_ cn am r :
  arbitrary er source types_ cn am = Some r -> tailwind_record source types_ r.
Proof.
  unfold arbitrary.
  destruct (object_get TAILWIND_PREFIX_MAP _) as [[p t]|] eqn:E; [|discriminate].
  destruct (bool_decide (t ∈ types_)) eqn:Et; [|discriminate].
  cbn [negb]. intros [= <-]. apply bool_decide_eq_true in Et.
  unfold tailwind_record. cbn [scope type property path value location context
    ctx_line]. unfold createMatchLocation.
  destruct (getLineAndColumn _ _) eqn:Eg. cbn [start end_ line column].
  split; [reflexivity|]. split; [exact Et|]. split; [eauto|].
  split; [lia|]. split; [lia|]. split; [reflexivity|].
  symmetry. exact Eg.
Qed.

Lemma omap_Forall {A B} (f : A -> option B) (P : B -> Prop) l :
  (forall a b, f a = Some b -> P b) -> Forall P (omap f l).
Proof.
  intros H. induction l as [|a l IH]; cbn; [constructor|].
  destruct (f a) eqn:E; [constructor; eauto|exact IH].
Qed.

Lemma scan_candidates_shape arbRe er source types_ cns : forall rs,
  scan_candidates arbRe er source types_ cns = Ok rs ->
  Forall (tailwind_record source types_) rs.
Proof.
  induction cns as [|cn cns IH]; intros rs H; cbn [scan_candidates] in H.
  - injection H as <-. constructor.
  - apply obind_Ok in H as (rs1 & H1 & H).
    apply obind_Ok in H as (rs2 & H2 & H). injection H as <-.
    apply Forall_app. split; [|auto].
    unfold scan_candidate in H1. apply obind_Ok in H1 as (ams & _ & H1).
    injection H1 as <-. apply omap_Forall. intros a b.
    apply (arbitrary_shape er).
Qed.

Lemma match_with_shape er source options rs :
  match_with er source options = Ok rs ->
  Forall (tailwind_record source (default all_types (types options))) rs.
Proof.
  unfold match_with. intros H.
  apply obind_Ok in H as (classRe & _ & H).
  apply obind_Ok in H as (ms & _ & H).
  apply obind_Ok in H as (cns & _ & H).
  apply obind_Ok in H as (arbRe & _ & H).
  eapply scan_candidates_shape; eauto.
Qed.

End ShapeFacts.

(** ** The records of [InlineStyleMatcher.match] *)

Module InlineFacts.
Import JS Regex MatcherTypes MatcherInvariants.
Import InlineStyleMatcher.

Lemma style_property_shape styleObjStr objContent baseIndex source types_
  element_ pathPrefix pm r :
  (pathPrefix = [] \/ exists v, pathPrefix = [v]) ->
  style_property styleObjStr objContent baseIndex source types_ element_
    pathPrefix pm = Ok (Some r) ->
  inline_record source types_ r.
Proof.
  intros Hp. unfold style_property. cbv zeta.
  destruct (trim (default "" (capture objContent pm 3))) as [|c v] eqn:Ev;
    [discriminate|].
  destruct (object_get CSS_PROPERTY_CATEGORIES _) as [t|] eqn:E; [|discriminate].
  destruct (bool_decide (t ∈ types_)) eqn:Et; [|discriminate].
  cbn [negb]. apply bool_decide_eq_true in Et.
  destruct (isValueMatchingType (String c v) t) as [[|]| |] eqn:Em;
    try discriminate.
  cbn [obind negb]. intros [= <-].
  unfold inline_record. cbn [scope type property path value location context
    ctx_line]. unfold createMatchLocation.
  destruct (getLineAndColumn _ _) eqn:Eg. cbn [start end_ line column].
  split; [reflexivity|]. split; [exact Et|]. split; [exact E|].
  split; [discriminate|]. split; [eexists; symmetry; exact Ev|].
  split; [exact Em|].
  split; [|split; [reflexivity|]; split; [reflexivity|]; symmetry; exact Eg].
  destruct Hp as [->|[v' ->]]; [left|right; exists v']; reflexivity.
Qed.

Lemma style_properties_shape styleObjStr objContent baseIndex source types_
  element_ pathPrefix pms : forall rs,
  (pathPrefix = [] \/ exists v, pathPrefix = [v]) ->
  style_properties styleObjStr objContent baseIndex source types_ element_
    pathPrefix pms = Ok rs ->
  Forall (inline_record source types_) rs.
Proof.
  induction pms as [|pm pms IH]; intros rs Hp H; cbn [style_properties] in H.
  - injection H as <-. constructor.
  - apply obind_Ok in H as (r & H1 & H).
    apply obind_Ok in H as (rs' & H2 & H). injection H as <-.
    destruct r as [r|]; [constructor|].
    + exact (style_property_shape _ _ _ _ _ _ _ _ _ Hp H1).
    + exact (IH _ Hp H2).
    + exact (IH _ Hp H2).
Qed.

Lemma processStyleObject_shape styleObjStr baseIndex source types_ element_
  pathPrefix rs :
  (pathPrefix = [] \/ exists v, pathPrefix = [v]) ->
  processStyleObject styleObjStr baseIndex source types_ element_ pathPrefix
  = Ok rs ->
  Forall (inline_record source types_) rs.
Proof.
  intros Hp H. unfold processStyleObject in H.
  apply obind_Ok in H as (re & _ & H). apply obind_Ok in H as (pms & _ & H).
  eapply style_properties_shape; eauto.
Qed.

Lemma style_objects_shape source types_ ms : forall rs,
  style_objects source types_ ms = Ok rs ->
  Forall (inline_record source types_) rs.
Proof.
  induction ms as [|m ms IH]; intros rs H; cbn [style_objects] in H.
  - injection H as <-. constructor.
  - apply obind_Ok in H as (el & _ & H).
    apply obind_Ok in H as (rs1 & H1 & H).
    apply obind_Ok in H as (rs2 & H2 & H). injection H as <-.
    apply Forall_app. split; [|auto].
    refine (processStyleObject_shape _ _ _ _ _ _ _ _ H1). now left.
Qed.

(** The second loop, one step unfolded. *)
Lemma style_variables_cons source types_ m ms :
  style_variables source types_ (m :: ms)
  = let! varDefRe := regexp (varDefRegex (default "" (capture source m 1))) in
    let! rs :=
      match exec false varDefRe source 0 with
      | Some vm =>
          let! element_ := findEnclosingElement source (m_index m) in
          processStyleObject (default "" (capture source vm 2))
            (Z.of_nat (m_index vm)
             + indexOf (default "" (capture source vm 2)) (matched source vm) 0)
            source types_ element_ [default "" (capture source m 1)]
      | None => Ok []
      end in
    let! rs' := style_variables source types_ ms in
    Ok (rs ++ rs').
Proof. reflexivity. Qed.

Lemma style_variables_shape source types_ ms : forall rs,
  style_variables source types_ ms = Ok rs ->
  Forall (inline_record source types_) rs.
Proof.
  induction ms as [|m ms IH]; intros rs H.
  - cbn [style_variables] in H. injection H as <-. constructor.
  - rewrite style_variables_cons in H.
    destruct (regexp (varDefRegex (default "" (capture source m 1))))
      as [re| |]; cbn [obind] in H; try discriminate H.
    apply obind_Ok in H as (rs1 & H1 & H).
    apply obind_Ok in H as (rs2 & H2 & H). injection H as <-.
    apply Forall_app. split; [|auto].
    destruct (exec false re source 0) as [vm|].
    + apply obind_Ok in H1 as (el & _ & H1).
      refine (processStyleObject_shape _ _ _ _ _ _ _ _ H1). right. eauto.
    + injection H1 as <-. constructor.
Qed.

Lemma match_shape source options rs :
  match_ source options = Ok rs ->
  Forall (inline_record source (default all_types (types options))) rs.
Proof.
  unfold match_. destruct (match scopeLimit options with
                           | Some limit => negb (bool_decide (style ∈ limit))
                           | None => false
                           end).
  { intros [= <-]. constructor. }
  intros H. apply obind_Ok in H as (re & _ & H).
  apply obind_Ok in H as (ms & _ & H).
  apply obind_Ok in H as (rs1 & H1 & H).
  apply obind_Ok in H as (re' & _ & H).
  apply obind_Ok in H as (ms' & _ & H).
  apply obind_Ok in H as (rs2 & H2 & H). injection H as <-.
  apply Forall_app. split.
  - eapply style_objects_shape; eauto.
  - eapply style_variables_shape; eauto.
Qed.

End InlineFacts.

(** ** Tokens shared with the returned arrays *)

Module SharingFacts.
Import CoreTypes Store StoreFacts.


Lemma elements_of_other (h : store) l o a :
  l <> a -> elements_of (<[l := o]> h) a = elements_of h a.
Proof. intros H. unfold elements_of. now rewrite lookup_insert_ne. Qed.

Lemma token_at_insert (h : store) l t : token_at (<[l := OToken t]> h) l = Some t.
Proof. unfold token_at. now rewrite lookup_insert_eq. Qed.


(** *** Assignments to the tokens of a returned array *)

Lemma with_value_category v t t' :
  with_value v t = Some t' -> category t' = category t.
Proof. destruct t; cbn; intros H; now inversion H. Qed.

Lemma assign_value_inv h a i v h2 :
  assign_value h a i v = Some h2 ->
  exists l t t',
    elements_of h a !! i = Some l /\ token_at h l = Some t
    /\ with_value v t = Some t' /\ h2 = mutate h l (OToken t').
Proof.
  unfold assign_value. intros H.
  destruct (elements_of h a !! i) as [l|] eqn:E1; [|discriminate].
  destruct (token_at h l) as [t|] eqn:E2; [|discriminate].
  destruct (with_value v t) as [t'|] eqn:E3; [|discriminate].
  injection H as <-. exists l, t, t'. auto.
Qed.

Lemma token_at_Some h l t : token_at h l = Some t <-> h !! l = Some (OToken t).
Proof.
  unfold token_at. split.
  - destruct (h !! l) as [[]|]; intros H; now inversion H.
  - now intros ->.
Qed.

Lemma wf_untouched h h1 reg : wf h reg -> untouched h h1 -> wf h1 reg.
Proof.
  intros Hwf Hu c. destruct (Hwf c) as (ls & Ha & Hall).
  exists ls. split.
  - rewrite Hu; [exact Ha|]. apply elem_of_dom. eauto.
  - eapply Forall_impl; [exact Hall|]. cbn beta.
    intros l (t & Ht & Hc). exists t. split; [|exact Hc].
    rewrite Hu; [exact Ht|]. apply elem_of_dom. eauto.
Qed.

(** An assignment to a field of a token leaves the registry well formed:
    the token stays in its category. *)
Lemma wf_mutate_token h reg l t t' :
  wf h reg -> h !! l = Some (OToken t) -> category t' = category t ->
  wf (mutate h l (OToken t')) reg.
Proof.
  intros Hwf Hl Hc c. destruct (Hwf c) as (ls & Ha & Hall).
  exists ls. unfold mutate. split.
  - rewrite lookup_insert_ne; [exact Ha|]. intros ->. congruence.
  - eapply Forall_impl; [exact Hall|]. cbn beta.
    intros l' (t0 & Ht0 & Hc0). destruct (decide (l = l')) as [<-|Hne].
    + exists t'. rewrite lookup_insert_eq. split; [reflexivity|]. congruence.
    + exists t0. now rewrite lookup_insert_ne.
Qed.

(** Where every reference of a list is a token, the tokens behind the
    list keep its indices. *)
Lemma omap_tokens_lookup (h : store) (ls : list loc) i l t :
  Forall (fun l => is_Some (token_at h l)) ls ->
  ls !! i = Some l -> token_at h l = Some t ->
  omap (token_at h) ls !! i = Some t.
Proof.
  intros Hall. revert i. induction Hall as [|l0 ls [t0 H0] _ IH]; intros i Hi Ht.
  - discriminate.
  - cbn [omap list_omap]. rewrite H0. destruct i as [|i]; cbn in *.
    + injection Hi as ->. congruence.
    + now apply IH.
Qed.

Lemma wf_tokens h reg c :
  wf h reg -> Forall (fun l => is_Some (token_at h l)) (elements_of h (field reg c)).
Proof.
  intros Hwf. destruct (Hwf c) as (ls & Ha & Hall).
  unfold elements_of. rewrite Ha. eapply Forall_impl; [exact Hall|].
  cbn beta. intros l (t & Ht & _). exists t. now apply token_at_Some.
Qed.

Lemma all_elements_tokens h reg :
  wf h reg -> Forall (fun l => is_Some (token_at h l)) (all_elements h reg).
Proof.
  intros Hwf. unfold all_elements. rewrite !Forall_app.
  pose proof (wf_tokens h reg color Hwf). pose proof (wf_tokens h reg typography Hwf).
  pose proof (wf_tokens h reg spacing Hwf). pose proof (wf_tokens h reg borderRadius Hwf).
  pose proof (wf_tokens h reg shadow Hwf). auto.
Qed.

Lemma view_all_elements h reg :
  wf h reg ->
  TokenRegistry.getAllTokens (view h reg) = omap (token_at h) (all_elements h reg).
Proof.
  intros Hwf. rewrite view_getAllTokens by assumption.
  unfold all_elements, contents. now rewrite !omap_app.
Qed.

Lemma elements_of_untouched h h1 reg c :
  wf h reg -> untouched h h1 ->
  elements_of h1 (field reg c) = elements_of h (field reg c).
Proof.
  intros Hwf Hu. unfold elements_of. rewrite Hu; [reflexivity|].
  now apply wf_array.
Qed.

Lemma all_elements_untouched h h1 reg :
  wf h reg -> untouched h h1 -> all_elements h1 reg = all_elements h reg.
Proof.
  intros Hwf Hu. unfold all_elements.
  rewrite (elements_of_untouched h h1 reg color Hwf Hu : elements_of h1 (colorTokens reg) = _).
  rewrite (elements_of_untouched h h1 reg typography Hwf Hu : elements_of h1 (typographyTokens reg) = _).
  rewrite (elements_of_untouched h h1 reg spacing Hwf Hu : elements_of h1 (spacingTokens reg) = _).
  rewrite (elements_of_untouched h h1 reg borderRadius Hwf Hu : elements_of h1 (borderRadiusTokens reg) = _).
  rewrite (elements_of_untouched h h1 reg shadow Hwf Hu : elements_of h1 (shadowTokens reg) = _).
  reflexivity.
Qed.

Lemma all_elements_mutate h reg l t t' :
  wf h reg -> h !! l = Some (OToken t) ->
  all_elements (mutate h l (OToken t')) reg = all_elements h reg.
Proof.
  intros Hwf Hl. unfold all_elements, mutate.
  assert (E : forall c, elements_of (<[l := OToken t']> h) (field reg c)
                        = elements_of h (field reg c)).
  { intros c. apply elements_of_other. intros ->.
    destruct (Hwf c) as (ls & Ha & _). congruence. }
  rewrite (E color : elements_of _ (colorTokens reg) = _).
  rewrite (E typography : elements_of _ (typographyTokens reg) = _).
  rewrite (E spacing : elements_of _ (spacingTokens reg) = _).
  rewrite (E borderRadius : elements_of _ (borderRadiusTokens reg) = _).
  rewrite (E shadow : elements_of _ (shadowTokens reg) = _).
  reflexivity.
Qed.

(** [a[i].value = v] on an array that holds references of the registry,
    in a store [h1] that extends the store [h] in which the registry is
    well formed: the token is a token of the registry, and the registry
    holds it with the new value. *)
Lemma assign_shared h h1 reg a ls i v h2 :
  wf h reg -> untouched h h1 -> elements_of h1 a = ls ->
  (forall l, l ∈ ls -> l ∈ dom h) ->
  assign_value h1 a i v = Some h2 ->
  exists l t t',
    ls !! i = Some l /\ token_at h l = Some t /\ with_value v t = Some t'
    /\ h1 !! l = Some (OToken t)
    /\ h2 = mutate h1 l (OToken t') /\ wf h2 reg.
Proof.
  intros Hwf Hu Hels Hdom H.
  apply assign_value_inv in H as (l & t & t' & Hl & Ht & Hv & ->).
  rewrite Hels in Hl.
  assert (Hin : l ∈ dom h) by (apply Hdom; eapply list_elem_of_lookup_2; eauto).
  assert (Ht1 : h1 !! l = Some (OToken t)) by now apply token_at_Some.
  exists l, t, t'. repeat split; auto.
  - unfold token_at in *. now rewrite <- (Hu l Hin).
  - eapply wf_mutate_token; eauto using wf_untouched, with_value_category.
Qed.

(** After an assignment to a field of a token of the registry, the
    registry holds the token as assigned, at the place it had. *)
Lemma category_after_assign h reg c l t t' i :
  wf h reg -> h !! l = Some (OToken t) -> category t' = category t ->
  elements_of h (field reg c) !! i = Some l ->
  TokenRegistry.getTokensByCategory (view (mutate h l (OToken t')) reg) c !! i
  = Some t'.
Proof.
  intros Hwf Hl Hc Hi.
  pose proof (wf_mutate_token h reg l t t' Hwf Hl Hc) as Hwf2.
  rewrite view_getTokensByCategory by assumption.
  pose proof (wf_tokens _ reg c Hwf2) as Hf. unfold contents.
  assert (E : elements_of (mutate h l (OToken t')) (field reg c)
              = elements_of h (field reg c)).
  { apply elements_of_other. intros ->.
    destruct (Hwf c) as (ls & Ha & _). congruence. }
  rewrite E in Hf |- *.
  apply (omap_tokens_lookup _ _ i l); auto. apply token_at_insert.
Qed.

Lemma all_after_assign h reg l t t' i :
  wf h reg -> h !! l = Some (OToken t) -> category t' = category t ->
  all_elements h reg !! i = Some l ->
  TokenRegistry.getAllTokens (view (mutate h l (OToken t')) reg) !! i = Some t'.
Proof.
  intros Hwf Hl Hc Hi.
  pose proof (wf_mutate_token h reg l t t' Hwf Hl Hc) as Hwf2.
  rewrite view_all_elements by assumption.
  pose proof (all_elements_tokens _ reg Hwf2) as Hf.
  rewrite (all_elements_mutate h reg l t t' Hwf Hl) in Hf |- *.
  apply (omap_tokens_lookup _ _ i l); auto. apply token_at_insert.
Qed.

End SharingFacts.

(** ** Where the captures of a match start *)

Module LeadFacts.
Import JS Regex RegexSpec MatcherInvariants JSFacts RegexFacts.

Lemma Matches_min_len r :
  forall st st', Matches r st st' -> pos st + min_len r <= pos st'.
Proof.
  induction r as [| ch | | neg items | r1 IH1 r2 IH2 | r1 IH1 r2 IH2
                 | mn mx g r1 IH | i r1 IH | r1 IH | | |];
    cbn [Matches min_len]; intros st st' H;
    try solve [subst; lia];
    try solve [destruct H as [c H]; apply advance_pos in H; lia].
  - destruct H as (mid & H1 & H2). apply IH1 in H1. apply IH2 in H2. lia.
  - destruct H as [H|H]; [apply IH1 in H|apply IH2 in H]; lia.
  - apply (Matches_within (RQuant mn mx g r1)) in H as [H _]. lia.
  - destruct H as (st1 & H1 & ->). apply IH in H1. cbn. lia.
Qed.

Lemma Matches_max_len r :
  forall l st st', max_len r = Some l -> Matches r st st' ->
    pos st' <= pos st + l.
Proof.
  induction r as [| ch | | neg items | r1 IH1 r2 IH2 | r1 IH1 r2 IH2
                 | mn mx g r1 IH | i r1 IH | r1 IH | | |];
    cbn [Matches max_len]; intros l st st' Hl H;
    try discriminate;
    try solve [subst; lia];
    try solve [injection Hl as <-; destruct H as [c H];
               apply advance_pos in H; lia].
  - destruct (max_len r1) as [x|]; [|discriminate].
    destruct (max_len r2) as [y|]; [|discriminate]. injection Hl as <-.
    destruct H as (mid & H1 & H2).
    apply (IH1 _ _ _ eq_refl) in H1. apply (IH2 _ _ _ eq_refl) in H2. lia.
  - destruct (max_len r1) as [x|]; [|discriminate].
    destruct (max_len r2) as [y|]; [|discriminate]. injection Hl as <-.
    destruct H as [H|H];
      [apply (IH1 _ _ _ eq_refl) in H|apply (IH2 _ _ _ eq_refl) in H]; lia.
  - destruct H as (st1 & H1 & ->). apply (IH _ _ _ Hl) in H1. cbn. lia.
Qed.

(** A capture that a match of [r] adds starts at least [lead r] code
    units after the start of the match. *)
Lemma Matches_lead r :
  forall st st' i a b, Matches r st st' -> In (i, (a, b)) (caps st') ->
    In (i, (a, b)) (caps st) \/ exists n, lead r = Some n /\ pos st + n <= a.
Proof.
  induction r as [| ch | | neg items | r1 IH1 r2 IH2 | r1 IH1 r2 IH2
                 | mn mx g r1 IH | j r1 IH | r1 IH | | |];
    cbn [Matches lead]; intros st st' i a b H Hc;
    try solve [subst; auto];
    try solve [destruct H as [c H]; apply advance_caps in H;
               rewrite H in Hc; auto].
  - destruct H as (mid & H1 & H2).
    pose proof (Matches_min_len _ _ _ H1) as Hm.
    destruct (IH2 _ _ _ _ _ H2 Hc) as [Hc'|(n & Hn & Ha)].
    + destruct (IH1 _ _ _ _ _ H1 Hc') as [?|(n & Hn & Ha)]; [auto|].
      right. rewrite Hn. destruct (lead r2) as [y|]; cbn.
      * eexists. split; [reflexivity|]. lia.
      * eauto.
    + right. rewrite Hn. destruct (lead r1) as [x|]; cbn.
      * eexists. split; [reflexivity|]. lia.
      * eexists. split; [reflexivity|]. lia.
  - destruct H as [H|H].
    + destruct (IH1 _ _ _ _ _ H Hc) as [?|(n & Hn & Ha)]; [auto|].
      right. rewrite Hn. destruct (lead r2) as [y|]; cbn.
      * eexists. split; [reflexivity|]. lia.
      * eauto.
    + destruct (IH2 _ _ _ _ _ H Hc) as [?|(n & Hn & Ha)]; [auto|].
      right. rewrite Hn. destruct (lead r1) as [x|]; cbn.
      * eexists. split; [reflexivity|]. lia.
      * eauto.
  - induction H as [|st y st' Hy Hi IHi]; [auto|].
    pose proof (Matches_within _ _ _ Hy) as [Hp _]. cbn in Hp.
    destruct (IHi Hc) as [Hc'|(n & Hn & Ha)].
    + destruct (IH _ _ _ _ _ Hy Hc') as [Hf|(n & Hn & Ha)].
      * left. cbn in Hf. apply filter_In in Hf. tauto.
      * right. exists n. split; [auto|]. cbn in Ha. lia.
    + right. exists n. split; [auto|]. lia.
  - destruct H as (st1 & H1 & ->). cbn in Hc. destruct Hc as [Hc|Hc].
    + injection Hc as <- <- <-. right. exists 0. split; [reflexivity|]. lia.
    + destruct (IH _ _ _ _ _ H1 Hc) as [?|(n & Hn & Ha)]; [auto|].
      right. exists 0. split; [reflexivity|]. lia.
Qed.

(** It starts at most [reach r] code units after the start of the match. *)
Lemma Matches_reach r :
  forall n st st' i a b, reach r = Some n -> Matches r st st' ->
    In (i, (a, b)) (caps st') ->
    In (i, (a, b)) (caps st) \/ a <= pos st + n.
Proof.
  induction r as [| ch | | neg items | r1 IH1 r2 IH2 | r1 IH1 r2 IH2
                 | mn mx g r1 IH | j r1 IH | r1 IH | | |];
    cbn [Matches reach]; intros n st st' i a b Hn H Hc;
    try solve [subst; auto];
    try solve [destruct H as [c H]; apply advance_caps in H;
               rewrite H in Hc; auto].
  - destruct H as (mid & H1 & H2).
    destruct (groups r2) as [|g0 gs0] eqn:G2.
    + rewrite (Matches_caps _ G2 _ _ H2) in Hc. eauto.
    + destruct (reach r1) as [x|] eqn:R1; [|discriminate].
      destruct (max_len r1) as [l|] eqn:L1; [|discriminate].
      destruct (reach r2) as [y|] eqn:R2; [|discriminate].
      injection Hn as <-.
      pose proof (Matches_max_len _ _ _ _ L1 H1) as Hm.
      destruct (IH2 _ _ _ _ _ _ eq_refl H2 Hc) as [Hc'|Ha]; [|right; lia].
      destruct (IH1 _ _ _ _ _ _ eq_refl H1 Hc') as [?|Ha]; [auto|right; lia].
  - destruct (reach r1) as [x|] eqn:R1; [|discriminate].
    destruct (reach r2) as [y|] eqn:R2; [|discriminate].
    injection Hn as <-. destruct H as [H|H].
    + destruct (IH1 _ _ _ _ _ _ eq_refl H Hc) as [?|Ha]; [auto|right; lia].
    + destruct (IH2 _ _ _ _ _ _ eq_refl H Hc) as [?|Ha]; [auto|right; lia].
  - destruct (groups r1) as [|g0 gs0] eqn:G1; [|discriminate].
    left. rewrite <- G1 in H.
    rewrite <- (Matches_caps (RQuant mn mx g r1) G1 _ _ H). exact Hc.
  - destruct H as (st1 & H1 & ->). cbn in Hc. destruct Hc as [Hc|Hc].
    + injection Hc as <- <- <-. right. lia.
    + eauto.
Qed.

Section Exec.
Variable dotall : bool.

(** The captures of a result of [exec]. *)
Lemma exec_lead r s k m n i a b :
  lead r = Some n -> exec dotall r s k = Some m -> In (i, (a, b)) (m_caps m) ->
  m_index m + n <= a.
Proof.
  intros Hn He Hc. unfold exec in He.
  apply search_sound in He as (pv' & s' & st' & _ & _ & HM & _ & H5).
  rewrite H5 in Hc.
  destruct (Matches_lead _ _ _ _ _ _ HM Hc) as [[]|(n' & Hn' & Ha)].
  cbn in Ha. congruence.
Qed.

Lemma exec_reach r s k m n i a b :
  reach r = Some n -> exec dotall r s k = Some m -> In (i, (a, b)) (m_caps m) ->
  a <= m_index m + n.
Proof.
  intros Hn He Hc. unfold exec in He.
  apply search_sound in He as (pv' & s' & st' & _ & _ & HM & _ & H5).
  rewrite H5 in Hc.
  destruct (Matches_reach _ _ _ _ _ _ _ Hn HM Hc) as [[]|Ha]. exact Ha.
Qed.

End Exec.
End LeadFacts.

(** ** The locations of [TailwindClassMatcher.match] *)

Module PlaceFacts.
Import JS Regex RegexSpec MatcherTypes TailwindClassMatcher.
Import MatcherInvariants JSFacts RegexFacts TailwindFacts LocationFacts LeadFacts.

(** A match of a pattern of the shape [\b(g1)c1(g2)c2]: where its two
    captures lie. *)
Lemma bracket_captures g1 g2 c1 c2 st st' :
  groups g1 = [] -> groups g2 = [] -> caps st = [] ->
  Matches (RSeq RWordB (RSeq (RGroup 1 g1) (RSeq (RChar c1)
             (RSeq (RGroup 2 g2) (RChar c2))))) st st' ->
  exists e1 e2, pos st <= e1 /\ e1 + 1 <= e2 /\ e2 + 1 = pos st'
    /\ caps st' = [(2, (e1 + 1, e2)); (1, (pos st, e1))].
Proof.
  intros G1 G2 C0 H. simpl in H.
  destruct H as (? & -> & sA & (s1 & M1 & ->) & sB & (? & A1) & sC
                 & (s3 & M2 & ->) & (? & A2)).
  pose proof (Matches_within _ _ _ M1) as (W1 & _).
  pose proof (Matches_within _ _ _ M2) as (W2 & _).
  apply (Matches_caps _ G1) in M1. apply (Matches_caps _ G2) in M2.
  pose proof (advance_pos _ _ _ A1) as P1. pose proof (advance_caps _ _ _ A1) as K1.
  pose proof (advance_pos _ _ _ A2) as P2. pose proof (advance_caps _ _ _ A2) as K2.
  simpl in *. exists (pos s1), (pos s3). repeat split; try lia.
  rewrite K2, M2, K1, M1, C0, P1. repeat f_equal; lia.
Qed.

(** The two captures of a match of [arbitraryValueRegex]. *)
Lemma arbitrary_captures arbRe s k am :
  regexp arbitraryValueRegex = Ok arbRe ->
  exec false arbRe s k = Some am ->
  exists e1 e2,
    m_index am <= e1 /\ e1 + 1 <= e2 /\ e2 + 1 = m_end am /\ m_end am <= len s
    /\ capture s am 1 = Some (sub (m_index am) e1 s)
    /\ capture s am 2 = Some (sub (e1 + 1) e2 s).
Proof.
  intros Hre He. vm_compute in Hre. injection Hre as <-.
  pose proof (exec_sound _ _ _ _ _ He) as [_ _ Hend _ _].
  unfold exec in He.
  apply search_sound in He as (pv' & s' & st' & H1 & H2 & HM & H4 & H5).
  apply bracket_captures in HM as (e1 & e2 & E1 & E2 & E3 & E4);
    try reflexivity.
  cbn in E1, E4. exists e1, e2. unfold capture. rewrite H5, E4. cbn.
  repeat split; auto; lia.
Qed.

(** Where the record of a match in a candidate says its value is, and
    where in the text of the candidate the value is. *)
Lemma arbitrary_place arbRe er source types_ cn k am r :
  regexp arbitraryValueRegex = Ok arbRe ->
  exec false arbRe (cn_value cn) k = Some am ->
  arbitrary er source types_ cn am = Some r ->
  exists a2 b2,
    a2 <= b2 /\ b2 < len (cn_value cn)
    /\ value r = sub a2 b2 (cn_value cn)
    /\ start (location r) = Z.of_nat (cn_start cn + a2)
    /\ end_ (location r) = Z.of_nat (cn_start cn + b2).
Proof.
  intros Hre He Ha.
  destruct (arbitrary_captures _ _ _ _ Hre He)
    as (e1 & e2 & E1 & E2 & E3 & E4 & C1 & C2).
  exists (e1 + 1), e2. split; [lia|]. split; [lia|].
  unfold arbitrary in Ha. rewrite C1, C2 in Ha. cbn [default] in Ha.
  destruct (object_get TAILWIND_PREFIX_MAP _) as [[p t]|]; [|discriminate].
  destruct (negb _); [discriminate|]. injection Ha as <-.
  cbn [value location]. unfold createMatchLocation.
  destruct (getLineAndColumn _ _). cbn [start end_].
  rewrite !len_sub_exact by lia. split; [reflexivity|].
  split; f_equal; lia.
Qed.

(** The text of a candidate, when it is not empty, is a capture of the
    match that the candidate comes from. *)
Lemma candidate_capture dotall re source k m :
  exec dotall re source k = Some m ->
  cn_value (candidate source m) <> "" ->
  exists i a b,
    In (i, (a, b)) (m_caps m) /\ a <= b /\ b <= len source
    /\ cn_value (candidate source m) = sub a b source.
Proof.
  intros He Hne. apply exec_sound in He as [_ _ Hend Hc _].
  assert (Hcap : forall i t, capture source m i = Some t ->
            exists i a b, In (i, (a, b)) (m_caps m) /\ a <= b /\ b <= len source
              /\ t = sub a b source).
  { intros i t Ht. apply capture_inv in Ht as (a & b & Hin & ->).
    exists i, a, b. pose proof (Hc _ _ _ Hin). repeat split; auto; lia. }
  cbn [candidate cn_value] in *.
  destruct (or_else (capture source m 1)
              (or_else (capture source m 2) (capture source m 3)))
    as [t|] eqn:E; cbn [default] in *; [|congruence].
  destruct (or_else_cases (capture source m 1)
              (or_else (capture source m 2) (capture source m 3))) as [H|H];
    rewrite H in E; [eauto|].
  destruct (or_else_cases (capture source m 2) (capture source m 3)) as [H'|H'];
    rewrite H' in E; eauto.
Qed.

(** The records of the candidates of a loop over [re]: the value of a
    record is in the source, further on than its location says by the
    offset of a capture of [re] in its match. *)
Lemma scan_candidates_place arbRe er source types_ dotall re lo :
  regexp arbitraryValueRegex = Ok arbRe ->
  lead re = Some lo ->
  forall ms k rs r, chain dotall re source k ms ->
    scan_candidates arbRe er source types_ (candidate source <$> ms) = Ok rs ->
    In r rs ->
    exists shift,
      lo <= shift /\ (forall hi, reach re = Some hi -> shift <= hi)
      /\ sub (Z.to_nat (start (location r)) + shift)
           (Z.to_nat (end_ (location r)) + shift) source
         = value r.
Proof.
  intros Hre Hlo. induction ms as [|m ms IH]; intros k rs r Hc H Hr;
    cbn [fmap list_fmap scan_candidates] in H.
  - injection H as <-. destruct Hr.
  - destruct Hc as (He & Hne & Hc).
    apply obind_Ok in H as (rs1 & H1 & H).
    apply obind_Ok in H as (rs2 & H2 & [= <-]).
    apply in_app_or in Hr as [Hr|Hr]; [|eauto].
    unfold scan_candidate in H1. apply obind_Ok in H1 as (ams & Hw & [= <-]).
    apply exec_while_chain in Hw.
    assert (Hin : exists j am,
              exec false arbRe (cn_value (candidate source m)) j = Some am
              /\ arbitrary er source types_ (candidate source m) am = Some r).
    { clear - Hw Hr. revert Hw Hr. generalize 0.
      induction ams as [|am ams IHa]; intros j Hw Hr; cbn in Hr; [destruct Hr|].
      destruct Hw as (He & _ & Hw).
      destruct (arbitrary er source types_ (candidate source m) am) as [r'|]
        eqn:Ea; [|eauto].
      destruct Hr as [<-|Hr]; eauto. }
    destruct Hin as (j & am & Hea & Ha).
    destruct (arbitrary_place _ _ _ _ _ _ _ _ Hre Hea Ha)
      as (a2 & b2 & Hab & Hb & Hv & Hs & Hen).
    destruct (candidate_capture _ _ _ _ _ He) as (i & a & b & Hi & Hle & Hb' & Hcv).
    { intros E. rewrite E in Hb. cbn in Hb. lia. }
    pose proof (exec_lead _ _ _ _ _ _ _ _ _ Hlo He Hi) as L1.
    exists (a - m_index m). split; [lia|]. split.
    { intros hi Hhi.
      pose proof (exec_reach _ _ _ _ _ _ _ _ _ Hhi He Hi). lia. }
    rewrite Hs, Hen, !Nat2Z.id, Hv, Hcv. cbn [candidate cn_start].
    rewrite Hcv, len_sub_exact in Hb by lia.
    rewrite sub_sub by lia. f_equal; lia.
Qed.

(** The loop over a pattern finds nothing exactly when the pattern does
    not match in the text. *)
Lemma exec_while_nil dotall r s :
  exec_while dotall r s = Ok [] -> test dotall r s = false.
Proof.
  unfold exec_while, exec_all, test. cbn [exec_loop].
  destruct (exec dotall r s 0) as [m|]; [|reflexivity].
  destruct (m_end m =? m_index m); [discriminate|].
  destruct (exec_loop _ _ _ _ _); discriminate.
Qed.

Lemma exec_while_cons dotall r s m ms :
  exec_while dotall r s = Ok (m :: ms) -> test dotall r s = true.
Proof.
  intros H. apply exec_while_chain in H as (He & _). unfold test.
  now rewrite He.
Qed.

Lemma match_with_place er source options rs r classRe :
  regexp classNamePropRegex = Ok classRe ->
  match_with er source options = Ok rs -> In r rs ->
  exists shift,
    (if test false classRe source then 11 <= shift else shift = 1)
    /\ sub (Z.to_nat (start (location r)) + shift)
         (Z.to_nat (end_ (location r)) + shift) source
       = value r.
Proof.
  intros Hc H Hr. unfold match_with in H. rewrite Hc in H. cbn [obind] in H.
  apply obind_Ok in H as (ms & Hms & H).
  destruct (regexp stringLiteralRegex) as [stringRe| |] eqn:Es;
    try (vm_compute in Es; discriminate).
  destruct (regexp arbitraryValueRegex) as [arbRe| |] eqn:Ea;
    try (vm_compute in Ea; discriminate).
  cbn [obind] in H.
  destruct ms as [|m ms].
  - rewrite (exec_while_nil _ _ _ Hms).
    apply obind_Ok in H as (cns & Hcns & H).
    apply obind_Ok in Hcns as (ms' & Hms' & [= <-]).
    apply exec_while_chain in Hms'.
    assert (Hlead : lead stringRe = Some 1 /\ reach stringRe = Some 1)
      by (vm_compute in Es; injection Es as <-; split; reflexivity).
    destruct Hlead as [Hlo Hhi].
    destruct (scan_candidates_place arbRe er source _ true stringRe 1 Ea Hlo
                _ _ _ _ Hms' H Hr) as (shift & Hsh & Hsh' & Hv).
    exists shift. specialize (Hsh' _ Hhi). split; [lia|exact Hv].
  - rewrite (exec_while_cons _ _ _ _ _ Hms).
    apply exec_while_chain in Hms.
    assert (Hlo : lead classRe = Some 11)
      by (vm_compute in Hc; injection Hc as <-; reflexivity).
    destruct (scan_candidates_place arbRe er source _ false classRe 11 Ea Hlo
                _ _ _ _ Hms H Hr) as (shift & Hsh & _ & Hv).
    exists shift. split; [exact Hsh|exact Hv].
Qed.

End PlaceFacts.

(** ** The matcher, read exactly *)

Module ExactFacts.
Import JS Regex RegexSpec MatcherInvariants JSFacts RegexFacts StringFacts.

Lemma iter_impl (P Q : mstate -> mstate -> Prop) gs st st' :
  (forall a b, P a b -> Q a b) -> iter P gs st st' -> iter Q gs st st'.
Proof.
  intros H Hi. induction Hi as [|st y st' Hy _ IH]; [constructor|].
  eapply iter_step; eauto.
Qed.

Lemma Accepts_Matches dotall r :
  forall st st', Accepts dotall r st st' -> Matches r st st'.
Proof.
  induction r as [| ch | | neg items | r1 IH1 r2 IH2 | r1 IH1 r2 IH2
                 | mn mx g r1 IH | i r1 IH | r1 IH | | |];
    cbn [Accepts Matches]; intros st st' H;
    try solve [auto]; try solve [destruct H as (c & H & _); eauto];
    try solve [now destruct H].
  - destruct H as (mid & H1 & H2). eauto.
  - destruct H; auto.
  - eapply iter_impl; eauto.
  - destruct H as (st1 & H1 & ->). eauto.
Qed.

Section Soundness.
Variable dotall : bool.

Lemma rmatch_accepts r : sound (rmatch dotall r) (Accepts dotall r).
Proof.
  induction r as [| ch | | neg items | r1 IH1 r2 IH2 | r1 IH1 r2 IH2
                 | mn mx g r1 IH | i r1 IH | r1 IH | | |];
    intros st k res; cbn [rmatch Accepts]; intros H.
  - eauto.
  - destruct (advance st) as [[c st']|] eqn:E; [|discriminate].
    destruct (Ascii.eqb ch c) eqn:Ec; [|discriminate].
    apply Ascii.eqb_eq in Ec. eauto 6.
  - destruct (advance st) as [[c st']|] eqn:E; [|discriminate].
    destruct (_ || _) eqn:Ec; [eauto 6|discriminate].
  - destruct (advance st) as [[c st']|] eqn:E; [|discriminate].
    destruct (class_matches _ _ c) eqn:Ec; [eauto 6|discriminate].
  - apply IH1 in H as (mid & H1 & H). apply IH2 in H as (st' & H2 & H). eauto.
  - destruct (rmatch dotall r1 st k) eqn:E.
    + injection H as ->. apply IH1 in E as (st' & ? & ?). eauto.
    + apply IH2 in H as (st' & ? & ?). eauto.
  - eapply repeat_loop_sound; eauto.
  - apply IH in H as (st1 & H1 & H). eauto.
  - destruct (rmatch dotall r1 st Some); [discriminate|eauto].
  - destruct (xorb _ _) eqn:E; [eauto|discriminate].
  - destruct (pos st =? 0) eqn:E; [|discriminate].
    apply Nat.eqb_eq in E. eauto.
  - destruct (rest st) eqn:E; [eauto|discriminate].
Qed.

(** A result of [search] is a match that starts at its index, in the
    subject. *)
Lemma search_accepts r s : forall skip p pv m,
  search dotall r skip p pv s = Some m ->
  exists pv' st',
    p + skip <= m_index m /\ m_index m <= p + len s
    /\ Accepts dotall r (MState (m_index m) pv' (drop (m_index m - p) s) []) st'
    /\ m_end m = pos st' /\ m_caps m = caps st'.
Proof.
  induction s as [|c s IH]; intros skip p pv m H; cbn [search] in H.
  - destruct skip; [|discriminate].
    destruct (rmatch dotall r _ Some) as [st'|] eqn:E; [|discriminate].
    injection H as <-. apply rmatch_accepts in E as (st'' & HM & E).
    injection E as ->.
    exists pv, st'. simpl. rewrite Nat.sub_diag. repeat split; auto; lia.
  - destruct skip as [|skip].
    + destruct (rmatch dotall r _ Some) as [st'|] eqn:E.
      * injection H as <-. apply rmatch_accepts in E as (st'' & HM & E).
        injection E as ->.
        exists pv, st'. simpl. rewrite Nat.sub_diag. repeat split; auto; lia.
      * apply IH in H as (pv' & st' & H1 & H2 & H3 & H4 & H5).
        exists pv', st'. simpl in *.
        replace (m_index m - p) with (S (m_index m - S p)) by lia.
        repeat split; auto; lia.
    + apply IH in H as (pv' & st' & H1 & H2 & H3 & H4 & H5).
      exists pv', st'. simpl in *.
      replace (m_index m - p) with (S (m_index m - S p)) by lia.
      repeat split; auto; lia.
Qed.

Lemma exec_accepts r s lastIndex m :
  exec dotall r s lastIndex = Some m ->
  exists pv' st',
    m_index m <= len s
    /\ Accepts dotall r (MState (m_index m) pv' (drop (m_index m) s) []) st'
    /\ m_end m = pos st' /\ m_caps m = caps st'.
Proof.
  unfold exec. intros H.
  apply search_accepts in H as (pv' & st' & H1 & H2 & H3 & H4 & H5).
  rewrite Nat.sub_0_r in H3. exists pv', st'. repeat split; auto.
Qed.

End Soundness.

(** *** The text that a match reads *)

Lemma advance_at s st c st' :
  at_subject s st -> advance st = Some (c, st') ->
  at_subject s st' /\ String.get (pos st) s = Some c.
Proof.
  unfold at_subject, advance. intros [Hp Hr].
  destruct (rest st) as [|c0 r0] eqn:E; [discriminate|]. intros [= <- <-].
  cbn [pos rest].
  assert (Hg : String.get (pos st) s = Some c0 /\ drop (S (pos st)) s = r0
               /\ S (pos st) <= len s).
  { clear E. revert Hp Hr. generalize (pos st). clear.
    unfold len.
    induction s as [|a s IH]; intros [|n] Hp Hr; cbn in *; try discriminate.
    - injection Hr as <- <-.
      repeat split; auto; try lia; try (now destruct r0).
    - destruct (IH n) as (H1 & H2 & H3); auto; [lia|].
      repeat split; auto. lia. }
  destruct Hg as (H1 & H2 & H3). repeat split; auto.
Qed.

Lemma Accepts_at dotall s r :
  forall st st', at_subject s st -> Accepts dotall r st st' -> at_subject s st'.
Proof.
  induction r as [| ch | | neg items | r1 IH1 r2 IH2 | r1 IH1 r2 IH2
                 | mn mx g r1 IH | i r1 IH | r1 IH | | |];
    cbn [Accepts]; intros st st' Ha H;
    try solve [subst; auto]; try solve [destruct H as [-> _]; auto];
    try solve [destruct H as (c & H & _);
               exact (proj1 (advance_at _ _ _ _ Ha H))].
  - destruct H as (mid & H1 & H2). eauto.
  - destruct H; eauto.
  - induction H as [|st y st' Hy _ IHi]; [auto|].
    apply IHi. eapply IH; [|exact Hy]. exact Ha.
  - destruct H as (st1 & H1 & ->). exact (IH _ _ Ha H1).
Qed.

(** The code units that a repeated class reads are in the class. *)
Lemma iter_class dotall s neg items gs st st' :
  at_subject s st ->
  iter (Accepts dotall (RClass neg items)) gs st st' ->
  pos st <= pos st'
  /\ forall k c, pos st <= k < pos st' -> String.get k s = Some c ->
       class_matches neg items c = true.
Proof.
  intros Ha H. induction H as [|st y st' Hy _ IH].
  - split; [lia|]. intros k c Hk. lia.
  - destruct Hy as (c0 & Hadv & Hc0).
    assert (Ha' : at_subject s (clear_caps gs st)) by exact Ha.
    destruct (advance_at _ _ _ _ Ha' Hadv) as [Hy Hg].
    pose proof (advance_pos _ _ _ Hadv) as Hp. cbn in Hp, Hg.
    destruct (IH Hy) as [Hle Hall]. split; [lia|].
    intros k c Hk Hget. destruct (Nat.eq_dec k (pos st)) as [->|Hne].
    + congruence.
    + apply (Hall k); [lia|exact Hget].
Qed.

(** *** The code units of a part of a text *)

Lemma Forall_get (P : ascii -> Prop) t :
  (forall j c, String.get j t = Some c -> P c) ->
  Forall P (list_ascii_of_string t).
Proof.
  induction t as [|a t IH]; intros H; cbn; constructor.
  - apply (H 0). reflexivity.
  - apply IH. intros j c Hj. apply (H (S j)). exact Hj.
Qed.

Lemma Forall_sub (P : ascii -> Prop) a b s :
  (forall k c, a <= k < b -> String.get k s = Some c -> P c) ->
  Forall P (list_ascii_of_string (sub a b s)).
Proof.
  intros H. apply Forall_get. intros j c Hj. unfold sub in Hj.
  pose proof (get_some_lt _ _ _ Hj) as Hlt. rewrite len_take in Hlt.
  rewrite get_take in Hj by lia. rewrite <- get_drop' in Hj.
  apply (H (a + j)); [lia|exact Hj].
Qed.

End ExactFacts.

(** ** Parsing the pattern of [varDefRegex] *)

Module ParseFacts.
Import JS Regex InlineStyleMatcher MatcherInvariants.

Lemma name_quiet c : is_name_char c = true -> quiet c = true.
Proof. unfold quiet. now intros ->. Qed.

Lemma parse_quant_quiet r c s :
  quiet c = true -> parse_quant r (String c s) = (r, String c s).
Proof.
  destruct c as [[] [] [] [] [] [] [] []]; intros H;
    try (exfalso; vm_compute in H; discriminate H); reflexivity.
Qed.

Lemma parse_plus_quiet r c s :
  quiet c = true ->
  parse_quant r (String "+" (String c s)) = (RQuant 1 None true r, String c s).
Proof.
  destruct c as [[] [] [] [] [] [] [] []]; intros H;
    try (exfalso; vm_compute in H; discriminate H); reflexivity.
Qed.

Lemma parse_term_name f c s n :
  is_name_char c = true ->
  parse_term (S f) (String c s) n
  = let '(r', s'') := parse_quant (RChar c) s in inr (r', s'', n).
Proof.
  destruct c as [[] [] [] [] [] [] [] []]; intros H;
    try (exfalso; vm_compute in H; discriminate H); reflexivity.
Qed.

Lemma parse_alt_name_char f c s n :
  is_name_char c = true ->
  parse_alt (S f) (String c s) n
  = match parse_term f (String c s) n with
    | inl e => inl e
    | inr (r1, s1, n1) =>
        match parse_alt f s1 n1 with
        | inl e => inl e
        | inr (REmpty, s2, n2) => inr (r1, s2, n2)
        | inr (r2, s2, n2) => inr (RSeq r1 r2, s2, n2)
        end
    end.
Proof.
  destruct c as [[] [] [] [] [] [] [] []]; intros H;
    try (exfalso; vm_compute in H; discriminate H); reflexivity.
Qed.

Lemma head_quiet name c rest :
  is_name name -> quiet c = true ->
  exists c' rest', name +:+ String c rest = String c' rest' /\ quiet c' = true.
Proof.
  intros Hn Hc. destruct name as [|a name']; [cbn; eauto|].
  inversion Hn as [|? ? Ha _]; subst. cbn. eauto using name_quiet.
Qed.

Lemma name_then_shape name r1 r2 :
  exists x y, name_then name (RSeq r1 r2) = RSeq x y.
Proof. destruct name; cbn; eauto. Qed.

(** The parser on a name followed by more of the pattern. *)
Lemma parse_alt_name name : is_name name ->
  forall f n c rest r1 r2 s2 n2,
    quiet c = true ->
    parse_alt (S f) (String c rest) n = inr (RSeq r1 r2, s2, n2) ->
    parse_alt (len name + S f) (name +:+ String c rest) n
    = inr (name_then name (RSeq r1 r2), s2, n2).
Proof.
  induction name as [|a name' IH]; intros Hn f n c rest r1 r2 s2 n2 Hc H.
  - exact H.
  - inversion Hn as [|? ? Ha Hn']; subst.
    change (len (String a name') + S f) with (S (len name' + S f)).
    change (String a name' +:+ String c rest)
      with (String a (name' +:+ String c rest)).
    rewrite (parse_alt_name_char _ _ _ _ Ha).
    rewrite Nat.add_succ_r.
    rewrite (parse_term_name _ _ _ _ Ha).
    destruct (head_quiet name' c rest Hn' Hc) as (c' & rest' & E & Hq).
    rewrite E, (parse_quant_quiet _ _ _ Hq), <- E, <- Nat.add_succ_r.
    rewrite (IH Hn' f n c rest r1 r2 s2 n2 Hc H).
    destruct (name_then_shape name' r1 r2) as (x & y & Ex).
    cbn [name_then]. rewrite Ex. reflexivity.
Qed.

Lemma parse_alt_open f s n :
  parse_alt (S f) (String "(" s) n
  = match parse_term f (String "(" s) n with
    | inl e => inl e
    | inr (r1, s1, n1) =>
        match parse_alt f s1 n1 with
        | inl e => inl e
        | inr (REmpty, s2, n2) => inr (r1, s2, n2)
        | inr (r2, s2, n2) => inr (RSeq r1 r2, s2, n2)
        end
    end.
Proof. reflexivity. Qed.

Lemma parse_alt_escape f s n :
  parse_alt (S f) (String "\" s) n
  = match parse_term f (String "\" s) n with
    | inl e => inl e
    | inr (r1, s1, n1) =>
        match parse_alt f s1 n1 with
        | inl e => inl e
        | inr (REmpty, s2, n2) => inr (r1, s2, n2)
        | inr (r2, s2, n2) => inr (RSeq r1 r2, s2, n2)
        end
    end.
Proof. reflexivity. Qed.

Lemma parse_term_keywords f s :
  parse_term (20 + f) ("(const|let|var)" +:+ String "\" s) 0
  = inr (keywords, String "\" s, 1).
Proof. vm_compute. reflexivity. Qed.

Lemma parse_term_spaces f c s n :
  quiet c = true ->
  parse_term (S f) (String "\" (String "s" (String "+" (String c s)))) n
  = inr (RQuant 1 None true (one CSpace), String c s, n).
Proof.
  intros H. change (parse_term (S f) _ n)
    with (let '(r', s'') := parse_quant (one CSpace) (String "+" (String c s))
          in @inr perr _ (r', s'', n)).
  now rewrite (parse_plus_quiet _ _ _ H).
Qed.

Lemma parse_alt_tail f :
  parse_alt (S (40 + f)) varDef_tail 1 = inr (varDef_tail_regex, "", 2).
Proof. vm_compute. reflexivity. Qed.

Lemma parse_disj_eq f s n :
  parse_disj (S f) s n
  = match parse_alt f s n with
    | inl e => inl e
    | inr (r1, String "|" s2, n1) =>
        match parse_disj f s2 n1 with
        | inl e => inl e
        | inr (r2, s3, n3) => inr (RAlt r1 r2, s3, n3)
        end
    | inr res => inr res
    end.
Proof. reflexivity. Qed.

Lemma parse_alt_keywords f s x y s2 n2 :
  parse_alt (20 + f) (String "\" s) 1 = inr (RSeq x y, s2, n2) ->
  parse_alt (S (20 + f)) ("(const|let|var)" +:+ String "\" s) 0
  = inr (RSeq keywords (RSeq x y), s2, n2).
Proof.
  intros H.
  change ("(const|let|var)" +:+ String "\" s)
    with (String "(" ("const|let|var)" +:+ String "\" s)).
  rewrite parse_alt_open.
  change (String "(" ("const|let|var)" +:+ String "\" s))
    with ("(const|let|var)" +:+ String "\" s).
  rewrite parse_term_keywords. cbv beta iota. rewrite H. reflexivity.
Qed.

Lemma parse_alt_spaces f c s n x y s2 n2 :
  quiet c = true ->
  parse_alt (S f) (String c s) n = inr (RSeq x y, s2, n2) ->
  parse_alt (S (S f)) (String "\" (String "s" (String "+" (String c s)))) n
  = inr (RSeq (RQuant 1 None true (one CSpace)) (RSeq x y), s2, n2).
Proof.
  intros Hc H. rewrite parse_alt_escape, (parse_term_spaces _ _ _ _ Hc).
  cbv beta iota. rewrite H. reflexivity.
Qed.

(** [new RegExp] of the pattern of [varDefRegex] succeeds for every name
    made of identifier characters. *)
Lemma parse_varDefRegex name :
  is_name name ->
  parse (varDefRegex name)
  = inr (RSeq keywords
           (RSeq (RQuant 1 None true (one CSpace))
              (name_then name varDef_tail_regex))).
Proof.
  intros Hn. unfold parse, varDefRegex.
  change "\s*=\s*({[^;]+})" with varDef_tail.
  set (g := 2 * len name + 61).
  assert (Ht : exists rest, varDef_tail = String "\" rest)
    by (eexists; reflexivity).
  destruct Ht as (rest & Ht).
  destruct (head_quiet name "\" rest Hn eq_refl) as (c' & rest' & E & Hq).
  destruct (name_then_shape name
              (RQuant 0 None true (one CSpace))
              (RSeq (RChar "=")
                 (RSeq (RQuant 0 None true (one CSpace))
                    (RGroup 2
                       (RSeq (RChar "{")
                          (RSeq (RQuant 1 None true (RClass true [CRange ";" ";"]))
                             (RChar "}")))))))
    as (x & y & Exy).
  fold varDef_tail_regex in Exy.
  assert (H1 : parse_alt (len name + S (40 + g)) (name +:+ varDef_tail) 1
               = inr (name_then name varDef_tail_regex, "", 2)).
  { rewrite Ht. apply (parse_alt_name name Hn); [reflexivity|].
    rewrite <- Ht. apply parse_alt_tail. }
  assert (H2 : parse_alt (S (S (len name + (40 + g))))
                 ("\s+" +:+ name +:+ varDef_tail) 1
               = inr (RSeq (RQuant 1 None true (one CSpace))
                        (name_then name varDef_tail_regex), "", 2)).
  { rewrite Ht, Exy in *.
    change ("\s+" +:+ name +:+ String "\" rest)
      with (String "\" (String "s" (String "+" (name +:+ String "\" rest)))).
    rewrite E in *. apply parse_alt_spaces; [exact Hq|].
    rewrite <- H1. f_equal. lia. }
  assert (H3 : parse_alt (S (20 + (len name + (22 + g))))
                 ("(const|let|var)\s+" +:+ name +:+ varDef_tail) 0
               = inr (RSeq keywords
                        (RSeq (RQuant 1 None true (one CSpace))
                           (name_then name varDef_tail_regex)), "", 2)).
  { change ("(const|let|var)\s+" +:+ name +:+ varDef_tail)
      with ("(const|let|var)" +:+ String "\" ("s+" +:+ name +:+ varDef_tail)).
    apply parse_alt_keywords.
    change (String "\" ("s+" +:+ name +:+ varDef_tail))
      with ("\s+" +:+ name +:+ varDef_tail).
    rewrite <- H2. f_equal. lia. }
  replace (3 * len ("(const|let|var)\s+" +:+ name +:+ varDef_tail) + 3)
    with (S (S (20 + (len name + (22 + g))))).
  2:{ rewrite !JSFacts.len_app.
      change (len "(const|let|var)\s+") with 18.
      change (len varDef_tail) with 16. unfold g. lia. }
  rewrite parse_disj_eq, H3. reflexivity.
Qed.

Lemma regexp_varDefRegex name :
  is_name name -> exists re, regexp (varDefRegex name) = Ok re.
Proof.
  intros Hn. unfold regexp. rewrite (parse_varDefRegex name Hn). eauto.
Qed.

End ParseFacts.

(** ** [InlineStyleMatcher.match] returns *)

Module InlineTotal.
Import JS Regex RegexSpec MatcherTypes MatcherInvariants InlineStyleMatcher.
Import JSFacts RegexFacts StringFacts TailwindFacts ExactFacts ParseFacts.

(** A part of a sequence that has no groups leaves the captures alone. *)
Lemma Accepts_strip dotall s r1 r2 st st' :
  groups r1 = [] -> at_subject s st -> Accepts dotall (RSeq r1 r2) st st' ->
  exists mid, at_subject s mid /\ caps mid = caps st
    /\ Accepts dotall r2 mid st'.
Proof.
  intros Hg Ha (mid & H1 & H2). exists mid.
  split; [exact (Accepts_at _ _ _ _ _ Ha H1)|]. split; [|exact H2].
  exact (Matches_caps _ Hg _ _ (Accepts_Matches _ _ _ _ H1)).
Qed.

(** What [styleSpreadRegex] captures is an identifier. *)
Lemma spread_name re source k m :
  regexp styleSpreadRegex = Ok re -> exec false re source k = Some m ->
  is_name (default "" (capture source m 1)).
Proof.
  intros Hre He. vm_compute in Hre. injection Hre as <-.
  apply exec_accepts in He as (pv' & st' & Hi & HA & _ & Hc).
  assert (Ha : at_subject source
                 (MState (m_index m) pv' (drop (m_index m) source) []))
    by (split; [exact Hi|reflexivity]).
  assert (C0 : caps (MState (m_index m) pv' (drop (m_index m) source) []) = [])
    by reflexivity.
  revert Ha C0 HA.
  generalize (MState (m_index m) pv' (drop (m_index m) source) []).
  intros st Ha C0 HA.
  repeat match type of HA with
  | Accepts _ (RSeq (RGroup _ _) _) _ _ => fail 1
  | Accepts _ (RSeq _ _) _ _ =>
      apply (Accepts_strip _ source) in HA
        as (mid & Ha' & C' & HA); [|reflexivity|exact Ha];
      rewrite C0 in C'; clear st Ha C0;
      rename mid into st, Ha' into Ha, C' into C0
  end.
  destruct HA as (mid & (st1 & Hit & ->) & (c & Hadv & _)).
  pose proof (iter_class false source false
                [CRange "a" "z"; CRange "A" "Z"; CRange "0" "9"; CRange "_" "_"]
                [] st st1 Ha Hit) as [Hle Hall].
  assert (C1 : caps st1 = caps st).
  { apply (Matches_caps (RQuant 1 None true (RClass false
             [CRange "a" "z"; CRange "A" "Z"; CRange "0" "9"; CRange "_" "_"])));
      [reflexivity|].
    exact (Accepts_Matches _ _ _ _ Hit). }
  apply advance_caps in Hadv. cbn in Hadv.
  unfold capture. rewrite Hc, Hadv, C1, C0. cbn.
  apply Forall_sub. intros j c0 Hj Hg. exact (Hall j c0 Hj Hg).
Qed.

Lemma chain_exec dotall r s : forall ms k,
  chain dotall r s k ms ->
  Forall (fun m => exists j, exec dotall r s j = Some m) ms.
Proof.
  induction ms as [|m ms IH]; intros k H; constructor.
  - destruct H as (He & _). eauto.
  - destruct H as (_ & _ & H). eauto.
Qed.

Lemma isValueMatchingType_total value_ t :
  exists b, isValueMatchingType value_ t = Ok b.
Proof.
  unfold isValueMatchingType.
  destruct t; cbn [PROPERTY_TYPE_PATTERNS]; regexp_literal; cbn [obind]; eauto.
Qed.

Lemma findEnclosingElement_total source styleIndex :
  exists e, findEnclosingElement source styleIndex = Ok e.
Proof.
  unfold findEnclosingElement. cbv zeta. regexp_literal. cbn [obind]. eauto.
Qed.

Lemma style_property_total styleObjStr objContent baseIndex source types_
  element_ pathPrefix pm :
  exists r,
    style_property styleObjStr objContent baseIndex source types_ element_
      pathPrefix pm = Ok r.
Proof.
  unfold style_property. cbv zeta.
  destruct (trim (default "" (capture objContent pm 3))) as [|c v]; [eauto|].
  destruct (object_get CSS_PROPERTY_CATEGORIES _) as [t|]; [|eauto].
  destruct (negb (bool_decide (t ∈ types_))); [eauto|].
  destruct (isValueMatchingType_total (String c v) t) as [b ->]. cbn [obind].
  destruct (negb b); eauto.
Qed.

Lemma style_properties_total styleObjStr objContent baseIndex source types_
  element_ pathPrefix pms :
  exists rs,
    style_properties styleObjStr objContent baseIndex source types_ element_
      pathPrefix pms = Ok rs.
Proof.
  induction pms as [|pm pms [rs IH]]; cbn [style_properties]; [eauto|].
  destruct (style_property_total styleObjStr objContent baseIndex source
              types_ element_ pathPrefix pm) as [r ->].
  cbn [obind]. rewrite IH. cbn [obind]. eauto.
Qed.

Lemma processStyleObject_total styleObjStr baseIndex source types_ element_
  pathPrefix :
  exists rs,
    processStyleObject styleObjStr baseIndex source types_ element_ pathPrefix
    = Ok rs.
Proof.
  unfold processStyleObject. cbv zeta.
  destruct (regexp propertyRegex) as [re| |] eqn:Hre;
    try (exfalso; vm_compute in Hre; discriminate Hre).
  assert (Hn : nonempty re = true)
    by (vm_compute in Hre; injection Hre as <-; reflexivity).
  cbn [obind].
  match goal with
  | |- context [exec_while false re ?s] =>
      destruct (exec_while_total false re s Hn) as [pms ->]
  end.
  cbn [obind]. apply style_properties_total.
Qed.

Lemma style_objects_total source types_ ms :
  exists rs, style_objects source types_ ms = Ok rs.
Proof.
  induction ms as [|m ms [rs IH]]; cbn [style_objects]; [eauto|]. cbv zeta.
  destruct (findEnclosingElement_total source (m_index m)) as [e ->].
  cbn [obind].
  match goal with
  | |- context [processStyleObject ?a ?b ?c ?d ?e ?f] =>
      destruct (processStyleObject_total a b c d e f) as [rs1 ->]
  end.
  cbn [obind]. rewrite IH. cbn [obind]. eauto.
Qed.

Lemma style_variables_total source types_ ms :
  Forall (fun m => is_name (default "" (capture source m 1))) ms ->
  exists rs, style_variables source types_ ms = Ok rs.
Proof.
  induction 1 as [|m ms Hm _ [rs IH]]; [cbn; eauto|].
  rewrite InlineFacts.style_variables_cons.
  destruct (regexp_varDefRegex _ Hm) as [re ->]. cbn [obind].
  rewrite IH.
  destruct (exec false re source 0) as [vm|]; [|cbn [obind]; eauto].
  destruct (findEnclosingElement_total source (m_index m)) as [e ->].
  cbn [obind].
  match goal with
  | |- context [processStyleObject ?a ?b ?c ?d ?e ?f] =>
      destruct (processStyleObject_total a b c d e f) as [rs1 ->]
  end.
  cbn [obind]. eauto.
Qed.

(** [InlineStyleMatcher.match] returns, whatever the source. *)
Lemma match_total source options :
  exists rs, match_ source options = Ok rs.
Proof.
  unfold match_. cbv zeta.
  destruct (match scopeLimit options with
            | Some limit => negb (bool_decide (style ∈ limit))
            | None => false
            end); [eauto|].
  destruct (regexp styleObjectRegex) as [objectRe| |] eqn:Ho;
    try (exfalso; vm_compute in Ho; discriminate Ho).
  destruct (regexp styleSpreadRegex) as [spreadRe| |] eqn:Hs;
    try (exfalso; vm_compute in Hs; discriminate Hs).
  assert (Hno : nonempty objectRe = true)
    by (vm_compute in Ho; injection Ho as <-; reflexivity).
  assert (Hns : nonempty spreadRe = true)
    by (vm_compute in Hs; injection Hs as <-; reflexivity).
  cbn [obind].
  destruct (exec_while_total true objectRe source Hno) as [ms ->].
  cbn [obind].
  destruct (style_objects_total source (default all_types (types options)) ms)
    as [rs1 ->].
  cbn [obind].
  destruct (exec_while_total false spreadRe source Hns) as [ms' Hms'].
  rewrite Hms'. cbn [obind].
  destruct (style_variables_total source (default all_types (types options)) ms')
    as [rs2 ->]; [|cbn [obind]; eauto].
  apply exec_while_chain, chain_exec in Hms'.
  eapply Forall_impl; [exact Hms'|]. cbn. intros m (j & Hj).
  exact (spread_name _ _ _ _ Hs Hj).
Qed.

End InlineTotal.

(** ** Removing white space *)

Module SpaceFacts.
Import JS Regex RegexSpec MatcherInvariants JSFacts RegexFacts StringFacts.

Lemma class_space c : class_matches false [CSpace] c = is_space c.
Proof. unfold class_matches. cbn. now rewrite orb_false_r. Qed.

Lemma past_spaces_pos p pv pv' t cs cs' :
  pos (past_spaces p pv t cs) = pos (past_spaces p pv' t cs').
Proof.
  revert p pv pv'. induction t as [|c t IH]; intros p pv pv'; cbn;
    [reflexivity|].
  destruct (is_space c); [|reflexivity]. apply IH.
Qed.

Lemma past_spaces_caps p pv t cs : caps (past_spaces p pv t cs) = cs.
Proof.
  revert p pv. induction t as [|c t IH]; intros p pv; cbn; [reflexivity|].
  destruct (is_space c); [|reflexivity]. apply IH.
Qed.

(** The greedy loop over [\s] goes past the white space at the head. *)
Lemma repeat_spaces : forall fuel p pv t cs mn,
  len t < fuel -> mn <= 1 ->
  repeat_loop (rmatch false (RClass false [CSpace])) [] true Some fuel mn None
    (MState p pv t cs)
  = if (mn =? 0) || match t with String c _ => is_space c | "" => false end
    then Some (past_spaces p pv t cs) else None.
Proof.
  unfold len.
  induction fuel as [|fuel IH]; intros p pv t cs mn Hf Hmn; [lia|].
  cbn [repeat_loop]. rewrite clear_caps_nil. cbn [rmatch].
  unfold advance. cbn [rest pos prev caps].
  destruct t as [|c t].
  - destruct mn as [|[|mn]]; cbn; try reflexivity; lia.
  - rewrite class_space. cbn [past_spaces].
    destruct (is_space c) eqn:Ec.
    + cbn [pos]. replace (S p =? p) with false
        by (symmetry; apply Nat.eqb_neq; lia).
      rewrite andb_false_r. rewrite orb_true_r.
      rewrite IH by (cbn in Hf; lia).
      cbn [Nat.pred Nat.eqb orb].
      replace (Nat.pred mn =? 0) with true
        by (symmetry; apply Nat.eqb_eq; lia).
      cbn [orb]. destruct (mn =? 0); reflexivity.
    + rewrite orb_false_r. destruct (mn =? 0); reflexivity.
Qed.

Lemma rmatch_spaces p pv t :
  rmatch false spacesRe (MState p pv t []) Some
  = match t with
    | String c _ => if is_space c then Some (past_spaces p pv t []) else None
    | "" => None
    end.
Proof.
  unfold spacesRe. cbn [rmatch groups rest].
  rewrite repeat_spaces by (unfold len; cbn; lia). cbn [Nat.eqb orb].
  destruct t; reflexivity.
Qed.

(** [\s+] finds the first run of white space. *)
Lemma search_spaces s : forall p pv,
  search false spacesRe 0 p pv s
  = match first_run p s with
    | Some (a, b) => Some (RMatched a b [])
    | None => None
    end.
Proof.
  induction s as [|c s IH]; intros p pv; cbn [search first_run].
  - rewrite rmatch_spaces. reflexivity.
  - rewrite rmatch_spaces. destruct (is_space c) eqn:Ec.
    + rewrite past_spaces_caps. do 2 f_equal. apply past_spaces_pos.
    + cbn [Nat.pred]. apply IH.
Qed.

(** A search that starts [skip] code units further on. *)
Lemma search_skip dotall r s : forall skip p pv,
  skip <= len s ->
  exists pv',
    search dotall r skip p pv s = search dotall r 0 (p + skip) pv' (drop skip s).
Proof.
  unfold len. induction s as [|c s IH]; intros skip p pv H.
  - destruct skip; [|cbn in H; lia]. exists pv. now rewrite Nat.add_0_r.
  - destruct skip as [|skip]; [exists pv; now rewrite Nat.add_0_r|].
    cbn in H. destruct (IH skip (S p) (Some c)) as [pv' E]; [lia|].
    exists pv'. cbn [search drop Nat.pred]. rewrite E. f_equal. lia.
Qed.

Lemma past_spaces_bounds p pv t cs :
  p <= pos (past_spaces p pv t cs) <= p + len t
  /\ without_spaces t
     = without_spaces (drop (pos (past_spaces p pv t cs) - p) t).
Proof.
  unfold len. revert p pv. induction t as [|c t IH]; intros p pv; cbn.
  - split; [lia|]. now rewrite Nat.sub_diag.
  - destruct (is_space c) eqn:Ec.
    + destruct (IH (S p) (Some c)) as [H1 H2]. split; [lia|].
      replace (pos (past_spaces (S p) (Some c) t cs) - p)
        with (S (pos (past_spaces (S p) (Some c) t cs) - S p)) by lia.
      exact H2.
    + cbn. rewrite Nat.sub_diag. cbn. rewrite Ec. split; [lia|reflexivity].
Qed.

Lemma first_run_none p t : first_run p t = None -> without_spaces t = t.
Proof.
  revert p. induction t as [|c t IH]; intros p; cbn; [reflexivity|].
  destruct (is_space c); [discriminate|]. intros H. f_equal. eauto.
Qed.

Lemma first_run_some p t a b :
  first_run p t = Some (a, b) ->
  p <= a /\ a < b /\ b <= p + len t
  /\ without_spaces t
     = take (a - p) t +:+ without_spaces (drop (b - p) t).
Proof.
  unfold len. revert p. induction t as [|c t IH]; intros p; cbn [first_run];
    [discriminate|].
  destruct (is_space c) eqn:Ec.
  - intros [= <- <-].
    destruct (past_spaces_bounds (S p) (Some c) t []) as [H1 H2].
    cbn [past_spaces]. rewrite Ec. rewrite Nat.sub_diag.
    cbn [take String.length without_spaces]. rewrite Ec.
    unfold len in H1. repeat split; try lia.
    replace (pos (past_spaces (S p) (Some c) t []) - p)
      with (S (pos (past_spaces (S p) (Some c) t []) - S p)) by lia.
    exact H2.
  - intros H. apply IH in H as (H1 & H2 & H3 & H4).
    cbn [String.length without_spaces]. rewrite Ec.
    repeat split; try lia.
    replace (a - p) with (S (a - S p)) by lia.
    replace (b - p) with (S (b - S p)) by lia.
    cbn [take drop]. rewrite append_cons. now f_equal.
Qed.

(** A global [replace] of [\s+] by the empty text removes the white
    space. *)
Lemma splice_spaces s : forall fuel from,
  from <= len s -> len s - from < fuel ->
  splice (match_loop false fuel spacesRe s from) from s ""
  = without_spaces (drop from s).
Proof.
  induction fuel as [|fuel IH]; intros from Hf Hfuel; [lia|].
  cbn [match_loop]. unfold exec.
  destruct (search_skip false spacesRe s from 0 None Hf) as [pv' ->].
  rewrite search_spaces. cbn [Nat.add].
  destruct (first_run from (drop from s)) as [[a b]|] eqn:E.
  - apply first_run_some in E as (H1 & H2 & H3 & H4).
    rewrite len_drop in H3. cbn [m_end m_index splice].
    replace (b =? a) with false by (symmetry; apply Nat.eqb_neq; lia).
    rewrite IH by lia. rewrite H4, drop_drop.
    replace (from + (b - from)) with b by lia. reflexivity.
  - cbn [splice]. symmetry. exact (first_run_none _ _ E).
Qed.

Lemma replace_all_spaces spaces s :
  regexp ColorUtils.whitespace = Ok spaces ->
  replace_all false spaces "" s = without_spaces s.
Proof.
  intros Hre. vm_compute in Hre. injection Hre as <-.
  unfold replace_all. apply (splice_spaces s (S (len s)) 0); lia.
Qed.

End SpaceFacts.

(** ** OKLCH colours *)

Module OklchFacts.
Import JS Regex RegexSpec Num ColorUtils MatcherInvariants.
Import JSFacts RegexFacts StringFacts SpaceFacts.

(** The separator of the components matches nowhere in an unbroken text. *)
Lemma rmatch_sep p pv c t :
  is_space c = false -> c <> ","%char ->
  rmatch false sepRe (MState p pv (String c t) []) Some = None.
Proof.
  intros Hs Hc.
  change (rmatch false sepRe (MState p pv (String c t) []) Some)
    with (match rmatch false spacesRe (MState p pv (String c t) []) Some with
          | Some res => Some res
          | None =>
              rmatch false
                (RSeq (RChar ",") (RQuant 0 None true (RClass false [CSpace])))
                (MState p pv (String c t) []) Some
          end).
  rewrite rmatch_spaces, Hs. cbn [rmatch]. unfold advance. cbn [rest].
  replace (Ascii.eqb "," c) with false; [reflexivity|].
  symmetry. apply Ascii.eqb_neq. congruence.
Qed.

Lemma unbroken_drop s q :
  unbroken s -> q < len s ->
  exists c t, drop q s = String c t /\ is_space c = false /\ c <> ","%char.
Proof.
  unfold unbroken, len. revert q. induction s as [|a s IH]; intros q H Hq;
    cbn in Hq; [lia|].
  inversion H as [|? ? [Ha1 Ha2] H']; subst.
  destruct q as [|q]; [cbn; eauto|]. cbn [drop]. apply IH; [exact H'|lia].
Qed.

Lemma split_loop_unbroken s : unbroken s ->
  forall fuel q, q <= len s -> len s - q < fuel ->
    split_loop false fuel sepRe s 0 q = [s].
Proof.
  intros Hs. induction fuel as [|fuel IH]; intros q Hq Hf; [lia|].
  cbn [split_loop]. destruct (len s <=? q) eqn:E.
  - unfold sub. cbn [drop]. rewrite Nat.sub_0_r, take_all by lia.
    now destruct s.
  - apply Nat.leb_gt in E.
    destruct (unbroken_drop s q Hs E) as (c & t & -> & H1 & H2).
    rewrite (rmatch_sep _ _ _ _ H1 H2). apply IH; lia.
Qed.

Lemma split_unbroken sep s :
  regexp "\s+|,\s*" = Ok sep -> unbroken s -> s <> "" ->
  split false sep s = [s].
Proof.
  intros Hre Hs Hne. vm_compute in Hre. injection Hre as <-.
  unfold split. destruct s as [|c s]; [congruence|].
  apply (split_loop_unbroken _ Hs); unfold len; cbn; lia.
Qed.

(** The empty text has no components. *)
Lemma split_empty sep :
  regexp "\s+|,\s*" = Ok sep -> filter (fun p => p ≠ "") (split false sep "") = [].
Proof. intros Hre. vm_compute in Hre. injection Hre as <-. reflexivity. Qed.

Lemma without_spaces_unbroken s :
  comma_free s -> unbroken (without_spaces s).
Proof.
  unfold comma_free, unbroken. induction s as [|c s IH]; cbn; intros H;
    [constructor|].
  inversion H as [|? ? Hc H']; subst.
  destruct (is_space c) eqn:E; [auto|]. cbn. constructor; auto.
Qed.

Lemma unbroken_sub a b s : unbroken s -> unbroken (sub a b s).
Proof.
  unfold unbroken. intros H. apply ExactFacts.Forall_sub.
  intros k c _ Hk. rewrite Forall_forall in H. apply H.
  clear - Hk. revert k Hk. induction s as [|x s IH]; intros [|k] Hk; cbn in *;
    try discriminate.
  - injection Hk as ->. now left.
  - right. eauto.
Qed.

(** The colour of a lightness alone: chroma and hue are not numbers. *)
Lemma approximate_grey l :
  let c := approximateOklchToRgb
             {| oklch_l := l; oklch_c := nan; oklch_h := nan;
                oklch_a := None |} in
  rgb_r c = rgb_g c /\ rgb_g c = rgb_b c /\ rgb_a c = None.
Proof. cbv zeta. unfold approximateOklchToRgb. cbn. auto. Qed.

End OklchFacts.

Module OklchParse.
Import JS Regex RegexSpec Num ColorUtils MatcherInvariants.
Import JSFacts RegexFacts StringFacts SpaceFacts OklchFacts.

(** [parseColor] works on the text without its white space. *)
Lemma parseColor_cleaned colorStr :
  parseColor colorStr
  = let cleanedStr := without_spaces colorStr in
    if startsWith "oklch(" cleanedStr then parseOklchColor cleanedStr
    else if startsWith "#" cleanedStr then Ok (parseHexColor cleanedStr)
    else if startsWith "rgb(" cleanedStr || startsWith "rgba(" cleanedStr
    then Ok (parseRgbColor cleanedStr)
    else if startsWith "hsl(" cleanedStr || startsWith "hsla(" cleanedStr
    then Ok (parseHslColor cleanedStr)
    else Ok black.
Proof.
  unfold parseColor.
  destruct (regexp whitespace) as [spaces| |] eqn:Hs;
    try (exfalso; vm_compute in Hs; discriminate Hs).
  cbn [obind]. now rewrite (replace_all_spaces _ _ Hs).
Qed.

(** [parseOklchColor] on a text in which nothing separates the
    components. *)
Lemma parseOklchColor_unbroken s r o :
  unbroken s -> parseOklchColor s = Ok r -> oklch r = Some o ->
  is_nan (oklch_c o) = true /\ is_nan (oklch_h o) = true /\ oklch_a o = None
  /\ rgb_r (rgb r) = rgb_g (rgb r) /\ rgb_g (rgb r) = rgb_b (rgb r).
Proof.
  intros Hs H Ho. unfold parseOklchColor in H.
  destruct (regexp "oklch\(([^)]+)\)") as [re| |] eqn:H1;
    try (exfalso; vm_compute in H1; discriminate H1).
  destruct (regexp "\s+|,\s*") as [sep| |] eqn:H2;
    try (exfalso; vm_compute in H2; discriminate H2).
  cbn [obind] in H. destruct (exec false re s 0) as [m|]; [|discriminate].
  assert (Hc : unbroken (default "" (capture s m 1))).
  { unfold capture. destruct (List.find _ _) as [[i [a b]]|]; cbn.
    - now apply unbroken_sub.
    - constructor. }
  destruct (default "" (capture s m 1)) as [|c0 content] eqn:Ec.
  - rewrite (split_empty _ H2) in H. discriminate.
  - rewrite (split_unbroken _ _ H2 Hc) in H by discriminate.
    cbn [filter list_filter] in H.
    destruct (decide (String c0 content ≠ "")) as [_|Hn];
      [|exfalso; apply Hn; discriminate].
    cbn [lookup list_lookup length Nat.leb parseFloat_opt] in H.
    injection H as <-. cbn [oklch rgb] in *. injection Ho as <-.
    cbn [oklch_c oklch_h oklch_a].
    split; [reflexivity|]. split; [reflexivity|]. split; [reflexivity|].
    match goal with
    | |- context [approximateOklchToRgb {| oklch_l := ?l |}] =>
        destruct (approximate_grey l) as (E1 & E2 & _)
    end.
    split; [exact E1|exact E2].
Qed.

Lemma parseColor_unbroken colorStr r o :
  comma_free colorStr -> parseColor colorStr = Ok r -> oklch r = Some o ->
  is_nan (oklch_c o) = true /\ is_nan (oklch_h o) = true /\ oklch_a o = None
  /\ rgb_r (rgb r) = rgb_g (rgb r) /\ rgb_g (rgb r) = rgb_b (rgb r).
Proof.
  intros Hc H Ho. rewrite parseColor_cleaned in H. cbv zeta in H.
  destruct (startsWith "oklch(" (without_spaces colorStr)).
  - eapply parseOklchColor_unbroken; eauto using without_spaces_unbroken.
  - destruct (startsWith "#" _); [injection H as <-; discriminate Ho|].
    destruct (_ || _); [injection H as <-; discriminate Ho|].
    destruct (_ || _); injection H as <-; discriminate Ho.
Qed.

End OklchParse.

(** ** Anchored patterns *)

Module AnchorFacts.
Import JS Regex RegexSpec MatcherInvariants JSFacts RegexFacts StringFacts ExactFacts.

Lemma Accepts_reads dotall s r :
  forall st st', at_subject s st -> Accepts dotall r st st' ->
    forall k c, pos st <= k < pos st' -> String.get k s = Some c ->
      reads r c = true.
Proof.
  induction r as [| ch | | neg items | r1 IH1 r2 IH2 | r1 IH1 r2 IH2
                 | mn mx g r1 IH | i r1 IH | r1 IH | | |];
    cbn [Accepts reads]; intros st st' Ha H k c Hk Hg;
    try solve [subst; lia]; try solve [destruct H as [-> _]; lia].
  - destruct H as (c0 & Hadv & ->).
    destruct (advance_at _ _ _ _ Ha Hadv) as [_ Hg0].
    apply advance_pos in Hadv. replace k with (pos st) in Hg by lia.
    rewrite Hg0 in Hg. injection Hg as ->. apply Ascii.eqb_refl.
  - destruct H as (c0 & Hadv & Hc).
    destruct (advance_at _ _ _ _ Ha Hadv) as [_ Hg0].
    apply advance_pos in Hadv. replace k with (pos st) in Hg by lia.
    congruence.
  - destruct H as (mid & H1 & H2).
    pose proof (Accepts_at _ _ _ _ _ Ha H1) as Ha'.
    destruct (Nat.lt_ge_cases k (pos mid)) as [Hlt|Hge].
    + rewrite (IH1 _ _ Ha H1 k c); [reflexivity|lia|exact Hg].
    + rewrite (IH2 _ _ Ha' H2 k c); [apply orb_true_r|lia|exact Hg].
  - destruct H as [H|H].
    + rewrite (IH1 _ _ Ha H k c); auto.
    + rewrite (IH2 _ _ Ha H k c); auto using orb_true_r.
  - induction H as [|st y st' Hy Hi IHi]; [lia|].
    assert (Ha1 : at_subject s (clear_caps (groups r1) st)) by exact Ha.
    pose proof (Accepts_at _ _ _ _ _ Ha1 Hy) as Hay.
    destruct (Nat.lt_ge_cases k (pos y)) as [Hlt|Hge].
    + apply (IH _ _ Ha1 Hy k c); [cbn; lia|exact Hg].
    + apply IHi; [exact Hay|lia].
  - destruct H as (st1 & H1 & ->). cbn in Hk. eauto.
Qed.

Lemma Accepts_from_start dotall r :
  from_start r = true -> forall st st', Accepts dotall r st st' -> pos st = 0.
Proof.
  induction r as [| ch | | neg items | r1 IH1 r2 IH2 | r1 IH1 r2 IH2
                 | mn mx g r1 IH | i r1 IH | r1 IH | | |];
    cbn [Accepts from_start]; intros Hf st st' H; try discriminate.
  - destruct H as (mid & H1 & _). eauto.
  - apply andb_true_iff in Hf as [Hf1 Hf2]. destruct H as [H|H]; eauto.
  - destruct H as (st1 & H1 & _). eauto.
  - tauto.
Qed.

Lemma Accepts_to_end dotall r :
  to_end r = true -> forall st st', Accepts dotall r st st' -> rest st' = "".
Proof.
  induction r as [| ch | | neg items | r1 IH1 r2 IH2 | r1 IH1 r2 IH2
                 | mn mx g r1 IH | i r1 IH | r1 IH | | |];
    cbn [Accepts to_end]; intros Hf st st' H; try discriminate.
  - destruct H as (mid & _ & H2). eauto.
  - apply andb_true_iff in Hf as [Hf1 Hf2]. destruct H as [H|H]; eauto.
  - destruct H as (st1 & H1 & ->). cbn. eauto.
  - destruct H as [-> H]. exact H.
Qed.

Lemma drop_empty n s : drop n s = "" -> len s <= n.
Proof.
  unfold len. revert s. induction n as [|n IH]; intros [|a s]; cbn;
    try discriminate; try lia.
  intros H. apply IH in H. lia.
Qed.

(** A pattern between [^] and [$] that matches reads the whole text. *)
Lemma test_whole dotall re s :
  from_start re = true -> to_end re = true -> test dotall re s = true ->
  Forall (fun c => reads re c = true) (list_ascii_of_string s).
Proof.
  intros Hs He Ht. unfold test in Ht.
  destruct (exec dotall re s 0) as [m|] eqn:E; [|discriminate].
  apply exec_accepts in E as (pv' & st' & Hi & HA & _ & _).
  pose proof (Accepts_from_start _ _ Hs _ _ HA) as H0. cbn in H0.
  rewrite H0 in *.
  assert (Ha : at_subject s (MState 0 pv' (drop 0 s) []))
    by (split; [cbn; lia|reflexivity]).
  pose proof (Accepts_at _ _ _ _ _ Ha HA) as [_ Hr].
  rewrite (Accepts_to_end _ _ He _ _ HA) in Hr. symmetry in Hr.
  apply drop_empty in Hr.
  apply Forall_get. intros j c Hj.
  apply (Accepts_reads _ _ _ _ _ Ha HA j c); [|exact Hj].
  apply get_some_lt in Hj. cbn. lia.
Qed.

(** A pattern that begins with [^] and a character matches only a text
    that begins with that character. *)
Lemma test_first dotall x r s :
  test dotall (RSeq RBol (RSeq (RChar x) r)) s = true ->
  exists t, s = String x t.
Proof.
  intros Ht. unfold test in Ht.
  destruct (exec dotall _ s 0) as [m|] eqn:E; [|discriminate].
  apply exec_accepts in E as (pv' & st' & Hi & HA & _ & _).
  destruct HA as (mid & (-> & H0) & mid2 & (c & Hadv & ->) & _).
  cbn in H0. rewrite H0 in Hadv. unfold advance in Hadv. cbn in Hadv.
  destruct s as [|a t]; [discriminate|]. injection Hadv as -> _. eauto.
Qed.

End AnchorFacts.

(** ** The OKLCH tokens of a registry *)

Module OklchTokens.
Import JS Regex RegexSpec Num ColorUtils CoreTypes TokenRegistry Invariants.
Import MatcherInvariants JSFacts RegexFacts StringFacts ExactFacts SpaceFacts.
Import OklchFacts OklchParse AnchorFacts.

Lemma without_spaces_trimStart s :
  without_spaces (trimStart s) = without_spaces s.
Proof.
  induction s as [|c s IH]; cbn; [reflexivity|].
  destruct (is_space c) eqn:E; [exact IH|]. cbn. now rewrite E.
Qed.

Lemma without_spaces_trimEnd s :
  without_spaces (trimEnd s) = without_spaces s.
Proof.
  induction s as [|c s IH]; cbn; [reflexivity|].
  destruct (trimEnd s) as [|a t] eqn:E.
  - cbn in IH. rewrite <- IH. destruct (is_space c) eqn:Ec; cbn;
      now rewrite ?Ec.
  - cbn [without_spaces]. rewrite <- IH. reflexivity.
Qed.

Lemma without_spaces_trim s : without_spaces (trim s) = without_spaces s.
Proof.
  unfold trim. now rewrite without_spaces_trimEnd, without_spaces_trimStart.
Qed.

(** A value that starts with another character than "o" is not taken for
    an OKLCH colour. *)
Lemma parseColor_other x t v r :
  is_space x = false -> x <> "o"%char ->
  trim v = String x t -> parseColor v = Ok r -> oklch r = None.
Proof.
  intros Hx Ho Ht H. rewrite parseColor_cleaned in H. cbv zeta in H.
  rewrite <- without_spaces_trim, Ht in H. cbn [without_spaces] in H.
  rewrite Hx in H.
  replace (startsWith "oklch(" (String x (without_spaces t))) with false in H.
  2:{ cbn [startsWith]. destruct (Ascii.eqb_spec "o" x) as [<-|];
        [congruence|reflexivity]. }
  destruct (startsWith "#" _); [now injection H as <-|].
  destruct (_ || _); [now injection H as <-|].
  destruct (_ || _); now injection H as <-.
Qed.

(** A value that [isColorValue] accepts and that [parseColor] takes for
    an OKLCH colour has nothing that separates its components once the
    white space is removed. *)
Lemma isColorValue_oklch v r o :
  isColorValue v = Ok true -> parseColor v = Ok r -> oklch r = Some o ->
  unbroken (without_spaces v).
Proof.
  intros Hc Hp Ho. unfold isColorValue, colorFormats in Hc.
  assert (Hno : forall x t, is_space x = false -> x <> "o"%char ->
                  trim v = String x t -> False).
  { intros x t H1 H2 H3.
    rewrite (parseColor_other x t v r H1 H2 H3 Hp) in Ho. discriminate. }
  cbn [some_test] in Hc.
  repeat match type of Hc with
  | obind (regexp ?p) _ = _ =>
      let re := fresh "re" in
      let Hre := fresh "Hre" in
      let Ht := fresh "Ht" in
      destruct (regexp p) as [re| |] eqn:Hre;
        [|exfalso; vm_compute in Hre; discriminate Hre ..];
      cbn [obind] in Hc;
      destruct (test false re (trim v)) eqn:Ht;
        [vm_compute in Hre; injection Hre as <-;
         try (exfalso; apply test_first in Ht as [t Ht];
              eapply Hno; [| |exact Ht]; [reflexivity|discriminate])
        |clear Hre Ht]
  end; [|discriminate Hc].
  rewrite <- without_spaces_trim. apply without_spaces_unbroken.
  apply test_whole in Ht; [|reflexivity..].
  unfold comma_free. eapply Forall_impl; [exact Ht|].
  cbn beta. intros c Hr ->. vm_compute in Hr. discriminate Hr.
Qed.

(** The OKLCH tokens of a registry. *)
Lemma color_checked_oklch t o :
  color_checked t -> oklch (color_value t) = Some o ->
  is_nan (oklch_c o) = true /\ is_nan (oklch_h o) = true /\ oklch_a o = None
  /\ rgb_r (rgb (color_value t)) = rgb_g (rgb (color_value t))
  /\ rgb_g (rgb (color_value t)) = rgb_b (rgb (color_value t)).
Proof.
  intros [Hc Hp] Ho.
  pose proof (isColorValue_oklch _ _ _ Hc Hp Ho) as Hu.
  rewrite parseColor_cleaned in Hp. cbv zeta in Hp.
  destruct (startsWith "oklch(" (without_spaces (color_originalValue t))).
  - exact (parseOklchColor_unbroken _ _ _ Hu Hp Ho).
  - destruct (startsWith "#" _); [injection Hp as Hp; rewrite <- Hp in Ho;
                                   discriminate Ho|].
    destruct (_ || _); [injection Hp as Hp; rewrite <- Hp in Ho;
                        discriminate Ho|].
    destruct (_ || _); injection Hp as Hp; rewrite <- Hp in Ho;
      discriminate Ho.
Qed.

End OklchTokens.

(** ** Looking tokens up *)

Module LookupFacts.
Import JS Regex RegexSpec Num ColorUtils CoreTypes TokenRegistry Invariants.
Import MatcherInvariants JSFacts RegexFacts StringFacts ExactFacts AnchorFacts.
Import RegistryFacts KeyFacts TableFacts RegistryInvariants NameFacts NamingFacts.

(** *** [includes] on parts of a text *)

Lemma startsWith_take p n s : startsWith p (take n s) = true -> startsWith p s = true.
Proof.
  revert n s. induction p as [|a p IH]; intros n s; [reflexivity|].
  destruct n as [|n], s as [|b s]; cbn; try discriminate.
  intros H. apply andb_true_iff in H as [H1 H2]. rewrite H1. cbn. eauto.
Qed.

Lemma includes_cons p a s : includes p s = true -> includes p (String a s) = true.
Proof.
  unfold includes. cbn [find_from]. destruct (startsWith p (String a s));
    [reflexivity|].
  assert (H : forall i j t, find_from p i t = None -> find_from p j t = None).
  { intros i j t. revert i j. induction t as [|c t IH]; intros i j; cbn.
    - destruct (startsWith p ""); [discriminate|reflexivity].
    - destruct (startsWith p (String c t)); [discriminate|]. eauto. }
  destruct (find_from p 0 s) eqn:E; [|discriminate]. intros _.
  destruct (find_from p 1 s) eqn:E'; [reflexivity|].
  now rewrite (H _ 0 _ E') in E.
Qed.

Lemma includes_drop p n s : includes p (drop n s) = true -> includes p s = true.
Proof.
  revert s. induction n as [|n IH]; intros [|a s]; cbn; auto.
  intros H. apply includes_cons. auto.
Qed.

Lemma includes_take p n s : includes p (take n s) = true -> includes p s = true.
Proof.
  unfold includes. generalize 0. revert s.
  induction n as [|n IH]; intros s i.
  - cbn [take]. destruct s; [auto|]. cbn [find_from].
    destruct (startsWith p "") eqn:E; [|discriminate].
    destruct p; [reflexivity|discriminate].
  - destruct s as [|a s]; [auto|]. cbn [take find_from].
    destruct (startsWith p (String a (take n s))) eqn:E.
    + change (String a (take n s)) with (take (S n) (String a s)) in E.
      now rewrite (startsWith_take _ _ _ E).
    + destruct (startsWith p (String a s)); [reflexivity|]. apply IH.
Qed.

Lemma strip_first_drop ps s : exists n, strip_first ps s = drop n s.
Proof.
  induction ps as [|p ps [n IH]]; cbn; [exists 0; now destruct s|].
  destruct (startsWith p s); eauto.
Qed.

Lemma includes_friendly_name w v :
  includes w (friendly_name v) = true -> includes w v = true.
Proof.
  unfold friendly_name.
  destruct (strip_first_drop category_prefixes (strip_first ["--"] v)) as [n ->].
  destruct (strip_first_drop ["--"] v) as [m ->].
  intros H. eauto using includes_drop.
Qed.

(** *** The base name of a typography variable *)

(** A replacement by a pattern that ends with [$] leaves the start of the
    text. *)
Lemma replace_first_to_end dotall r s :
  to_end r = true -> exists n, replace_first dotall r "" s = take n s.
Proof.
  intros He. unfold replace_first.
  destruct (exec dotall r s 0) as [m|] eqn:E.
  - apply exec_accepts in E as (pv' & st' & Hi & HA & Hend & _).
    assert (Ha : at_subject s (MState (m_index m) pv' (drop (m_index m) s) []))
      by (split; [exact Hi|reflexivity]).
    pose proof (Accepts_at _ _ _ _ _ Ha HA) as [Hle Hr].
    rewrite (Accepts_to_end _ _ He _ _ HA) in Hr. symmetry in Hr.
    rewrite <- Hend in Hr. rewrite Hr. exists (m_index m).
    change ("" +:+ "") with "". clear.
    induction (take (m_index m) s) as [|a t IH]; [reflexivity|].
    rewrite append_cons. now f_equal.
  - exists (len s). symmetry. apply take_all. lia.
Qed.

Lemma wordless_base suffix name_ v :
  regexp "-font-(family|size|weight|style)$|-line-height$|-letter-spacing$"
  = Ok suffix ->
  wordless v -> name_ = friendly_name v ->
  wordless (replace_first false suffix "" name_).
Proof.
  intros Hre Hv ->. vm_compute in Hre. injection Hre as <-.
  match goal with
  | |- wordless (replace_first false ?r "" ?s) =>
      destruct (replace_first_to_end false r s eq_refl) as [n ->]
  end.
  unfold wordless in *. eapply Forall_impl; [exact Hv|]. cbn beta.
  intros w Hw. destruct (includes w (take n (friendly_name v))) eqn:E;
    [|reflexivity].
  apply includes_take, includes_friendly_name in E. congruence.
Qed.

(** *** The names of the typography tokens contain no category word *)

Lemma createToken_wordless entry reg reg' :
  createToken entry reg = Ok reg' ->
  Forall (fun t => wordless (name (typography_base t))) (typographyTokens reg) ->
  Forall (fun t => wordless (name (typography_base t))) (typographyTokens reg').
Proof.
  unfold createToken. destruct entry as [var val].
  destruct (startsWith "var(" val); [now intros [= <-]|].
  rewrite getNameFromCssVariable_name. cbn [obind].
  intros H Hinv. apply obind_Ok in H as ([|] & Hc & H).
  - unfold createColorToken in H.
    destruct (parseColor val); try discriminate; now injection H as <-.
  - destruct (includes "spacing" var) eqn:W1; [now injection H as <-|].
    destruct (includes "border-radius" var) eqn:W2; [now injection H as <-|].
    destruct (includes "shadow" var) eqn:W3.
    { unfold createShadowToken in H. apply obind_Ok in H as (? & _ & H).
      now injection H as <-. }
    destruct (isTypographyProperty var); [|now injection H as <-].
    unfold createOrUpdateTypographyToken in H.
    apply obind_Ok in H as (suffix & Hs & H). injection H as <-.
    cbn [typographyTokens].
    assert (Hw : wordless (replace_first false suffix "" (friendly_name var))).
    { apply (wordless_base suffix _ var Hs); [|reflexivity].
      repeat constructor; assumption. }
    destruct (update_first _ _ (typographyTokens reg)) as [updated|] eqn:E.
    + eapply update_first_Forall; [|exact E|exact Hinv]. auto.
    + apply Forall_app. split; [exact Hinv|]. constructor; [exact Hw|constructor].
Qed.

Lemma createTokens_loop_wordless entries : forall reg reg',
  createTokens_loop entries reg = Ok reg' ->
  Forall (fun t => wordless (name (typography_base t))) (typographyTokens reg) ->
  Forall (fun t => wordless (name (typography_base t))) (typographyTokens reg').
Proof.
  induction entries as [|e entries IH]; simpl; intros reg reg' H Hinv.
  - now injection H as <-.
  - apply obind_Ok in H as (reg1 & H1 & H).
    eapply IH; eauto. eapply createToken_wordless; eauto.
Qed.

(** *** What a successful [initialize] leaves *)

Lemma initialize_no_duplicates readFile ropts reg :
  initialize readFile (new_ ropts) = Ok reg ->
  NoDup (keys (cssVars reg))
  /\ Forall (fun x => startsWith "--" x = true) (keys (cssVars reg))
  /\ NoDup (keys (color_entries reg ++ spacing_entries reg
                  ++ borderRadius_entries reg ++ shadow_entries reg))
  /\ NoDup (typography_names reg).
Proof.
  intros H.
  pose proof (initialize_follows _ _ _ H) as [F1 F2 F3 F4].
  destruct (initialize_inv _ _ _ H)
    as (css & reg1 & reg2 & H1 & H2 & E & Hv & E1 & E2 & E3 & E4 & E5).
  destruct (parseCssVariables_keys _ _ _ H1)
    as [Hn Hd]; [constructor|constructor|].
  rewrite <- Hv in Hn, Hd. split; [exact Hn|]. split; [exact Hd|]. split.
  - rewrite F1, F2, F3, F4. now apply NoDup_filed.
  - subst reg.
    apply (createTokens_loop_steps _ _ _ H2).
    unfold typography_names. rewrite E2. constructor.
Qed.

Lemma initialize_well_named readFile ropts reg :
  initialize readFile (new_ ropts) = Ok reg ->
  Forall well_named (getAllTokens reg).
Proof.
  intros H.
  destruct (initialize_inv _ _ _ H)
    as (css & reg1 & reg2 & H1 & H2 & -> & Hv & E1 & E2 & E3 & E4 & E5).
  change (getAllTokens (set_initialized reg2)) with (getAllTokens reg2).
  apply (createTokens_loop_well_named _ _ _ H2).
  unfold getAllTokens. rewrite E1, E2, E3, E4, E5. constructor.
Qed.

Lemma initialize_wordless readFile ropts reg :
  initialize readFile (new_ ropts) = Ok reg ->
  Forall (fun t => wordless (name (typography_base t))) (typographyTokens reg).
Proof.
  intros H.
  destruct (initialize_inv _ _ _ H)
    as (css & reg1 & reg2 & H1 & H2 & -> & Hv & E1 & E2 & E3 & E4 & E5).
  cbn [typographyTokens set_initialized].
  apply (createTokens_loop_wordless _ _ _ H2). rewrite E2. constructor.
Qed.

(** *** Searching the tokens *)

Lemma find_app_none {A} (f : A -> bool) l1 l2 :
  Forall (fun x => f x = false) l1 -> List.find f (l1 ++ l2) = List.find f l2.
Proof.
  induction 1 as [|x l1 Hx _ IH]; cbn; [reflexivity|]. now rewrite Hx.
Qed.

Lemma find_app_some {A} (f : A -> bool) l1 l2 x :
  List.find f l1 = Some x -> List.find f (l1 ++ l2) = Some x.
Proof.
  induction l1 as [|a l1 IH]; cbn; [discriminate|].
  destruct (f a); auto.
Qed.

Lemma find_fmap {A B} (f : B -> bool) (g : A -> B) l :
  List.find f (g <$> l) = g <$> List.find (fun x => f (g x)) l.
Proof.
  induction l as [|a l IH]; cbn; [reflexivity|].
  destruct (f (g a)); [reflexivity|exact IH].
Qed.

Lemma find_key_unique {A} (key : A -> string) l x :
  In x l -> NoDup (key <$> l) ->
  List.find (fun y => String.eqb (key y) (key x)) l = Some x.
Proof.
  induction l as [|a l IH]; intros Hin Hn; [destruct Hin|].
  cbn [fmap list_fmap] in Hn. apply NoDup_cons in Hn as [Ha Hn].
  cbn [List.find]. destruct (String.eqb_spec (key a) (key x)) as [E|E].
  - destruct Hin as [->|Hin]; [reflexivity|].
    exfalso. apply Ha. rewrite E. apply list_elem_of_fmap. exists x.
    split; [reflexivity|]. now apply list_elem_of_In.
  - destruct Hin as [->|Hin]; [congruence|]. auto.
Qed.

Lemma find_key_none {A} (key : A -> string) l v :
  v ∉ key <$> l -> Forall (fun y => String.eqb (key y) v = false) l.
Proof.
  intros H. apply Forall_forall. intros y Hy.
  apply String.eqb_neq. intros <-. apply H.
  apply list_elem_of_fmap. exists y. split; [reflexivity|exact Hy].
Qed.

Lemma find_app {A} (f : A -> bool) l1 l2 :
  List.find f (l1 ++ l2)
  = match List.find f l1 with Some x => Some x | None => List.find f l2 end.
Proof.
  induction l1 as [|a l1 IH]; cbn; [reflexivity|]. now destruct (f a).
Qed.

Lemma find_none_Forall {A} (f : A -> bool) l :
  Forall (fun x => f x = false) l -> List.find f l = None.
Proof. induction 1 as [|x l Hx _ IH]; cbn; [reflexivity|]. now rewrite Hx. Qed.

(** [findTokenByCssVariable] looks through the categories in the order
    of [getAllTokens]. *)
Lemma findTokenByCssVariable_order reg v :
  findTokenByCssVariable reg v
  = match List.find (fun t => String.eqb (cssVariable (color_base t)) v)
            (colorTokens reg) with
    | Some t => Some (Color t)
    | None =>
    match List.find (fun t => String.eqb (cssVariable (typography_base t)) v)
            (typographyTokens reg) with
    | Some t => Some (Typography t)
    | None =>
    match List.find (fun t => String.eqb (cssVariable (spacing_base t)) v)
            (spacingTokens reg) with
    | Some t => Some (Spacing t)
    | None =>
    match List.find (fun t => String.eqb (cssVariable (borderRadius_base t)) v)
            (borderRadiusTokens reg) with
    | Some t => Some (BorderRadius t)
    | None =>
    match List.find (fun t => String.eqb (cssVariable (shadow_base t)) v)
            (shadowTokens reg) with
    | Some t => Some (Shadow t)
    | None => None
    end end end end end.
Proof.
  unfold findTokenByCssVariable, getAllTokens.
  rewrite !find_app, !find_fmap. cbn [base].
  repeat match goal with
  | |- context [List.find ?f ?l] => destruct (List.find f l); cbn; try reflexivity
  end.
Qed.

(** *** The variables of the tokens *)

Lemma includes_head p a s :
  includes p (String a s) = startsWith p (String a s) || includes p s.
Proof.
  destruct (includes p s) eqn:E.
  - rewrite (includes_cons _ _ _ E). now rewrite orb_true_r.
  - rewrite orb_false_r. unfold includes in *. cbn [find_from].
    destruct (startsWith p (String a s)); [reflexivity|].
    assert (H : forall i j t, find_from p i t = None -> find_from p j t = None).
    { intros i j t. revert i j. induction t as [|c t IH]; intros i j; cbn.
      - destruct (startsWith p ""); [discriminate|reflexivity].
      - destruct (startsWith p (String c t)); [discriminate|]. eauto. }
    destruct (find_from p 0 s) eqn:E0; [discriminate|].
    now rewrite (H _ 1 _ E0).
Qed.

Lemma wordless_dashes s : wordless s -> wordless ("--" +:+ s).
Proof.
  unfold wordless, category_words. intros H.
  apply Forall_cons in H as [H1 H]. apply Forall_cons in H as [H2 H].
  apply Forall_cons in H as [H3 _].
  change ("--" +:+ s) with (String "-" (String "-" s)).
  repeat constructor; rewrite !includes_head; cbn [startsWith Ascii.eqb];
    cbn; assumption.
Qed.

Lemma classify_words e c :
  classify e = Some c ->
  match c with
  | spacing => includes "spacing" (fst e) = true
  | borderRadius => includes "border-radius" (fst e) = true
  | shadow => includes "shadow" (fst e) = true
  | _ => True
  end.
Proof.
  unfold classify. destruct (startsWith "var(" (snd e)); [discriminate|].
  destruct (isColorValue (snd e)) as [[|]| |]; [now intros [= <-]|..].
  all: destruct (includes "spacing" (fst e)) eqn:W1; [now intros [= <-]|].
  all: destruct (includes "border-radius" (fst e)) eqn:W2;
    [now intros [= <-]|].
  all: destruct (includes "shadow" (fst e)) eqn:W3; [now intros [= <-]|].
  all: destruct (isTypographyProperty (fst e)); [|discriminate].
  all: now intros [= <-].
Qed.

Lemma filed_words c l v :
  v ∈ keys (List.filter (filed_under c) l) ->
  match c with
  | spacing => includes "spacing" v = true
  | borderRadius => includes "border-radius" v = true
  | shadow => includes "shadow" v = true
  | _ => True
  end.
Proof.
  unfold keys. intros H. apply list_elem_of_fmap in H as (e & -> & He).
  apply in_filter_elem in He as [_ He]. unfold filed_under in He.
  apply bool_decide_eq_true in He. exact (classify_words _ _ He).
Qed.

(** *** Looking a token up by its variable *)

Section Lookup.
Variable readFile : string -> string + string.
Variable ropts : TokenRegistryOptions.
Variable reg : TokenRegistry.
Hypothesis Hinit : initialize readFile (new_ ropts) = Ok reg.

Lemma variables_NoDup : NoDup (color_vars reg ++ spacing_vars reg ++ borderRadius_vars reg
         ++ shadow_vars reg).
Proof.
  destruct (initialize_no_duplicates _ _ _ Hinit) as (_ & _ & H & _).
  unfold keys, color_entries, spacing_entries, borderRadius_entries,
    shadow_entries in H.
  rewrite !fmap_app, <- !list_fmap_compose in H. exact H.
Qed.

Lemma filed_variables v :
  (v ∈ spacing_vars reg -> includes "spacing" v = true)
  /\ (v ∈ borderRadius_vars reg -> includes "border-radius" v = true)
  /\ (v ∈ shadow_vars reg -> includes "shadow" v = true).
Proof.
  destruct (initialize_follows _ _ _ Hinit) as [_ F2 F3 F4].
  assert (K : forall c (l : list (string * string)),
            keys l = keys (List.filter (filed_under c) (cssVars reg)) ->
            v ∈ keys l ->
            match c with
            | spacing => includes "spacing" v = true
            | borderRadius => includes "border-radius" v = true
            | shadow => includes "shadow" v = true
            | _ => True
            end).
  { intros c l -> H. exact (filed_words _ _ _ H). }
  split; [|split]; intros H.
  - apply (K spacing (spacing_entries reg)); [now rewrite F2|].
    unfold keys, spacing_entries. now rewrite <- list_fmap_compose.
  - apply (K borderRadius (borderRadius_entries reg)); [now rewrite F3|].
    unfold keys, borderRadius_entries. now rewrite <- list_fmap_compose.
  - apply (K shadow (shadow_entries reg)); [now rewrite F4|].
    unfold keys, shadow_entries. now rewrite <- list_fmap_compose.
Qed.

Lemma typography_variables t :
  In t (typographyTokens reg) ->
  cssVariable (typography_base t) = "--" +:+ name (typography_base t)
  /\ wordless (cssVariable (typography_base t)).
Proof.
  intros Hin.
  pose proof (initialize_well_named _ _ _ Hinit) as Hw.
  apply well_named_all in Hw as (_ & Hw & _).
  rewrite Forall_forall in Hw. apply list_elem_of_In in Hin.
  destruct (Hw _ Hin) as (_ & E & _). cbn in E. split; [exact E|].
  rewrite E. apply wordless_dashes.
  pose proof (initialize_wordless _ _ _ Hinit) as Hl.
  rewrite Forall_forall in Hl. auto.
Qed.

Lemma typography_NoDup : NoDup (typography_vars reg).
Proof.
  destruct (initialize_no_duplicates _ _ _ Hinit) as (_ & _ & _ & H).
  unfold typography_vars. unfold typography_names in H.
  assert (E : (fun t => cssVariable (typography_base t)) <$> typographyTokens reg
              = (fun n => "--" +:+ n)
                <$> ((fun t => name (typography_base t)) <$> typographyTokens reg)).
  { rewrite <- list_fmap_compose. apply list_fmap_ext.
    intros i t Ht. cbn. apply typography_variables.
    apply list_elem_of_In. eapply list_elem_of_lookup_2; eauto. }
  rewrite E. apply NoDup_fmap_2; [|exact H].
  intros a b Hab. now injection Hab.
Qed.

Lemma not_typography v :
  includes "spacing" v = true \/ includes "border-radius" v = true
  \/ includes "shadow" v = true ->
  Forall (fun t => String.eqb (cssVariable (typography_base t)) v = false)
    (typographyTokens reg).
Proof.
  intros Hv. apply Forall_forall. intros t Ht. apply String.eqb_neq.
  intros <-. apply list_elem_of_In in Ht.
  destruct (typography_variables t Ht) as [_ Hw].
  unfold wordless, category_words in Hw.
  apply Forall_cons in Hw as [H1 Hw]. apply Forall_cons in Hw as [H2 Hw].
  apply Forall_cons in Hw as [H3 _].
  destruct Hv as [H|[H|H]]; congruence.
Qed.

(** A colour, spacing, border radius or shadow token is found by its
    variable. *)
Lemma lookup_filed t :
  In t (getAllTokens reg) -> category t <> typography ->
  findTokenByCssVariable reg (cssVariable (base t)) = Some t.
Proof.
  intros Hin Hc. rewrite findTokenByCssVariable_order.
  pose proof variables_NoDup as Hn.
  apply NoDup_app in Hn as (Nc & Dc & Hn).
  apply NoDup_app in Hn as (Ns & Ds & Hn).
  apply NoDup_app in Hn as (Nb & Db & Nh).
  unfold getAllTokens in Hin.
  repeat (apply in_app_or in Hin as [Hin|Hin]);
    apply in_map_iff in Hin as (x & <- & Hx); cbn [base category] in *;
    try congruence.
  - rewrite (find_key_unique (fun t => cssVariable (color_base t)) _ x Hx Nc).
    reflexivity.
  - assert (Hv : cssVariable (spacing_base x) ∈ spacing_vars reg)
      by (apply list_elem_of_fmap; exists x; split;
          [reflexivity|now apply list_elem_of_In]).
    rewrite (find_none_Forall _ (colorTokens reg)).
    2:{ apply (find_key_none (fun t => cssVariable (color_base t))).
        intros Hcv. apply (Dc _ Hcv). apply elem_of_app. now left. }
    rewrite (find_none_Forall _ (typographyTokens reg)).
    2:{ apply not_typography. left. now apply filed_variables. }
    rewrite (find_key_unique (fun t => cssVariable (spacing_base t)) _ x Hx Ns).
    reflexivity.
  - assert (Hv : cssVariable (borderRadius_base x) ∈ borderRadius_vars reg)
      by (apply list_elem_of_fmap; exists x; split;
          [reflexivity|now apply list_elem_of_In]).
    rewrite (find_none_Forall _ (colorTokens reg)).
    2:{ apply (find_key_none (fun t => cssVariable (color_base t))).
        intros Hcv. apply (Dc _ Hcv). apply elem_of_app. right.
        apply elem_of_app. now left. }
    rewrite (find_none_Forall _ (typographyTokens reg)).
    2:{ apply not_typography. right. left. now apply filed_variables. }
    rewrite (find_none_Forall _ (spacingTokens reg)).
    2:{ apply (find_key_none (fun t => cssVariable (spacing_base t))).
        intros Hsv. apply (Ds _ Hsv). apply elem_of_app. now left. }
    rewrite (find_key_unique (fun t => cssVariable (borderRadius_base t))
               _ x Hx Nb).
    reflexivity.
  - assert (Hv : cssVariable (shadow_base x) ∈ shadow_vars reg)
      by (apply list_elem_of_fmap; exists x; split;
          [reflexivity|now apply list_elem_of_In]).
    rewrite (find_none_Forall _ (colorTokens reg)).
    2:{ apply (find_key_none (fun t => cssVariable (color_base t))).
        intros Hcv. apply (Dc _ Hcv). apply elem_of_app. right.
        apply elem_of_app. now right. }
    rewrite (find_none_Forall _ (typographyTokens reg)).
    2:{ apply not_typography. right. right. now apply filed_variables. }
    rewrite (find_none_Forall _ (spacingTokens reg)).
    2:{ apply (find_key_none (fun t => cssVariable (spacing_base t))).
        intros Hsv. apply (Ds _ Hsv). apply elem_of_app. now right. }
    rewrite (find_none_Forall _ (borderRadiusTokens reg)).
    2:{ apply (find_key_none (fun t => cssVariable (borderRadius_base t))).
        intros Hbv. apply (Db _ Hbv). exact Hv. }
    rewrite (find_key_unique (fun t => cssVariable (shadow_base t)) _ x Hx Nh).
    reflexivity.
Qed.

(** A typography token is found by its variable unless a colour token has
    the same variable. *)
Lemma lookup_typography t :
  In t (typographyTokens reg) ->
  match List.find (fun c => String.eqb (cssVariable (color_base c))
                              (cssVariable (typography_base t)))
          (colorTokens reg) with
  | Some c =>
      findTokenByCssVariable reg (cssVariable (typography_base t))
      = Some (Color c)
  | None =>
      findTokenByCssVariable reg (cssVariable (typography_base t))
      = Some (Typography t)
  end.
Proof.
  intros Hin. rewrite findTokenByCssVariable_order.
  destruct (List.find _ (colorTokens reg)); [reflexivity|].
  rewrite (find_key_unique (fun t => cssVariable (typography_base t)) _ t Hin
             typography_NoDup).
  reflexivity.
Qed.

End Lookup.

End LookupFacts.

(** ** Values in the OKLCH format *)

Module OklchLevel.
Import JS Regex RegexSpec Num ColorUtils CoreTypes TokenRegistry Invariants.
Import MatcherInvariants JSFacts RegexFacts StringFacts ExactFacts SpaceFacts.
Import OklchFacts OklchParse AnchorFacts OklchTokens RegistryInvariants.

Lemma approximate_level l :
  approximateOklchToRgb
    {| oklch_l := l; oklch_c := nan; oklch_h := nan; oklch_a := None |}
  = {| rgb_r := grey_level l; rgb_g := grey_level l; rgb_b := grey_level l;
       rgb_a := None |}.
Proof. unfold approximateOklchToRgb, grey_level. cbn. reflexivity. Qed.

Lemma level_nan l :
  is_nan l = true ->
  rgbToHex {| rgb_r := grey_level l; rgb_g := grey_level l;
              rgb_b := grey_level l; rgb_a := None |} = "#NaNNaNNaN".
Proof.
  intros H. assert (E : Math_min 1 l = nan).
  { unfold Math_min. rewrite H. now rewrite orb_true_r. }
  unfold grey_level. rewrite E. vm_compute. reflexivity.
Qed.

Lemma parseOklchColor_level s r o :
  unbroken s -> parseOklchColor s = Ok r -> oklch r = Some o ->
  is_nan (oklch_c o) = true /\ is_nan (oklch_h o) = true /\ oklch_a o = None
  /\ rgb r = {| rgb_r := grey_level (oklch_l o); rgb_g := grey_level (oklch_l o);
                rgb_b := grey_level (oklch_l o); rgb_a := None |}
  /\ hex r = rgbToHex (rgb r).
Proof.
  intros Hs H Ho. unfold parseOklchColor in H.
  destruct (regexp "oklch\(([^)]+)\)") as [re| |] eqn:H1;
    try (exfalso; vm_compute in H1; discriminate H1).
  destruct (regexp "\s+|,\s*") as [sep| |] eqn:H2;
    try (exfalso; vm_compute in H2; discriminate H2).
  cbn [obind] in H. destruct (exec false re s 0) as [m|]; [|discriminate].
  assert (Hc : unbroken (default "" (capture s m 1))).
  { unfold capture. destruct (List.find _ _) as [[i [a b]]|]; cbn.
    - now apply unbroken_sub.
    - constructor. }
  destruct (default "" (capture s m 1)) as [|c0 content] eqn:Ec.
  - rewrite (split_empty _ H2) in H. discriminate.
  - rewrite (split_unbroken _ _ H2 Hc) in H by discriminate.
    cbn [filter list_filter] in H.
    destruct (decide (String c0 content ≠ "")) as [_|Hn];
      [|exfalso; apply Hn; discriminate].
    cbn [lookup list_lookup length Nat.leb parseFloat_opt] in H.
    injection H as <-. cbn [oklch rgb hex] in *. injection Ho as <-.
    cbn [oklch_c oklch_h oklch_a oklch_l].
    split; [reflexivity|]. split; [reflexivity|]. split; [reflexivity|].
    split; [apply approximate_level|reflexivity].
Qed.

Lemma color_checked_level t o :
  color_checked t -> oklch (color_value t) = Some o ->
  is_nan (oklch_c o) = true /\ is_nan (oklch_h o) = true /\ oklch_a o = None
  /\ rgb (color_value t)
     = {| rgb_r := grey_level (oklch_l o); rgb_g := grey_level (oklch_l o);
          rgb_b := grey_level (oklch_l o); rgb_a := None |}
  /\ hex (color_value t) = rgbToHex (rgb (color_value t)).
Proof.
  intros [Hc Hp] Ho.
  pose proof (isColorValue_oklch _ _ _ Hc Hp Ho) as Hu.
  rewrite parseColor_cleaned in Hp. cbv zeta in Hp.
  destruct (startsWith "oklch(" (without_spaces (color_originalValue t))).
  - exact (parseOklchColor_level _ _ _ Hu Hp Ho).
  - destruct (startsWith "#" _); [injection Hp as Hp; rewrite <- Hp in Ho;
                                   discriminate Ho|].
    destruct (_ || _); [injection Hp as Hp; rewrite <- Hp in Ho;
                        discriminate Ho|].
    destruct (_ || _); injection Hp as Hp; rewrite <- Hp in Ho;
      discriminate Ho.
Qed.

End OklchLevel.

Module OklchFormat.
Import JS Regex RegexSpec Num ColorUtils CoreTypes TokenRegistry Invariants.
Import MatcherInvariants JSFacts RegexFacts StringFacts ExactFacts SpaceFacts.
Import OklchFacts OklchParse AnchorFacts OklchTokens RegistryInvariants.
Import OklchLevel.

(** *** What a match reads *)

Lemma append_assoc (a b c : string) : (a +:+ b) +:+ c = a +:+ (b +:+ c).
Proof.
  induction a as [|x a IH]; [reflexivity|].
  now rewrite !append_cons, IH.
Qed.

Lemma Accepts_rest dotall r :
  forall st st', Accepts dotall r st st' -> exists x, rest st = x +:+ rest st'.
Proof.
  assert (Hadv : forall st c st', advance st = Some (c, st') ->
                   exists x, rest st = x +:+ rest st').
  { intros st c st'. unfold advance. destruct (rest st) as [|a t]; [discriminate|].
    intros [= <- <-]. exists (String a ""). reflexivity. }
  induction r as [| ch | | neg items | r1 IH1 r2 IH2 | r1 IH1 r2 IH2
                 | mn mx g r1 IH | i r1 IH | r1 IH | | |];
    cbn [Accepts]; intros st st' H;
    try solve [subst; now exists ""];
    try solve [destruct H as [-> _]; now exists ""];
    try solve [destruct H as (c & H & _); eauto].
  - destruct H as (mid & H1 & H2).
    apply IH1 in H1 as [x Hx]. apply IH2 in H2 as [y Hy].
    exists (x +:+ y). rewrite Hx, Hy. now rewrite append_assoc.
  - destruct H; eauto.
  - induction H as [|st y st' Hy _ [z Hz]]; [now exists ""|].
    apply IH in Hy as [x Hx]. cbn [clear_caps rest] in Hx.
    exists (x +:+ z). rewrite Hx, Hz. now rewrite append_assoc.
  - destruct H as (st1 & H1 & ->). cbn. eauto.
Qed.

Lemma without_spaces_app s t :
  without_spaces (s +:+ t) = without_spaces s +:+ without_spaces t.
Proof.
  induction s as [|c s IH]; [reflexivity|].
  rewrite append_cons. cbn [without_spaces].
  destruct (is_space c); [exact IH|]. now rewrite append_cons, IH.
Qed.

Lemma iter_spaces dotall gs st st' :
  iter (Accepts dotall (RClass false [CSpace])) gs st st' ->
  exists x, rest st = x +:+ rest st' /\ without_spaces x = "".
Proof.
  intros H. induction H as [|st y st' Hy _ (z & Hz & Hw)]; [now exists ""|].
  destruct Hy as (c & Hadv & Hc). rewrite class_space in Hc.
  unfold advance in Hadv. cbn [clear_caps rest pos caps] in Hadv.
  destruct (rest st) as [|a t] eqn:E; [discriminate|].
  injection Hadv as <- <-. cbn [rest] in Hz.
  exists (String a z). rewrite append_cons. cbn [without_spaces].
  rewrite Hc, Hz. auto.
Qed.

Lemma Accepts_seq_rest dotall a b st st' :
  Accepts dotall (RSeq a b) st st' ->
  exists mid x, rest st = x +:+ rest mid /\ Accepts dotall b mid st'.
Proof.
  intros (mid & H1 & H2). apply Accepts_rest in H1 as [x Hx]. eauto.
Qed.

(** *** The matcher on an anchored pattern *)

Lemma search_bol_none r s : forall skip p pv,
  search false (RSeq RBol r) skip (S p) pv s = None.
Proof.
  induction s as [|c s IH]; intros skip p pv; cbn [search rmatch pos Nat.eqb];
    destruct skip; auto.
Qed.

Lemma test_bol r s :
  test false (RSeq RBol r) s = true ->
  exists res, rmatch false r (MState 0 None s []) Some = Some res.
Proof.
  unfold test, exec. destruct s as [|c s]; cbn [search rmatch pos Nat.eqb].
  - destruct (rmatch false r _ Some); [eauto|discriminate].
  - destruct (rmatch false r _ Some); [eauto|].
    cbn [Nat.pred]. now rewrite search_bol_none.
Qed.

Lemma rmatch_char_inv c r p pv s cs k res :
  rmatch false (RSeq (RChar c) r) (MState p pv s cs) k = Some res ->
  exists s', s = String c s'
    /\ rmatch false r (MState (S p) (Some c) s' cs) k = Some res.
Proof.
  cbn [rmatch]. unfold advance. cbn [rest pos prev caps].
  destruct s as [|a s']; [discriminate|].
  destruct (Ascii.eqb_spec c a) as [<-|]; [eauto|discriminate].
Qed.

(** A pattern that begins with one or more code units of a class reads one
    of them first. *)
Lemma rmatch_plus_inv neg items r st k res :
  rmatch false (RSeq (RQuant 1 None true (RClass neg items)) r) st k = Some res ->
  exists d st1 st2 y,
    advance st = Some (d, st1) /\ class_matches neg items d = true
    /\ rest st1 = y +:+ rest st2 /\ rmatch false r st2 k = Some res.
Proof.
  change (rmatch false (RSeq (RQuant 1 None true (RClass neg items)) r) st k)
    with (rmatch false (RClass neg items) (clear_caps [] st)
            (fun y => repeat_loop (rmatch false (RClass neg items)) [] true
                        (fun st1 => rmatch false r st1 k)
                        (S (len (rest st))) 0 None y)).
  rewrite clear_caps_nil.
  cbn [rmatch]. destruct (advance st) as [[d st1]|] eqn:E; [|discriminate].
  destruct (class_matches neg items d) eqn:Ec; [|discriminate].
  intros H.
  apply (repeat_loop_sound _ (Accepts false (RClass neg items))) in H
    as (st2 & Hi & H); [|exact (rmatch_accepts false (RClass neg items))].
  apply (Accepts_rest false (RQuant 0 None true (RClass neg items))) in Hi
    as [y Hy].
  exists d, st1, st2, y. auto.
Qed.

(** *** The shape of a value in the OKLCH format *)

Lemma oklch_format_shape re s :
  regexp (List.last colorFormats "") = Ok re -> test false re s = true ->
  exists sp d x,
    s = "oklch(" +:+ sp +:+ String d (x +:+ ")")
    /\ without_spaces sp = ""
    /\ class_matches false [CDigit; CRange "." "."] d = true.
Proof.
  intros Hre Ht. vm_compute in Hre. injection Hre as <-.
  apply test_bol in Ht as [res H].
  apply rmatch_char_inv in H as (s1 & -> & H).
  apply rmatch_char_inv in H as (s2 & -> & H).
  apply rmatch_char_inv in H as (s3 & -> & H).
  apply rmatch_char_inv in H as (s4 & -> & H).
  apply rmatch_char_inv in H as (s5 & -> & H).
  apply rmatch_char_inv in H as (s6 & -> & H).
  change (rmatch false (RSeq ?a ?b) ?st ?k)
    with (rmatch false a st (fun st1 => rmatch false b st1 k)) in H.
  apply rmatch_accepts in H as (st7 & Hsp & H).
  apply iter_spaces in Hsp as (sp & Hsp & Hw). cbn [rest] in Hsp.
  apply rmatch_plus_inv in H as (d & st8 & st9 & y & Hadv & Hd & Hy & H).
  apply rmatch_accepts in H as (st10 & HA & _).
  apply Accepts_seq_rest in HA as (m1 & x1 & E1 & HA).
  apply Accepts_seq_rest in HA as (m2 & x2 & E2 & HA).
  apply Accepts_seq_rest in HA as (m3 & x3 & E3 & HA).
  apply Accepts_seq_rest in HA as (m4 & x4 & E4 & HA).
  apply Accepts_seq_rest in HA as (m5 & x5 & E5 & HA).
  apply Accepts_seq_rest in HA as (m6 & x6 & E6 & HA).
  destruct HA as (m7 & (c & Hc & ->) & -> & Hend).
  unfold advance in Hc. destruct (rest m6) as [|a t] eqn:E7; [discriminate|].
  injection Hc as -> <-. cbn [rest] in Hend. subst t.
  unfold advance in Hadv. destruct (rest st7) as [|a t] eqn:E8; [discriminate|].
  injection Hadv as -> <-. cbn [rest] in Hy.
  exists sp, d, (y +:+ x1 +:+ x2 +:+ x3 +:+ x4 +:+ x5 +:+ x6).
  split; [|auto].
  rewrite Hsp. cbn. do 6 f_equal. rewrite Hy, E1, E2, E3, E4, E5, E6.
  now rewrite !append_assoc.
Qed.

(** *** [parseOklchColor] on such a value *)

Lemma class_not_close c :
  c <> ")"%char -> class_matches true [CRange ")" ")"] c = true.
Proof.
  intros H. destruct c as [[] [] [] [] [] [] [] []]; try reflexivity.
  exfalso. apply H. reflexivity.
Qed.

Lemma class_close : class_matches true [CRange ")" ")"] ")" = false.
Proof. reflexivity. Qed.

Lemma first_close y :
  exists b t,
    y +:+ ")" = b +:+ String ")" t
    /\ Forall (fun c => c <> ")"%char) (list_ascii_of_string b).
Proof.
  induction y as [|c y (b & t & E & Hb)].
  - exists "", "". split; [reflexivity|constructor].
  - destruct (Ascii.eqb_spec c ")") as [->|Hne].
    + exists "", (y +:+ ")"). split; [reflexivity|constructor].
    + exists (String c b), t. rewrite !append_cons, E.
      split; [reflexivity|]. cbn. constructor; auto.
Qed.

(** The greedy loop over [[^)]] reads up to the first closing bracket. *)
Lemma repeat_until_close m k res tail cs :
  (forall p pv c s k',
     m (MState p pv (String c s) cs) k'
     = if class_matches true [CRange ")" ")"] c
       then k' (MState (S p) (Some c) s cs) else None) ->
  forall body fuel mn p pv,
  Forall (fun c => c <> ")"%char) (list_ascii_of_string body) ->
  mn <= len body -> len body < fuel ->
  (forall pv', k (MState (p + len body) pv' (String ")" tail) cs) = Some res) ->
  repeat_loop m [] true k fuel mn None
    (MState p pv (body +:+ String ")" tail) cs)
  = Some res.
Proof.
  intros Hm. unfold len.
  induction body as [|c body IH]; intros fuel mn p pv Hb Hmn Hf Hk.
  - destruct fuel as [|fuel]; [cbn in Hf; lia|]. cbn in Hmn.
    assert (mn = 0) by lia. subst mn.
    cbn [repeat_loop Nat.eqb negb]. rewrite clear_caps_nil.
    change ("" +:+ String ")" tail) with (String ")" tail).
    rewrite Hm, class_close. specialize (Hk pv). cbn in Hk.
    rewrite Nat.add_0_r in Hk. exact Hk.
  - rewrite append_cons. destruct fuel as [|fuel]; [cbn in Hf; lia|].
    inversion Hb as [|? ? Hc Hb']; subst. cbn in Hmn, Hf.
    assert (Hk' : forall pv', k (MState (S p + String.length body) pv'
                                   (String ")" tail) cs) = Some res).
    { intros pv'. rewrite <- (Hk pv'). cbn [String.length].
      now replace (p + S (String.length body)) with (S p + String.length body)
        by lia. }
    cbn [repeat_loop]. rewrite clear_caps_nil.
    rewrite Hm, (class_not_close c Hc). cbn [pos].
    replace (S p =? p) with false by (symmetry; apply Nat.eqb_neq; lia).
    rewrite andb_false_r.
    cbn [fmap option_fmap option_map].
    rewrite (IH fuel (Nat.pred mn) (S p) (Some c) Hb') by (auto; lia).
    destruct (negb (mn =? 0)); reflexivity.
Qed.

Lemma rmatch_char c r p pv s cs k :
  rmatch false (RSeq (RChar c) r) (MState p pv (String c s) cs) k
  = rmatch false r (MState (S p) (Some c) s cs) k.
Proof.
  cbn [rmatch]. unfold advance. cbn [rest pos prev caps].
  now rewrite Ascii.eqb_refl.
Qed.

Lemma take_app_len b t : take (len b) (b +:+ t) = b.
Proof.
  unfold len. induction b as [|c b IH]; [now destruct t|].
  rewrite append_cons. cbn. now rewrite IH.
Qed.

(** [oklchStr.match(/oklch\(([^)]+)\)/)] finds the text between the
    brackets. *)
Lemma exec_oklch re c body tail :
  regexp "oklch\(([^)]+)\)" = Ok re ->
  Forall (fun c => c <> ")"%char) (list_ascii_of_string (String c body)) ->
  exists m,
    exec false re ("oklch(" +:+ String c body +:+ String ")" tail) 0 = Some m
    /\ capture ("oklch(" +:+ String c body +:+ String ")" tail) m 1
       = Some (String c body).
Proof.
  intros Hre Hb. vm_compute in Hre. injection Hre as <-.
  set (b := String c body) in *.
  change ("oklch(" +:+ b +:+ String ")" tail)
    with (String "o" (String "k" (String "l" (String "c" (String "h"
            (String "(" (b +:+ String ")" tail))))))).
  set (s := String "o" _).
  pose (res := MState (S (6 + len b)) (Some ")"%char) tail [(1, (6, 6 + len b))]).
  assert (E : rmatch false
                (RSeq (RChar "o") (RSeq (RChar "k") (RSeq (RChar "l")
                   (RSeq (RChar "c") (RSeq (RChar "h") (RSeq (RChar "(")
                      (RSeq (RGroup 1 (RQuant 1 None true
                                         (RClass true [CRange ")" ")"])))
                         (RChar ")"))))))))
                (MState 0 None s []) Some = Some res).
  { unfold s. rewrite !rmatch_char.
    change (rmatch false (RSeq (RGroup 1 (RQuant 1 None true ?cl)) ?r) ?st Some)
      with (repeat_loop (rmatch false cl) [] true
              (fun st1 => rmatch false r (set_cap 1 (pos st) (pos st1) st1) Some)
              (1 + S (len (rest st))) 1 None st).
    apply repeat_until_close.
    - intros p pv c0 s0 k'. reflexivity.
    - exact Hb.
    - unfold b, len. cbn. lia.
    - cbn [rest]. rewrite len_app. lia.
    - intros pv'. cbn [pos]. unfold set_cap. cbn [rmatch].
      unfold advance. cbn. reflexivity. }
  exists (RMatched 0 (pos res) (caps res)). split.
  - unfold exec, s. cbn [search]. fold s. now rewrite E.
  - unfold capture, res. cbn [m_caps caps List.find fst Nat.eqb].
    unfold sub. replace (6 + len b - 6) with (len b) by lia.
    unfold s. cbn [drop]. now rewrite take_app_len.
Qed.

Lemma parseOklchColor_ok w c body :
  unbroken w ->
  (forall re, regexp "oklch\(([^)]+)\)" = Ok re ->
     exists m,
       exec false re w 0 = Some m /\ capture w m 1 = Some (String c body)) ->
  exists r o, parseOklchColor w = Ok r /\ oklch r = Some o.
Proof.
  intros Hw He. unfold parseOklchColor.
  destruct (regexp "oklch\(([^)]+)\)") as [re| |] eqn:H1;
    try (exfalso; vm_compute in H1; discriminate H1).
  destruct (regexp "\s+|,\s*") as [sep| |] eqn:H2;
    try (exfalso; vm_compute in H2; discriminate H2).
  cbn [obind]. destruct (He re eq_refl) as (m & E & Hc). rewrite E.
  assert (Hu : unbroken (default "" (capture w m 1))).
  { unfold capture. destruct (List.find _ _) as [[i [a b]]|]; cbn.
    - now apply unbroken_sub.
    - constructor. }
  rewrite Hc in *. cbn [default] in *.
  rewrite (split_unbroken _ _ H2 Hu) by discriminate.
  cbn [filter list_filter].
  destruct (decide (String c body ≠ "")) as [_|Hn];
    [|exfalso; apply Hn; discriminate].
  eexists _, _. split; reflexivity.
Qed.

Lemma digit_or_dot d :
  class_matches false [CDigit; CRange "." "."] d = true ->
  is_space d = false /\ d <> ")"%char.
Proof.
  destruct d as [[] [] [] [] [] [] [] []]; intros H;
    try (exfalso; vm_compute in H; discriminate H);
    split; try reflexivity; discriminate.
Qed.

(** [parseColor] accepts every value in the OKLCH format of
    [isColorValue], and takes it for an OKLCH colour. *)
Lemma parseColor_oklch_format v :
  in_oklch_format v = true ->
  exists r o, parseColor v = Ok r /\ oklch r = Some o.
Proof.
  unfold in_oklch_format.
  destruct (regexp (List.last colorFormats "")) as [re| |] eqn:Hre;
    try discriminate.
  intros Ht.
  destruct (oklch_format_shape _ _ Hre Ht) as (sp & d & x & Es & Hsp & Hd).
  apply digit_or_dot in Hd as [Hd1 Hd2].
  assert (Hcf : comma_free (trim v)).
  { vm_compute in Hre. injection Hre as <-.
    apply test_whole in Ht; [|reflexivity..].
    unfold comma_free. eapply Forall_impl; [exact Ht|].
    cbn beta. intros c Hr ->. vm_compute in Hr. discriminate Hr. }
  apply without_spaces_unbroken in Hcf.
  assert (Ew : without_spaces (trim v)
               = "oklch(" +:+ String d (without_spaces x +:+ ")")).
  { rewrite Es, !without_spaces_app, Hsp.
    change (String d (x +:+ ")")) with (String d "" +:+ (x +:+ ")")).
    rewrite !without_spaces_app. cbn [without_spaces]. rewrite Hd1.
    reflexivity. }
  destruct (first_close (without_spaces x)) as (b & t & Eb & Hb).
  rewrite Eb in Ew. rewrite <- append_cons in Ew.
  rewrite parseColor_cleaned. cbv zeta.
  rewrite <- without_spaces_trim. rewrite Ew in *.
  change (startsWith "oklch(" ("oklch(" +:+ ?z)) with true.
  cbv iota.
  apply (parseOklchColor_ok _ d b Hcf).
  intros re' Hre'. apply (exec_oklch re' d b t Hre'). constructor; auto.
Qed.

(** *** The tokens of such values *)

Lemma isColorValue_oklch_format v :
  in_oklch_format v = true -> isColorValue v = Ok true.
Proof.
  unfold in_oklch_format, isColorValue, colorFormats.
  cbn [List.last some_test].
  repeat match goal with
  | |- _ -> obind (regexp ?p) _ = _ =>
      let re := fresh "re" in
      let Hre := fresh "Hre" in
      destruct (regexp p) as [re| |] eqn:Hre;
        [|exfalso; vm_compute in Hre; discriminate Hre ..];
      cbn [obind];
      try (destruct (test false re (trim v)); [reflexivity|])
  end.
  now intros ->.
Qed.

Lemma trim_head c s : is_space c = false -> exists t, trim (String c s) = String c t.
Proof.
  intros Hc. unfold trim. cbn [trimStart]. rewrite Hc. cbn [trimEnd].
  destruct (trimEnd s); [rewrite Hc|]; eauto.
Qed.

Lemma oklch_format_plain v :
  in_oklch_format v = true -> startsWith "var(" v = false.
Proof.
  unfold in_oklch_format.
  destruct (regexp (List.last colorFormats "")) as [re| |] eqn:Hre;
    try discriminate.
  intros Ht.
  destruct (oklch_format_shape _ _ Hre Ht) as (sp & d & x & Es & _).
  destruct v as [|c v]; [reflexivity|]. cbn [startsWith].
  destruct (Ascii.eqb_spec "v" c) as [<-|]; [|reflexivity].
  destruct (trim_head "v" v eq_refl) as [t Et]. rewrite Et in Es.
  discriminate Es.
Qed.

Lemma oklch_format_filed k v :
  in_oklch_format v = true -> parsed_color (k, v) = true.
Proof.
  intros H. unfold parsed_color, filed_under, classify. cbn [fst snd].
  rewrite (oklch_format_plain v H), (isColorValue_oklch_format v H).
  destruct (parseColor_oklch_format v H) as (r & o & -> & _).
  now rewrite bool_decide_eq_true_2.
Qed.

(** A variable of the table whose value is in the OKLCH format has its
    colour token. *)
Lemma oklch_variable_token readFile ropts reg k v :
  initialize readFile (new_ ropts) = Ok reg ->
  In (k, v) (cssVars reg) -> in_oklch_format v = true ->
  exists t o,
    In t (colorTokens reg) /\ cssVariable (color_base t) = k
    /\ color_originalValue t = v /\ oklch (color_value t) = Some o.
Proof.
  intros Hi Hin Hf.
  pose proof (ft_color _ _ (initialize_follows _ _ _ Hi)) as E.
  assert (Hm : In (k, v) (color_entries reg)).
  { rewrite E. apply filter_In. split; [exact Hin|].
    now apply oklch_format_filed. }
  unfold color_entries in Hm. apply list_elem_of_In in Hm.
  apply list_elem_of_fmap in Hm as (t & Et & Ht).
  injection Et as -> ->. apply list_elem_of_In in Ht.
  pose proof (initialize_color_values _ _ _ Hi) as Hc.
  rewrite List.Forall_forall in Hc. destruct (Hc t Ht) as [_ Hp].
  destruct (parseColor_oklch_format _ Hf) as (r & o & Hr & Ho).
  rewrite Hr in Hp. injection Hp as Hp. exists t, o. rewrite <- Hp. auto.
Qed.

End OklchFormat.

(** * The claims *)

Import JS Regex RegexSpec MatcherTypes.
Import Num ColorUtils Invariants.

(** C1. For the source text of the utility-class scenario, a [div] whose
    [className] holds [bg-[#25C9D0]] and [text-[rgb(85,85,85)]], the claim
    expects two records of category color, the second with property
    "color". The code does otherwise, twice over. As written, the module
    cannot run: the pattern of [elementRegex] does not parse, so [match]
    yields no list. And for whatever regular expression stands in its
    place, the second record has category typography and property
    "fontSize": the key "text-" is written twice in [TAILWIND_PREFIX_MAP]
    and the later entry is the one that counts. *)
Theorem C1_text_prefix_resolves_to_typography :
  TailwindClassMatcher.match_ Examples.colour_classes no_options
  = Throw SyntaxError
  /\ forall elementRe,
       outcome_map (map brief)
         (TailwindClassMatcher.match_with elementRe Examples.colour_classes
            no_options)
       = Ok [ (color, "#25C9D0", "backgroundColor", className);
              (typography, "rgb(85,85,85)", "fontSize", className) ].
Proof.
  split.
  - vm_compute. reflexivity.
  - intros elementRe. vm_compute. reflexivity.
Qed.

(** C8, the claim as stated fails: for a source in which a style object is
    declared in a variable before an element with a literal style object,
    [InlineStyleMatcher.match] returns the record of the literal object
    (offset 47) before the record of the variable's object (offset 25). *)
Lemma C8_inline_counterexample :
  exists rs,
    InlineStyleMatcher.match_ Examples.style_variable_first no_options = Ok rs
    /\ starts rs = [47; 25]%Z
    /\ ~ StronglySorted Z.le (starts rs).
Proof.
  eexists. split; [vm_compute; reflexivity|]. split; [reflexivity|].
  intros H. inversion H as [|? ? _ Hall]. inversion Hall as [|? ? Hle _].
  vm_compute in Hle. now apply Hle.
Qed.

(** C8, amended: for every source text and every options value, the scan
    of [TailwindClassMatcher.match] ends and returns a list of records whose
    [location.start] offsets strictly increase, whatever regular expression
    stands in the place of [elementRegex]. *)
Theorem C8_tailwind_offsets_increase :
  forall (elementRe : regex) (source : string) (options : MatcherOptions),
  exists results,
    TailwindClassMatcher.match_with elementRe source options = Ok results
    /\ StronglySorted Z.lt (starts results).
Proof. exact TailwindFacts.match_with_spec. Qed.

(** C3. For every input whose text, once its white space is removed,
    starts with none of [#], [rgb(], [rgba(], [hsl(], [hsla(], [oklch(],
    [parseColor] does not raise and returns the fallback: hex "#000000" and
    rgb (0, 0, 0). *)
Theorem C3_unrecognised_color_is_black (colorStr : string) (spaces : regex) :
  regexp whitespace = Ok spaces ->
  recognised (replace_all false spaces "" colorStr) = false ->
  exists result,
    parseColor colorStr = Ok result
    /\ hex result = "#000000"
    /\ rgb result = {| rgb_r := 0; rgb_g := 0; rgb_b := 0; rgb_a := None |}.
Proof.
  intros Hre Hrec. exists black. split; [|split; reflexivity].
  eapply ColorFacts.parseColor_unrecognised; eauto.
Qed.

Lemma C3_witness :
  exists result,
    parseColor "dark  red" = Ok result
    /\ hex result = "#000000"
    /\ rgb result = {| rgb_r := 0; rgb_g := 0; rgb_b := 0; rgb_a := None |}.
Proof.
  eapply (C3_unrecognised_color_is_black "dark  red").
  - vm_compute. reflexivity.
  - vm_compute. reflexivity.
Defined.

(** C7. For all integers r, g, b in [0, 255], with no alpha, [parseColor]
    takes the text that [rgbToHex] produces through its hex branch, and the
    rgb it returns is the triple (r, g, b) again. *)
Theorem C7_hex_round_trip (r g b : Z) :
  (0 <= r <= 255)%Z -> (0 <= g <= 255)%Z -> (0 <= b <= 255)%Z ->
  let c := {| rgb_r := of_Z r; rgb_g := of_Z g; rgb_b := of_Z b;
              rgb_a := None |} in
  parseColor (rgbToHex c) = Ok (parseHexColor (rgbToHex c))
  /\ rgb (parseHexColor (rgbToHex c)) = c.
Proof. apply ColorFacts.hex_round_trip. Qed.

Lemma C7_witness :
  let c := {| rgb_r := of_Z 37; rgb_g := of_Z 201; rgb_b := of_Z 208;
              rgb_a := None |} in
  parseColor (rgbToHex c) = Ok (parseHexColor (rgbToHex c))
  /\ rgb (parseHexColor (rgbToHex c)) = c.
Proof. apply (C7_hex_round_trip 37 201 208); lia. Defined.

Import CoreTypes TokenRegistry Examples.

(** C2, the claim as stated fails: [getAllTokens] called on a registry
    that has never been initialized returns the empty list; it does not
    fail with the usage error. *)
Lemma C2_counterexample :
  initialized (new_ (from_content spacing_sm)) = false
  /\ ask (fun _ => "") (fun _ _ => None) (new_ (from_content spacing_sm))
       GetAllTokens = Ok (Tokens [])
  /\ ask (fun _ => "") (fun _ _ => None) (new_ (from_content spacing_sm))
       GetAllTokens <> Throw not_initialized.
Proof. repeat split. discriminate. Qed.

(** C2, amended: the registry goes one way from uninitialized to
    initialized. Called before [initialize], [findClosestColorMatch],
    [findBestMatch] and [exportTokensToJson] fail with the usage error,
    while [getTokensByCategory], [getAllTokens], [findTokenByName],
    [findTokenByCssVariable] and [getTokenCounts] answer as for a registry
    without tokens (empty lists, no token, zero counts). [initialize] on an
    initialized registry changes nothing, and a registry that [initialize]
    returns is initialized. *)
Theorem C2_guarded_queries_and_idempotent_initialize
  (stringify : list DesignToken -> string)
  (writeFile : string -> string -> option string)
  (readFile : string -> string + string) :
  (forall reg q, initialized reg = false -> guarded q = true ->
     ask stringify writeFile reg q = Throw not_initialized)
  /\ (forall ropts q, guarded q = false ->
        ask stringify writeFile (new_ ropts) q = Ok (empty_answer q))
  /\ (forall reg, initialized reg = true -> initialize readFile reg = Ok reg)
  /\ (forall reg reg', initialize readFile reg = Ok reg' ->
        initialized reg' = true).
Proof.
  repeat split.
  - intros reg [] Hi Hg; try discriminate; simpl;
      unfold findClosestColorMatch, findBestMatch, exportTokensToJson;
      rewrite Hi; reflexivity.
  - intros ropts [] Hg; try discriminate; try reflexivity.
    destruct c; reflexivity.
  - apply RegistryFacts.initialize_twice.
  - apply RegistryFacts.initialize_initialized.
Qed.

(** C4. After a registry is initialized from the CSS text
    [--spacing-sm: 1rem;] (alone, or among the declarations of a small
    theme), [findBestMatch('1rem')] with no category returns a match whose
    token is the spacing token named "sm", with confidence 1. In general,
    for every registry that [initialize] returns: when the first variable
    of the table with value [1rem] and "spacing" in its name is
    [--spacing-sm], [findBestMatch('1rem')] returns that match. *)
Theorem C4_spacing_sm_scenario :
  (forall (readFile : string -> string + string) (opts : TokenMatchOptions),
     Forall
       (fun css =>
          exists reg t,
            initialize readFile (new_ (from_content css)) = Ok reg
            /\ findBestMatch reg "1rem" None opts
               = Ok (Some {| token := Spacing t; confidence := 1;
                             originalValue := "1rem" |})
            /\ name (spacing_base t) = "sm")
       [spacing_sm; small_theme])
  /\ (forall readFile ropts reg opts,
        initialize readFile (new_ ropts) = Ok reg ->
        List.find (spacing_entry "1rem") (cssVars reg)
        = Some ("--spacing-sm", "1rem") ->
        exists t,
          findBestMatch reg "1rem" None opts
          = Ok (Some {| token := Spacing t; confidence := 1;
                        originalValue := "1rem" |})
          /\ name (spacing_base t) = "sm").
Proof.
  split.
  - intros readFile opts.
    repeat constructor; eexists _, _; (split; [vm_compute; reflexivity|]);
      split; vm_compute; reflexivity.
  - intros readFile ropts reg opts Hinit Hfind.
    destruct (RegistryFacts.findBestMatch_first_spacing
                readFile ropts reg "1rem" "--spacing-sm" opts)
      as (t & Hm & _ & Hname); auto; try (vm_compute; reflexivity).
    exists t. split; [exact Hm|].
    assert (E : getNameFromCssVariable "--spacing-sm" = Ok "sm")
      by (vm_compute; reflexivity).
    congruence.
Qed.

(** The general part of C4 at the registry of the one-line style sheet. *)
Lemma C4_witness :
  exists reg t,
    initialize no_files (new_ (from_content spacing_sm)) = Ok reg
    /\ findBestMatch reg "1rem" None no_match_options
       = Ok (Some {| token := Spacing t; confidence := 1;
                     originalValue := "1rem" |})
    /\ name (spacing_base t) = "sm".
Proof.
  eassert (E : initialize no_files (new_ (from_content spacing_sm)) = Ok _)
    by (vm_compute; reflexivity).
  edestruct (proj2 C4_spacing_sm_scenario) as (t & Hm & Hn);
    [exact E | vm_compute; reflexivity |].
  eexists _, t. split; [exact E|]. split; [exact Hm | exact Hn].
Defined.

(** C5. In [findClosestColorMatch] on an initialized registry, for an
    input that parses: if some colour token has the hex of the parsed
    input, up to case, the result is a match with confidence exactly 1 that
    holds such a token (the first of them), whatever the other tokens and
    their distances; and if no token has that hex and [exact] is set, the
    result is no match. *)
Theorem C5_exact_hex_match_wins reg colorValue opts target :
  initialized reg = true ->
  parseColor colorValue = Ok target ->
  (forall t, In t (colorTokens reg) ->
     toLowerCase (hex (color_value t)) = toLowerCase (hex target) ->
     exists t',
       List.find (same_hex target) (colorTokens reg) = Some t'
       /\ In t' (colorTokens reg)
       /\ toLowerCase (hex (color_value t')) = toLowerCase (hex target)
       /\ findClosestColorMatch reg colorValue opts
          = Ok (Some {| token := Color t'; confidence := 1;
                        originalValue := colorValue |}))
  /\ ((forall t, In t (colorTokens reg) ->
         toLowerCase (hex (color_value t)) <> toLowerCase (hex target)) ->
      exact opts = Some true ->
      findClosestColorMatch reg colorValue opts = Ok None).
Proof.
  intros Hi Hp. unfold findClosestColorMatch. rewrite Hi, Hp. cbn [negb].
  split.
  - intros t Hin Heq.
    destruct (RegistryFacts.find_same_hex target _ t Hin Heq)
      as (t' & Hf & Hin' & Heq').
    exists t'. rewrite Hf. auto.
  - intros Hne He.
    rewrite (RegistryFacts.find_same_hex_none _ _ Hne), He. reflexivity.
Qed.

Lemma C5_witness :
  exists reg target target',
    initialize no_files (new_ (from_content small_theme)) = Ok reg
    /\ parseColor "#25c9d0" = Ok target
    /\ parseColor "#25c9d1" = Ok target'
    /\ (exists t',
          name (color_base t') = "primary"
          /\ findClosestColorMatch reg "#25c9d0"
               {| threshold := None; categories := None; exact := Some true |}
             = Ok (Some {| token := Color t'; confidence := 1;
                           originalValue := "#25c9d0" |}))
    /\ findClosestColorMatch reg "#25c9d1"
         {| threshold := None; categories := None; exact := Some true |}
       = Ok None.
Proof.
  eexists _, _, _.
  split; [vm_compute; reflexivity|].
  split; [vm_compute; reflexivity|].
  split; [vm_compute; reflexivity|].
  split.
  - match goal with
    | |- exists t', _ /\ findClosestColorMatch ?reg _ ?opts = _ =>
        edestruct (C5_exact_hex_match_wins reg "#25c9d0" opts) as [H _]
    end.
    + reflexivity.
    + vm_compute. reflexivity.
    + edestruct H as (t' & Hf & _ & _ & Hr).
      * left. reflexivity.
      * vm_compute. reflexivity.
      * exists t'. split; [|exact Hr].
        vm_compute in Hf. injection Hf as <-. reflexivity.
  - match goal with
    | |- findClosestColorMatch ?reg _ ?opts = _ =>
        edestruct (C5_exact_hex_match_wins reg "#25c9d1" opts) as [_ H]
    end.
    + reflexivity.
    + vm_compute. reflexivity.
    + apply H; [|reflexivity].
      intros t Hin. vm_compute in Hin.
      destruct Hin as [<-|[<-|[]]]; vm_compute; discriminate.
Defined.

(** C6. For every registry that [initialize] returns and every value v
    that is the value of one of its spacing tokens and of one of its border
    radius tokens, [findBestMatch(v)] with no category returns a match that
    holds a spacing token: the spacing tokens are searched before the
    border radius tokens, and v is not in a colour format. *)
Theorem C6_spacing_before_border_radius readFile ropts reg v sp br opts :
  initialize readFile (new_ ropts) = Ok reg ->
  In sp (spacingTokens reg) -> spacing_value sp = v ->
  In br (borderRadiusTokens reg) -> borderRadius_value br = v ->
  exists t,
    findBestMatch reg v None opts
    = Ok (Some {| token := Spacing t; confidence := 1; originalValue := v |})
    /\ In t (spacingTokens reg) /\ spacing_value t = v
    /\ category (Spacing t) = spacing.
Proof.
  intros Hinit Hsp Hv Hbr Hv'.
  pose proof (RegistryFacts.initialize_initialized _ _ _ Hinit) as Hi.
  pose proof (RegistryFacts.initialize_spacing _ _ _ Hinit) as Hinv.
  unfold spacing_not_colors in Hinv. rewrite Forall_forall in Hinv.
  pose proof (Hinv sp) as Hc. rewrite Hv in Hc.
  destruct (RegistryFacts.find_value spacing_value _ v sp Hsp Hv)
    as (t & Hf & Hin & Ht).
  exists t. unfold findBestMatch. rewrite Hi. cbn [negb wanted obind].
  rewrite Hc by (apply list_elem_of_In; exact Hsp).
  cbn [obind]. rewrite Hf. auto.
Qed.

Lemma C6_witness :
  exists reg t,
    initialize no_files (new_ (from_content small_theme)) = Ok reg
    /\ findBestMatch reg "1rem" None no_match_options
       = Ok (Some {| token := Spacing t; confidence := 1;
                     originalValue := "1rem" |}).
Proof.
  eassert (E : initialize no_files (new_ (from_content small_theme)) = Ok _)
    by (vm_compute; reflexivity).
  edestruct C6_spacing_before_border_radius as (t & Hr & _).
  - exact E.
  - left. reflexivity.
  - reflexivity.
  - left. reflexivity.
  - reflexivity.
  - eexists _, t. split; [exact E|exact Hr].
Defined.

(** C10. For every registry state and all arguments, a match that
    [findBestMatch] returns never holds a typography token: its token is a
    color, spacing, border radius or shadow token. *)
Theorem C10_typography_never_matched reg value_ category_ opts m :
  findBestMatch reg value_ category_ opts = Ok (Some m) ->
  category (token m) <> typography
  /\ (category (token m) = color \/ category (token m) = spacing
      \/ category (token m) = borderRadius \/ category (token m) = shadow).
Proof.
  intros H. apply RegistryFacts.findBestMatch_category in H. split; auto.
  destruct (token m); simpl in *; auto. contradiction.
Qed.

Lemma C10_witness :
  exists reg m,
    initialize no_files (new_ (from_content small_theme)) = Ok reg
    /\ findBestMatch reg "2rem" (Some typography) no_match_options = Ok None
    /\ findBestMatch reg "1rem" None no_match_options = Ok (Some m)
    /\ category (token m) <> typography.
Proof.
  eassert (E : initialize no_files (new_ (from_content small_theme)) = Ok _)
    by (vm_compute; reflexivity).
  match type of E with
  | _ = Ok ?r =>
      eassert (M : findBestMatch r "1rem" None no_match_options = Ok (Some _))
        by (vm_compute; reflexivity)
  end.
  eexists _, _. split; [exact E|]. split; [vm_compute; reflexivity|].
  split; [exact M|].
  exact (proj1 (C10_typography_never_matched _ _ _ _ _ M)).
Defined.

Import Store StoreFacts.

(** C9, the claim as stated fails: the array that [getAllTokens] returns
    holds the token objects of the registry themselves, so an assignment
    to a field of a returned token changes what the registry returns
    afterwards.  For the registry with the spacing token [sm] and the
    border radius token [md], both of value 1rem, [findBestMatch] of 1rem
    returns [sm]; after [getAllTokens()[0].value = '4rem'] it returns
    [md], and [getTokensByCategory] of spacing returns the changed token. *)
Lemma C9_counterexample :
  exists h2 before after changed,
    assign_value (Store.getAllTokens StoreExample.objects StoreExample.reg).1
      (Store.getAllTokens StoreExample.objects StoreExample.reg).2 0 "4rem"
    = Some h2
    /\ findBestMatch (view StoreExample.objects StoreExample.reg) "1rem" None
         no_match_options = Ok (Some before)
    /\ token before = StoreExample.sm
    /\ findBestMatch (view h2 StoreExample.reg) "1rem" None no_match_options
       = Ok (Some after)
    /\ token after = StoreExample.md
    /\ TokenRegistry.getTokensByCategory
         (view StoreExample.objects StoreExample.reg) spacing
       = [StoreExample.sm]
    /\ with_value "4rem" StoreExample.sm = Some changed
    /\ TokenRegistry.getTokensByCategory (view h2 StoreExample.reg) spacing
       = [changed]
    /\ changed <> StoreExample.sm.
Proof.
  eexists _, _, _, _. split; [vm_compute; reflexivity|].
  split; [vm_compute; reflexivity|]. split; [reflexivity|].
  split; [vm_compute; reflexivity|]. split; [reflexivity|].
  split; [vm_compute; reflexivity|]. split; [reflexivity|].
  split; [vm_compute; reflexivity|]. discriminate.
Qed.

(** C9, amended: [getTokensByCategory], [getAllTokens] and
    [getTokenCounts] change nothing that the registry holds, and what they
    return is a new object, none of the registry's arrays, that holds what
    the registry holds (the tokens of the category, all tokens, the
    counts).  Whatever a caller then stores in the returned object itself,
    the registry and each of its arrays read as before, so later queries
    return what they returned.  The copy is shallow: the elements of a
    returned array are the references that the registry's own arrays hold,
    and an assignment to the [value] of the token at an index of a returned
    array (a spacing, border radius or shadow token, whose value is a text)
    is an assignment to the registry's token; the registry then returns the
    token with the new value at that index. *)
Theorem C9_accessors_return_shallow_copies (h : store) (reg : registry) :
  wf h reg ->
  (forall c,
     fresh_copy h reg (Store.getTokensByCategory h reg c).1
       (Store.getTokensByCategory h reg c).2
     /\ contents (Store.getTokensByCategory h reg c).1
          (Store.getTokensByCategory h reg c).2
        = TokenRegistry.getTokensByCategory (view h reg) c
     /\ elements_of (Store.getTokensByCategory h reg c).1
          (Store.getTokensByCategory h reg c).2
        = elements_of h (field reg c))
  /\ (fresh_copy h reg (Store.getAllTokens h reg).1 (Store.getAllTokens h reg).2
      /\ contents (Store.getAllTokens h reg).1 (Store.getAllTokens h reg).2
         = TokenRegistry.getAllTokens (view h reg)
      /\ elements_of (Store.getAllTokens h reg).1 (Store.getAllTokens h reg).2
         = all_elements h reg)
  /\ (fresh_copy h reg (Store.getTokenCounts h reg).1
        (Store.getTokenCounts h reg).2
      /\ (Store.getTokenCounts h reg).1 !! (Store.getTokenCounts h reg).2
         = Some (OCounts (TokenRegistry.getTokenCounts (view h reg))))
  /\ (forall c i v h2,
        assign_value (Store.getTokensByCategory h reg c).1
          (Store.getTokensByCategory h reg c).2 i v = Some h2 ->
        exists t t',
          TokenRegistry.getTokensByCategory (view h reg) c !! i = Some t
          /\ with_value v t = Some t'
          /\ TokenRegistry.getTokensByCategory (view h2 reg) c !! i = Some t')
  /\ (forall i v h2,
        assign_value (Store.getAllTokens h reg).1
          (Store.getAllTokens h reg).2 i v = Some h2 ->
        exists t t',
          TokenRegistry.getAllTokens (view h reg) !! i = Some t
          /\ with_value v t = Some t'
          /\ TokenRegistry.getAllTokens (view h2 reg) !! i = Some t').
Proof.
  intros Hwf.
  assert (Hels : forall c l, l ∈ elements_of h (field reg c) -> l ∈ dom h).
  { intros c l. now apply wf_elements. }
  assert (Hall : forall l, l ∈ all_elements h reg -> l ∈ dom h).
  { intros l Hl. unfold all_elements in Hl. rewrite !elem_of_app in Hl.
    destruct Hl as [Hl|[Hl|[Hl|[Hl|Hl]]]];
      [apply (Hels color)|apply (Hels typography)|apply (Hels spacing)
      |apply (Hels borderRadius)|apply (Hels shadow)]; exact Hl. }
  assert (Hlen : forall c,
            length (elements_of h (field reg c))
            = length (TokenRegistry.getTokensByCategory (view h reg) c)).
  { intros c. rewrite view_getTokensByCategory by assumption.
    destruct (Hwf c) as (ls & Ha & Hls). unfold contents, elements_of.
    rewrite Ha. clear Ha.
    induction Hls as [|l ls' (t & Ht & _) _ IH]; auto.
    cbn [omap list_omap]. unfold token_at at 1. rewrite Ht. simpl.
    now f_equal. }
  split; [|split; [|split; [|split]]].
  - intros c. split; [now apply alloc_fresh_copy|]. split.
    + unfold Store.getTokensByCategory.
      rewrite alloc_array_contents by apply Hels.
      now rewrite view_getTokensByCategory.
    + unfold Store.getTokensByCategory, alloc. cbn [fst snd].
      apply elements_of_insert.
  - split; [now apply alloc_fresh_copy|]. split.
    + unfold Store.getAllTokens. fold (all_elements h reg).
      rewrite alloc_array_contents by exact Hall.
      now rewrite SharingFacts.view_all_elements.
    + unfold Store.getAllTokens, alloc. cbn [fst snd].
      apply elements_of_insert.
  - split; [now apply alloc_fresh_copy|].
    unfold Store.getTokenCounts, alloc. simpl. rewrite lookup_insert_eq.
    do 2 f_equal. unfold TokenRegistry.getTokenCounts.
    pose proof (Hlen color) as H1. pose proof (Hlen typography) as H2.
    pose proof (Hlen spacing) as H3. pose proof (Hlen borderRadius) as H4.
    pose proof (Hlen shadow) as H5.
    cbn [TokenRegistry.getTokensByCategory field] in H1, H2, H3, H4, H5.
    rewrite length_fmap in H1. rewrite length_fmap in H2.
    rewrite length_fmap in H3. rewrite length_fmap in H4.
    rewrite length_fmap in H5.
    now rewrite H1, H2, H3, H4, H5.
  - intros c i v h2 H.
    pose proof (copy_frame _ _ _ _ (alloc_fresh_copy h reg
                  (OArray (elements_of h (field reg c))) Hwf)) as Hu.
    unfold Store.getTokensByCategory in H.
    destruct (SharingFacts.assign_shared h _ reg _ _ i v h2 Hwf Hu
                (elements_of_insert _ _ _) (Hels c) H)
      as (l & t & t' & Hl & Ht & Hv & Ht1 & -> & _).
    exists t, t'. split; [|split; [exact Hv|]].
    + rewrite view_getTokensByCategory by assumption.
      apply (SharingFacts.omap_tokens_lookup h _ i l);
        auto using SharingFacts.wf_tokens.
    + apply (SharingFacts.category_after_assign _ reg c l t t' i);
        eauto using SharingFacts.wf_untouched, SharingFacts.with_value_category.
      now rewrite (SharingFacts.elements_of_untouched h _ reg c Hwf Hu).
  - intros i v h2 H.
    pose proof (copy_frame _ _ _ _ (alloc_fresh_copy h reg
                  (OArray (all_elements h reg)) Hwf)) as Hu.
    unfold Store.getAllTokens in H. fold (all_elements h reg) in H.
    destruct (SharingFacts.assign_shared h _ reg _ _ i v h2 Hwf Hu
                (elements_of_insert _ _ _) Hall H)
      as (l & t & t' & Hl & Ht & Hv & Ht1 & -> & _).
    exists t, t'. split; [|split; [exact Hv|]].
    + rewrite SharingFacts.view_all_elements by assumption.
      apply (SharingFacts.omap_tokens_lookup h _ i l);
        auto using SharingFacts.all_elements_tokens.
    + apply (SharingFacts.all_after_assign _ reg l t t' i);
        eauto using SharingFacts.wf_untouched, SharingFacts.with_value_category.
      now rewrite (SharingFacts.all_elements_untouched h _ reg Hwf Hu).
Qed.

Lemma C9_witness :
  wf StoreExample.objects StoreExample.reg
  /\ (forall c,
        fresh_copy StoreExample.objects StoreExample.reg
          (Store.getTokensByCategory StoreExample.objects StoreExample.reg c).1
          (Store.getTokensByCategory StoreExample.objects StoreExample.reg c).2
        /\ contents
             (Store.getTokensByCategory StoreExample.objects
                StoreExample.reg c).1
             (Store.getTokensByCategory StoreExample.objects
                StoreExample.reg c).2
           = TokenRegistry.getTokensByCategory
               (view StoreExample.objects StoreExample.reg) c
        /\ elements_of
             (Store.getTokensByCategory StoreExample.objects
                StoreExample.reg c).1
             (Store.getTokensByCategory StoreExample.objects
                StoreExample.reg c).2
           = elements_of StoreExample.objects (field StoreExample.reg c))
  /\ TokenRegistry.getAllTokens (view StoreExample.objects StoreExample.reg)
     = [StoreExample.sm; StoreExample.md]
  /\ exists h2 t',
       assign_value
         (Store.getAllTokens StoreExample.objects StoreExample.reg).1
         (Store.getAllTokens StoreExample.objects StoreExample.reg).2 1 "2rem"
       = Some h2
       /\ with_value "2rem" StoreExample.md = Some t'
       /\ TokenRegistry.getAllTokens (view h2 StoreExample.reg) !! 1 = Some t'.
Proof.
  destruct (C9_accessors_return_shallow_copies _ _ wf_example)
    as (H1 & _ & _ & _ & H5).
  split; [exact wf_example|]. split; [exact H1|]. split; [reflexivity|].
  eassert (E : assign_value
                 (Store.getAllTokens StoreExample.objects StoreExample.reg).1
                 (Store.getAllTokens StoreExample.objects StoreExample.reg).2
                 1 "2rem" = Some _) by (vm_compute; reflexivity).
  destruct (H5 _ _ _ E) as (t & t' & Ht & Hv & Ht').
  vm_compute in Ht. injection Ht as <-.
  eexists _, t'. split; [exact E|]. split; [exact Hv|exact Ht'].
Defined.

(** * Further properties

    What the code shows beyond the claims, by source file. *)

(** ** Locations in a source text ([matchers/types.ts]) *)

Import MatcherTypes MatcherInvariants.

(** X1. [getLineAndColumn] answers line 0, column 0 for an index outside
    the text (below 0 or beyond its length).  For an index inside, the
    text before the index splits into complete lines, each ended by a line
    feed, and a last piece without line feed: the line is the number of
    line feeds before the index plus one, the column the length of that
    last piece plus one.  Both are counted from 1. *)
Theorem X1_getLineAndColumn_counts_lines (source : string) (index : Z) :
  ((index < 0 \/ Z.of_nat (len source) < index)%Z ->
   getLineAndColumn source index = (0, 0)%Z)
  /\ ((0 <= index <= Z.of_nat (len source))%Z ->
      exists before line_,
        take (Z.to_nat index) source = before +:+ line_
        /\ line_feeds line_ = 0
        /\ (before = "" \/ endsWith nl before = true)
        /\ getLineAndColumn source index
           = (Z.of_nat (line_feeds before) + 1, Z.of_nat (len line_) + 1)%Z).
Proof.
  unfold getLineAndColumn. split.
  - intros H.
    destruct (index <? 0)%Z eqn:E1; [reflexivity|].
    destruct (Z.of_nat (len source) <? index)%Z eqn:E2; [reflexivity|].
    apply Z.ltb_ge in E1, E2. lia.
  - intros H.
    destruct (index <? 0)%Z eqn:E1; [apply Z.ltb_lt in E1; lia|].
    destruct (Z.of_nat (len source) <? index)%Z eqn:E2;
      [apply Z.ltb_lt in E2; lia|]. cbn [orb].
    replace (substring 0 index source) with (take (Z.to_nat index) source)
      by (rewrite <- (Z2Nat.id index) at 2 by lia;
          symmetry; apply LocationFacts.substring_prefix; lia).
    destruct (StringFacts.last_split_char (take (Z.to_nat index) source))
      as (p & Hs & Hl & Hn & Hp).
    exists p, (List.last (split_char "010" (take (Z.to_nat index) source)) "").
    split; [exact Hs|]. split; [exact Hl|]. split; [exact Hp|].
    rewrite StringFacts.length_split_char, Hn. f_equal. lia.
Qed.

Lemma X1_witness :
  getLineAndColumn "ab" 3 = (0, 0)%Z
  /\ exists before line_,
       take 4 ("ab" +:+ nl +:+ "cd") = before +:+ line_
       /\ getLineAndColumn ("ab" +:+ nl +:+ "cd") 4
          = (Z.of_nat (line_feeds before) + 1, Z.of_nat (len line_) + 1)%Z
       /\ getLineAndColumn ("ab" +:+ nl +:+ "cd") 4 = (2, 2)%Z.
Proof.
  split.
  - apply (proj1 (X1_getLineAndColumn_counts_lines "ab" 3)). right. vm_compute. reflexivity.
  - destruct (proj2 (X1_getLineAndColumn_counts_lines ("ab" +:+ nl +:+ "cd") 4))
      as (before & line_ & H1 & _ & _ & H2).
    + vm_compute. split; discriminate.
    + exists before, line_. split; [exact H1|]. split; [exact H2|].
      reflexivity.
Defined.

(** X2. [getFullLine] returns the line that holds the index, without its
    line feeds: for an index from 1 to the length of the text, and for
    index 0 of a text that does not start with a line feed, the result is
    the part of the text between two offsets around the index that holds no
    line feed, starts at the start of the text or right after a line feed
    and ends at the end of the text or right before a line feed; the column
    that [getLineAndColumn] gives for the index is its offset in that line
    plus one.  At index 0 of a text that starts with a line feed the result
    is that line feed, not the empty first line. *)
Theorem X2_getFullLine_is_the_line :
  (forall (source : string) (index : Z),
     (1 <= index <= Z.of_nat (len source))%Z
     \/ (index = 0%Z /\ startsWith nl source = false) ->
     exists a e : nat,
       getFullLine source index = sub a e source
       /\ (Z.of_nat a <= index <= Z.of_nat e)%Z /\ e <= len source
       /\ line_feeds (sub a e source) = 0
       /\ (a = 0 \/ String.get (a - 1) source = Some "010"%char)
       /\ (e = len source \/ String.get e source = Some "010"%char)
       /\ snd (getLineAndColumn source index) = (index - Z.of_nat a + 1)%Z)
  /\ (forall s, getFullLine (nl +:+ s) 0 = nl).
Proof.
  split; [exact LineFacts.getFullLine_line|].
  intros s. apply LineFacts.getFullLine_leading_feed.
Qed.

Lemma X2_witness :
  exists a e : nat,
    getFullLine ("ab" +:+ nl +:+ "cde" +:+ nl +:+ "f") 5
    = sub a e ("ab" +:+ nl +:+ "cde" +:+ nl +:+ "f")
    /\ sub a e ("ab" +:+ nl +:+ "cde" +:+ nl +:+ "f") = "cde"
    /\ snd (getLineAndColumn ("ab" +:+ nl +:+ "cde" +:+ nl +:+ "f") 5) = 3%Z.
Proof.
  destruct (proj1 X2_getFullLine_is_the_line
              ("ab" +:+ nl +:+ "cde" +:+ nl +:+ "f") 5%Z)
    as (a & e & H1 & _ & _ & _ & _ & _ & H2).
  - left. vm_compute. split; discriminate.
  - exists a, e. split; [exact H1|]. split; [rewrite <- H1|]; reflexivity.
Defined.

(** X3. For a range [start, end) inside the text, [getContext] returns
    the window from [start - size] to [end + size], cut at the two ends of
    the text: the range itself is found in the window at offset
    [min start size], and the window is at most the range and [size]
    characters on each side. *)
Theorem X3_getContext_window (source : string) (start_ end' size : nat) :
  start_ <= end' -> end' <= len source ->
  let ctx := getContext source (Z.of_nat start_) (Z.of_nat end') (Z.of_nat size) in
  ctx = sub (start_ - size) (Nat.min (len source) (end' + size)) source
  /\ sub (Nat.min start_ size) (Nat.min start_ size + (end' - start_)) ctx
     = sub start_ end' source
  /\ len ctx <= (end' - start_) + 2 * size.
Proof.
  intros H1 H2 ctx.
  assert (E : ctx = sub (start_ - size) (Nat.min (len source) (end' + size))
                      source).
  { unfold ctx, getContext.
    replace (Z.max 0 (Z.of_nat start_ - Z.of_nat size))
      with (Z.of_nat (start_ - size)) by lia.
    replace (Z.min (Z.of_nat (len source)) (Z.of_nat end' + Z.of_nat size))
      with (Z.of_nat (Nat.min (len source) (end' + size))) by lia.
    apply LocationFacts.substring_sub; lia. }
  split; [exact E|]. rewrite E. split.
  - rewrite LocationFacts.sub_sub by lia. f_equal; lia.
  - rewrite JSFacts.len_sub. lia.
Qed.

Lemma X3_witness :
  let ctx := getContext "hello world" (Z.of_nat 3) (Z.of_nat 5) (Z.of_nat 4) in
  ctx = sub (3 - 4) (Nat.min (len "hello world") (5 + 4)) "hello world"
  /\ sub (Nat.min 3 4) (Nat.min 3 4 + (5 - 3)) ctx = sub 3 5 "hello world"
  /\ len ctx <= (5 - 3) + 2 * 4.
Proof. apply (X3_getContext_window "hello world" 3 5 4); vm_compute; lia. Defined.

(** ** The two matchers *)

(** X4. The body of [TailwindClassMatcher.match], with any regular
    expression in the place of the literal [elementRegex] (whose pattern
    does not parse), returns for every source text and every options
    value, and every record it returns has scope className and one of the
    requested types (all five when [types] is not given); its property and
    type are the entry of [TAILWIND_PREFIX_MAP] for the prefix of the
    class, its path is ["className", prefix[value]], its location spans
    exactly the length of the value, at an offset above 0, with the line
    and column of [getLineAndColumn] at its start, and its context line is
    [getFullLine] at its start. *)
Theorem X4_tailwind_records_well_formed (elementRe : regex) (source : string)
  (options : MatcherOptions) :
  exists results,
    TailwindClassMatcher.match_with elementRe source options = Ok results
    /\ Forall (tailwind_record source (default all_types (types options)))
         results.
Proof.
  destruct (TailwindFacts.match_with_spec elementRe source options)
    as (results & H & _).
  exists results. split; [exact H|].
  exact (ShapeFacts.match_with_shape _ _ _ _ H).
Qed.

(** X5. [InlineStyleMatcher.match] returns for every source text and
    every options value: its loops end, and the regular expression that it
    builds from the name of a style variable always parses.  Every record
    that it returns has scope style and one of the requested types (all
    five when [types] is not given); its property is a key of
    [CSS_PROPERTY_CATEGORIES] filed under the record's type; its value is
    a trimmed, non-empty text that [isValueMatchingType] accepts for that
    type; its path is ["style", property], or [variable, "style", property]
    for a style object held in a variable; its location spans exactly the
    length of the value, with the line and column of [getLineAndColumn]
    at its start, and its context line is [getFullLine] at its start.
    When [scopeLimit] is given without the style scope, there is no
    record. *)
Theorem X5_inline_records_well_formed (source : string) (options : MatcherOptions) :
  exists results,
    InlineStyleMatcher.match_ source options = Ok results
    /\ Forall (inline_record source (default all_types (types options)))
         results
    /\ (forall limit,
          scopeLimit options = Some limit -> style ∉ limit -> results = []).
Proof.
  destruct (InlineTotal.match_total source options) as [results H].
  exists results. split; [exact H|]. split; [exact (InlineFacts.match_shape _ _ _ H)|].
  intros limit Hl Hs. unfold InlineStyleMatcher.match_ in H. rewrite Hl in H.
  rewrite bool_decide_eq_false_2 in H by exact Hs. now injection H as <-.
Qed.

Lemma X5_witness :
  exists results,
    InlineStyleMatcher.match_ Examples.style_variable_first
      {| types := None; includeContext := None; scopeLimit := Some [className];
         customPatterns := None |} = Ok results
    /\ results = [].
Proof.
  destruct (X5_inline_records_well_formed Examples.style_variable_first
              {| types := None; includeContext := None;
                 scopeLimit := Some [className]; customPatterns := None |})
    as (results & H & _ & Hl).
  exists results. split; [exact H|]. apply (Hl [className]); [reflexivity|].
  intros Hin. apply list_elem_of_singleton in Hin. discriminate Hin.
Defined.

(** X6. The location of a record of [TailwindClassMatcher.match] is
    not where its value is.  The offsets are counted from the start of the
    [className] attribute (or of the string literal) that holds the class,
    not from the start of the text inside its quotes: the value is in the
    source [shift] code units after the location, where [shift] is the
    offset of that text in the attribute, at least 11 when the source has a
    [className] attribute (the length of [className=] and the opening
    quote), and exactly 1 when
    it has none and the string literals are scanned.  This holds for any
    regular expression in the place of [elementRegex]. *)
Theorem X6_tailwind_locations_fall_short (elementRe classRe : regex)
  (source : string) (options : MatcherOptions) (results : list MatchResult)
  (r : MatchResult) :
  regexp TailwindClassMatcher.classNamePropRegex = Ok classRe ->
  TailwindClassMatcher.match_with elementRe source options = Ok results ->
  In r results ->
  exists shift,
    (if test false classRe source then 11 <= shift else shift = 1)
    /\ sub (Z.to_nat (start (location r)) + shift)
         (Z.to_nat (end_ (location r)) + shift) source
       = value r.
Proof. apply PlaceFacts.match_with_place. Qed.

Lemma X6_witness :
  exists results r shift,
    TailwindClassMatcher.match_with Examples.some_elementRegex
      Examples.colour_classes no_options = Ok results
    /\ In r results
    /\ value r = "#25C9D0"
    /\ sub (Z.to_nat (start (location r))) (Z.to_nat (end_ (location r)))
         Examples.colour_classes = "sName=" +:+ dq
    /\ 11 <= shift
    /\ sub (Z.to_nat (start (location r)) + shift)
         (Z.to_nat (end_ (location r)) + shift) Examples.colour_classes
       = value r.
Proof.
  eassert (Hc : regexp TailwindClassMatcher.classNamePropRegex = Ok _)
    by (vm_compute; reflexivity).
  eassert (Hm : TailwindClassMatcher.match_with Examples.some_elementRegex
                  Examples.colour_classes no_options = Ok (_ :: _))
    by (vm_compute; reflexivity).
  destruct (X6_tailwind_locations_fall_short _ _ _ _ _ _ Hc Hm (or_introl eq_refl)) as (shift & Hs & Hv).
  eexists _, _, shift. split; [exact Hm|]. split; [left; reflexivity|].
  split; [reflexivity|]. split; [reflexivity|]. split; [exact Hs|exact Hv].
Defined.

(** ** Colour utilities ([utils/colorUtils.ts]) *)

Import CoreTypes TokenRegistry Invariants.

(** X7. [parseColor] can fail only on the OKLCH path.  When the text
    without its white space does not start with "oklch(", the call returns
    a colour without OKLCH components.  When it does, the call either
    returns a colour with OKLCH components, or throws the error "Invalid
    OKLCH color: " followed by the text without white space, as for
    "oklch( )", or throws a TypeError, a property read on the missing
    first component, as for "oklch(,)". *)
Theorem X7_parseColor_failures (colorStr : string) :
  let cleanedStr := without_spaces colorStr in
  (startsWith "oklch(" cleanedStr = false ->
   exists r, parseColor colorStr = Ok r /\ oklch r = None)
  /\ (startsWith "oklch(" cleanedStr = true ->
      (exists r, parseColor colorStr = Ok r /\ oklch r <> None)
      \/ parseColor colorStr
         = Throw (JsError ("Invalid OKLCH color: " +:+ cleanedStr))
      \/ parseColor colorStr = Throw TypeError).
Proof.
  intros cleanedStr. rewrite OklchParse.parseColor_cleaned. cbv zeta.
  fold cleanedStr. split; intros ->.
  - destruct (startsWith "#" cleanedStr); [eexists; split; reflexivity|].
    destruct (_ || _); [eexists; split; reflexivity|].
    destruct (_ || _); eexists; split; reflexivity.
  - unfold parseOklchColor.
    destruct (regexp "oklch\(([^)]+)\)") as [re| |] eqn:H1;
      try (exfalso; vm_compute in H1; discriminate H1).
    destruct (regexp "\s+|,\s*") as [sep| |] eqn:H2;
      try (exfalso; vm_compute in H2; discriminate H2).
    cbn [obind]. destruct (exec false re cleanedStr 0); [|auto].
    destruct (filter _ _); [auto|]. left. eexists. split; [reflexivity|].
    discriminate.
Qed.

Lemma X7_witness :
  (exists r, parseColor "rgb(1, 2, 3)" = Ok r /\ oklch r = None)
  /\ parseColor "oklch(0.5 0.1"
     = Throw (JsError ("Invalid OKLCH color: " +:+ "oklch(0.50.1"))
  /\ parseColor "oklch( )" = Throw (JsError "Invalid OKLCH color: oklch()")
  /\ parseColor "oklch(,)" = Throw TypeError.
Proof.
  split.
  - apply (proj1 (X7_parseColor_failures "rgb(1, 2, 3)")). reflexivity.
  - repeat split; vm_compute; reflexivity.
Defined.

(** X8. [parseColor] does not see white space, wherever it stands:
    the result for a text is the result for the text without its white
    space, so that two texts that differ in white space only have the same
    result.  The global replacement with which [parseColor] begins removes
    every white space character. *)
Theorem X8_parseColor_ignores_white_space (colorStr : string) :
  parseColor colorStr = parseColor (without_spaces colorStr)
  /\ forall other,
       without_spaces other = without_spaces colorStr ->
       parseColor other = parseColor colorStr.
Proof.
  assert (H : forall s, without_spaces (without_spaces s) = without_spaces s).
  { induction s as [|c s IH]; cbn; [reflexivity|].
    destruct (is_space c) eqn:E; [exact IH|]. cbn. now rewrite E, IH. }
  split.
  - now rewrite !OklchParse.parseColor_cleaned, H.
  - intros other E. now rewrite !OklchParse.parseColor_cleaned, E.
Qed.

Lemma X8_witness :
  parseColor "# ff 00 7f" = parseColor "#ff007f"
  /\ exists r, parseColor "# ff 00 7f" = Ok r /\ hex r = "#ff007f".
Proof.
  split.
  - apply (proj2 (X8_parseColor_ignores_white_space "#ff007f")). reflexivity.
  - eexists. split; vm_compute; reflexivity.
Defined.

(** X9. An OKLCH colour whose components are separated by white space,
    as CSS writes them, loses its chroma and its hue.  [parseColor] removes
    the white space before it splits the components, so for a text without
    commas the components run together into one: the chroma and the hue of
    the result are NaN, there is no alpha, and the red, green and blue
    channels are equal (a grey, from the lightness that is read off the
    digits run together). *)
Theorem X9_oklch_text_loses_components (colorStr : string) (r : ColorFormats)
  (o : OKLCH) :
  comma_free colorStr -> parseColor colorStr = Ok r -> oklch r = Some o ->
  is_nan (oklch_c o) = true /\ is_nan (oklch_h o) = true /\ oklch_a o = None
  /\ rgb_r (rgb r) = rgb_g (rgb r) /\ rgb_g (rgb r) = rgb_b (rgb r).
Proof. apply OklchParse.parseColor_unbroken. Qed.

Lemma X9_witness :
  exists r o,
    parseColor "oklch(70% 0.12 200)" = Ok r /\ oklch r = Some o
    /\ is_nan (oklch_c o) = true /\ is_nan (oklch_h o) = true
    /\ oklch_a o = None
    /\ rgb_r (rgb r) = rgb_g (rgb r) /\ rgb_g (rgb r) = rgb_b (rgb r)
    /\ hex r = "#ffffff".
Proof.
  eassert (E : parseColor "oklch(70% 0.12 200)" = Ok _)
    by (vm_compute; reflexivity).
  eexists _, _. split; [exact E|]. split; [reflexivity|].
  assert (Hc : comma_free "oklch(70% 0.12 200)")
    by (repeat constructor; discriminate).
  destruct (X9_oklch_text_loses_components "oklch(70% 0.12 200)" _ _ Hc E eq_refl)
    as (H1 & H2 & H3 & H4 & H5).
  repeat split; assumption || reflexivity.
Defined.

(** X10. The three-digit form of a hex colour is the six-digit form with
    every digit doubled: for hexadecimal digits a, b, c, [parseColor] of
    "#abc" and of "#aabbcc" return the same colour; its hex text is
    "#aabbcc", in the case of the input, and each of its channels is 17
    times the value of the digit. *)
Theorem X10_parseColor_hex_shorthand (a b c : ascii) (da db dc : N) :
  digit_value 16 a = Some da -> digit_value 16 b = Some db ->
  digit_value 16 c = Some dc ->
  exists r,
    parseColor (String "#" (String a (String b (String c "")))) = Ok r
    /\ parseColor (String "#" (String a (String a (String b (String b
         (String c (String c ""))))))) = Ok r
    /\ hex r = String "#" (String a (String a (String b (String b
                 (String c (String c ""))))))
    /\ rgb r = {| rgb_r := of_Z (17 * Z.of_N da);
                  rgb_g := of_Z (17 * Z.of_N db);
                  rgb_b := of_Z (17 * Z.of_N dc);
                  rgb_a := None |}.
Proof.
  intros Ha Hb Hc.
  assert (Ha' : is_hex_digit a = true) by (unfold is_hex_digit; now rewrite Ha).
  assert (Hb' : is_hex_digit b = true) by (unfold is_hex_digit; now rewrite Hb).
  assert (Hc' : is_hex_digit c = true) by (unfold is_hex_digit; now rewrite Hc).
  destruct (regexp whitespace) as [spaces| |] eqn:Hs;
    try (vm_compute in Hs; discriminate Hs).
  eexists. split; [|split; [|split]].
  - rewrite (HexFacts.parseColor_hex spaces) by (auto; spaceless_hex).
    rewrite HexFacts.parseHexColor_short. reflexivity.
  - rewrite (HexFacts.parseColor_hex spaces) by (auto; spaceless_hex).
    reflexivity.
  - reflexivity.
  - rewrite ColorFacts.parseHexColor_six.
    rewrite (HexFacts.doubled_digit a da Ha), (HexFacts.doubled_digit b db Hb),
      (HexFacts.doubled_digit c dc Hc). reflexivity.
Qed.

Lemma X10_witness :
  exists r,
    parseColor "#f0A" = Ok r /\ parseColor "#ff00AA" = Ok r
    /\ hex r = "#ff00AA"
    /\ rgb r = {| rgb_r := of_Z (17 * Z.of_N 15);
                  rgb_g := of_Z (17 * Z.of_N 0);
                  rgb_b := of_Z (17 * Z.of_N 10);
                  rgb_a := None |}.
Proof. apply (X10_parseColor_hex_shorthand "f" "0" "A" 15 0 10); reflexivity. Defined.

(** X11. For every text of "#" and six hexadecimal digits, in either
    case, [parseColor] goes through [parseHexColor], keeps the text as the
    hex of the result, and [rgbToHex] of the channels it reads is the text
    in lower case. *)
Theorem X11_hex_text_round_trip (a1 b1 a2 b2 a3 b3 : ascii) :
  Forall (fun c => is_hex_digit c = true) [a1; b1; a2; b2; a3; b3] ->
  let h := String "#" (String a1 (String b1 (String a2 (String b2
             (String a3 (String b3 "")))))) in
  parseColor h = Ok (parseHexColor h)
  /\ hex (parseHexColor h) = h
  /\ rgbToHex (rgb (parseHexColor h)) = toLowerCase h.
Proof.
  intros H h.
  apply Forall_cons in H as [H1 H]. apply Forall_cons in H as [H2 H].
  apply Forall_cons in H as [H3 H]. apply Forall_cons in H as [H4 H].
  apply Forall_cons in H as [H5 H]. apply Forall_cons in H as [H6 _].
  destruct (regexp whitespace) as [spaces| |] eqn:Hs;
    try (vm_compute in Hs; discriminate Hs).
  split; [|split].
  - apply (HexFacts.parseColor_hex spaces); [exact Hs|]. unfold h. spaceless_hex.
  - apply HexFacts.hex_parseHexColor. reflexivity.
  - unfold h. rewrite ColorFacts.parseHexColor_six, HexFacts.rgbToHex_opaque.
    rewrite (HexFacts.all_pairs_spec _ a1 b1 HexFacts.hex_pairs_checked H1 H2).
    rewrite (HexFacts.all_pairs_spec _ a2 b2 HexFacts.hex_pairs_checked H3 H4).
    rewrite (HexFacts.all_pairs_spec _ a3 b3 HexFacts.hex_pairs_checked H5 H6).
    reflexivity.
Qed.

Lemma X11_witness :
  let h := "#1a2B3c" in
  parseColor h = Ok (parseHexColor h)
  /\ hex (parseHexColor h) = h
  /\ rgbToHex (rgb (parseHexColor h)) = toLowerCase h.
Proof.
  apply (X11_hex_text_round_trip "1" "a" "2" "B" "3" "c").
  repeat constructor.
Defined.

(** X12. For every text of "#" and eight hexadecimal digits,
    [parseColor] goes through [parseHexColor] and keeps the text as the hex
    of the result; the alpha channel is the value of the last two digits
    divided by 255; and [rgbToHex] of the channels gives the text back in
    lower case, except that for the last two digits "ff" (alpha 1) it gives
    the six-digit text: the alpha digits are written only for an alpha
    below 1. *)
Theorem X12_hex_alpha_round_trip (a1 b1 a2 b2 a3 b3 a4 b4 : ascii) :
  Forall (fun c => is_hex_digit c = true) [a1; b1; a2; b2; a3; b3; a4; b4] ->
  let h6 := String "#" (String a1 (String b1 (String a2 (String b2
              (String a3 (String b3 "")))))) in
  let h := h6 +:+ String a4 (String b4 "") in
  parseColor h = Ok (parseHexColor h)
  /\ hex (parseHexColor h) = h
  /\ rgb_a (rgb (parseHexColor h))
     = Some (parseInt (String a4 (String b4 "")) 16 / 255)%float
  /\ rgbToHex (rgb (parseHexColor h))
     = if String.eqb (toLowerCase (String a4 (String b4 ""))) "ff"
       then toLowerCase h6 else toLowerCase h.
Proof.
  intros H h6 h.
  apply Forall_cons in H as [H1 H]. apply Forall_cons in H as [H2 H].
  apply Forall_cons in H as [H3 H]. apply Forall_cons in H as [H4 H].
  apply Forall_cons in H as [H5 H]. apply Forall_cons in H as [H6 H].
  apply Forall_cons in H as [H7 H]. apply Forall_cons in H as [H8 _].
  destruct (regexp whitespace) as [spaces| |] eqn:Hs;
    try (vm_compute in Hs; discriminate Hs).
  change h with (String "#" (String a1 (String b1 (String a2 (String b2
            (String a3 (String b3 (String a4 (String b4 ""))))))))).
  split; [|split; [|split]].
  - apply (HexFacts.parseColor_hex spaces); [exact Hs|]. spaceless_hex.
  - apply HexFacts.hex_parseHexColor. reflexivity.
  - rewrite HexFacts.parseHexColor_eight. reflexivity.
  - rewrite HexFacts.parseHexColor_eight, HexFacts.rgbToHex_alpha.
    rewrite (HexFacts.all_pairs_spec _ a1 b1 HexFacts.hex_pairs_checked H1 H2).
    rewrite (HexFacts.all_pairs_spec _ a2 b2 HexFacts.hex_pairs_checked H3 H4).
    rewrite (HexFacts.all_pairs_spec _ a3 b3 HexFacts.hex_pairs_checked H5 H6).
    destruct (HexFacts.all_pairs_spec _ a4 b4 HexFacts.alpha_pairs_checked H7 H8)
      as [E1 E2].
    rewrite E1, E2. cbn [toLowerCase String.eqb].
    destruct (Ascii.eqb (lower_char a4) "f"); [|reflexivity].
    destruct (Ascii.eqb (lower_char b4) "f"); reflexivity.
Qed.

Lemma X12_witness :
  let h6 := "#1a2B3c" in
  let h := h6 +:+ "8F" in
  parseColor h = Ok (parseHexColor h)
  /\ hex (parseHexColor h) = h
  /\ rgb_a (rgb (parseHexColor h)) = Some (parseInt "8F" 16 / 255)%float
  /\ rgbToHex (rgb (parseHexColor h))
     = if String.eqb (toLowerCase "8F") "ff"
       then toLowerCase h6 else toLowerCase h.
Proof.
  apply (X12_hex_alpha_round_trip "1" "a" "2" "B" "3" "c" "8" "F").
  repeat constructor.
Defined.

(** X13. For two colours whose channels are integers from 0 to 255,
    whatever their alpha, [calculateColorDistance] is at least 0, is 0
    exactly when the three channels are equal, is the same in both
    directions, and is at most the distance of black and white.  That
    largest distance is not 1 but the next number above 1
    (1.0000000000000002), so that the similarity [1 - distance] of
    [findClosestColor] can be negative. *)
Theorem X13_color_distance_range :
  (forall (r1 g1 b1 r2 g2 b2 : Z) (a1 a2 : option number),
     (0 <= r1 <= 255)%Z -> (0 <= g1 <= 255)%Z -> (0 <= b1 <= 255)%Z ->
     (0 <= r2 <= 255)%Z -> (0 <= g2 <= 255)%Z -> (0 <= b2 <= 255)%Z ->
     let c1 := {| rgb_r := of_Z r1; rgb_g := of_Z g1; rgb_b := of_Z b1;
                  rgb_a := a1 |} in
     let c2 := {| rgb_r := of_Z r2; rgb_g := of_Z g2; rgb_b := of_Z b2;
                  rgb_a := a2 |} in
     let d := calculateColorDistance c1 c2 in
     (0 <=? d)%float = true
     /\ (d <=? largest_distance)%float = true
     /\ ((d =? 0)%float = true <-> r1 = r2 /\ g1 = g2 /\ b1 = b2)
     /\ calculateColorDistance c2 c1 = d)
  /\ calculateColorDistance
       {| rgb_r := 0; rgb_g := 0; rgb_b := 0; rgb_a := None |}
       {| rgb_r := 255; rgb_g := 255; rgb_b := 255; rgb_a := None |}
     = largest_distance
  /\ (1 <? largest_distance)%float = true.
Proof.
  split; [|split; vm_compute; reflexivity].
  intros r1 g1 b1 r2 g2 b2 a1 a2 Hr1 Hg1 Hb1 Hr2 Hg2 Hb2 c1 c2 d.
  assert (Ed : d = distance_of (square (gap (Z.to_nat r1) (Z.to_nat r2)))
                     (square (gap (Z.to_nat g1) (Z.to_nat g2)))
                     (square (gap (Z.to_nat b1) (Z.to_nat b2)))).
  { unfold d, calculateColorDistance, c1, c2. cbn [rgb_r rgb_g rgb_b].
    rewrite !DistanceFacts.sq_diff by assumption. reflexivity. }
  assert (Es : calculateColorDistance c2 c1 = d).
  { rewrite Ed. unfold calculateColorDistance, c1, c2. cbn [rgb_r rgb_g rgb_b].
    rewrite !DistanceFacts.sq_diff by assumption.
    now rewrite (DistanceFacts.gap_comm (Z.to_nat r2)),
      (DistanceFacts.gap_comm (Z.to_nat g2)),
      (DistanceFacts.gap_comm (Z.to_nat b2)). }
  pose proof (DistanceFacts.distance_checked
                (gap (Z.to_nat r1) (Z.to_nat r2))
                (gap (Z.to_nat g1) (Z.to_nat g2))
                (gap (Z.to_nat b1) (Z.to_nat b2))
                ltac:(apply DistanceFacts.gap_bound; assumption)
                ltac:(apply DistanceFacts.gap_bound; assumption)
                ltac:(apply DistanceFacts.gap_bound; assumption)) as H.
  unfold distance_ok in H. rewrite <- Ed in H.
  apply andb_true_iff in H as [H H3]. apply andb_true_iff in H as [H1 H2].
  apply Bool.eqb_prop in H3.
  split; [exact H1|]. split; [exact H2|]. split; [|exact Es].
  rewrite H3, !DistanceFacts.square_zero
    by (apply DistanceFacts.gap_bound; assumption).
  rewrite !andb_true_iff, !Nat.eqb_eq.
  rewrite !DistanceFacts.gap_zero by lia. tauto.
Qed.

Lemma X13_witness :
  let c1 := {| rgb_r := of_Z 255%Z; rgb_g := of_Z 0%Z; rgb_b := of_Z 0%Z;
               rgb_a := None |} in
  let c2 := {| rgb_r := of_Z 0%Z; rgb_g := of_Z 0%Z; rgb_b := of_Z 255%Z;
               rgb_a := Some 0.5%float |} in
  let d := calculateColorDistance c1 c2 in
  (0 <=? d)%float = true
  /\ (d <=? largest_distance)%float = true
  /\ ((d =? 0)%float = true <-> 255%Z = 0%Z /\ 0%Z = 0%Z /\ 0%Z = 255%Z)
  /\ calculateColorDistance c2 c1 = d.
Proof.
  apply (proj1 X13_color_distance_range 255%Z 0%Z 0%Z 0%Z 0%Z 255%Z None (Some 0.5%float));
    lia.
Defined.

(** X14. [findClosestColor] returns no colour and similarity 0 for an
    empty list.  For a non-empty list it returns the value of an entry of
    the list together with 1 minus the distance of that entry to the
    target, and no entry of the list is strictly nearer to the target. *)
Theorem X14_findClosestColor_nearest {T} (targetColor : RGB)
  (colors : list (RGB * T)) :
  (colors = [] -> findClosestColor targetColor colors = (None, 0%float))
  /\ (colors <> [] ->
      exists c,
        In c colors
        /\ findClosestColor targetColor colors
           = (Some (snd c),
              (1 - calculateColorDistance targetColor (fst c))%float)
        /\ forall c', In c' colors ->
             (calculateColorDistance targetColor (fst c')
              <? calculateColorDistance targetColor (fst c))%float = false).
Proof.
  split; [intros ->; reflexivity|].
  destruct colors as [|first others]; [congruence|]. intros _.
  destruct (ClosestFacts.fold_nearer
              (fun c : RGB * T => calculateColorDistance targetColor (fst c))
              others first [first])
    as (best & Hf & Hb & Hm).
  - now left.
  - intros c [<-|[]]. apply FloatFacts.ltb_irrefl.
  - exists best. split; [exact Hb|]. split; [|exact Hm].
    unfold findClosestColor.
    replace (fold_left _ others _) with (best, calculateColorDistance targetColor (fst best)).
    + reflexivity.
    + rewrite <- Hf. apply ClosestFacts.fold_left_pointwise.
      intros [cl sm] c. reflexivity.
Qed.

Lemma X14_witness :
  let target := {| rgb_r := 250; rgb_g := 10; rgb_b := 10; rgb_a := None |} in
  let colors :=
    [({| rgb_r := 0; rgb_g := 0; rgb_b := 255; rgb_a := None |}, "blue");
     ({| rgb_r := 255; rgb_g := 0; rgb_b := 0; rgb_a := None |}, "red")] in
  exists c,
    In c colors
    /\ findClosestColor target colors
       = (Some (snd c), (1 - calculateColorDistance target (fst c))%float)
    /\ forall c', In c' colors ->
         (calculateColorDistance target (fst c')
          <? calculateColorDistance target (fst c))%float = false.
Proof.
  intros target colors.
  apply (proj2 (X14_findClosestColor_nearest target colors)). discriminate.
Defined.

(** ** The token registry ([core/TokenRegistry.ts]) *)

(** X15. The outcome of [initialize] on a new registry.  With a
    non-empty [cssPath] the file is read, whatever [cssContent] is: if the
    read fails the call throws "Failed to read CSS file: " followed by the
    message of the failure.  With neither a [cssPath] nor a [cssContent]
    (absent or empty) it throws "No CSS source provided. Specify cssPath or
    cssContent.".  In the two remaining cases, a readable file or a
    [cssContent] without [cssPath], the call succeeds whatever the style
    sheet contains: the registry is initialized, keeps its options, and its
    variable table is the one that [parseCssVariables] reads from the style
    sheet. *)
Theorem X15_initialize_outcome (readFile : string -> string + string)
  (ropts : TokenRegistryOptions) :
  (forall path message,
     cssPath ropts = Some path -> path <> "" -> readFile path = inr message ->
     initialize readFile (new_ ropts)
     = Throw (JsError ("Failed to read CSS file: " +:+ message)))
  /\ (absent (cssPath ropts) -> absent (cssContent ropts) ->
      initialize readFile (new_ ropts)
      = Throw (JsError "No CSS source provided. Specify cssPath or cssContent."))
  /\ (forall path css,
        cssPath ropts = Some path -> path <> "" -> readFile path = inl css ->
        exists reg,
          initialize readFile (new_ ropts) = Ok reg /\ loaded_from css ropts reg)
  /\ (forall css,
        absent (cssPath ropts) -> cssContent ropts = Some css -> css <> "" ->
        exists reg,
          initialize readFile (new_ ropts) = Ok reg /\ loaded_from css ropts reg).
Proof.
  split; [|split; [|split]].
  - intros path message Hp Hne Hr. unfold initialize.
    cbn [initialized new_ options].
    now rewrite Hp, (InitFacts.truthy_present path Hne), Hr.
  - intros Hp Hc. unfold initialize. cbn [initialized new_ options].
    now rewrite (InitFacts.truthy_absent _ Hp), (InitFacts.truthy_absent _ Hc).
  - intros path css Hp Hne Hr. apply InitFacts.initialize_from. right.
    exists path. now rewrite Hp, (InitFacts.truthy_present path Hne).
  - intros css Hp Hc Hne. apply InitFacts.initialize_from. left.
    now rewrite (InitFacts.truthy_absent _ Hp), Hc,
      (InitFacts.truthy_present css Hne).
Qed.

Lemma X15_witness :
  exists reg,
    initialize no_files (new_ (from_content small_theme)) = Ok reg
    /\ loaded_from small_theme (from_content small_theme) reg.
Proof.
  apply (proj2 (proj2 (proj2
           (X15_initialize_outcome no_files (from_content small_theme)))) small_theme).
  - left. reflexivity.
  - reflexivity.
  - discriminate.
Defined.

(** X16. [getNameFromCssVariable] returns for every text, and what it
    returns is the text without a leading "--" and then without the first
    of the prefixes "color-", "font-", "spacing-", "border-radius-",
    "shadow-" that the rest starts with; at most one prefix is removed, and
    nothing inside the text is touched. *)
Theorem X16_getNameFromCssVariable_strips (cssVariable_ : string) :
  getNameFromCssVariable cssVariable_ = Ok (friendly_name cssVariable_).
Proof. apply NameFacts.getNameFromCssVariable_name. Qed.

(** X17. After a successful [initialize], the tokens of the colour,
    spacing, border radius and shadow categories are the entries of the
    variable table filed under that category, in the order of the table,
    each with the variable and the value of its entry.  An entry whose
    value starts with "var(" gives no token; an entry whose value is in a
    colour format is a colour whatever its variable is called, and gives a
    token when [parseColor] accepts the value; the other entries are filed
    by the first of "spacing", "border-radius", "shadow" that the variable
    contains.  The parsed value of every colour token is [parseColor] of
    its original value. *)
Theorem X17_tokens_follow_table (readFile : string -> string + string)
  (ropts : TokenRegistryOptions) (reg : TokenRegistry) :
  initialize readFile (new_ ropts) = Ok reg ->
  follows_table (cssVars reg) reg
  /\ Forall (fun t => parseColor (color_originalValue t) = Ok (color_value t))
       (colorTokens reg).
Proof.
  intros H. split; [exact (RegistryInvariants.initialize_follows _ _ _ H)|].
  eapply Forall_impl; [exact (RegistryInvariants.initialize_color_values _ _ _ H)|].
  now intros t [_ Ht].
Qed.

Lemma X17_witness :
  exists reg,
    initialize no_files (new_ (from_content small_theme)) = Ok reg
    /\ follows_table (cssVars reg) reg
    /\ Forall (fun t => parseColor (color_originalValue t) = Ok (color_value t))
         (colorTokens reg).
Proof.
  eassert (E : initialize no_files (new_ (from_content small_theme)) = Ok _)
    by (vm_compute; reflexivity).
  eexists. split; [exact E|].
  exact (X17_tokens_follow_table _ _ _ E).
Defined.

(** X18. After a successful [initialize], no variable occurs twice in
    the variable table (a later declaration of a variable replaces the
    value of the earlier one) and every variable of the table starts with
    "--"; no variable stands behind two tokens of the colour, spacing,
    border radius and shadow categories together; and no two typography
    tokens have the same name. *)
Theorem X18_registry_has_no_duplicates (readFile : string -> string + string)
  (ropts : TokenRegistryOptions) (reg : TokenRegistry) :
  initialize readFile (new_ ropts) = Ok reg ->
  NoDup (keys (cssVars reg))
  /\ Forall (fun x => startsWith "--" x = true) (keys (cssVars reg))
  /\ NoDup (keys (color_entries reg ++ spacing_entries reg
                  ++ borderRadius_entries reg ++ shadow_entries reg))
  /\ NoDup (typography_names reg).
Proof. apply LookupFacts.initialize_no_duplicates. Qed.

Lemma X18_witness :
  exists reg,
    initialize no_files (new_ (from_content small_theme)) = Ok reg
    /\ NoDup (keys (cssVars reg))
    /\ Forall (fun x => startsWith "--" x = true) (keys (cssVars reg))
    /\ NoDup (keys (color_entries reg ++ spacing_entries reg
                    ++ borderRadius_entries reg ++ shadow_entries reg))
    /\ NoDup (typography_names reg).
Proof.
  eassert (E : initialize no_files (new_ (from_content small_theme)) = Ok _)
    by (vm_compute; reflexivity).
  eexists. split; [exact E|].
  exact (X18_registry_has_no_duplicates _ _ _ E).
Defined.

(** X19. After a successful [initialize], the five counts of
    [getTokenCounts] add up to the length of [getAllTokens]; every token of
    [getTokensByCategory] has the category asked for, and there are as many
    as the count of that category says; and the registry holds at most one
    token for each variable of the table whose value is not a reference to
    another variable. *)
Theorem X19_tokens_bounded_by_variables (readFile : string -> string + string)
  (ropts : TokenRegistryOptions) (reg : TokenRegistry) :
  initialize readFile (new_ ropts) = Ok reg ->
  let n := getTokenCounts reg in
  count_color n + count_typography n + count_spacing n
  + count_borderRadius n + count_shadow n = length (getAllTokens reg)
  /\ (forall c,
        Forall (fun t => category t = c) (getTokensByCategory reg c)
        /\ length (getTokensByCategory reg c)
           = match c with
             | color => count_color n
             | typography => count_typography n
             | spacing => count_spacing n
             | borderRadius => count_borderRadius n
             | shadow => count_shadow n
             end)
  /\ length (getAllTokens reg)
     <= length (List.filter plain_value (cssVars reg))
  /\ length (List.filter plain_value (cssVars reg)) <= length (cssVars reg).
Proof.
  intros H n. split; [|split; [|split]].
  - unfold n, getTokenCounts, getAllTokens. cbn.
    rewrite !length_app, !length_fmap. lia.
  - intros c. split.
    + destruct c; cbn; apply Forall_fmap, Forall_forall; reflexivity.
    + destruct c; cbn; now rewrite length_fmap.
  - destruct (RegistryInvariants.initialize_inv _ _ _ H)
      as (css & reg1 & reg2 & H1 & H2 & -> & Hv & E1 & E2 & E3 & E4 & E5).
    rewrite Hv.
    destruct (RegistryInvariants.createTokens_loop_steps _ _ _ H2) as [_ Hl].
    { unfold typography_names. rewrite E2. constructor. }
    unfold getAllTokens in *. cbn [set_initialized colorTokens typographyTokens
      spacingTokens borderRadiusTokens shadowTokens].
    rewrite E1, E2, E3, E4, E5 in Hl. cbn in Hl. exact Hl.
  - apply List.filter_length_le.
Qed.

Lemma X19_witness :
  exists reg,
    initialize no_files (new_ (from_content small_theme)) = Ok reg
    /\ length (getAllTokens reg) = 6
    /\ length (getAllTokens reg)
       <= length (List.filter plain_value (cssVars reg)).
Proof.
  eassert (E : initialize no_files (new_ (from_content small_theme)) = Ok _)
    by (vm_compute; reflexivity).
  eexists. split; [exact E|]. split; [reflexivity|].
  exact (proj1 (proj2 (proj2 (X19_tokens_bounded_by_variables _ _ _ E)))).
Defined.

(** X20. After a successful [initialize], no token has a description.
    A colour, spacing, border radius or shadow token is named by
    [getNameFromCssVariable] of its variable, and has a Tailwind class
    exactly when the variable starts with "--color-", "--spacing-",
    "--border-radius-" or "--shadow-" respectively: the class is "text-",
    "p-", "rounded-" or "shadow-" followed by the name.  (A colour whose
    variable does not start with "--color-" has no class.)  A typography
    token has no class, and its variable is "--" followed by its name. *)
Theorem X20_tokens_are_well_named (readFile : string -> string + string)
  (ropts : TokenRegistryOptions) (reg : TokenRegistry) :
  initialize readFile (new_ ropts) = Ok reg ->
  Forall well_named (getAllTokens reg).
Proof. apply LookupFacts.initialize_well_named. Qed.

Lemma X20_witness :
  exists reg,
    initialize no_files (new_ (from_content small_theme)) = Ok reg
    /\ Forall well_named (getAllTokens reg).
Proof.
  eassert (E : initialize no_files (new_ (from_content small_theme)) = Ok _)
    by (vm_compute; reflexivity).
  eexists. split; [exact E|].
  exact (X20_tokens_are_well_named _ _ _ E).
Defined.

(** X21. After a successful [initialize], every variable of the table
    whose value is in the OKLCH format of [isColorValue] has a colour token
    with OKLCH components.  Every colour token with OKLCH components has a
    chroma and a hue that are NaN and no alpha: the components of the
    format are separated by white space, and [parseColor] removes the
    white space before it splits them.  Its red, green and blue channels
    hold one and the same number, the [grey_level] of its lightness, and
    its hex text is [rgbToHex] of these channels.  When the lightness is
    NaN the channels are NaN and the hex text is the text #NaNNaNNaN. *)
Theorem X21_oklch_tokens_keep_only_lightness (readFile : string -> string + string)
  (ropts : TokenRegistryOptions) (reg : TokenRegistry) :
  initialize readFile (new_ ropts) = Ok reg ->
  (forall k v,
     In (k, v) (cssVars reg) -> in_oklch_format v = true ->
     exists t o,
       In t (colorTokens reg) /\ cssVariable (color_base t) = k
       /\ color_originalValue t = v /\ oklch (color_value t) = Some o)
  /\ Forall (fun t =>
       forall o, oklch (color_value t) = Some o ->
         is_nan (oklch_c o) = true /\ is_nan (oklch_h o) = true
         /\ oklch_a o = None
         /\ rgb (color_value t)
            = {| rgb_r := grey_level (oklch_l o);
                 rgb_g := grey_level (oklch_l o);
                 rgb_b := grey_level (oklch_l o); rgb_a := None |}
         /\ hex (color_value t) = rgbToHex (rgb (color_value t))
         /\ (is_nan (oklch_l o) = true ->
             hex (color_value t) = "#NaNNaNNaN"))
      (colorTokens reg).
Proof.
  intros H. split.
  - intros k v. exact (OklchFormat.oklch_variable_token _ _ _ k v H).
  - eapply Forall_impl; [exact (RegistryInvariants.initialize_color_values _ _ _ H)|].
    intros t Ht o Ho.
    destruct (OklchLevel.color_checked_level t o Ht Ho) as (H1 & H2 & H3 & H4 & H5).
    repeat split; auto.
    intros Hl. rewrite H5, H4. now apply OklchLevel.level_nan.
Qed.

Lemma X21_witness :
  exists reg t1 o1 t2 o2,
    initialize no_files
      (new_ (from_content "--brand: oklch(70% 0.12 200); --odd: oklch(.. 0 0);"))
    = Ok reg
    /\ cssVars reg = [("--brand", "oklch(70% 0.12 200)"); ("--odd", "oklch(.. 0 0)")]
    /\ colorTokens reg = [t1; t2]
    /\ color_originalValue t1 = "oklch(70% 0.12 200)"
    /\ oklch (color_value t1) = Some o1
    /\ is_nan (oklch_c o1) = true /\ is_nan (oklch_h o1) = true
    /\ hex (color_value t1) = "#ffffff"
    /\ color_originalValue t2 = "oklch(.. 0 0)"
    /\ oklch (color_value t2) = Some o2
    /\ is_nan (oklch_l o2) = true
    /\ hex (color_value t2) = "#NaNNaNNaN"
    /\ (exists t o,
          In t (colorTokens reg) /\ cssVariable (color_base t) = "--odd"
          /\ color_originalValue t = "oklch(.. 0 0)"
          /\ oklch (color_value t) = Some o).
Proof.
  eassert (E : initialize no_files
                 (new_ (from_content
                    "--brand: oklch(70% 0.12 200); --odd: oklch(.. 0 0);"))
               = Ok {| colorTokens := [_; _] |})
    by (vm_compute; reflexivity).
  destruct (X21_oklch_tokens_keep_only_lightness _ _ _ E) as [H1 H2].
  cbn [colorTokens] in H2.
  apply Forall_cons in H2 as [Ha H2]. apply Forall_cons in H2 as [Hb _].
  destruct (Ha _ eq_refl) as (A1 & A2 & _).
  destruct (Hb _ eq_refl) as (_ & _ & _ & _ & _ & B).
  eexists _, _, _, _, _. split; [exact E|]. split; [reflexivity|].
  split; [reflexivity|].
  split; [reflexivity|]. split; [reflexivity|].
  split; [exact A1|]. split; [exact A2|]. split; [reflexivity|].
  split; [reflexivity|]. split; [reflexivity|]. split; [reflexivity|].
  split; [apply B; reflexivity|].
  apply (H1 "--odd" "oklch(.. 0 0)"); [right; left; reflexivity|].
  vm_compute. reflexivity.
Defined.

(** X22. After a successful [initialize], [findTokenByCssVariable]
    finds every colour, spacing, border radius and shadow token by its own
    variable: no other token of the registry has that variable before it in
    the order of [getAllTokens].  A typography token, whose variable is
    made up from its name, is found by that variable unless a colour token
    has the same variable: then the colour token is what the search
    returns, and the typography token cannot be reached by its variable. *)
Theorem X22_tokens_found_by_variable (readFile : string -> string + string)
  (ropts : TokenRegistryOptions) (reg : TokenRegistry) :
  initialize readFile (new_ ropts) = Ok reg ->
  (forall t,
     In t (getAllTokens reg) -> category t <> typography ->
     findTokenByCssVariable reg (cssVariable (base t)) = Some t)
  /\ (forall t,
        In t (typographyTokens reg) ->
        match List.find
                (fun c => String.eqb (cssVariable (color_base c))
                            (cssVariable (typography_base t)))
                (colorTokens reg) with
        | Some c =>
            findTokenByCssVariable reg (cssVariable (typography_base t))
            = Some (Color c)
        | None =>
            findTokenByCssVariable reg (cssVariable (typography_base t))
            = Some (Typography t)
        end).
Proof.
  intros H. split.
  - exact (LookupFacts.lookup_filed _ _ _ H).
  - exact (LookupFacts.lookup_typography _ _ _ H).
Qed.

Lemma X22_witness :
  exists reg c s,
    initialize no_files
      (new_ (from_content
               "--heading: #fff; --heading-font-size: 2rem; --spacing-sm: 1rem;"))
    = Ok reg
    /\ findTokenByCssVariable reg "--spacing-sm" = Some (Spacing s)
    /\ typography_vars reg = ["--heading"]
    /\ findTokenByCssVariable reg "--heading" = Some (Color c).
Proof.
  eassert (E : initialize no_files
                 (new_ (from_content
                    "--heading: #fff; --heading-font-size: 2rem; --spacing-sm: 1rem;"))
               = Ok {| colorTokens := [_]; typographyTokens := [_];
                       spacingTokens := [_] |})
    by (vm_compute; reflexivity).
  destruct (X22_tokens_found_by_variable _ _ _ E) as [H1 H2].
  pose proof (fun s Hin => H1 (Spacing s) Hin ltac:(discriminate)) as Hs.
  specialize (Hs _ (or_intror (or_intror (or_introl eq_refl)))).
  specialize (H2 _ (or_introl eq_refl)).
  eexists _, _, _. split; [exact E|].
  split; [exact Hs|]. split; [reflexivity|exact H2].
Defined.

(** X23. On an initialized registry [findClosestColorMatch] never
    throws: a text that [parseColor] rejects gives no match.  A match that
    it returns holds a colour token of the registry and the queried text as
    original value, and the text parses.  Either the token has the hex of
    the parsed text up to case and the confidence is exactly 1; or no token
    has that hex, [exact] is not set, the confidence is 1 minus the
    distance of the token to the parsed colour and is at least the
    threshold (0.85 when none is given), and no colour token of the
    registry is strictly nearer. *)
Theorem X23_findClosestColorMatch_spec (reg : TokenRegistry) (colorValue : string)
  (opts : TokenMatchOptions) :
  initialized reg = true ->
  (exists result, findClosestColorMatch reg colorValue opts = Ok result)
  /\ forall m,
       findClosestColorMatch reg colorValue opts = Ok (Some m) ->
       exists target t,
         parseColor colorValue = Ok target
         /\ token m = Color t /\ In t (colorTokens reg)
         /\ originalValue m = colorValue
         /\ ((same_hex target t = true /\ confidence m = 1%float)
             \/ (List.find (same_hex target) (colorTokens reg) = None
                 /\ default false (exact opts) = false
                 /\ confidence m = (1 - token_distance target t)%float
                 /\ (default 0.85%float (threshold opts) <=? confidence m)%float
                    = true
                 /\ forall t', In t' (colorTokens reg) ->
                      (token_distance target t' <? token_distance target t)%float
                      = false)).
Proof. apply MatchFacts.findClosestColorMatch_sound. Qed.

Lemma X23_witness :
  exists reg,
    initialize no_files (new_ (from_content small_theme)) = Ok reg
    /\ (exists result,
          findClosestColorMatch reg "oklch(" no_match_options = Ok result)
    /\ exists m target t,
         findClosestColorMatch reg "#25c9d1" no_match_options = Ok (Some m)
         /\ parseColor "#25c9d1" = Ok target
         /\ token m = Color t /\ In t (colorTokens reg)
         /\ name (color_base t) = "primary"
         /\ confidence m = (1 - token_distance target t)%float.
Proof.
  eassert (E : initialize no_files (new_ (from_content small_theme)) = Ok _)
    by (vm_compute; reflexivity).
  eexists. split; [exact E|].
  match goal with
  | |- (exists result, findClosestColorMatch ?reg _ _ = _) /\ _ =>
      assert (Hi : initialized reg = true) by reflexivity;
      eassert (Hm : findClosestColorMatch reg "#25c9d1" no_match_options
                    = Ok (Some _)) by (vm_compute; reflexivity);
      pose proof (X23_findClosestColorMatch_spec reg "oklch(" no_match_options Hi) as [H1 _];
      pose proof (proj2 (X23_findClosestColorMatch_spec reg "#25c9d1" no_match_options Hi) _ Hm)
        as (target & t & Hp & Ht & Hin & _ & Hc)
  end.
  split; [exact H1|].
  eexists _, target, t. split; [exact Hm|]. split; [exact Hp|].
  split; [exact Ht|]. split; [exact Hin|].
  destruct Hc as [[Hh _]|(_ & _ & Hc & _)].
  - exfalso. vm_compute in Hp. injection Hp as <-.
    vm_compute in Ht. injection Ht as <-.
    vm_compute in Hh. discriminate Hh.
  - split; [|exact Hc]. vm_compute in Ht. injection Ht as <-. reflexivity.
Defined.

(** X24. On an initialized registry [findBestMatch] never throws.  A
    match that it returns has the queried value as original value, holds a
    token of the registry, and that token has the category asked for when
    one is given.  A colour token is returned only for a value in a colour
    format, and then the match is the one of [findClosestColorMatch]; a
    spacing, border radius or shadow token is returned only when its value
    is the queried text, character for character, with confidence exactly
    1; a typography token is never returned. *)
Theorem X24_findBestMatch_spec (reg : TokenRegistry) (value_ : string)
  (category_ : option TokenCategory) (opts : TokenMatchOptions) :
  initialized reg = true ->
  (exists result, findBestMatch reg value_ category_ opts = Ok result)
  /\ forall m,
       findBestMatch reg value_ category_ opts = Ok (Some m) ->
       originalValue m = value_
       /\ In (token m) (getAllTokens reg)
       /\ (forall c, category_ = Some c -> category (token m) = c)
       /\ match token m with
          | Color _ =>
              isColorValue value_ = Ok true
              /\ findClosestColorMatch reg value_ opts = Ok (Some m)
          | Spacing t => spacing_value t = value_ /\ confidence m = 1%float
          | BorderRadius t =>
              borderRadius_value t = value_ /\ confidence m = 1%float
          | Shadow t => shadow_value t = value_ /\ confidence m = 1%float
          | Typography _ => False
          end.
Proof.
  intros Hi. unfold findBestMatch. rewrite Hi. cbn [negb].
  assert (Hw : forall c c', wanted category_ c = true -> category_ = Some c' ->
                 c' = c).
  { intros c c' H ->. cbn in H. now apply bool_decide_eq_true in H. }
  assert (Hcolor :
    exists cm,
      (if wanted category_ color
       then let! isColor := isColorValue value_ in
            if isColor then findClosestColorMatch reg value_ opts else Ok None
       else Ok None) = Ok cm
      /\ forall m, cm = Some m ->
           wanted category_ color = true /\ isColorValue value_ = Ok true
           /\ findClosestColorMatch reg value_ opts = Ok (Some m)).
  { destruct (wanted category_ color); [|eexists; split; [eauto|discriminate]].
    destruct (TotalFacts.isColorValue_total value_) as [b ->]. cbn [obind].
    destruct b; [|eexists; split; [eauto|discriminate]].
    destruct (proj1 (MatchFacts.findClosestColorMatch_sound reg value_ opts Hi)) as [r Hr].
    rewrite Hr. exists r. split; [reflexivity|]. intros m ->. auto. }
  destruct Hcolor as (cm & -> & Hcm). cbn [obind].
  destruct cm as [m0|].
  { split; [eauto|]. intros m [= <-].
    destruct (Hcm m0 eq_refl) as (Hwc & Hc & Hf).
    destruct (proj2 (MatchFacts.findClosestColorMatch_sound reg value_ opts Hi) m0 Hf)
      as (target & t & _ & Ht & Hin & Ho & _).
    split; [exact Ho|]. rewrite Ht. split.
    { unfold getAllTokens. apply in_or_app. left. now apply in_map. }
    split; [intros c Hc'; symmetry; eauto|]. auto. }
  destruct (wanted category_ spacing) eqn:W1;
    [destruct (List.find _ (spacingTokens reg)) as [t|] eqn:F1|].
  { split; [eauto|]. intros m [= <-]. cbn.
    apply find_some in F1 as [Hin Hv]. apply String.eqb_eq in Hv.
    split; [reflexivity|]. split.
    { unfold getAllTokens. do 2 (apply in_or_app; right).
      apply in_or_app. left. now apply in_map. }
    split; [intros c Hc'; symmetry; eauto|]. auto. }
  all: destruct (wanted category_ borderRadius) eqn:W2;
    [destruct (List.find _ (borderRadiusTokens reg)) as [t|] eqn:F2|].
  all: try (split; [eauto|]; intros m [= <-]; cbn;
    apply find_some in F2 as [Hin Hv]; apply String.eqb_eq in Hv;
    split; [reflexivity|]; split;
    [unfold getAllTokens; do 3 (apply in_or_app; right);
     apply in_or_app; left; now apply in_map|];
    split; [intros c Hc'; symmetry; eauto|]; auto; fail).
  all: destruct (wanted category_ shadow) eqn:W3;
    [destruct (List.find _ (shadowTokens reg)) as [t|] eqn:F3|].
  all: try (split; [eauto|discriminate]).
  all: split; [eauto|]; intros m [= <-]; cbn;
    apply find_some in F3 as [Hin Hv]; apply String.eqb_eq in Hv;
    (split; [reflexivity|]); split;
    [unfold getAllTokens; do 4 (apply in_or_app; right); now apply in_map|];
    (split; [intros c Hc'; symmetry; eauto|]); auto.
Qed.

Lemma X24_witness :
  exists reg m,
    initialize no_files (new_ (from_content small_theme)) = Ok reg
    /\ findBestMatch reg "1rem" (Some borderRadius) no_match_options
       = Ok (Some m)
    /\ originalValue m = "1rem"
    /\ In (token m) (getAllTokens reg)
    /\ category (token m) = borderRadius.
Proof.
  eassert (E : initialize no_files (new_ (from_content small_theme)) = Ok _)
    by (vm_compute; reflexivity).
  eexists _, _. split; [exact E|].
  match goal with
  | |- findBestMatch ?reg _ _ _ = Ok (Some ?m) /\ _ =>
      assert (Hi : initialized reg = true) by reflexivity;
      eassert (Hm : findBestMatch reg "1rem" (Some borderRadius)
                      no_match_options = Ok (Some _))
        by (vm_compute; reflexivity);
      destruct (proj2 (X24_findBestMatch_spec reg "1rem" (Some borderRadius)
                         no_match_options Hi) _ Hm) as (Ho & Hin & Hc & _)
  end.
  split; [exact Hm|]. split; [exact Ho|]. split; [exact Hin|].
  exact (Hc _ eq_refl).
Defined.

(** ** The arrays that the accessors return *)

Import Store StoreFacts.


